(** * durango-cli bridge: a shallow embedding of the bridge runtime

    The development follows the TypeScript sources of the durango CLI:
    the JSON-RPC client of the codex app-server ([CodexAppServerClient]),
    and the relay bridge ([DurangoBridge]) with its dispatch coordinator,
    event translator, hydration engine and sync bootstrap.

    Conventions of the embedding.
    - A JavaScript string is the list of its UTF-16 code units
      ([jsstring]); [lit] turns an ASCII literal into one.
    - A JavaScript number is an IEEE 754 binary64 value, given by the
      standard library's [spec_float] at precision 53 and [emax] 1024.
      Integer clocks and counters ([Date.now()], array indices) are [Z]
      and [nat].
    - A value produced by [JSON.parse] is a [Json] tree; [undefined] is
      the [None] of an option.
    - Node's [path] and [os] modules, [Date.now], [randomUUID],
      [Number.prototype.toString] and the lower case of the characters
      that are not ASCII are the fields of the class [Host]; what the
      awaited calls to the agent and the file system return are the
      fields of the class [Agent]. *)

From Stdlib Require Import ZArith NArith Lia List Bool String Ascii Sorted.
From Stdlib Require Import DecimalString.
From Stdlib Require Import Floats.SpecFloat.
From stdpp Require Import base option list gmap.

Import ListNotations.
Open Scope Z_scope.

(** ** JavaScript strings *)

Abbreviation jsstring := (list N).

Fixpoint lit (s : string) : jsstring :=
  match s with
  | EmptyString => []
  | String a r => N_of_ascii a :: lit r
  end.

Definition jsstring_eqb (a b : jsstring) : bool := bool_decide (a = b).

(** ** The host platform

    What the program takes from Node and the operating system. *)

Class Host := {
  (** [path.resolve], [path.basename], [path.join], [path.sep], [os.tmpdir()] *)
  path_resolve : jsstring -> jsstring;
  path_basename : jsstring -> jsstring;
  path_join : list jsstring -> jsstring;
  path_sep : jsstring;
  os_tmpdir : jsstring;
  (** [Number.prototype.toString] on a finite number *)
  numberToString : spec_float -> jsstring;
  (** the [n]-th identifier returned by [randomUUID()] *)
  randomUUID : nat -> jsstring;
  (** the [n]-th reading of [Date.now()], in milliseconds *)
  Date_now : nat -> Z;
  (** what [String.prototype.toLowerCase] puts in place of the code unit
      at index [i] of [s] when that unit is not ASCII: the lower case
      the Unicode tables of the engine give it there (nothing for the
      second half of a surrogate pair, whose first half stands for the
      pair) *)
  lowerNonAscii : jsstring -> nat -> jsstring
}.

(** [String.prototype.toLowerCase].  The mapping works code point by
    code point; an ASCII unit is lowered the same way wherever it
    stands ([A]..[Z] to [a]..[z], the others unchanged), and what
    stands for a unit that is not ASCII is taken from the host. *)
Definition lowerUnit (c : N) : N :=
  if ((65 <=? c) && (c <=? 90))%N then (c + 32)%N else c.

Definition toLowerCase `{Host} (s : jsstring) : jsstring :=
  concat (imap (fun i c => if (c <? 128)%N then [lowerUnit c] else lowerNonAscii s i) s).

(** White space and line terminators removed by [String.prototype.trim]. *)
Definition isWhiteSpace (c : N) : bool :=
  ((9 <=? c) && (c <=? 13) || (c =? 32) || (c =? 160) || (c =? 5760)
   || (8192 <=? c) && (c <=? 8202) || (c =? 8232) || (c =? 8233)
   || (c =? 8239) || (c =? 8287) || (c =? 12288) || (c =? 65279))%N.

Fixpoint trimStart (s : jsstring) : jsstring :=
  match s with
  | c :: r => if isWhiteSpace c then trimStart r else s
  | [] => []
  end.

Definition trimEnd (s : jsstring) : jsstring := rev (trimStart (rev s)).

Definition trim (s : jsstring) : jsstring := trimEnd (trimStart s).

Fixpoint startsWith (s p : jsstring) : bool :=
  match p, s with
  | [], _ => true
  | a :: p', b :: s' => (a =? b)%N && startsWith s' p'
  | _ :: _, [] => false
  end.

Fixpoint includes (s p : jsstring) : bool :=
  startsWith s p || match s with [] => false | _ :: r => includes r p end.

(** [a.join(sep)] on an array of strings. *)
Fixpoint join (sep : jsstring) (parts : list jsstring) : jsstring :=
  match parts with
  | [] => []
  | [p] => p
  | p :: rest => p ++ sep ++ join sep rest
  end.

(** [s.slice(0, n)] for [n >= 0]. *)
Definition slice0 (n : nat) (s : jsstring) : jsstring := firstn n s.

(** Truthiness of a string: non-empty. *)
Definition nonEmpty (s : jsstring) : bool :=
  match s with [] => false | _ => true end.

(** ** JSON values *)

#[warnings="-register-all"]
Inductive Json : Type :=
| JNull
| JBool (b : bool)
| JNumber (x : spec_float)
| JString (s : jsstring)
| JArray (elems : list Json)
| JObject (fields : list (jsstring * Json)).

(** Own property of a parsed object, first binding of the key. *)
Fixpoint lookupField (k : jsstring) (fields : list (jsstring * Json)) : option Json :=
  match fields with
  | [] => None
  | (k', v) :: rest => if jsstring_eqb k k' then Some v else lookupField k rest
  end.

(** [value.key] for a value that passed [asObject] (arrays have none of
    the named properties read by this program); [None] is [undefined]. *)
Definition prop (k : string) (j : Json) : option Json :=
  match j with
  | JObject fields => lookupField (lit k) fields
  | _ => None
  end.

(** [value?.key] on a possibly undefined or null value. *)
Definition propU (k : string) (j : option Json) : option Json :=
  match j with
  | Some v => prop k v
  | None => None
  end.

(** [asObject]: [typeof value === "object"] and not null. *)
Definition asObject (value : option Json) : option Json :=
  match value with
  | Some (JObject f) => Some (JObject f)
  | Some (JArray l) => Some (JArray l)
  | _ => None
  end.

Definition getString (value : option Json) : option jsstring :=
  match value with
  | Some (JString s) => Some s
  | _ => None
  end.

Definition isFiniteNumber (x : spec_float) : bool :=
  match x with
  | S754_zero _ | S754_finite _ _ _ => true
  | S754_infinity _ | S754_nan => false
  end.

Definition getNumber (value : option Json) : option spec_float :=
  match value with
  | Some (JNumber x) => if isFiniteNumber x then Some x else None
  | _ => None
  end.

(** [a ?? b]. *)
Definition nullish (a b : option Json) : option Json :=
  match a with
  | None | Some JNull => b
  | Some v => Some v
  end.

(** JavaScript truthiness of a parsed value. *)
Definition truthy (value : option Json) : bool :=
  match value with
  | None | Some JNull => false
  | Some (JBool b) => b
  | Some (JNumber x) =>
      match x with S754_zero _ | S754_nan => false | _ => true end
  | Some (JString s) => nonEmpty s
  | Some (JArray _) | Some (JObject _) => true
  end.

Definition isArray (value : option Json) : option (list Json) :=
  match value with
  | Some (JArray l) => Some l
  | _ => None
  end.

(** ** Status normalization *)

Inductive CommandStatus := CmdRunning | CmdCompleted | CmdFailed.

Inductive TurnLifecycle := TurnRunning | TurnCompleted | TurnFailed | TurnInterrupted.

Definition isOneOf (s : jsstring) (words : list string) : bool :=
  existsb (fun w => jsstring_eqb s (lit w)) words.

(** [DurangoBridge.mapCommandStatus]. *)
Definition mapCommandStatus `{Host} (status : option Json) : CommandStatus :=
  let normalized :=
    match getString status with
    | Some s => toLowerCase s
    | None => []
    end in
  if isOneOf normalized ["in_progress"; "inprogress"; "running"; "queued"]%string
  then CmdRunning
  else if isOneOf normalized ["completed"; "success"; "succeeded"]%string
  then CmdCompleted
  else CmdFailed.

(** [DurangoBridge.normalizeTurnLifecycleStatus]. *)
Definition normalizeTurnLifecycleStatus `{Host} (status : option Json) : option TurnLifecycle :=
  match getString status with
  | None => None
  | Some s =>
      let normalized := trim (toLowerCase s) in
      if negb (nonEmpty normalized) then None
      else if isOneOf normalized
                ["running"; "in_progress"; "inprogress"; "queued"; "pending"; "started"]%string
      then Some TurnRunning
      else if isOneOf normalized ["completed"; "complete"; "success"; "succeeded"]%string
      then Some TurnCompleted
      else if isOneOf normalized ["interrupted"; "aborted"; "cancelled"; "canceled"]%string
      then Some TurnInterrupted
      else if isOneOf normalized ["failed"; "error"; "errored"]%string
      then Some TurnFailed
      else None
  end.

(** ** Numbers: binary64 *)

Definition ofZ (n : Z) : spec_float := binary_normalize 53 1024 n 0 false.

Definition num_1000 : spec_float := Eval vm_compute in ofZ 1000.

Definition num_1e12 : spec_float := Eval vm_compute in ofZ 1000000000000.

Definition num_zero : spec_float := S754_zero false.

(** [Math.round]: integral and non-finite values are returned as they
    are; otherwise the result is [floor(x + 1/2)], with the sign of [x]
    when it is zero.  A finite value with a non-negative exponent is
    integral; with exponent [e < 0] and mantissa [m] the floor is
    [(m + 2^(-e-1)) / 2^(-e)], rounded down. *)
Definition Math_round (x : spec_float) : spec_float :=
  match x with
  | S754_finite s m e =>
      if 0 <=? e then x
      else binary_normalize 53 1024
             (Z.shiftr (cond_Zopp s (Zpos m) + 2 ^ (- e - 1)) (- e)) 0 s
  | _ => x
  end.

(** ** [JSON.stringify] on parsed values *)

Definition hexDigit (n : N) : N :=
  if (n <? 10)%N then (48 + n)%N else (87 + n)%N.

Definition unicodeEscape (c : N) : jsstring :=
  lit "\u" ++ [hexDigit (c / 4096 mod 16); hexDigit (c / 256 mod 16);
               hexDigit (c / 16 mod 16); hexDigit (c mod 16)]%N.

Definition isHighSurrogate (c : N) : bool := ((55296 <=? c) && (c <=? 56319))%N.
Definition isLowSurrogate (c : N) : bool := ((56320 <=? c) && (c <=? 57343))%N.

(** The body of [QuoteJSONString]: the two-character escapes, [\uXXXX]
    for the other control characters and for lone surrogates. *)
Fixpoint quoteUnits (s : jsstring) : jsstring :=
  match s with
  | [] => []
  | c :: rest =>
      if (c =? 34)%N then lit "\" ++ [34%N] ++ quoteUnits rest
      else if (c =? 92)%N then lit "\\" ++ quoteUnits rest
      else if (c =? 8)%N then lit "\b" ++ quoteUnits rest
      else if (c =? 12)%N then lit "\f" ++ quoteUnits rest
      else if (c =? 10)%N then lit "\n" ++ quoteUnits rest
      else if (c =? 13)%N then lit "\r" ++ quoteUnits rest
      else if (c =? 9)%N then lit "\t" ++ quoteUnits rest
      else if (c <? 32)%N then unicodeEscape c ++ quoteUnits rest
      else if isHighSurrogate c then
        match rest with
        | d :: rest' =>
            if isLowSurrogate d then c :: d :: quoteUnits rest'
            else unicodeEscape c ++ quoteUnits rest
        | [] => unicodeEscape c
        end
      else if isLowSurrogate c then unicodeEscape c ++ quoteUnits rest
      else c :: quoteUnits rest
  end.

Definition quoteJSON (s : jsstring) : jsstring := [34%N] ++ quoteUnits s ++ [34%N].

(** The fields of an object are listed in property enumeration order. *)
Fixpoint JSON_stringify `{Host} (j : Json) : jsstring :=
  match j with
  | JNull => lit "null"
  | JBool true => lit "true"
  | JBool false => lit "false"
  | JNumber x => if isFiniteNumber x then numberToString x else lit "null"
  | JString s => quoteJSON s
  | JArray elems => lit "[" ++ join (lit ",") (map JSON_stringify elems) ++ lit "]"
  | JObject fields =>
      lit "{"
      ++ join (lit ",")
           (map (fun kv => quoteJSON (fst kv) ++ lit ":" ++ JSON_stringify (snd kv)) fields)
      ++ lit "}"
  end.

(** ** Text extraction *)

(** Apply [f] to the first binding of [k], or return [absent]:
    [k in object ? f(object[k]) : absent]. *)
Definition withField {A} (k : string) (f : Json -> A) (absent : A)
  : list (jsstring * Json) -> A :=
  fix go fields :=
    match fields with
    | [] => absent
    | (k', v) :: rest => if jsstring_eqb (lit k) k' then f v else go rest
    end.

Definition stringField (k : string) (fields : list (jsstring * Json)) : option jsstring :=
  getString (lookupField (lit k) fields).

Definition newline : jsstring := [10%N].

(** [DurangoBridge.extractText]. *)
Fixpoint extractText (value : Json) : jsstring :=
  match value with
  | JString s => s
  | JArray elems =>
      join newline (List.filter nonEmpty (map trim (map extractText elems)))
  | JObject fields =>
      match stringField "text" fields with
      | Some s => s
      | None =>
      match stringField "value" fields with
      | Some s => s
      | None =>
      match stringField "delta" fields with
      | Some s => s
      | None =>
      match stringField "summaryText" fields with
      | Some s => s
      | None =>
          withField "content" extractText
            (withField "summary" extractText
               (withField "output" extractText [] fields) fields) fields
      end end end end
  | _ => []
  end.

Definition extractTextU (value : option Json) : jsstring :=
  match value with
  | Some v => extractText v
  | None => []
  end.

(** [DurangoBridge.extractSummaryLines]. *)
Fixpoint extractSummaryLines (value : Json) : list jsstring :=
  match value with
  | JArray elems =>
      List.filter nonEmpty (map trim (flat_map extractSummaryLines elems))
  | JString s =>
      let trimmed := trim s in
      if nonEmpty trimmed then [trimmed] else []
  | JObject fields =>
      match stringField "summaryText" fields with
      | Some s => [s]
      | None =>
      match stringField "text" fields with
      | Some s => [s]
      | None =>
          withField "summary" extractSummaryLines
            (withField "content" extractSummaryLines [] fields) fields
      end end
  | _ => []
  end.

Definition extractSummaryLinesU (value : option Json) : list jsstring :=
  match value with
  | Some v => extractSummaryLines v
  | None => []
  end.

(** ** Protocol types ([protocol.ts]) *)

Record DurangoThreadItemCommon := {
  item_id : jsstring;
  item_turnId : jsstring;
  item_timestamp : Z
}.

(** [DurangoThreadItem]: the six variants, each with the common fields. *)
Inductive DurangoThreadItem :=
| UserMessageItem (c : DurangoThreadItemCommon) (text : jsstring)
| AgentMessageItem (c : DurangoThreadItemCommon) (text : jsstring)
| ReasoningItem (c : DurangoThreadItemCommon) (summary : list jsstring)
| CommandExecutionItem (c : DurangoThreadItemCommon) (command cwd : jsstring)
    (status : CommandStatus) (output : option jsstring) (exitCode : option spec_float)
| FileChangeItem (c : DurangoThreadItemCommon) (path patch : jsstring)
| PlanItem (c : DurangoThreadItemCommon) (text : jsstring).

Definition itemCommon (i : DurangoThreadItem) : DurangoThreadItemCommon :=
  match i with
  | UserMessageItem c _ | AgentMessageItem c _ | ReasoningItem c _
  | CommandExecutionItem c _ _ _ _ _ | FileChangeItem c _ _ | PlanItem c _ => c
  end.

Definition timestampOf (i : DurangoThreadItem) : Z := item_timestamp (itemCommon i).

Definition isFileChange (i : DurangoThreadItem) : bool :=
  match i with FileChangeItem _ _ _ => true | _ => false end.

(** [mappedItem.type === "commandExecution" && mappedItem.status === "running"] *)
Definition isRunningCommand (i : DurangoThreadItem) : bool :=
  match i with CommandExecutionItem _ _ _ CmdRunning _ _ => true | _ => false end.

Inductive AckStatus := AckAccepted | AckRunning | AckCompleted | AckFailed.

Record ErrorEnvelope := { err_code : jsstring; err_message : jsstring }.

Record MachineDescriptor := {
  md_machineId : jsstring; md_userId : jsstring; md_hostname : jsstring;
  md_platform : jsstring; md_arch : jsstring; md_osVersion : jsstring;
  md_cliVersion : jsstring; md_codexVersion : jsstring
}.

Record ThreadRecord := {
  thr_id : jsstring; thr_projectId : jsstring; thr_codexThreadId : jsstring;
  thr_title : jsstring; thr_status : jsstring;
  thr_createdAt : spec_float; thr_updatedAt : spec_float
}.

(** [RelayClientMessage]. *)
Inductive RelayClientMessage :=
| MachineHello (token : jsstring) (machine : MachineDescriptor)
| MachineHeartbeat (machineId : jsstring) (timestamp : Z)
| DispatchAck (requestId machineId : jsstring) (status : AckStatus)
    (error : option ErrorEnvelope) (payload : option Json)
| EventUpsert (requestId machineId threadId : jsstring) (item : DurangoThreadItem)
| ThreadUpdate (machineId threadId title : jsstring)
| ThreadUpsert (machineId : jsstring) (thread : ThreadRecord).

Record DispatchAttachment := {
  att_id : jsstring; att_name : jsstring; att_mimeType : jsstring;
  att_contentBase64 : jsstring; att_isImage : bool
}.

(** The optional string-valued settings that a dispatch passes through
    to the agent unchanged. *)
Record TurnSettings := {
  ts_model : option jsstring; ts_reasoningEffort : option jsstring;
  ts_approvalPolicy : option jsstring; ts_sandbox : option jsstring
}.

(** [DispatchAction]; [requestId] and [machineId] are common to the
    five variants. *)
Inductive DispatchKind :=
| ThreadStartAction (cwd : jsstring) (prompt : jsstring)
    (attachments : option (list DispatchAttachment)) (settings : TurnSettings)
| ThreadHydrateAction (threadId codexThreadId : jsstring)
| TurnStartAction (threadId codexThreadId : jsstring) (cwd : option jsstring)
    (prompt : jsstring) (attachments : option (list DispatchAttachment))
    (settings : TurnSettings)
| ModelListAction
| TurnInterruptAction (threadId codexThreadId : jsstring).

Record DispatchAction := {
  act_requestId : jsstring;
  act_machineId : jsstring;
  act_kind : DispatchKind
}.

Record CliConfig := {
  cfg_machineId : jsstring; cfg_userId : jsstring; cfg_token : jsstring;
  cfg_relayUrl : jsstring; cfg_webUrl : jsstring
}.

Record ProjectRegistration := {
  proj_id : jsstring; proj_machineId : jsstring;
  proj_absolutePath : jsstring; proj_name : jsstring
}.

(** [CodexTurnInputItem], the variants the bridge builds. *)
Inductive CodexTurnInputItem :=
| TextInput (text : jsstring)
| LocalImageInput (path : jsstring)
| MentionInput (name path : jsstring).

(** ** The bridge state and its effects *)

Inductive ReadyState := CONNECTING | OPEN | CLOSING | CLOSED.

#[export] Instance ReadyState_eq_dec : EqDecision ReadyState.
Proof. solve_decision. Defined.

Record PendingRun := { run_requestId : jsstring; run_threadId : jsstring }.

(** The mutable fields of [DurangoBridge], and what its effects leave
    behind: [wire] holds the messages handed to [ws.send], oldest first;
    [written] the files handed to [writeFile]; [made] the directories
    handed to [mkdir]; [uuidsDrawn] and [clockReads] count the calls of
    [randomUUID] and [Date.now]. *)
Record Bridge := {
  ws : option ReadyState;
  wire : list RelayClientMessage;
  pending : gmap jsstring PendingRun;
  threadBindings : gmap jsstring jsstring;
  written : list (jsstring * jsstring);
  made : list jsstring;
  uuidsDrawn : nat;
  clockReads : nat
}.

(** A thrown value: an [Error] with its message, or anything else. *)
Inductive Thrown := ThrownError (message : jsstring) | ThrownOther.

Inductive Result (A : Type) := Ok (a : A) | Throw (e : Thrown).
Arguments Ok {A} a.
Arguments Throw {A} e.

Definition M (A : Type) : Type := Bridge -> Result A * Bridge.

#[export] Instance M_ret : MRet M := fun A a st => (Ok a, st).

#[export] Instance M_bind : MBind M := fun A B f m st =>
  match m st with
  | (Ok a, st') => f a st'
  | (Throw e, st') => (Throw e, st')
  end.

Definition throw {A} (e : Thrown) : M A := fun st => (Throw e, st).

(** [try { body } catch (error) { handler(error) }] *)
Definition tryCatch {A} (body : M A) (handler : Thrown -> M A) : M A := fun st =>
  match body st with
  | (Ok a, st') => (Ok a, st')
  | (Throw e, st') => handler e st'
  end.

Definition getState : M Bridge := fun st => (Ok st, st).

Definition modify (f : Bridge -> Bridge) : M unit := fun st => (Ok tt, f st).

Definition setWs (w : option ReadyState) (st : Bridge) : Bridge :=
  {| ws := w; wire := wire st; pending := pending st;
     threadBindings := threadBindings st; written := written st; made := made st;
     uuidsDrawn := uuidsDrawn st; clockReads := clockReads st |}.

Definition pushWire (m : RelayClientMessage) (st : Bridge) : Bridge :=
  {| ws := ws st; wire := wire st ++ [m]; pending := pending st;
     threadBindings := threadBindings st; written := written st; made := made st;
     uuidsDrawn := uuidsDrawn st; clockReads := clockReads st |}.

Definition setPending (k : jsstring) (v : PendingRun) (st : Bridge) : Bridge :=
  {| ws := ws st; wire := wire st; pending := <[k := v]> (pending st);
     threadBindings := threadBindings st; written := written st; made := made st;
     uuidsDrawn := uuidsDrawn st; clockReads := clockReads st |}.

Definition setBinding (k v : jsstring) (st : Bridge) : Bridge :=
  {| ws := ws st; wire := wire st; pending := pending st;
     threadBindings := <[k := v]> (threadBindings st);
     written := written st; made := made st;
     uuidsDrawn := uuidsDrawn st; clockReads := clockReads st |}.

Definition pushWritten (p content : jsstring) (st : Bridge) : Bridge :=
  {| ws := ws st; wire := wire st; pending := pending st;
     threadBindings := threadBindings st;
     written := written st ++ [(p, content)]; made := made st;
     uuidsDrawn := uuidsDrawn st; clockReads := clockReads st |}.

Definition pushMade (p : jsstring) (st : Bridge) : Bridge :=
  {| ws := ws st; wire := wire st; pending := pending st;
     threadBindings := threadBindings st;
     written := written st; made := made st ++ [p];
     uuidsDrawn := uuidsDrawn st; clockReads := clockReads st |}.

Definition tickUuid (st : Bridge) : Bridge :=
  {| ws := ws st; wire := wire st; pending := pending st;
     threadBindings := threadBindings st; written := written st; made := made st;
     uuidsDrawn := S (uuidsDrawn st); clockReads := clockReads st |}.

Definition tickClock (st : Bridge) : Bridge :=
  {| ws := ws st; wire := wire st; pending := pending st;
     threadBindings := threadBindings st; written := written st; made := made st;
     uuidsDrawn := uuidsDrawn st; clockReads := S (clockReads st) |}.

(** [randomUUID()] and [Date.now()]. *)
Definition newUUID `{Host} : M jsstring := fun st =>
  (Ok (randomUUID (uuidsDrawn st)), tickUuid st).

Definition dateNow `{Host} : M Z := fun st =>
  (Ok (Date_now (clockReads st)), tickClock st).

(** [DurangoBridge.send]: nothing happens unless the relay socket
    exists and is open. *)
Definition send (message : RelayClientMessage) : M unit := fun st =>
  match ws st with
  | Some OPEN => (Ok tt, pushWire message st)
  | _ => (Ok tt, st)
  end.

(** Monadic loops: [for (const x of xs) { s = body(s, x) }] and
    [xs.map(f)] with an effectful [f]. *)
Fixpoint foldM {A S : Type} (body : S -> A -> M S) (xs : list A) (s : S) : M S :=
  match xs with
  | [] => mret s
  | x :: rest => s' ← body s x; foldM body rest s'
  end.

Fixpoint mapM {A B : Type} (f : A -> M B) (xs : list A) : M (list B) :=
  match xs with
  | [] => mret []
  | x :: rest => y ← f x; ys ← mapM f rest; mret (y :: ys)
  end.

(** [String(n)] for a non-negative integer. *)
Definition natToString (n : nat) : jsstring := lit (NilZero.string_of_uint (Nat.to_uint n)).

(** ** Event translator *)

Definition orEmpty (s : option jsstring) : jsstring :=
  match s with Some x => x | None => [] end.

(** The element of [changes] at [index] in the [fileChange] branch of
    [mapCodexItem]; [None] is the [null] that the filter removes. *)
Definition mapChange (id turnId : jsstring) (timestamp : Z) (index : nat) (change : Json)
  : option DurangoThreadItem :=
  match asObject (Some change) with
  | None => None
  | Some changeObject =>
      match getString (prop "path" changeObject) with
      | None => None
      | Some path =>
          if negb (nonEmpty path) then None
          else
            let text := trim (extractTextU (nullish (prop "patch" changeObject)
                                                    (prop "diff" changeObject))) in
            let patch := if nonEmpty text then text else lit "(no patch text)" in
            Some (FileChangeItem
                    {| item_id := id ++ lit ":" ++ natToString index;
                       item_turnId := turnId; item_timestamp := timestamp |}
                    path patch)
      end
  end.

Fixpoint mapChanges (id turnId : jsstring) (timestamp : Z) (index : nat) (changes : list Json)
  : list DurangoThreadItem :=
  match changes with
  | [] => []
  | change :: rest =>
      match mapChange id turnId timestamp index change with
      | Some item => item :: mapChanges id turnId timestamp (S index) rest
      | None => mapChanges id turnId timestamp (S index) rest
      end
  end.

(** The body of [mapCodexItem] once [id] and [timestamp] are known. *)
Definition mapCodexItemBody `{Host} (id : jsstring) (item : Json) (turnId : jsstring)
    (timestamp : Z) : list DurangoThreadItem :=
  let type := toLowerCase (orEmpty (getString (prop "type" item))) in
  let c := {| item_id := id; item_turnId := turnId; item_timestamp := timestamp |} in
  if isOneOf type ["usermessage"; "user_message"]%string then
    let text := trim (extractTextU (nullish (prop "content" item) (prop "text" item))) in
    if nonEmpty text then [UserMessageItem c text] else []
  else if isOneOf type ["agentmessage"; "assistant_message"; "assistantmessage"]%string then
    let text := trim (extractTextU (nullish (prop "content" item) (prop "text" item))) in
    if nonEmpty text then [AgentMessageItem c text] else []
  else if isOneOf type ["reasoning"]%string then
    let summary := extractSummaryLinesU (nullish (prop "summary" item) (prop "content" item)) in
    match summary with
    | [] => []
    | _ => [ReasoningItem c summary]
    end
  else if isOneOf type ["commandexecution"; "command_execution"]%string then
    let command := orEmpty (getString (prop "command" item)) in
    if negb (nonEmpty command) then []
    else
      let output := trim (extractTextU (nullish (prop "aggregatedOutput" item)
                                                (prop "output" item))) in
      [CommandExecutionItem c command
         (orEmpty (getString (prop "cwd" item)))
         (mapCommandStatus (prop "status" item))
         (if nonEmpty output then Some output else None)
         (getNumber (prop "exitCode" item))]
  else if isOneOf type ["filechange"; "file_change"]%string then
    let changes := match isArray (prop "changes" item) with Some l => l | None => [] end in
    mapChanges id turnId timestamp 0 changes
  else if isOneOf type ["plan"]%string then
    let text := trim (extractTextU (nullish (prop "text" item) (prop "content" item))) in
    if nonEmpty text then [PlanItem c text] else []
  else
    [PlanItem c (JSON_stringify item)].

(** [DurangoBridge.mapCodexItem]; a [timestamp] of [None] is the omitted
    argument, whose default [Date.now()] is read on entry. *)
Definition mapCodexItem `{Host} (item : Json) (turnId : jsstring) (timestamp : option Z)
  : M (list DurangoThreadItem) :=
  timestamp ← match timestamp with Some t => mret t | None => dateNow end;
  id ← match getString (prop "id" item) with Some s => mret s | None => newUUID end;
  mret (mapCodexItemBody id item turnId timestamp).

(** ** Searching a response breadth first

    The four queue loops of the bridge ([extractThreadId],
    [extractThreadTitle], [extractTurnId],
    [extractTurnsFromThreadReadResponse]) share one shape: take the head
    of the queue, skip it unless it is an object, return when [visit]
    finds something, otherwise push [children].  [fuel] bounds the
    number of iterations; [None] means it ran out. *)
Fixpoint jsize (j : Json) : nat :=
  match j with
  | JArray elems => S (list_sum (map jsize elems))
  | JObject fields => S (list_sum (map (fun kv => jsize (snd kv)) fields))
  | _ => 1%nat
  end.

Fixpoint bfs {A : Type} (visit : Json -> option A) (children : Json -> list Json)
    (fuel : nat) (queue : list Json) : option (option A) :=
  match fuel with
  | O => None
  | S fuel' =>
      match queue with
      | [] => Some None
      | current :: rest =>
          match asObject (Some current) with
          | None => bfs visit children fuel' rest
          | Some object =>
              match visit object with
              | Some found => Some (Some found)
              | None => bfs visit children fuel' (rest ++ children object)
              end
          end
      end
  end.

(** The search from one root, with fuel for every node of the tree. *)
Definition search {A : Type} (visit : Json -> option A) (children : Json -> list Json)
    (root : option Json) : option A :=
  match root with
  | None => None
  | Some r =>
      match bfs visit children (S (jsize r)) [r] with
      | Some found => found
      | None => None
      end
  end.

(** [if (object.key) queue.push(object.key)] *)
Definition pushTruthy (k : string) (object : Json) : list Json :=
  match prop k object with
  | Some v => if truthy (Some v) then [v] else []
  | None => []
  end.

(** [if (Array.isArray(object.items)) queue.push(...object.items)] *)
Definition pushItems (object : Json) : list Json :=
  match isArray (prop "items" object) with
  | Some l => l
  | None => []
  end.

(** [DurangoBridge.extractThreadId]: [a ?? b] on two [getString]
    results, then the truthiness test. *)
Definition extractThreadId (params : option Json) : option jsstring :=
  search
    (fun object =>
       match getString (prop "threadId" object) with
       | Some s => if nonEmpty s then Some s else None
       | None =>
           match getString (prop "thread_id" object) with
           | Some s => if nonEmpty s then Some s else None
           | None => None
           end
       end)
    (fun object =>
       pushTruthy "turn" object ++ pushTruthy "item" object
       ++ pushTruthy "params" object ++ pushItems object)
    params.

(** [DurangoBridge.extractTurnId]. *)
Definition extractTurnId (params : option Json) : option jsstring :=
  search
    (fun object =>
       match getString (prop "turnId" object) with
       | Some s => if nonEmpty s then Some s else None
       | None =>
           match getString (prop "turn_id" object) with
           | Some s => if nonEmpty s then Some s else None
           | None => None
           end
       end)
    (fun object =>
       pushTruthy "turn" object ++ pushTruthy "item" object ++ pushTruthy "params" object)
    params.

(** [DurangoBridge.extractThreadTitle]. *)
Definition extractThreadTitle (params : option Json) : option jsstring :=
  search
    (fun object =>
       let title :=
         match getString (prop "title" object) with
         | Some s => Some s
         | None =>
         match getString (prop "threadTitle" object) with
         | Some s => Some s
         | None =>
         match getString (prop "thread_title" object) with
         | Some s => Some s
         | None => getString (prop "name" object)
         end end end in
       match title with
       | Some t => if nonEmpty (trim t) then Some (trim t) else None
       | None => None
       end)
    (fun object =>
       pushTruthy "thread" object ++ pushTruthy "item" object
       ++ pushTruthy "params" object ++ pushItems object)
    params.

(** ** The agent and the file system

    What the awaited calls of one handler return.  While the handler
    waits, the relay socket may close; it never reopens, since the
    bridge dials the relay once. *)

Record Outcome (A : Type) := {
  outcome_result : Result A;
  outcome_relayCloses : bool
}.
Arguments outcome_result {A} o.
Arguments outcome_relayCloses {A} o.

Class Agent := {
  agent_threadStart : jsstring -> TurnSettings -> Outcome jsstring;
  agent_turnStart : jsstring -> list CodexTurnInputItem -> TurnSettings -> Outcome unit;
  agent_threadRead : jsstring -> Outcome Json;
  agent_listModels : Outcome (list Json);
  (** [listThreads] returns the entries of the pages as they came: any
      JSON values *)
  agent_listThreads : Outcome (list Json);
  agent_turnInterrupt : jsstring -> Outcome unit;
  fs_mkdir : jsstring -> Outcome unit;
  fs_writeFile : jsstring -> jsstring -> Outcome unit
}.

Definition closeRelay (st : Bridge) : Bridge :=
  match ws st with
  | Some _ => setWs (Some CLOSED) st
  | None => st
  end.

(** [await promise] *)
Definition await {A} (o : Outcome A) : M A := fun st =>
  (outcome_result o, if outcome_relayCloses o then closeRelay st else st).

(** [CodexAppServerClient.turnStart], called with [input] and no
    [prompt]. *)
Definition codex_turnStart `{Agent} (codexThreadId : jsstring)
    (input : list CodexTurnInputItem) (settings : TurnSettings) : M unit :=
  match input with
  | [] => throw (ThrownError (lit "turn/start requires at least one input item."))
  | _ => await (agent_turnStart codexThreadId input settings)
  end.

(** ** Hydration engine *)

Definition mkTurn (id : jsstring) (items : list Json) : Json :=
  JObject [(lit "id", JString id); (lit "items", JArray items)].

(** [DurangoBridge.normalizeTurnEntries]. *)
Definition normalizeTurnEntries `{Host} (entries : list Json) : M (list Json) :=
  mapM (fun entry =>
          match asObject (Some entry) with
          | Some turn => mret turn
          | None => id ← newUUID; mret (mkTurn id [entry])
          end) entries.

(** What [extractTurnsFromThreadReadResponse] returns at the object it
    stops at, if it stops there. *)
Definition turnsAt `{Host} (object : Json) : option (M (list Json)) :=
  match isArray (prop "turns" object) with
  | Some turns => Some (normalizeTurnEntries turns)
  | None =>
      let turnsPage :=
        match asObject (prop "turnsPage" object) with
        | Some p => Some p
        | None => asObject (prop "turns_page" object)
        end in
      match isArray (propU "data" turnsPage) with
      | Some data => Some (normalizeTurnEntries data)
      | None =>
          match isArray (prop "items" object) with
          | Some items =>
              Some (id ← match getString (prop "id" object) with
                         | Some s => mret s
                         | None => newUUID
                         end;
                    mret [mkTurn id items])
          | None => None
          end
      end
  end.

(** [if (object.data && !Array.isArray(object.data)) queue.push(object.data)] *)
Definition pushData (object : Json) : list Json :=
  match prop "data" object with
  | Some (JArray _) => []
  | Some v => if truthy (Some v) then [v] else []
  | None => []
  end.

(** [DurangoBridge.extractTurnsFromThreadReadResponse].  The [seen] set
    of the source holds object identities; in a tree built by
    [JSON.parse] no object is reached twice, so the test never fires. *)
Definition extractTurnsFromThreadReadResponse `{Host} (response : option Json)
  : M (list Json) :=
  match search turnsAt
          (fun object =>
             pushTruthy "thread" object ++ pushTruthy "result" object
             ++ pushTruthy "payload" object ++ pushTruthy "response" object
             ++ pushData object)
          response with
  | Some turns => turns
  | None => mret []
  end.

(** [DurangoBridge.extractItemsFromTurn]. *)
Definition extractItemsFromTurn (turn : Json) : list Json :=
  match List.find (fun c => match isArray c with Some _ => true | None => false end)
          [prop "items" turn; prop "events" turn; prop "messages" turn;
           prop "output" turn; prop "content" turn] with
  | Some (Some (JArray l)) => l
  | _ =>
      match prop "item" turn with
      | Some v => [v]
      | None =>
          match prop "message" turn with
          | Some v => [v]
          | None => []
          end
      end
  end.

(** The candidate loop of [inferHydratedTurnLifecycleStatus]. *)
Fixpoint inferFromCandidates `{Host} (candidates : list (option Json))
    (otherwise : option TurnLifecycle) : option TurnLifecycle :=
  match candidates with
  | [] => otherwise
  | candidate :: rest =>
      match normalizeTurnLifecycleStatus candidate with
      | None => inferFromCandidates rest otherwise
      | Some TurnRunning => None
      | Some normalized => Some normalized
      end
  end.

Definition lifecycleCandidates (turn : Json) : list (option Json) :=
  [prop "status" turn;
   propU "status" (asObject (prop "result" turn));
   propU "status" (asObject (prop "turn" turn));
   propU "status" (asObject (prop "metadata" turn))].

(** [DurangoBridge.inferHydratedTurnLifecycleStatus]. *)
Definition inferHydratedTurnLifecycleStatus `{Host} (turn : Json) (importedTurnItemCount : nat)
    (hasRunningActivity : bool) : option TurnLifecycle :=
  inferFromCandidates (lifecycleCandidates turn)
    (if hasRunningActivity then None
     else if (0 <? importedTurnItemCount)%nat then Some TurnCompleted
     else None).

Definition lifecycleName (s : TurnLifecycle) : jsstring :=
  match s with
  | TurnRunning => lit "running"
  | TurnCompleted => lit "completed"
  | TurnFailed => lit "failed"
  | TurnInterrupted => lit "interrupted"
  end.

(** [JSON.stringify({ method: "turn/completed", params: { status } })] *)
Definition terminatorText `{Host} (status : TurnLifecycle) : jsstring :=
  JSON_stringify
    (JObject [(lit "method", JString (lit "turn/completed"));
              (lit "params", JObject [(lit "status", JString (lifecycleName status))])]).

(** The variables of the loops of [hydrateThreadHistory]. *)
Record Replay := {
  timestamp : Z;
  importedItemCount : nat;
  importedTurnItemCount : nat;
  hasRunningActivity : bool
}.

(** The body of the loop over [mappedItems]. *)
Definition replayMapped (cfg : CliConfig) (threadId turnId : jsstring)
    (r : Replay) (mappedItem : DurangoThreadItem) : M Replay :=
  let running := if isRunningCommand mappedItem then true else hasRunningActivity r in
  send (EventUpsert turnId (cfg_machineId cfg) threadId mappedItem);;
  mret {| timestamp := timestamp r;
          importedItemCount := S (importedItemCount r);
          importedTurnItemCount := S (importedTurnItemCount r);
          hasRunningActivity := running |}.

(** The body of the loop over [rawItems]. *)
Definition replayRaw `{Host} (cfg : CliConfig) (threadId turnId : jsstring)
    (r : Replay) (rawItem : Json) : M Replay :=
  match asObject (Some rawItem) with
  | None =>
      let text := trim (extractText rawItem) in
      let fallbackText := if nonEmpty text then text else JSON_stringify rawItem in
      if negb (nonEmpty fallbackText) then mret r
      else
        id ← newUUID;
        send (EventUpsert turnId (cfg_machineId cfg) threadId
                (PlanItem {| item_id := id; item_turnId := turnId;
                             item_timestamp := timestamp r |} fallbackText));;
        mret {| timestamp := timestamp r + 1;
                importedItemCount := S (importedItemCount r);
                importedTurnItemCount := S (importedTurnItemCount r);
                hasRunningActivity := hasRunningActivity r |}
  | Some item =>
      mappedItems ← mapCodexItem item turnId (Some (timestamp r));
      foldM (replayMapped cfg threadId turnId) mappedItems
        {| timestamp := timestamp r + 1;
           importedItemCount := importedItemCount r;
           importedTurnItemCount := importedTurnItemCount r;
           hasRunningActivity := hasRunningActivity r |}
  end.

(** The body of the loop over [turns]; the two per-turn variables start
    afresh, the timestamp and the total are carried over. *)
Definition replayTurn `{Host} (cfg : CliConfig) (threadId : jsstring)
    (carried : Z * nat) (turn : Json) : M (Z * nat) :=
  turnId ← match getString (prop "id" turn) with Some s => mret s | None => newUUID end;
  r ← foldM (replayRaw cfg threadId turnId) (extractItemsFromTurn turn)
        {| timestamp := fst carried; importedItemCount := snd carried;
           importedTurnItemCount := 0; hasRunningActivity := false |};
  match inferHydratedTurnLifecycleStatus turn (importedTurnItemCount r)
          (hasRunningActivity r) with
  | Some turnLifecycleStatus =>
      id ← newUUID;
      send (EventUpsert turnId (cfg_machineId cfg) threadId
              (PlanItem {| item_id := id; item_turnId := turnId;
                           item_timestamp := timestamp r |}
                 (terminatorText turnLifecycleStatus)));;
      mret (timestamp r + 1, S (importedItemCount r))
  | None => mret (timestamp r, importedItemCount r)
  end.

(** The first timestamp of a pass over [turns] read at time [now]:
    [Date.now() - Math.max(1, turns.length * 100)]. *)
Definition firstTimestamp (now : Z) (turns : nat) : Z :=
  now - Z.max 1 (Z.of_nat turns * 100).

(** The replay of [hydrateThreadHistory], from the response of
    [thread/read] on. *)
Definition replayResponse `{Host} (cfg : CliConfig) (threadId : jsstring) (response : Json)
  : M nat :=
  turns ← extractTurnsFromThreadReadResponse (Some response);
  now ← dateNow;
  done ← foldM (replayTurn cfg threadId) turns (firstTimestamp now (length turns), 0%nat);
  mret (snd done).

(** [DurangoBridge.hydrateThreadHistory]. *)
Definition hydrateThreadHistory `{Host} `{Agent} (cfg : CliConfig)
    (threadId codexThreadId : jsstring) : M nat :=
  response ← await (agent_threadRead codexThreadId);
  replayResponse cfg threadId response.

(** ** Forwarding agent notifications *)

Definition sendItems (cfg : CliConfig) (turnId durangoThreadId : jsstring)
    (items : list DurangoThreadItem) : M unit :=
  foldM (fun _ item => send (EventUpsert turnId (cfg_machineId cfg) durangoThreadId item))
    items tt.

(** [`Turn ended with status "${status}"${errorMessage ? `: ${errorMessage}` : ""}.`] *)
Definition turnEndedText (status : jsstring) (errorMessage : option jsstring) : jsstring :=
  lit "Turn ended with status " ++ [34%N] ++ status ++ [34%N]
  ++ match errorMessage with
     | Some m => if nonEmpty m then lit ": " ++ m else []
     | None => []
     end
  ++ lit ".".

(** [JSON.stringify({ method, params })]; an undefined [params] is left out. *)
Definition notificationText `{Host} (method : jsstring) (params : option Json) : jsstring :=
  JSON_stringify
    (JObject ((lit "method", JString method)
              :: match params with Some p => [(lit "params", p)] | None => [] end)).

(** The catch-all at the end of [forwardCodexNotification], then the
    loop that sends the items. *)
Definition emitOrFallback `{Host} (cfg : CliConfig) (method : jsstring) (params : option Json)
    (turnId durangoThreadId : jsstring) (items : list DurangoThreadItem) : M unit :=
  items ← match items with
          | [] =>
              id ← newUUID;
              now ← dateNow;
              mret [PlanItem {| item_id := id; item_turnId := turnId; item_timestamp := now |}
                      (notificationText method params)]
          | _ => mret items
          end;
  sendItems cfg turnId durangoThreadId items.

(** [DurangoBridge.forwardCodexNotification]. *)
Definition forwardCodexNotification `{Host} (cfg : CliConfig) (method : jsstring)
    (params : option Json) : M unit :=
  let lowerMethod := toLowerCase method in
  match extractThreadId params with
  | None => mret tt
  | Some codexThreadId =>
  st ← getState;
  match threadBindings st !! codexThreadId with
  | None => mret tt
  | Some durangoThreadId =>
  if negb (nonEmpty durangoThreadId) then mret tt
  else if startsWith lowerMethod (lit "thread/")
          && (includes lowerMethod (lit "updated") || includes lowerMethod (lit "renamed")
              || includes lowerMethod (lit "title"))
  then
    match extractThreadTitle params with
    | None => mret tt
    | Some title => send (ThreadUpdate (cfg_machineId cfg) durangoThreadId title)
    end
  else
    turnId ← match extractTurnId params with Some t => mret t | None => newUUID end;
    let envelope := asObject params in
    let rawItem := asObject (propU "item" envelope) in
    if jsstring_eqb lowerMethod (lit "item/started") then
      match rawItem with
      | None => mret tt
      | Some raw =>
          let type := toLowerCase (orEmpty (getString (prop "type" raw))) in
          if isOneOf type ["commandexecution"; "command_execution"]%string then
            items ← mapCodexItem raw turnId None;
            emitOrFallback cfg method params turnId durangoThreadId items
          else mret tt
      end
    else if jsstring_eqb lowerMethod (lit "item/completed") then
      items ← match rawItem with
              | Some raw => mapCodexItem raw turnId None
              | None => mret []
              end;
      emitOrFallback cfg method params turnId durangoThreadId items
    else if jsstring_eqb lowerMethod (lit "turn/completed") then
      let status :=
        match getString (propU "status" envelope) with
        | Some s => toLowerCase s
        | None => lit "completed"
        end in
      let errorMessage := getString (propU "message" (asObject (propU "error" envelope))) in
      items ← (if negb (jsstring_eqb status (lit "completed"))
                  && negb (jsstring_eqb status (lit "success"))
               then
                 id ← newUUID;
                 now ← dateNow;
                 mret [PlanItem {| item_id := id; item_turnId := turnId;
                                   item_timestamp := now |}
                         (turnEndedText status errorMessage)]
               else mret []);
      emitOrFallback cfg method params turnId durangoThreadId items
    else if jsstring_eqb lowerMethod (lit "thread/started")
            || jsstring_eqb lowerMethod (lit "turn/started")
            || includes lowerMethod (lit "delta")
            || includes lowerMethod (lit "updated")
    then mret tt
    else emitOrFallback cfg method params turnId durangoThreadId []
  end
  end.

(** ** Sync bootstrap *)

(** [DurangoBridge.makeDurangoThreadId]. *)
Definition makeDurangoThreadId (codexThreadId : jsstring) : jsstring :=
  lit "codex:" ++ codexThreadId.

(** [DurangoBridge.normalizeTimestamp]; [None] is a value that is not a
    number.  [Date.now()] is read only on the first branch. *)
Definition normalizeTimestamp `{Host} (value : option spec_float) : M spec_float :=
  match value with
  | None => now ← dateNow; mret (ofZ now)
  | Some v =>
      if negb (isFiniteNumber v) || SFleb v num_zero then now ← dateNow; mret (ofZ now)
      else mret (if SFltb v num_1e12 then Math_round (SFmul 53 1024 v num_1000)
                 else Math_round v)
  end.

(** [preview.split(/\r?\n/)]; [line] holds the current line, reversed. *)
Fixpoint splitLines (line : jsstring) (s : jsstring) : list jsstring :=
  match s with
  | [] => [rev line]
  | c :: rest =>
      if (c =? 10)%N then rev line :: splitLines [] rest
      else if (c =? 13)%N then
        match rest with
        | d :: rest' =>
            if (d =? 10)%N then rev line :: splitLines [] rest'
            else splitLines (c :: line) rest
        | [] => splitLines (c :: line) rest
        end
      else splitLines (c :: line) rest
  end.

(** [s.replace(/\s+/g, " ")]; [inRun] tells that the previous code unit
    was white space. *)
Fixpoint collapseWhiteSpace (inRun : bool) (s : jsstring) : jsstring :=
  match s with
  | [] => []
  | c :: rest =>
      if isWhiteSpace c then
        if inRun then collapseWhiteSpace true rest
        else 32%N :: collapseWhiteSpace true rest
      else c :: collapseWhiteSpace false rest
  end.

(** [DurangoBridge.titleFromPreview]. *)
Definition titleFromPreview (preview : option jsstring) : jsstring :=
  match preview with
  | None => lit "Imported Codex thread"
  | Some p =>
      if negb (nonEmpty p) then lit "Imported Codex thread"
      else
        match List.find nonEmpty (map trim (splitLines [] p)) with
        | None => lit "Imported Codex thread"
        | Some firstLine => slice0 120 (collapseWhiteSpace false firstLine)
        end
  end.

Definition isSlash (c : N) : bool := ((c =? 47) || (c =? 92))%N.

Fixpoint dropSlashes (s : jsstring) : jsstring :=
  match s with
  | c :: rest => if isSlash c then dropSlashes rest else s
  | [] => []
  end.

(** [DurangoBridge.normalizePath]: [resolved.replace(/[\\/]+$/, "")]
    unless [resolved] has at most one code unit. *)
Definition normalizePath `{Host} (input : jsstring) : jsstring :=
  let resolved := path_resolve input in
  if (length resolved <=? 1)%nat then resolved
  else rev (dropSlashes (rev resolved)).

(** [normalizedCwd === projectPath ||
     normalizedCwd.startsWith(`${projectPath}${path.sep}`)] *)
Definition withinProject `{Host} (normalizedCwd projectPath : jsstring) : bool :=
  jsstring_eqb normalizedCwd projectPath || startsWith normalizedCwd (projectPath ++ path_sep).

(** The loop of [findProjectIdForCwd] over the remaining projects, with
    its two variables. *)
Fixpoint findBest `{Host} (normalizedCwd : jsstring) (projects : list ProjectRegistration)
    (bestMatch : option ProjectRegistration) (bestPathLength : Z)
  : option ProjectRegistration :=
  match projects with
  | [] => bestMatch
  | project :: rest =>
      let projectPath := normalizePath (proj_absolutePath project) in
      if negb (withinProject normalizedCwd projectPath)
      then findBest normalizedCwd rest bestMatch bestPathLength
      else if bestPathLength <? Z.of_nat (length projectPath)
      then findBest normalizedCwd rest (Some project) (Z.of_nat (length projectPath))
      else findBest normalizedCwd rest bestMatch bestPathLength
  end.

(** [DurangoBridge.findProjectIdForCwd]. *)
Definition findProjectIdForCwd `{Host} (projects : list ProjectRegistration) (cwd : jsstring)
  : option jsstring :=
  match findBest (normalizePath cwd) projects None (-1) with
  | Some bestMatch => Some (proj_id bestMatch)
  | None => None
  end.

(** The body of the loop of [syncThreads]; the result counts the
    threads synced so far.  The entry is read without a guard:
    [appThread.id] throws a [TypeError] when the entry is [null], and
    is undefined for an entry that is not an object. *)
Definition syncThread `{Host} (cfg : CliConfig) (projects : list ProjectRegistration)
    (synced : nat) (appThread : Json) : M nat :=
  match appThread with
  | JNull => throw (ThrownError (lit "Cannot read properties of null (reading 'id')"))
  | _ =>
      match getString (prop "id" appThread), getString (prop "cwd" appThread) with
      | Some codexThreadId, Some cwd =>
          if negb (nonEmpty codexThreadId) || negb (nonEmpty cwd) then mret synced
          else
            match findProjectIdForCwd projects cwd with
            | None => mret synced
            | Some projectId =>
                if negb (nonEmpty projectId) then mret synced
                else
                  let durangoThreadId := makeDurangoThreadId codexThreadId in
                  modify (setBinding codexThreadId durangoThreadId);;
                  createdAt ← normalizeTimestamp (getNumber (prop "createdAt" appThread));
                  updatedAt ← normalizeTimestamp
                                (match getNumber (prop "updatedAt" appThread) with
                                 | Some u => Some u
                                 | None => getNumber (prop "createdAt" appThread)
                                 end);
                  send (ThreadUpsert (cfg_machineId cfg)
                          {| thr_id := durangoThreadId; thr_projectId := projectId;
                             thr_codexThreadId := codexThreadId;
                             thr_title :=
                               titleFromPreview (getString (prop "preview" appThread));
                             thr_status := lit "active";
                             thr_createdAt := createdAt; thr_updatedAt := updatedAt |});;
                  mret (S synced)
            end
      | _, _ => mret synced
      end
  end.

(** [DurangoBridge.syncThreads]; a failed [listThreads] is logged and
    ends the bootstrap. *)
Definition syncThreads `{Host} `{Agent} (cfg : CliConfig) (projects : list ProjectRegistration)
  : M unit :=
  match projects with
  | [] => mret tt
  | _ =>
      listed ← tryCatch (appThreads ← await agent_listThreads; mret (Some appThreads))
                 (fun _ => mret None);
      match listed with
      | None => mret tt
      | Some appThreads => foldM (syncThread cfg projects) appThreads 0%nat;; mret tt
      end
  end.

(** The callback installed by [startHeartbeat]. *)
Definition heartbeat `{Host} (cfg : CliConfig) : M unit :=
  now ← dateNow;
  send (MachineHeartbeat (cfg_machineId cfg) now).

(** ** Dispatch coordinator *)

Definition isSafeUnit (c : N) : bool :=
  ((97 <=? c) && (c <=? 122) || (65 <=? c) && (c <=? 90) || (48 <=? c) && (c <=? 57)
   || (c =? 46) || (c =? 95) || (c =? 45))%N.

(** [DurangoBridge.sanitizeAttachmentName]. *)
Definition sanitizeAttachmentName `{Host} (rawName : jsstring) : jsstring :=
  let baseName := path_basename (if nonEmpty rawName then rawName else lit "attachment") in
  let sanitized := map (fun c => if isSafeUnit c then c else 95%N) baseName in
  if (120 <? length sanitized)%nat then slice0 120 sanitized
  else if nonEmpty sanitized then sanitized else lit "attachment".

(** [s.padStart(width, "0")] *)
Definition padStart0 (width : nat) (s : jsstring) : jsstring :=
  repeat 48%N (width - length s) ++ s.

(** [`${String(index + 1).padStart(2, "0")}-${safeName}`] *)
Definition attachmentFileName (index : nat) (safeName : jsstring) : jsstring :=
  padStart0 2 (natToString (index + 1)) ++ lit "-" ++ safeName.

Definition mkdir `{Agent} (dir : jsstring) : M unit :=
  await (fs_mkdir dir);; modify (pushMade dir).

Definition writeFile `{Agent} (file content : jsstring) : M unit :=
  await (fs_writeFile file content);; modify (pushWritten file content).

(** The body of the loop of [materializeAttachmentInputs]; the state is
    the index of the attachment and the inputs pushed so far. *)
Definition materializeOne `{Host} `{Agent} (attachmentDir : jsstring)
    (s : nat * list CodexTurnInputItem) (attachment : DispatchAttachment)
  : M (nat * list CodexTurnInputItem) :=
  let safeName := sanitizeAttachmentName (att_name attachment) in
  let fileName := attachmentFileName (fst s) safeName in
  let absolutePath := path_join [attachmentDir; fileName] in
  writeFile absolutePath (att_contentBase64 attachment);;
  mret (S (fst s),
        snd s ++ [if att_isImage attachment then LocalImageInput absolutePath
                  else MentionInput (att_name attachment) absolutePath]).

Definition attachmentDirFor `{Host} (cwd : option jsstring) (requestId : jsstring) : jsstring :=
  let baseDir :=
    match cwd with
    | Some c => if nonEmpty c then path_resolve c else os_tmpdir
    | None => os_tmpdir
    end in
  path_join [baseDir; lit ".durango"; lit "uploads"; requestId].

(** [DurangoBridge.materializeAttachmentInputs]. *)
Definition materializeAttachmentInputs `{Host} `{Agent} (cwd : option jsstring)
    (requestId : jsstring) (attachments : option (list DispatchAttachment))
  : M (list CodexTurnInputItem) :=
  match attachments with
  | None | Some [] => mret []
  | Some attachments =>
      let attachmentDir := attachmentDirFor cwd requestId in
      mkdir attachmentDir;;
      done ← foldM (materializeOne attachmentDir) attachments (0%nat, []);
      mret (snd done)
  end.

(** [DurangoBridge.buildTurnInput]. *)
Definition buildTurnInput `{Host} `{Agent} (prompt requestId : jsstring) (cwd : option jsstring)
    (attachments : option (list DispatchAttachment)) : M (list CodexTurnInputItem) :=
  let prompt := trim prompt in
  let input := if nonEmpty prompt then [TextInput prompt] else [] in
  attachmentInputs ← materializeAttachmentInputs cwd requestId attachments;
  match input ++ attachmentInputs with
  | [] => throw (ThrownError (lit "turn/start requires prompt text or at least one attachment."))
  | input => mret input
  end.

(** [DurangoBridge.ack]. *)
Definition ack (action : DispatchAction) (status : AckStatus) (payload : option Json)
    (error : option ErrorEnvelope) : M unit :=
  send (DispatchAck (act_requestId action) (act_machineId action) status error payload).

Definition statePayload (state : string) : Json :=
  JObject [(lit "state", JString (lit state))].

(** The [try] block of [handleDispatch]. *)
Definition dispatchBody `{Host} `{Agent} (cfg : CliConfig) (action : DispatchAction) : M unit :=
  match act_kind action with
  | ThreadStartAction cwd prompt attachments settings =>
      ack action AckRunning None None;;
      thread ← await (agent_threadStart cwd settings);
      input ← buildTurnInput prompt (act_requestId action) (Some cwd) attachments;
      codex_turnStart thread input settings;;
      modify (setPending (act_requestId action)
                {| run_requestId := act_requestId action;
                   run_threadId := act_requestId action |});;
      modify (setBinding thread (act_requestId action));;
      ack action AckCompleted
        (Some (JObject [(lit "codexThreadId", JString thread);
                        (lit "state", JString (lit "started"))])) None
  | ThreadHydrateAction threadId codexThreadId =>
      ack action AckRunning None None;;
      modify (setBinding codexThreadId threadId);;
      importedItemCount ← hydrateThreadHistory cfg threadId codexThreadId;
      ack action AckCompleted
        (Some (JObject [(lit "state", JString (lit "hydrated"));
                        (lit "importedItemCount",
                         JNumber (ofZ (Z.of_nat importedItemCount)))])) None
  | TurnStartAction threadId codexThreadId cwd prompt attachments settings =>
      ack action AckRunning None None;;
      modify (setBinding codexThreadId threadId);;
      input ← buildTurnInput prompt (act_requestId action) cwd attachments;
      codex_turnStart codexThreadId input settings;;
      ack action AckCompleted (Some (statePayload "started")) None
  | ModelListAction =>
      ack action AckRunning None None;;
      models ← await agent_listModels;
      ack action AckCompleted (Some (JObject [(lit "models", JArray models)])) None
  | TurnInterruptAction threadId codexThreadId =>
      ack action AckRunning None None;;
      await (agent_turnInterrupt codexThreadId);;
      ack action AckCompleted (Some (statePayload "interrupted")) None
  end.

(** [error instanceof Error ? error.message : "Unknown app-server error"] *)
Definition thrownMessage (error : Thrown) : jsstring :=
  match error with
  | ThrownError message => message
  | ThrownOther => lit "Unknown app-server error"
  end.

(** [DurangoBridge.handleDispatch]. *)
Definition handleDispatch `{Host} `{Agent} (cfg : CliConfig) (action : DispatchAction) : M unit :=
  ack action AckAccepted None None;;
  tryCatch (dispatchBody cfg action)
    (fun error =>
       ack action AckFailed None
         (Some {| err_code := lit "APP_SERVER_ERROR";
                  err_message := thrownMessage error |})).

(** ** The JSON-RPC client of the agent: the pending-request table *)

Module CodexAppServerClient.

(** What a caller of [request] is told. *)
Inductive Settlement :=
| Resolved (result : Json)
| Rejected (message : jsstring).

(** What the client does, in program order. *)
Inductive Event :=
| EvArm (id : jsstring) (delayMs : Z)   (* setTimeout(callback, delayMs) *)
| EvSet (id : jsstring)            (* this.pending.set(id, ...) *)
| EvSend (id method : jsstring)    (* ws.send of the request frame *)
| EvDelete (id : jsstring)         (* this.pending.delete(id) *)
| EvClearTimeout (id : jsstring)   (* clearTimeout(pending.timeout) *)
| EvSettle (id : jsstring) (s : Settlement)   (* resolve or reject is called *)
| EvRefuse (method : jsstring)     (* Promise.reject: the socket is not open *)
| EvNotification (method : jsstring) (params : option Json)
| EvDisconnected.

(** The id of a frame: a string or a number. *)
Inductive RpcId := IdString (s : jsstring) | IdNumber (x : spec_float).

Record RpcError := { rpc_code : spec_float; rpc_message : jsstring }.

(** A frame that passed [JsonRpcMessageSchema]. *)
Record JsonRpcMessage := {
msg_id : option RpcId;
msg_method : option jsstring;
msg_params : option Json;
msg_result : option Json;
msg_error : option RpcError
}.

(** [pending] is the [Map] in insertion order, each id with the method
  of its request; [armed] holds the timers that are set and have
  neither fired nor been cleared, each with the id and the method
  its callback closes over; [issued] the ids
  [randomUUID] has returned to [request]; [trace] the events so far,
  oldest first. *)
Record Client := {
socketOpen : bool;
pending : list (jsstring * jsstring);
armed : list (jsstring * jsstring);
issued : list jsstring;
trace : list Event
}.

Definition initial : Client :=
{| socketOpen := true; pending := []; armed := []; issued := []; trace := [] |}.

Definition timeoutMs : Z := 30000.

(** [Map.prototype.get], [set] and [delete]. *)
Fixpoint mapGet (id : jsstring) (m : list (jsstring * jsstring)) : option jsstring :=
match m with
| [] => None
| (k, v) :: rest => if jsstring_eqb id k then Some v else mapGet id rest
end.

Fixpoint mapSet (id v : jsstring) (m : list (jsstring * jsstring))
: list (jsstring * jsstring) :=
match m with
| [] => [(id, v)]
| (k, w) :: rest => if jsstring_eqb id k then (k, v) :: rest else (k, w) :: mapSet id v rest
end.

Definition mapDelete (id : jsstring) (m : list (jsstring * jsstring))
: list (jsstring * jsstring) :=
List.filter (fun kv => negb (jsstring_eqb id (fst kv))) m.

(** [clearTimeout], or the timer firing. *)
Definition disarm (id : jsstring) (timers : list (jsstring * jsstring))
: list (jsstring * jsstring) :=
mapDelete id timers.

Definition idToString `{Host} (id : RpcId) : jsstring :=
match id with
| IdString s => s
| IdNumber x =>
    match x with
    | S754_nan => lit "NaN"
    | S754_infinity false => lit "Infinity"
    | S754_infinity true => lit "-Infinity"
    | _ => numberToString x
    end
end.

(** [CodexAppServerClient.request] with the identifier [id] drawn by
  [randomUUID]. *)
Definition request (method id : jsstring) (c : Client) : Client :=
if negb (socketOpen c) then
  {| socketOpen := socketOpen c; pending := pending c; armed := armed c;
     issued := issued c; trace := trace c ++ [EvRefuse method] |}
else
  {| socketOpen := socketOpen c;
     pending := mapSet id method (pending c);
     armed := armed c ++ [(id, method)];
     issued := issued c ++ [id];
     trace := trace c ++ [EvArm id timeoutMs; EvSet id; EvSend id method] |}.

(** The callback given to [setTimeout] by [request], run when the
  timer of [id] fires for a request of [method]. *)
Definition onTimeout (id method : jsstring) (c : Client) : Client :=
{| socketOpen := socketOpen c;
   pending := mapDelete id (pending c);
   armed := disarm id (armed c);
   issued := issued c;
   trace := trace c ++ [EvDelete id;
                        EvSettle id (Rejected (lit "Request timed out: " ++ method))] |}.

(** The ["message"] listener of [bindSocket], on a valid frame. *)
Definition onMessage `{Host} (message : JsonRpcMessage) (c : Client) : Client :=
let notification :=
  match msg_method message with
  | Some method =>
      if nonEmpty method then
        {| socketOpen := socketOpen c; pending := pending c; armed := armed c;
           issued := issued c;
           trace := trace c ++ [EvNotification method (msg_params message)] |}
      else c
  | None => c
  end in
match msg_id message with
| Some rpcId =>
    match msg_result message, msg_error message with
    | None, None => notification
    | result, error =>
        let id := idToString rpcId in
        match mapGet id (pending c) with
        | None => c
        | Some _ =>
            {| socketOpen := socketOpen c;
               pending := mapDelete id (pending c);
               armed := disarm id (armed c);
               issued := issued c;
               trace := trace c
                 ++ [EvDelete id; EvClearTimeout id;
                     EvSettle id
                       match error with
                       | Some e => Rejected (rpc_message e)
                       | None =>
                           Resolved (match result with Some r => r | None => JNull end)
                       end] |}
        end
    end
| None => notification
end.

(** The ["close"] listener of [bindSocket]. *)
Definition onClose (c : Client) : Client :=
{| socketOpen := false; pending := pending c; armed := armed c;
   issued := issued c; trace := trace c ++ [EvDisconnected] |}.

(** The loop of [stop] over the entries of the table. *)
Fixpoint rejectAll (entries : list (jsstring * jsstring)) (c : Client) : Client :=
match entries with
| [] => c
| (id, _) :: rest =>
    rejectAll rest
      {| socketOpen := socketOpen c;
         pending := mapDelete id (pending c);
         armed := disarm id (armed c);
         issued := issued c;
         trace := trace c
           ++ [EvClearTimeout id;
               EvSettle id (Rejected (lit "Client closed before response: " ++ id));
               EvDelete id] |}
end.

(** [CodexAppServerClient.stop]: every entry is rejected, then the
  socket is closed. *)
Definition stop (c : Client) : Client :=
let c' := rejectAll (pending c) c in
{| socketOpen := false; pending := pending c'; armed := armed c';
   issued := issued c'; trace := trace c' |}.

(** What can happen to a client.  A timer fires only while it is
  armed; [randomUUID] never repeats an identifier. *)
Inductive Action :=
| DoRequest (method id : jsstring)
| DoMessage (message : JsonRpcMessage)
| DoTimeout (id : jsstring)
| DoClose
| DoStop.

Definition step `{Host} (a : Action) (c : Client) : option Client :=
match a with
| DoRequest method id =>
    if existsb (jsstring_eqb id) (issued c) then None else Some (request method id c)
| DoMessage message => Some (onMessage message c)
| DoTimeout id =>
    match mapGet id (armed c) with
    | Some method => Some (onTimeout id method c)
    | None => None
    end
| DoClose => Some (onClose c)
| DoStop => Some (stop c)
end.

Fixpoint run `{Host} (actions : list Action) (c : Client) : option Client :=
match actions with
| [] => Some c
| a :: rest =>
    match step a c with
    | Some c' => run rest c'
    | None => None
    end
end.

(** The settlements of [id] in a trace, oldest first. *)
Definition settlements (id : jsstring) (t : list Event) : list Settlement :=
flat_map (fun e =>
            match e with
            | EvSettle k s => if jsstring_eqb id k then [s] else []
            | _ => []
            end) t.

Definition isPending (id : jsstring) (c : Client) : bool :=
match mapGet id (pending c) with Some _ => true | None => false end.

Definition isArmed (id : jsstring) (c : Client) : bool :=
match mapGet id (armed c) with Some _ => true | None => false end.

End CodexAppServerClient.

(** ** A host, an agent and a bridge for the examples *)

Fixpoint afterLastSlash (acc s : jsstring) : jsstring :=
  match s with
  | [] => acc
  | c :: rest => if (c =? 47)%N then afterLastSlash rest rest else afterLastSlash acc rest
  end.

#[local] Instance exampleHost : Host := {|
  path_resolve := fun p => p;
  path_basename := fun p => afterLastSlash p p;
  path_join := join (lit "/");
  path_sep := lit "/";
  os_tmpdir := lit "/tmp";
  numberToString := fun _ => lit "0";
  randomUUID := fun n => lit "uuid-" ++ natToString n;
  Date_now := fun n => 1700000000000 + Z.of_nat n;
  lowerNonAscii := fun s i => match s !! i with Some c => [c] | None => [] end
|}.

Definition answers {A} (a : A) : Outcome A :=
  {| outcome_result := Ok a; outcome_relayCloses := false |}.

Definition fails {A} (message : string) : Outcome A :=
  {| outcome_result := Throw (ThrownError (lit message)); outcome_relayCloses := false |}.

Definition exampleThread (cwd : string) : Json :=
  JObject [(lit "id", JString (lit "t-" ++ lit cwd)); (lit "cwd", JString (lit cwd))].

(** An agent whose [thread/read] returns one turn with a file change
    of two files, and whose [turn/interrupt] fails. *)
#[local] Instance exampleAgent : Agent := {|
  agent_threadStart := fun _ _ => answers (lit "thread-1");
  agent_turnStart := fun _ _ _ => answers tt;
  agent_threadRead := fun _ =>
    answers
      (JObject [(lit "thread",
                 JObject [(lit "turns",
                           JArray [JObject [(lit "id", JString (lit "turn-1"));
                                            (lit "items",
                                             JArray [JObject
                                                       [(lit "type", JString (lit "fileChange"));
                                                        (lit "id", JString (lit "fc"));
                                                        (lit "changes",
                                                         JArray
                                                           [JObject [(lit "path", JString (lit "a.txt"))];
                                                            JObject [(lit "path", JString (lit "b.txt"))]])]])]])])]);
  agent_listModels := answers [];
  agent_listThreads := answers [exampleThread "/a/b/c"; exampleThread "/a/x"; exampleThread "/other"];
  agent_turnInterrupt := fun _ => fails "no such turn";
  fs_mkdir := fun _ => answers tt;
  fs_writeFile := fun _ _ => answers tt
|}.

Definition exampleConfig : CliConfig :=
  {| cfg_machineId := lit "machine-test"; cfg_userId := lit "user-test";
     cfg_token := lit "token-test"; cfg_relayUrl := lit "http://localhost:8788";
     cfg_webUrl := lit "http://localhost:3000" |}.

Definition freshBridge (socket : option ReadyState) : Bridge :=
  {| ws := socket; wire := []; pending := ∅; threadBindings := ∅;
     written := []; made := []; uuidsDrawn := 0; clockReads := 0 |}.

Definition exampleAction (kind : DispatchKind) : DispatchAction :=
  {| act_requestId := lit "req-1"; act_machineId := lit "machine-test"; act_kind := kind |}.

(** * Properties *)

(** ** Strings *)

Lemma jsstring_eqb_true (a b : jsstring) : jsstring_eqb a b = true <-> a = b.
Proof. unfold jsstring_eqb. apply bool_decide_eq_true. Qed.

Lemma jsstring_eqb_false (a b : jsstring) : jsstring_eqb a b = false <-> a <> b.
Proof. unfold jsstring_eqb. apply bool_decide_eq_false. Qed.

Lemma jsstring_eqb_refl (a : jsstring) : jsstring_eqb a a = true.
Proof. by apply jsstring_eqb_true. Qed.

Lemma isOneOf_In (s : jsstring) (words : list string) :
  isOneOf s words = true <-> In s (map lit words).
Proof.
  unfold isOneOf. rewrite existsb_exists. split.
  - intros (w & Hw & Heq). apply jsstring_eqb_true in Heq. subst s.
    by apply in_map.
  - intros Hin. apply in_map_iff in Hin as (w & <- & Hw).
    exists w. split; [done | apply jsstring_eqb_refl].
Qed.

Lemma isOneOf_not_In (s : jsstring) (words : list string) :
  isOneOf s words = false <-> ~ In s (map lit words).
Proof.
  rewrite <- isOneOf_In. destruct (isOneOf s words); split; intros; congruence.
Qed.

(** ** Status normalization *)

(** The table of the specification, on a lower-cased status. *)
Definition specStatusTable (w : jsstring) : option TurnLifecycle :=
  if isOneOf w ["in_progress"; "inprogress"; "running"; "queued"]%string then Some TurnRunning
  else if isOneOf w ["completed"; "complete"; "success"; "succeeded"]%string
  then Some TurnCompleted
  else if isOneOf w ["cancelled"; "canceled"; "aborted"; "interrupted"]%string
  then Some TurnInterrupted
  else if isOneOf w ["failed"; "error"; "errored"]%string then Some TurnFailed
  else None.

(** A command status among the four states of the table. *)
Definition commandLifecycle (c : CommandStatus) : TurnLifecycle :=
  match c with
  | CmdRunning => TurnRunning
  | CmdCompleted => TurnCompleted
  | CmdFailed => TurnFailed
  end.

Definition runningWords : list string :=
  ["in_progress"; "inprogress"; "running"; "queued"]%string.
Definition interruptedWords : list string :=
  ["cancelled"; "canceled"; "aborted"; "interrupted"]%string.
Definition failedWords : list string := ["failed"; "error"; "errored"]%string.

Example mapCommandStatus_upper :
  mapCommandStatus (Some (JString (lit "In_Progress"))) = CmdRunning.
Proof. reflexivity. Qed.

Example mapCommandStatus_complete :
  mapCommandStatus (Some (JString (lit "complete"))) = CmdFailed.
Proof. reflexivity. Qed.

Example normalizeTurn_padded :
  normalizeTurnLifecycleStatus (Some (JString (lit " Canceled "))) = Some TurnInterrupted.
Proof. reflexivity. Qed.

Example normalizeTurn_not_a_string :
  normalizeTurnLifecycleStatus (Some (JBool true)) = None
  /\ mapCommandStatus (Some JNull) = CmdFailed /\ mapCommandStatus None = CmdFailed.
Proof. by repeat split. Qed.

(** C5, the claim as stated fails: the table sends [cancelled] to
    interrupted, and a command status of [cancelled] is normalized to
    failed (a command has no interrupted state). *)
Lemma status_normalization_counterexample :
  Some (commandLifecycle (mapCommandStatus (Some (JString (lit "cancelled")))))
  <> specStatusTable (toLowerCase (lit "cancelled")).
Proof. vm_compute. discriminate. Qed.

(** The same for a turn status: [pending] is not in the table, and is
    normalized to running. *)
Lemma turn_status_pending :
  normalizeTurnLifecycleStatus (Some (JString (lit "pending"))) = Some TurnRunning
  /\ specStatusTable (toLowerCase (lit "pending")) = None.
Proof. by split. Qed.

Ltac word_cases H :=
  simpl in H;
  repeat (destruct H as [H | H]; [symmetry in H | ]); try contradiction.

(** C5, amended.  With [c] the lower-cased status, a command status is
    running for in_progress, inprogress, running, queued; completed for
    completed, success, succeeded; and failed for every other string
    apart from complete (about which nothing is said here), among them
    cancelled, canceled, aborted, interrupted, failed, error, errored.
    With [t] the lower-cased and trimmed status, a turn status is
    running for running, in_progress, inprogress, queued, pending,
    started; completed for completed, complete, success, succeeded;
    interrupted for interrupted, aborted, cancelled, canceled; failed
    for failed, error, errored; and null for every other string. *)
Theorem status_normalization {host : Host} (s : jsstring) :
  let c := toLowerCase s in
  let t := trim (toLowerCase s) in
  let command := mapCommandStatus (Some (JString s)) in
  let turn := normalizeTurnLifecycleStatus (Some (JString s)) in
  (In c (map lit runningWords) -> command = CmdRunning)
  /\ (In c (map lit ["completed"; "success"; "succeeded"]%string) -> command = CmdCompleted)
  /\ (~ In c (map lit (runningWords ++ ["completed"; "complete"; "success"; "succeeded"]%string))
      -> command = CmdFailed)
  /\ (In t (map lit (runningWords ++ ["pending"; "started"]%string)) -> turn = Some TurnRunning)
  /\ (In t (map lit ["completed"; "complete"; "success"; "succeeded"]%string)
      -> turn = Some TurnCompleted)
  /\ (In t (map lit interruptedWords) -> turn = Some TurnInterrupted)
  /\ (In t (map lit failedWords) -> turn = Some TurnFailed)
  /\ (~ In t (map lit (runningWords ++ ["pending"; "started"; "completed"; "complete";
                                        "success"; "succeeded"]%string
                       ++ interruptedWords ++ failedWords))
      -> turn = None).
Proof.
  intros c t command turn.
  subst command turn. unfold mapCommandStatus, normalizeTurnLifecycleStatus.
  cbn [getString]. cbv zeta. fold t. fold c.
  repeat split.
  - intros H. word_cases H; by rewrite H.
  - intros H. word_cases H; by rewrite H.
  - intros H.
    assert (H1 : isOneOf c ["in_progress"; "inprogress"; "running"; "queued"]%string = false).
    { apply isOneOf_not_In. intros Hin. apply H. rewrite map_app, in_app_iff. by left. }
    assert (H2 : isOneOf c ["completed"; "success"; "succeeded"]%string = false).
    { apply isOneOf_not_In. intros Hin. apply H. rewrite map_app, in_app_iff. right.
      simpl in *. tauto. }
    by rewrite H1, H2.
  - intros H. word_cases H; by rewrite H.
  - intros H. word_cases H; by rewrite H.
  - intros H. word_cases H; by rewrite H.
  - intros H. word_cases H; by rewrite H.
  - intros H.
    destruct (nonEmpty t); [ | done ]. cbn [negb].
    repeat match goal with
    | |- context [isOneOf t ?ws] =>
        let E := fresh "E" in
        assert (E : isOneOf t ws = false);
        [ apply isOneOf_not_In; intros Hin; apply H;
          rewrite ?map_app, ?in_app_iff; simpl in *; tauto
        | rewrite E ]
    end.
    done.
Qed.

(** The theorem at [Queued], [SUCCESS], [Cancelled], [ Started ],
    [complete], [aborted], [Errored] and [paused]. *)
Lemma status_normalization_witness :
  mapCommandStatus (Some (JString (lit "Queued"))) = CmdRunning
  /\ mapCommandStatus (Some (JString (lit "SUCCESS"))) = CmdCompleted
  /\ mapCommandStatus (Some (JString (lit "Cancelled"))) = CmdFailed
  /\ normalizeTurnLifecycleStatus (Some (JString (lit " Started "))) = Some TurnRunning
  /\ normalizeTurnLifecycleStatus (Some (JString (lit "complete"))) = Some TurnCompleted
  /\ normalizeTurnLifecycleStatus (Some (JString (lit "aborted"))) = Some TurnInterrupted
  /\ normalizeTurnLifecycleStatus (Some (JString (lit "Errored"))) = Some TurnFailed
  /\ normalizeTurnLifecycleStatus (Some (JString (lit "paused"))) = None.
Proof.
  split; [ apply (status_normalization (lit "Queued")); vm_compute; tauto | ].
  split; [ apply (status_normalization (lit "SUCCESS")); vm_compute; tauto | ].
  split.
  { apply (status_normalization (lit "Cancelled")). vm_compute.
    intros H. repeat (destruct H as [H | H]; [discriminate H | ]). exact H. }
  split; [ apply (status_normalization (lit " Started ")); vm_compute; tauto | ].
  split; [ apply (status_normalization (lit "complete")); vm_compute; tauto | ].
  split; [ apply (status_normalization (lit "aborted")); vm_compute; tauto | ].
  split; [ apply (status_normalization (lit "Errored")); vm_compute; tauto | ].
  apply (status_normalization (lit "paused")). vm_compute.
  intros H. repeat (destruct H as [H | H]; [discriminate H | ]). exact H.
Defined.

(** ** The searches have fuel enough

    A queue loop takes one value off the queue in every iteration and
    pushes values held by distinct properties of the object it took, so
    it ends within as many iterations as the root has nodes. *)

Definition weight (queue : list Json) : nat := list_sum (map jsize queue).

(** The size of the value of the property [k], [0] when there is none. *)
Definition held (fields : list (jsstring * Json)) (k : jsstring) : nat :=
  match lookupField k fields with
  | Some v => jsize v
  | None => 0
  end.

Lemma list_sum_cons (n : nat) (l : list nat) : list_sum (n :: l) = (n + list_sum l)%nat.
Proof. reflexivity. Qed.

Lemma weight_app (q1 q2 : list Json) : weight (q1 ++ q2) = (weight q1 + weight q2)%nat.
Proof. unfold weight. by rewrite map_app, list_sum_app. Qed.

Lemma jsize_pos (j : Json) : (0 < jsize j)%nat.
Proof. destruct j; cbn; lia. Qed.

Lemma asObject_same (current object : Json) :
  asObject (Some current) = Some object -> object = current.
Proof. destruct current; cbn; congruence. Qed.

Lemma bfs_enough {A} (visit : Json -> option A) (children : Json -> list Json) :
  (forall object, (weight (children object) < jsize object)%nat) ->
  forall fuel queue, (weight queue < fuel)%nat -> bfs visit children fuel queue <> None.
Proof.
  intros Hchildren. induction fuel as [ | fuel IH]; intros queue Hfuel; [ lia | ].
  cbn [bfs]. destruct queue as [ | current rest]; [ done | ].
  change (weight (current :: rest)) with (jsize current + weight rest)%nat in Hfuel.
  pose proof (jsize_pos current) as Hpos.
  destruct (asObject (Some current)) as [object | ] eqn:Eobject; [ | apply IH; lia ].
  apply asObject_same in Eobject as ->.
  destruct (visit current); [ done | ].
  apply IH. rewrite weight_app. specialize (Hchildren current). lia.
Qed.

Lemma search_enough {A} (visit : Json -> option A) (children : Json -> list Json)
    (root : Json) :
  (forall object, (weight (children object) < jsize object)%nat) ->
  exists found,
    bfs visit children (S (jsize root)) [root] = Some found
    /\ search visit children (Some root) = found.
Proof.
  intros Hchildren. unfold search.
  pose proof (bfs_enough visit children Hchildren (S (jsize root)) [root]) as Hsome.
  destruct (bfs visit children (S (jsize root)) [root]) as [found | ].
  - by exists found.
  - exfalso. apply Hsome; [ | done ]. unfold weight. cbn. lia.
Qed.

Lemma held_one (k' : jsstring) (a : nat) (f : jsstring -> nat) (keys : list jsstring) :
  NoDup keys ->
  (list_sum (map (fun k => if jsstring_eqb k k' then a else f k) keys)
   <= a + list_sum (map f keys))%nat.
Proof.
  induction 1 as [ | k keys Hfresh Hkeys IH]; cbn [map]; rewrite ?list_sum_cons;
    [ cbn; lia | ].
  destruct (jsstring_eqb k k') eqn:Ek; [ | lia ].
  apply jsstring_eqb_true in Ek as ->.
  enough (Hrest : list_sum (map (fun k => if jsstring_eqb k k' then a else f k) keys)
                  = list_sum (map f keys)) by lia.
  f_equal. apply map_ext_in. intros k Hk.
  destruct (jsstring_eqb k k') eqn:Ek; [ | done ].
  apply jsstring_eqb_true in Ek as ->. by apply list_elem_of_In in Hk.
Qed.

Lemma held_distinct (fields : list (jsstring * Json)) (keys : list jsstring) :
  NoDup keys ->
  (list_sum (map (held fields) keys) < jsize (JObject fields))%nat.
Proof.
  intros Hkeys. cbn [jsize]. apply Nat.lt_succ_r.
  induction fields as [ | [k' v] rest IH].
  - cbn. induction keys; cbn; [ lia | ]. apply IHkeys. by inversion Hkeys.
  - cbn [map snd]. rewrite list_sum_cons.
    etransitivity; [ | apply Nat.add_le_mono_l, IH ].
    etransitivity; [ | apply (held_one k' (jsize v) (held rest) keys Hkeys) ].
    apply Nat.eq_le_incl. f_equal. apply map_ext. intros k.
    unfold held. cbn [lookupField]. by destruct (jsstring_eqb k k').
Qed.

Lemma pushTruthy_held (k : string) (fields : list (jsstring * Json)) :
  (weight (pushTruthy k (JObject fields)) <= held fields (lit k))%nat.
Proof.
  unfold pushTruthy, held, prop. destruct (lookupField (lit k) fields) as [v | ]; [ | done ].
  destruct (truthy (Some v)); unfold weight; cbn; lia.
Qed.

Lemma pushItems_held (fields : list (jsstring * Json)) :
  (weight (pushItems (JObject fields)) <= held fields (lit "items"))%nat.
Proof.
  unfold pushItems, held, prop.
  destruct (lookupField (lit "items") fields) as [v | ]; [ | done ].
  destruct v; cbn [isArray jsize]; unfold weight; cbn [map list_sum]; try lia.
  all: cbn; lia.
Qed.

Lemma pushData_held (fields : list (jsstring * Json)) :
  (weight (pushData (JObject fields)) <= held fields (lit "data"))%nat.
Proof.
  unfold pushData, held, prop.
  destruct (lookupField (lit "data") fields) as [v | ]; [ | done ].
  destruct v; cbn [truthy]; unfold weight;
    repeat match goal with |- context [if ?b then _ else _] => destruct b end;
    cbn; lia.
Qed.

(** The children of an object weigh less than the object when they are
    bounded by what distinct properties hold. *)
Lemma children_lighter (children : Json -> list Json) (keys : list jsstring) :
  NoDup keys ->
  (forall fields,
      (weight (children (JObject fields)) <= list_sum (map (held fields) keys))%nat) ->
  (forall j, match j with JObject _ => True | _ => children j = [] end) ->
  forall object, (weight (children object) < jsize object)%nat.
Proof.
  intros Hkeys Hbound Hempty object.
  destruct object as [ | | | | | fields];
    try (match goal with
         | |- (weight (children ?j) < _)%nat =>
             pose proof (Hempty j) as Enone; cbn beta iota in Enone; rewrite Enone;
             apply jsize_pos
         end).
  eapply Nat.le_lt_trans; [ apply Hbound | by apply held_distinct ].
Qed.

Ltac lighter keys :=
  apply (children_lighter _ (map lit keys));
  [ cbn [map]; repeat (apply NoDup_cons_2; [ rewrite ?elem_of_cons, elem_of_nil;
                                             intros Hin; decompose [or] Hin;
                                             first [ discriminate | done ] | ]);
    apply NoDup_nil_2
  | intros fields; rewrite ?weight_app; cbn [map list_sum];
    repeat first [ apply Nat.add_le_mono
                 | apply pushTruthy_held | apply pushItems_held | apply pushData_held
                 | rewrite Nat.add_0_r ]
  | by intros [] ].

(** [extractThreadId] ends: its loop finds an identifier or empties the
    queue. *)
Lemma extractThreadId_ends (params : Json) :
  exists found,
    extractThreadId (Some params) = found
    /\ bfs (fun object =>
              match getString (prop "threadId" object) with
              | Some s => if nonEmpty s then Some s else None
              | None =>
                  match getString (prop "thread_id" object) with
                  | Some s => if nonEmpty s then Some s else None
                  | None => None
                  end
              end)
         (fun object =>
            pushTruthy "turn" object ++ pushTruthy "item" object
            ++ pushTruthy "params" object ++ pushItems object)
         (S (jsize params)) [params]
       = Some found.
Proof.
  unfold extractThreadId.
  match goal with
  | |- context [bfs ?visit ?children _ _] =>
      destruct (search_enough visit children params) as (found & Hbfs & Hsearch);
      [ | by exists found ]
  end.
  lighter ["turn"; "item"; "params"; "items"]%string.
Qed.

Lemma extractTurnId_ends (params : Json) :
  exists found,
    extractTurnId (Some params) = found
    /\ bfs (fun object =>
              match getString (prop "turnId" object) with
              | Some s => if nonEmpty s then Some s else None
              | None =>
                  match getString (prop "turn_id" object) with
                  | Some s => if nonEmpty s then Some s else None
                  | None => None
                  end
              end)
         (fun object =>
            pushTruthy "turn" object ++ pushTruthy "item" object ++ pushTruthy "params" object)
         (S (jsize params)) [params]
       = Some found.
Proof.
  unfold extractTurnId.
  match goal with
  | |- context [bfs ?visit ?children _ _] =>
      destruct (search_enough visit children params) as (found & Hbfs & Hsearch);
      [ | by exists found ]
  end.
  lighter ["turn"; "item"; "params"]%string.
Qed.

Lemma extractTurns_children_lighter (object : Json) :
  (weight (pushTruthy "thread" object ++ pushTruthy "result" object
           ++ pushTruthy "payload" object ++ pushTruthy "response" object
           ++ pushData object)
   < jsize object)%nat.
Proof.
  revert object.
  lighter ["thread"; "result"; "payload"; "response"; "data"]%string.
Qed.

Lemma extractThreadTitle_children_lighter (object : Json) :
  (weight (pushTruthy "thread" object ++ pushTruthy "item" object
           ++ pushTruthy "params" object ++ pushItems object)
   < jsize object)%nat.
Proof.
  revert object.
  lighter ["thread"; "item"; "params"; "items"]%string.
Qed.

(** The search of [extractTurnsFromThreadReadResponse] ends. *)
Lemma extractTurns_search_ends `{Host} (response : Json) :
  exists found,
    bfs turnsAt
      (fun object =>
         pushTruthy "thread" object ++ pushTruthy "result" object
         ++ pushTruthy "payload" object ++ pushTruthy "response" object
         ++ pushData object)
      (S (jsize response)) [response]
    = Some found.
Proof.
  destruct (search_enough turnsAt _ response extractTurns_children_lighter)
    as (found & Hbfs & _).
  by exists found.
Qed.

(** ** What a computation puts on the relay socket *)

(** [Sends P m]: whatever the state, [m] appends to the wire messages
    that satisfy [P], appends nothing when the relay socket is absent
    or not open, and never opens the socket. *)
Definition Sends {A} (P : RelayClientMessage -> Prop) (m : M A) : Prop :=
  forall st, exists delta,
    wire (snd (m st)) = wire st ++ delta
    /\ Forall P delta
    /\ (ws st <> Some OPEN -> delta = [])
    /\ (ws (snd (m st)) = Some OPEN -> ws st = Some OPEN).

Definition notAck (m : RelayClientMessage) : Prop :=
  match m with DispatchAck _ _ _ _ _ => False | _ => True end.

Definition anyMessage (m : RelayClientMessage) : Prop := True.

Lemma Sends_weaken {A} (P Q : RelayClientMessage -> Prop) (m : M A) :
  (forall x, P x -> Q x) -> Sends P m -> Sends Q m.
Proof.
  intros HPQ Hm st. destruct (Hm st) as (delta & Hw & HP & Hc & Ho).
  exists delta. repeat split; try done.
  eapply Forall_impl; [ exact HP | exact HPQ ].
Qed.

Lemma Sends_same {A} P (m : M A) :
  (forall st, wire (snd (m st)) = wire st /\ ws (snd (m st)) = ws st) -> Sends P m.
Proof.
  intros Hm st. destruct (Hm st) as [Hw Hs]. exists [].
  rewrite app_nil_r. repeat split; try done. by rewrite Hs.
Qed.

Lemma Sends_ret {A} P (a : A) : Sends P (mret a).
Proof. by apply Sends_same. Qed.

Lemma Sends_throw {A} P e : Sends P (@throw A e).
Proof. by apply Sends_same. Qed.

Lemma Sends_getState P : Sends P getState.
Proof. by apply Sends_same. Qed.

Lemma Sends_newUUID `{Host} P : Sends P newUUID.
Proof. by apply Sends_same. Qed.

Lemma Sends_dateNow `{Host} P : Sends P dateNow.
Proof. by apply Sends_same. Qed.

Lemma Sends_modify P (f : Bridge -> Bridge) :
  (forall st, wire (f st) = wire st /\ ws (f st) = ws st) -> Sends P (modify f).
Proof. intros Hf. apply Sends_same. intros st. apply Hf. Qed.

Lemma Sends_await {A} P (o : Outcome A) : Sends P (await o).
Proof.
  intros st. exists []. rewrite app_nil_r. unfold await, closeRelay. cbn.
  destruct (outcome_relayCloses o); [ | done ].
  destruct (ws st) as [r | ] eqn:E; cbn; rewrite ?E; repeat split; try done.
Qed.

Lemma Sends_send (P : RelayClientMessage -> Prop) message : P message -> Sends P (send message).
Proof.
  intros HP st. unfold send.
  destruct (ws st) as [[ | | | ] | ] eqn:E; cbn;
    try (exists []; rewrite app_nil_r; repeat split; try done; congruence).
  exists [message]. repeat split; first [ done | by constructor | congruence ].
Qed.

Lemma Sends_bind {A B} P (m : M A) (k : A -> M B) :
  Sends P m -> (forall a, Sends P (k a)) -> Sends P (m ≫= k).
Proof.
  intros Hm Hk st. unfold mbind, M_bind.
  destruct (Hm st) as (d1 & Hw1 & HP1 & Hc1 & Ho1).
  destruct (m st) as [[a | e] st1] eqn:E; cbn in *.
  - destruct (Hk a st1) as (d2 & Hw2 & HP2 & Hc2 & Ho2).
    exists (d1 ++ d2). rewrite Hw2, Hw1, app_assoc. repeat split; try done.
    + by apply Forall_app.
    + intros Hclosed. rewrite (Hc1 Hclosed), Hc2; [ done | ].
      intros Hopen. by apply Hclosed, Ho1.
    + intros Hopen. by apply Ho1, Ho2.
  - by exists d1.
Qed.

Lemma Sends_tryCatch {A} P (body : M A) (handler : Thrown -> M A) :
  Sends P body -> (forall e, Sends P (handler e)) -> Sends P (tryCatch body handler).
Proof.
  intros Hm Hk st. unfold tryCatch.
  destruct (Hm st) as (d1 & Hw1 & HP1 & Hc1 & Ho1).
  destruct (body st) as [[a | e] st1] eqn:E; cbn in *.
  - by exists d1.
  - destruct (Hk e st1) as (d2 & Hw2 & HP2 & Hc2 & Ho2).
    exists (d1 ++ d2). rewrite Hw2, Hw1, app_assoc. repeat split; try done.
    + by apply Forall_app.
    + intros Hclosed. rewrite (Hc1 Hclosed), Hc2; [ done | ].
      intros Hopen. by apply Hclosed, Ho1.
    + intros Hopen. by apply Ho1, Ho2.
Qed.

Lemma Sends_foldM {A S} P (body : S -> A -> M S) (xs : list A) :
  (forall s x, Sends P (body s x)) -> forall s, Sends P (foldM body xs s).
Proof.
  intros Hbody. induction xs as [ | x xs IH]; intros s; cbn [foldM].
  - apply Sends_ret.
  - apply Sends_bind; [ apply Hbody | intros s'; apply IH ].
Qed.

Lemma Sends_mapM {A B} P (f : A -> M B) (xs : list A) :
  (forall x, Sends P (f x)) -> Sends P (mapM f xs).
Proof.
  intros Hf. induction xs as [ | x xs IH]; cbn [mapM].
  - apply Sends_ret.
  - apply Sends_bind; [ apply Hf | intros y ].
    apply Sends_bind; [ apply IH | intros ys; apply Sends_ret ].
Qed.

Create HintDb sends discriminated.

#[export] Hint Extern 1 (anyMessage _) => exact I : sends.
#[export] Hint Extern 1 (notAck _) => exact I : sends.

(** Breaks a computation down along its binds, loops and matches;
    what is left is looked up in the hint database. *)
Ltac sends_step :=
  lazymatch goal with
  | |- Sends _ (mret _) => apply Sends_ret
  | |- Sends _ (throw _) => apply Sends_throw
  | |- Sends _ getState => apply Sends_getState
  | |- Sends _ newUUID => apply Sends_newUUID
  | |- Sends _ dateNow => apply Sends_dateNow
  | |- Sends _ (await _) => apply Sends_await
  | |- Sends _ (modify _) => apply Sends_modify; intros ?; split; reflexivity
  | |- Sends _ (send _) => apply Sends_send; solve [ exact I | auto ]
  | |- Sends _ (mbind _ _) => apply Sends_bind; [ | intros ? ]
  | |- Sends _ (tryCatch _ _) => apply Sends_tryCatch; [ | intros ? ]
  | |- Sends _ (foldM _ _ _) => apply Sends_foldM; intros ? ?; cbv beta
  | |- Sends _ (mapM _ _) => apply Sends_mapM; intros ?; cbv beta
  | |- Sends _ (match ?x with _ => _ end) => destruct x
  | |- Sends _ (let _ := _ in _) => cbv zeta
  end.

Ltac sends := repeat sends_step; auto with sends.

Section SendsOfTheBridge.
Context `{Host} `{Agent}.
Variable cfg : CliConfig.

Lemma Sends_mapCodexItem P item turnId timestamp :
  Sends P (mapCodexItem item turnId timestamp).
Proof. unfold mapCodexItem. sends. Qed.

Lemma Sends_extractTurns P response :
  Sends P (extractTurnsFromThreadReadResponse response).
Proof.
  unfold extractTurnsFromThreadReadResponse.
  destruct (search _ _ response) as [turns | ] eqn:E; [ | apply Sends_ret ].
  unfold search in E. destruct response as [r | ]; [ | done ].
  destruct (bfs _ _ _ _) as [[found | ] | ] eqn:Eb; try done.
  injection E as ->.
  revert Eb. generalize (S (jsize r)) as fuel. generalize [r] as queue.
  intros queue fuel. revert queue.
  induction fuel as [ | fuel IH]; intros queue; cbn [bfs]; [ done | ].
  destruct queue as [ | current rest]; [ done | ].
  destruct (asObject (Some current)) as [object | ]; [ | apply IH ].
  destruct (turnsAt object) as [found | ] eqn:Et; [ | apply IH ].
  intros [= <-]. unfold turnsAt in Et.
  repeat match type of Et with
  | match ?x with _ => _ end = _ => destruct x
  end; try done; injection Et as <-; unfold normalizeTurnEntries; sends.
Qed.

#[local] Hint Resolve Sends_mapCodexItem Sends_extractTurns : sends.

Lemma Sends_replayRaw P threadId turnId r rawItem :
  (forall a b c i, P (EventUpsert a b c i)) ->
  Sends P (replayRaw cfg threadId turnId r rawItem).
Proof. intros HP. unfold replayRaw, replayMapped. sends. Qed.

#[local] Hint Resolve Sends_replayRaw : sends.

Lemma Sends_replayTurn P threadId carried turn :
  (forall a b c i, P (EventUpsert a b c i)) ->
  Sends P (replayTurn cfg threadId carried turn).
Proof. intros HP. unfold replayTurn. sends. Qed.

#[local] Hint Resolve Sends_replayTurn : sends.

Lemma Sends_replayResponse P threadId response :
  (forall a b c i, P (EventUpsert a b c i)) ->
  Sends P (replayResponse cfg threadId response).
Proof. intros HP. unfold replayResponse. sends. Qed.

#[local] Hint Resolve Sends_replayResponse : sends.

Lemma Sends_hydrateThreadHistory P threadId codexThreadId :
  (forall a b c i, P (EventUpsert a b c i)) ->
  Sends P (hydrateThreadHistory cfg threadId codexThreadId).
Proof. intros HP. unfold hydrateThreadHistory. sends. Qed.

Lemma Sends_materialize P cwd requestId attachments :
  Sends P (materializeAttachmentInputs cwd requestId attachments).
Proof.
  unfold materializeAttachmentInputs, mkdir. sends.
  all: unfold materializeOne, writeFile; sends.
Qed.

#[local] Hint Resolve Sends_hydrateThreadHistory Sends_materialize : sends.

Lemma Sends_buildTurnInput P prompt requestId cwd attachments :
  Sends P (buildTurnInput prompt requestId cwd attachments).
Proof. unfold buildTurnInput. sends. Qed.

Lemma Sends_codex_turnStart P codexThreadId input settings :
  Sends P (codex_turnStart codexThreadId input settings).
Proof. unfold codex_turnStart. sends. Qed.

Lemma Sends_normalizeTimestamp P value : Sends P (normalizeTimestamp value).
Proof. unfold normalizeTimestamp. sends. Qed.

#[local] Hint Resolve Sends_buildTurnInput Sends_codex_turnStart
  Sends_normalizeTimestamp : sends.

Lemma Sends_syncThread projects synced appThread :
  Sends anyMessage (syncThread cfg projects synced appThread).
Proof. unfold syncThread. sends. Qed.

#[local] Hint Resolve Sends_syncThread : sends.

Lemma Sends_syncThreads projects : Sends anyMessage (syncThreads cfg projects).
Proof. unfold syncThreads. sends. Qed.

Lemma Sends_heartbeat : Sends anyMessage (heartbeat cfg).
Proof. unfold heartbeat. sends. Qed.

Lemma Sends_emitOrFallback method params turnId durangoThreadId items :
  Sends anyMessage (emitOrFallback cfg method params turnId durangoThreadId items).
Proof. unfold emitOrFallback, sendItems. sends. Qed.

#[local] Hint Resolve Sends_emitOrFallback : sends.

Lemma Sends_forwardCodexNotification method params :
  Sends anyMessage (forwardCodexNotification cfg method params).
Proof. unfold forwardCodexNotification. sends. Qed.

Lemma Sends_dispatchBody action : Sends anyMessage (dispatchBody cfg action).
Proof. unfold dispatchBody, ack. sends. Qed.

#[local] Hint Resolve Sends_dispatchBody : sends.

Lemma Sends_handleDispatch action : Sends anyMessage (handleDispatch cfg action).
Proof. unfold handleDispatch, ack. sends. Qed.

End SendsOfTheBridge.

(** ** The relay link drops what it cannot send *)

(** C10.  When the relay socket is absent or not open, [send] returns
    normally and leaves the bridge as it was, whatever the message:
    nothing is put on the wire and nothing is kept for later.  A
    dispatch, a forwarded notification, the thread sync and a heartbeat
    that run in such a state therefore put nothing on the wire: their
    acks and events are lost. *)
Theorem send_discards_when_not_open `{Host} `{Agent} (cfg : CliConfig) (st : Bridge) :
  ws st <> Some OPEN ->
  (forall message, send message st = (Ok tt, st))
  /\ (forall action, wire (snd (handleDispatch cfg action st)) = wire st)
  /\ (forall method params,
        wire (snd (forwardCodexNotification cfg method params st)) = wire st)
  /\ (forall projects, wire (snd (syncThreads cfg projects st)) = wire st)
  /\ wire (snd (heartbeat cfg st)) = wire st.
Proof.
  intros Hclosed.
  assert (Hquiet : forall A (m : M A), Sends anyMessage m -> wire (snd (m st)) = wire st).
  { intros A m Hm. destruct (Hm st) as (delta & Hw & _ & Hc & _).
    by rewrite Hw, (Hc Hclosed), app_nil_r. }
  split; [ | repeat split; intros; apply Hquiet ].
  - intros message. unfold send. by destruct (ws st) as [[ | | | ] | ].
  - apply Sends_handleDispatch.
  - apply Sends_forwardCodexNotification.
  - apply Sends_syncThreads.
  - apply Sends_heartbeat.
Qed.

(** The theorem on a bridge whose relay socket has closed. *)
Lemma send_discards_when_not_open_witness :
  send (MachineHeartbeat (lit "machine-test") 0) (freshBridge (Some CLOSED))
  = (Ok tt, freshBridge (Some CLOSED))
  /\ wire (snd (handleDispatch exampleConfig (exampleAction ModelListAction)
                  (freshBridge (Some CLOSED)))) = [].
Proof.
  assert (Hclosed : ws (freshBridge (Some CLOSED)) <> Some OPEN) by discriminate.
  split.
  - apply (send_discards_when_not_open exampleConfig _ Hclosed).
  - apply (send_discards_when_not_open exampleConfig _ Hclosed).
Defined.

(** ** The ack trail of a dispatch *)

(** The status and error of the [dispatch.ack] messages among [delta]. *)
Definition acksOf (delta : list RelayClientMessage) : list (AckStatus * option ErrorEnvelope) :=
  omap (fun m => match m with
                 | DispatchAck _ _ status error _ => Some (status, error)
                 | _ => None
                 end) delta.

Lemma acksOf_app d1 d2 : acksOf (d1 ++ d2) = acksOf d1 ++ acksOf d2.
Proof. unfold acksOf. apply omap_app. Qed.

Lemma acksOf_notAck delta : Forall notAck delta -> acksOf delta = [].
Proof.
  induction 1 as [ | m delta Hm _ IH]; [ done | ].
  unfold acksOf in *. cbn. by destruct m.
Qed.

Section AckTrail.
Context `{Host} `{Agent}.
Variable cfg : CliConfig.
Variable action : DispatchAction.

(** The computations that end in the completed ack of [action], with
    no other ack before it. *)
Inductive Finishing : M unit -> Prop :=
| Finishing_ack payload : Finishing (ack action AckCompleted payload None)
| Finishing_bind {X} (m : M X) (k : X -> M unit) :
    Sends notAck m -> (forall x, Finishing (k x)) -> Finishing (m ≫= k).

Lemma Finishing_acks (F : M unit) :
  Finishing F ->
  forall st, exists delta,
    wire (snd (F st)) = wire st ++ delta
    /\ (ws st <> Some OPEN -> delta = [])
    /\ (ws (snd (F st)) = Some OPEN -> ws st = Some OPEN)
    /\ match fst (F st) with
       | Ok _ => (acksOf delta = [] \/ acksOf delta = [(AckCompleted, None)])
                 /\ (ws (snd (F st)) = Some OPEN -> acksOf delta = [(AckCompleted, None)])
       | Throw _ => acksOf delta = []
       end.
Proof.
  induction 1 as [payload | X m k Hm Hk IH]; intros st.
  - unfold ack, send.
    destruct (ws st) as [[ | | | ] | ] eqn:E; cbn; rewrite ?E;
      try (exists []; rewrite app_nil_r; repeat split; try done; by left).
    eexists [_]. repeat split; try done. by right.
  - unfold mbind, M_bind.
    destruct (Hm st) as (d1 & Hw1 & HP1 & Hc1 & Ho1).
    destruct (m st) as [[x | e] st1] eqn:E; cbn in *.
    + destruct (IH x st1) as (d2 & Hw2 & Hc2 & Ho2 & Hacks).
      exists (d1 ++ d2). rewrite Hw2, Hw1, app_assoc.
      rewrite acksOf_app, (acksOf_notAck d1 HP1). cbn [app].
      repeat split; try done.
      * intros Hclosed. rewrite (Hc1 Hclosed), Hc2; [ done | ].
        intros Hopen. by apply Hclosed, Ho1.
      * intros Hopen. by apply Ho1, Ho2.
    + exists d1. rewrite (acksOf_notAck d1 HP1). by repeat split.
Qed.

Lemma dispatchBody_shape :
  exists F, Finishing F
            /\ dispatchBody cfg action = (ack action AckRunning None None ≫= fun _ => F).
Proof.
  unfold dispatchBody. destruct (act_kind action); eexists; (split; [ | reflexivity ]).
  all: repeat first
         [ apply Finishing_ack
         | apply Finishing_bind; [ | intros ? ] ].
  all: unfold hydrateThreadHistory; sends; auto using Sends_replayResponse,
         Sends_buildTurnInput, Sends_codex_turnStart with sends.
Qed.

End AckTrail.

Lemma send_open st message : ws st = Some OPEN -> send message st = (Ok tt, pushWire message st).
Proof. intros E. unfold send. by rewrite E. Qed.

Lemma send_closed st message : ws st <> Some OPEN -> send message st = (Ok tt, st).
Proof. intros E. unfold send. by destruct (ws st) as [[ | | | ] | ]. Qed.

Definition appServerError (error : Thrown) : ErrorEnvelope :=
  {| err_code := lit "APP_SERVER_ERROR"; err_message := thrownMessage error |}.



(** ** Binary64 helpers *)

Lemma digits2_pos_bounds (p : positive) :
  2 ^ (Zpos (digits2_pos p) - 1) <= Zpos p < 2 ^ Zpos (digits2_pos p).
Proof.
  induction p as [p IH | p IH | ]; cbn [digits2_pos].
  - rewrite Pos2Z.inj_succ.
    replace (Z.succ (Zpos (digits2_pos p)) - 1) with (Z.succ (Zpos (digits2_pos p) - 1)) by lia.
    rewrite !Z.pow_succ_r by lia. lia.
  - rewrite Pos2Z.inj_succ.
    replace (Z.succ (Zpos (digits2_pos p)) - 1) with (Z.succ (Zpos (digits2_pos p) - 1)) by lia.
    rewrite !Z.pow_succ_r by lia. lia.
  - cbn. lia.
Qed.

Lemma iter_xO_value (p k : positive) : Zpos (Pos.iter xO p k) = Zpos p * 2 ^ Zpos k.
Proof.
  induction k as [ | k IH] using Pos.peano_ind.
  - cbn. lia.
  - rewrite Pos.iter_succ, Pos2Z.inj_xO, IH, Pos2Z.inj_succ, Z.pow_succ_r by lia. lia.
Qed.

Lemma iter_xO_digits (p k : positive) :
  digits2_pos (Pos.iter xO p k) = (digits2_pos p + k)%positive.
Proof.
  induction k as [ | k IH] using Pos.peano_ind.
  - cbn. lia.
  - rewrite Pos.iter_succ. cbn [digits2_pos]. rewrite IH. lia.
Qed.

(** The binary64 value of a positive integer below [2^53]: the
    mantissa is the integer shifted to 53 bits. *)
Definition normalForm (s : bool) (n : positive) : spec_float :=
  match 53 - Zpos (digits2_pos n) with
  | Zpos k => S754_finite s (Pos.iter xO n k) (- Zpos k)
  | _ => S754_finite s n 0
  end.

(** Rounding a mantissa that already has 53 bits changes nothing. *)
Lemma binary_round_aux_canonical (s : bool) (m : positive) (e : Z) :
  Zpos (digits2_pos m) = 53 -> -1074 <= e <= 971 ->
  binary_round_aux 53 1024 s (Zpos m) e loc_Exact = S754_finite s m e.
Proof.
  intros Hdig He.
  assert (Hzero : fexp 53 1024 (Zpos (digits2_pos m) + e) - e = 0).
  { rewrite Hdig. unfold fexp, emin. lia. }
  unfold binary_round_aux, shr_fexp. cbn [Zdigits2 shr_record_of_loc].
  rewrite Hzero. cbn [shr shr_m loc_of_shr_record round_nearest_even Zdigits2].
  rewrite Hzero. cbn [shr shr_m].
  assert (Hle : (e <=? 1024 - 53) = true) by (apply Z.leb_le; lia).
  by rewrite Hle.
Qed.

Lemma binary_round_small (s : bool) (n : positive) :
  Zpos (digits2_pos n) <= 53 -> binary_round 53 1024 s n 0 = normalForm s n.
Proof.
  intros Hd. unfold binary_round, normalForm.
  assert (Hfexp : fexp 53 1024 (Zpos (digits2_pos n) + 0) = Zpos (digits2_pos n) - 53).
  { unfold fexp, emin. lia. }
  rewrite Hfexp. unfold shl_align.
  replace (Zpos (digits2_pos n) - 53 - 0) with (- (53 - Zpos (digits2_pos n))) by lia.
  destruct (53 - Zpos (digits2_pos n)) as [ | k | k] eqn:Ek.
  - change (- 0) with 0. cbv iota beta. apply binary_round_aux_canonical; lia.
  - change (- Zpos k) with (Zneg k). cbv iota beta.
    replace (Zpos (digits2_pos n) - 53) with (Zneg k) by lia.
    apply binary_round_aux_canonical; [ | lia ].
    rewrite iter_xO_digits. lia.
  - lia.
Qed.

Lemma ofZ_pos (n : positive) : Zpos (digits2_pos n) <= 53 -> ofZ (Zpos n) = normalForm false n.
Proof. intros Hd. unfold ofZ, binary_normalize. by apply binary_round_small. Qed.

Example ofZ_1e12 : ofZ 1000000000000 = num_1e12.
Proof. reflexivity. Qed.

Example normalForm_1e12 : normalForm false 1000000000000 = num_1e12.
Proof. reflexivity. Qed.

(** [Math.round] leaves an integer below [2^53] as it is. *)
Lemma Math_round_normalForm (n : positive) :
  Zpos (digits2_pos n) <= 53 -> Math_round (normalForm false n) = normalForm false n.
Proof.
  intros Hd. pose proof (binary_round_small false n Hd) as Hround.
  unfold normalForm in *.
  destruct (53 - Zpos (digits2_pos n)) as [ | k | k] eqn:Ek; [ done | | done ].
  cbn [Math_round]. replace (0 <=? - Zpos k) with false by (symmetry; apply Z.leb_gt; lia).
  cbn [cond_Zopp]. rewrite iter_xO_value, Z.shiftr_div_pow2 by lia.
  replace (- - Zpos k) with (Zpos k) by lia.
  replace ((Zpos n * 2 ^ Zpos k + 2 ^ (Zpos k - 1)) / 2 ^ Zpos k) with (Zpos n).
  - exact Hround.
  - assert (Hpow : 0 < 2 ^ (Zpos k - 1)) by (apply Z.pow_pos_nonneg; lia).
    assert (Hdouble : 2 ^ Zpos k = 2 * 2 ^ (Zpos k - 1)).
    { rewrite <- Z.pow_succ_r by lia. f_equal. lia. }
    apply Z.div_unique with (r := 2 ^ (Zpos k - 1)); lia.
Qed.

Lemma digits_le_of_lt (p : positive) (b : Z) : 0 <= b -> Zpos p < 2 ^ b -> Zpos (digits2_pos p) <= b.
Proof.
  intros Hb Hp. pose proof (digits2_pos_bounds p) as [Hlo _].
  destruct (Z_le_gt_dec (Zpos (digits2_pos p)) b) as [ | Hgt]; [ done | exfalso ].
  assert (2 ^ b <= 2 ^ (Zpos (digits2_pos p) - 1)) by (apply Z.pow_le_mono_r; lia).
  lia.
Qed.

Lemma digits_gt_of_ge (p : positive) (b : Z) : 0 <= b -> 2 ^ b <= Zpos p -> b < Zpos (digits2_pos p).
Proof.
  intros Hb Hp. pose proof (digits2_pos_bounds p) as [_ Hhi].
  destruct (Z_lt_le_dec b (Zpos (digits2_pos p))) as [ | Hle]; [ done | exfalso ].
  assert (2 ^ Zpos (digits2_pos p) <= 2 ^ b) by (apply Z.pow_le_mono_r; lia).
  lia.
Qed.

Lemma compare_cont_Eq (p q : positive) : Pos.compare_cont Eq p q = (p ?= q)%positive.
Proof. reflexivity. Qed.

(** ** Timestamp normalization *)

(** A finite value at or above [10^12]. *)
Lemma at_least_1e12_shape (v : spec_float) :
  isFiniteNumber v = true -> SFleb num_1e12 v = true ->
  exists m e, v = S754_finite false m e
              /\ (-13 < e \/ (e = -13 /\ 8192000000000000 <= Zpos m)).
Proof.
  intros Hfin Hge. destruct v as [s | s | | s m e]; try done.
  unfold SFleb, SFcompare, num_1e12 in Hge. destruct s; [ done | ].
  exists m, e. split; [ done | ].
  destruct (Z.compare_spec (-13) e) as [Heq | Hlt | Hgt]; [ | by left | done ].
  right. split; [ done | ].
  rewrite compare_cont_Eq in Hge.
  destruct (Pos.compare_spec 8192000000000000 m); try done; lia.
Qed.

Lemma at_least_1e12_branch (v : spec_float) :
  isFiniteNumber v = true -> SFleb num_1e12 v = true ->
  SFleb v num_zero = false /\ SFltb v num_1e12 = false.
Proof.
  intros Hfin Hge.
  destruct (at_least_1e12_shape v Hfin Hge) as (m & e & -> & Hcases).
  split; [ reflexivity | ].
  unfold SFltb, SFcompare, num_1e12.
  destruct (Z.compare_spec e (-13)) as [Heq | Hlt | Hgt]; [ | lia | reflexivity ].
  rewrite compare_cont_Eq.
  destruct (Pos.compare_spec m 8192000000000000) as [Hm | Hm | Hm];
    [ reflexivity | | reflexivity ].
  exfalso. apply Pos2Z.pos_lt_pos in Hm. lia.
Qed.

(** An integer of at most 53 bits, at or above [10^12], is a fixed
    point of the normalization. *)
Lemma normalForm_stable (p : positive) :
  Zpos (digits2_pos p) <= 53 -> 1000000000000 <= Zpos p ->
  isFiniteNumber (normalForm false p) = true
  /\ SFleb num_1e12 (normalForm false p) = true
  /\ Math_round (normalForm false p) = normalForm false p.
Proof.
  intros Hd Hp. split; [ | split; [ | by apply Math_round_normalForm ] ].
  - unfold normalForm. by destruct (53 - Zpos (digits2_pos p)).
  - assert (Hdigits : 39 < Zpos (digits2_pos p)).
    { apply digits_gt_of_ge; [ lia | ]. change (2 ^ 39) with 549755813888. lia. }
    unfold normalForm.
    destruct (53 - Zpos (digits2_pos p)) as [ | k | k] eqn:Ek; [ done | | done ].
    unfold SFleb, SFcompare, num_1e12.
    destruct (Z.compare_spec (-13) (- Zpos k)) as [Heq | Hlt | Hgt]; [ | done | lia ].
    rewrite compare_cont_Eq.
    destruct (Pos.compare_spec 8192000000000000 (Pos.iter xO p k)) as [ | | Hlt];
      try done.
    exfalso. apply Pos2Z.pos_lt_pos in Hlt. rewrite iter_xO_value in Hlt.
    replace (Zpos k) with 13 in Hlt by lia. change (2 ^ 13) with 8192 in Hlt. lia.
Qed.

(** The integer [Math.round] computes from a valid value at or above
    [10^12] that has a fractional part. *)
Lemma round_at_least_1e12 (m : positive) (e : Z) :
  valid_binary 53 1024 (S754_finite false m e) = true ->
  e < 0 -> (-13 < e \/ (e = -13 /\ 8192000000000000 <= Zpos m)) ->
  exists p, Z.shiftr (Zpos m + 2 ^ (- e - 1)) (- e) = Zpos p
            /\ Zpos (digits2_pos p) <= 53 /\ 1000000000000 <= Zpos p.
Proof.
  intros Hvalid Hneg Hcases.
  assert (Hdig : Zpos (digits2_pos m) = 53).
  { cbn [valid_binary] in Hvalid. unfold bounded, canonical_mantissa in Hvalid.
    apply andb_true_iff in Hvalid as [Hcanon _]. apply Z.eqb_eq in Hcanon.
    unfold fexp, emin in Hcanon. lia. }
  pose proof (digits2_pos_bounds m) as [Hlo Hhi]. rewrite Hdig in Hlo, Hhi.
  change (2 ^ (53 - 1)) with 4503599627370496 in Hlo.
  change (2 ^ 53) with 9007199254740992 in Hhi.
  rewrite Z.shiftr_div_pow2 by lia.
  assert (Hk : exists k, - e = Z.of_nat (S k) /\ (k < 13)%nat).
  { exists (Z.to_nat (- e - 1)). lia. }
  destruct Hk as (k & Hk & Hbound).
  replace (- e - 1) with (Z.of_nat k) by lia. rewrite Hk.
  assert (Hrange : 1000000000000 <= (Zpos m + 2 ^ Z.of_nat k) / 2 ^ Z.of_nat (S k)
                   < 9007199254740992).
  { do 13 (destruct k as [ | k];
           [ cbn; split; [ apply Z.div_le_lower_bound | apply Z.div_lt_upper_bound ]; lia
           | ]).
    lia. }
  destruct ((Zpos m + 2 ^ Z.of_nat k) / 2 ^ Z.of_nat (S k)) as [ | p | p] eqn:Ep; try lia.
  exists p. split; [ done | ]. split; [ | lia ].
  apply digits_le_of_lt; [ lia | ]. change (2 ^ 53) with 9007199254740992. lia.
Qed.

(** ** Rounding to an integer, as mathematics has it

    The definitions below give a binary64 value its exact meaning as a
    fraction of integers; they do not use [Math_round]. *)

(** The integer a value is, when it is one. *)
Definition integerValue (x : spec_float) : option Z :=
  match x with
  | S754_zero _ => Some 0
  | S754_finite s m e =>
      if 0 <=? e then Some (cond_Zopp s (Zpos m * 2 ^ e))
      else if Zpos m mod 2 ^ (- e) =? 0 then Some (cond_Zopp s (Zpos m / 2 ^ (- e)))
      else None
  | _ => None
  end.

(** A finite value as a fraction: numerator and positive denominator. *)
Definition fractionOf (x : spec_float) : option (Z * Z) :=
  match x with
  | S754_zero _ => Some (0, 1)
  | S754_finite s m e => Some (cond_Zopp s (Zpos m) * 2 ^ Z.max e 0, 2 ^ Z.max (- e) 0)
  | _ => None
  end.

(** [r] is the integer nearest to the finite value [x], the upper one
    when two are equally near: [n - 1/2 <= x < n + 1/2]. *)
Definition roundedTo (x r : spec_float) : Prop :=
  exists n num den,
    integerValue r = Some n /\ fractionOf x = Some (num, den)
    /\ (2 * n - 1) * den <= 2 * num < (2 * n + 1) * den.

Lemma shr_1_half (mrs : shr_record) :
  0 <= shr_m mrs -> shr_m (shr_1 mrs) = shr_m mrs / 2.
Proof.
  destruct mrs as [m r s]. cbn [shr_m]. intros Hm. rewrite <- Z.div2_div.
  by destruct m as [ | [p | p | ] | p].
Qed.

Lemma iter_shr_1 (p : positive) :
  forall mrs, 0 <= shr_m mrs ->
              shr_m (SpecFloat.iter_pos shr_1 p mrs) = shr_m mrs / 2 ^ Zpos p.
Proof.
  assert (Hpow : forall q : positive, 0 < 2 ^ Zpos q) by (intros; apply Z.pow_pos_nonneg; lia).
  assert (Hnonneg : forall a (q : positive), 0 <= a -> 0 <= a / 2 ^ Zpos q).
  { intros a q Ha. apply Z.div_pos; [ done | apply Hpow ]. }
  assert (Hdouble : forall q : positive, 2 ^ Zpos q~0 = 2 ^ Zpos q * 2 ^ Zpos q).
  { intros q. rewrite <- Z.pow_add_r by lia. f_equal. lia. }
  assert (Hodd : forall q : positive, 2 ^ Zpos q~1 = 2 * (2 ^ Zpos q * 2 ^ Zpos q)).
  { intros q. rewrite <- Z.pow_add_r, <- Z.pow_succ_r by lia. f_equal. lia. }
  induction p as [p IH | p IH | ]; intros mrs Hm; cbn [SpecFloat.iter_pos].
  - pose proof (shr_1_half mrs Hm) as H1.
    assert (H1' : 0 <= shr_m (shr_1 mrs)) by (rewrite H1; apply Z.div_pos; lia).
    pose proof (IH _ H1') as H2.
    assert (H2' : 0 <= shr_m (SpecFloat.iter_pos shr_1 p (shr_1 mrs)))
      by (rewrite H2; by apply Hnonneg).
    rewrite (IH _ H2'), H2, H1, Hodd.
    pose proof (Hpow p).
    rewrite !Z.div_div by lia. reflexivity.
  - pose proof (IH _ Hm) as H2.
    assert (H2' : 0 <= shr_m (SpecFloat.iter_pos shr_1 p mrs))
      by (rewrite H2; by apply Hnonneg).
    rewrite (IH _ H2'), H2, Hdouble.
    pose proof (Hpow p).
    rewrite !Z.div_div by lia. reflexivity.
  - rewrite (shr_1_half mrs Hm). reflexivity.
Qed.

Lemma shr_fexp_shape (m e : Z) (l : location) :
  0 <= m ->
  let n := fexp 53 1024 (Zdigits2 m + e) - e in
  shr_m (fst (shr_fexp 53 1024 m e l)) = (if 0 <? n then m / 2 ^ n else m)
  /\ snd (shr_fexp 53 1024 m e l) = (if 0 <? n then e + n else e).
Proof.
  intros Hm n. unfold shr_fexp, shr. fold n.
  assert (Hrecord : shr_m (shr_record_of_loc m l) = m) by (by destruct l as [ | []]).
  destruct n as [ | p | p] eqn:En; cbn [fst snd]; [ done | | done ].
  replace (0 <? Zpos p) with true by (symmetry; apply Z.ltb_lt; lia).
  split; [ | done ]. rewrite iter_shr_1; rewrite Hrecord; done.
Qed.

Lemma round_nearest_even_bounds (m : Z) (l : location) :
  m <= round_nearest_even m l <= m + 1.
Proof.
  destruct l as [ | []]; cbn [round_nearest_even]; try lia.
  destruct (Z.even m); lia.
Qed.

Lemma Zdigits2_below (m b : Z) : 0 <= b -> 0 <= m < 2 ^ b -> Zdigits2 m <= b.
Proof.
  intros Hb [Hm Hlt]. destruct m as [ | p | p]; cbn [Zdigits2]; [ lia | | lia ].
  by apply digits_le_of_lt.
Qed.

(** The product of a valid value below [10^12] and 1000, as
    [binary_round_aux] returns it: zero, or a finite value whose
    mantissa has at most 53 bits. *)
Lemma binary_round_aux_small (s : bool) (mx ex : Z) :
  0 < mx < 2 ^ 106 -> ex <= -56 ->
  binary_round_aux 53 1024 s mx ex loc_Exact = S754_zero s
  \/ exists m e, binary_round_aux 53 1024 s mx ex loc_Exact = S754_finite s m e
                 /\ Zpos (digits2_pos m) <= 53.
Proof.
  intros Hmx Hex. unfold binary_round_aux.
  assert (Hmx0 : 0 <= mx) by lia.
  pose proof (shr_fexp_shape mx ex loc_Exact Hmx0) as Hfirst. cbv zeta in Hfirst.
  destruct (shr_fexp 53 1024 mx ex loc_Exact) as [mrs1 e1]. cbn [fst snd] in Hfirst.
  destruct Hfirst as [Hm1 He1].
  assert (Hd : Zdigits2 mx <= 106) by (apply Zdigits2_below; lia).
  assert (He1' : e1 <= -3).
  { rewrite He1. unfold fexp, emin. destruct (0 <? _); lia. }
  assert (Hm1' : 0 <= shr_m mrs1 <= mx).
  { rewrite Hm1. destruct (0 <? _) eqn:En; [ | lia ].
    apply Z.ltb_lt in En.
    assert (0 < 2 ^ (fexp 53 1024 (Zdigits2 mx + ex) - ex)) by (apply Z.pow_pos_nonneg; lia).
    split; [ apply Z.div_pos; lia | ].
    apply Z.div_le_upper_bound; [ done | nia ]. }
  pose proof (round_nearest_even_bounds (shr_m mrs1) (loc_of_shr_record mrs1)) as Hround.
  set (M := round_nearest_even (shr_m mrs1) (loc_of_shr_record mrs1)) in *.
  assert (HM : 0 <= M <= 2 ^ 106) by lia.
  assert (HM0 : 0 <= M) by lia.
  pose proof (shr_fexp_shape M e1 loc_Exact HM0) as Hsecond. cbv zeta in Hsecond.
  destruct (shr_fexp 53 1024 M e1 loc_Exact) as [mrs2 e2]. cbn [fst snd] in Hsecond.
  destruct Hsecond as [Hm2 He2].
  assert (HdM : Zdigits2 M <= 107).
  { apply Zdigits2_below; [ lia | ]. split; [ lia | ].
    assert (2 ^ 106 < 2 ^ 107) by (apply Z.pow_lt_mono_r; lia). lia. }
  assert (He2' : e2 <= 971).
  { rewrite He2. unfold fexp, emin. clear - HdM He1'. destruct (0 <? _); lia. }
  destruct (shr_m mrs2) as [ | m | m] eqn:Em.
  - by left.
  - right. exists m, e2.
    replace (e2 <=? 1024 - 53) with true by (symmetry; apply Z.leb_le; lia).
    split; [ done | ].
    destruct (0 <? fexp 53 1024 (Zdigits2 M + e1) - e1) eqn:En.
    + apply Z.ltb_lt in En.
      set (n := fexp 53 1024 (Zdigits2 M + e1) - e1) in *.
      apply digits_le_of_lt; [ lia | ]. rewrite Hm2.
      assert (Hpow : 0 < 2 ^ n) by (apply Z.pow_pos_nonneg; lia).
      apply Z.div_lt_upper_bound; [ done | ].
      rewrite <- Z.pow_add_r by lia.
      destruct M as [ | q | q]; [ apply Z.pow_pos_nonneg; lia | | lia ].
      pose proof (digits2_pos_bounds q) as [_ Hq]. cbn [Zdigits2] in n.
      assert (2 ^ Zpos (digits2_pos q) <= 2 ^ (n + 53)).
      { apply Z.pow_le_mono_r; [ lia | ]. subst n. unfold fexp, emin. lia. }
      lia.
    + apply Z.ltb_ge in En. rewrite <- Hm2 in En.
      cbn [Zdigits2] in En. unfold fexp, emin in En. lia.
  - exfalso. clear - Hm2 HM0.
    destruct (0 <? fexp 53 1024 (Zdigits2 M + e1) - e1) eqn:En; [ | lia ].
    apply Z.ltb_lt in En.
    assert (0 <= M / 2 ^ (fexp 53 1024 (Zdigits2 M + e1) - e1)).
    { apply Z.div_pos; [ lia | apply Z.pow_pos_nonneg; lia ]. }
    lia.
Qed.

Lemma normalForm_integerValue (s : bool) (n : positive) :
  integerValue (normalForm s n) = Some (cond_Zopp s (Zpos n)).
Proof.
  unfold normalForm.
  destruct (53 - Zpos (digits2_pos n)) as [ | k | k]; cbn [integerValue].
  - change (0 <=? 0) with true. cbv iota. by rewrite Z.pow_0_r, Z.mul_1_r.
  - change (0 <=? - Zpos k) with false. cbv iota.
    replace (- - Zpos k) with (Zpos k) by lia. rewrite iter_xO_value.
    assert (Hpow : 2 ^ Zpos k <> 0) by (apply Z.pow_nonzero; lia).
    by rewrite Z.mod_mul, Z.eqb_refl, Z.div_mul.
  - change (0 <=? 0) with true. cbv iota. by rewrite Z.pow_0_r, Z.mul_1_r.
Qed.

(** [binary_normalize] is exact on an integer of at most 53 bits. *)
Lemma binary_normalize_integerValue (n : Z) (s : bool) :
  Zdigits2 n <= 53 -> integerValue (binary_normalize 53 1024 n 0 s) = Some n.
Proof.
  intros Hd. destruct n as [ | p | p]; cbn [binary_normalize Zdigits2] in *.
  - done.
  - rewrite binary_round_small by done. by rewrite normalForm_integerValue.
  - rewrite binary_round_small by done. by rewrite normalForm_integerValue.
Qed.

(** [Math.round] gives the nearest integer, the upper one of two that
    are equally near, on every finite value whose mantissa has at most
    53 bits, as the mantissa of a binary64 value has. *)
Lemma Math_round_nearest (x : spec_float) :
  match x with
  | S754_zero _ => True
  | S754_finite _ m _ => Zpos (digits2_pos m) <= 53
  | _ => False
  end ->
  roundedTo x (Math_round x).
Proof.
  destruct x as [s | s | | s m e]; try done.
  - intros _. exists 0, 0, 1. by repeat split.
  - intros Hd. unfold roundedTo. cbn [Math_round fractionOf].
    destruct (0 <=? e) eqn:Ee.
    + apply Z.leb_le in Ee. cbn [integerValue]. rewrite (proj2 (Z.leb_le 0 e) Ee).
      eexists _, _, _. split; [ reflexivity | ]. split; [ reflexivity | ].
      replace (Z.max e 0) with e by lia. replace (Z.max (- e) 0) with 0 by lia.
      rewrite Z.pow_0_r. destruct s; cbn [cond_Zopp]; lia.
    + apply Z.leb_gt in Ee.
      replace (Z.max e 0) with 0 by lia. replace (Z.max (- e) 0) with (- e) by lia.
      rewrite Z.pow_0_r, Z.mul_1_r, Z.shiftr_div_pow2 by lia.
      set (k := - e) in *. set (sm := cond_Zopp s (Zpos m)).
      assert (Hpow : 0 < 2 ^ (k - 1)) by (apply Z.pow_pos_nonneg; lia).
      assert (Hdouble : 2 ^ k = 2 * 2 ^ (k - 1)).
      { rewrite <- Z.pow_succ_r by lia. f_equal. lia. }
      replace (- e - 1) with (k - 1) by lia.
      set (n := (sm + 2 ^ (k - 1)) / 2 ^ k).
      assert (Hn : 2 ^ k * n <= sm + 2 ^ (k - 1) < 2 ^ k * (n + 1)).
      { pose proof (Z.mul_div_le (sm + 2 ^ (k - 1)) (2 ^ k)) as Hle.
        pose proof (Z.mul_succ_div_gt (sm + 2 ^ (k - 1)) (2 ^ k)) as Hgt.
        fold n in Hle, Hgt. split; [ apply Hle | rewrite <- Z.add_1_r in Hgt; apply Hgt ]; lia. }
      exists n, sm, (2 ^ k).
      split; [ | split; [ reflexivity | nia ] ].
      apply binary_normalize_integerValue.
      pose proof (digits2_pos_bounds m) as [_ Hm].
      assert (Hm53 : Zpos m < 2 ^ 53).
      { assert (2 ^ Zpos (digits2_pos m) <= 2 ^ 53) by (apply Z.pow_le_mono_r; lia). lia. }
      assert (Hk : 2 <= 2 ^ k) by lia.
      assert (Hbound : - 2 ^ 53 < 2 * n < 2 ^ 53 + 2).
      { subst sm. destruct s; cbn [cond_Zopp] in Hn; nia. }
      change (2 ^ 53) with 9007199254740992 in *.
      destruct n as [ | p | p]; cbn [Zdigits2]; [ lia | | ];
        (apply digits_le_of_lt; [ lia | ]; change (2 ^ 53) with 9007199254740992; lia).
Qed.

Lemma valid_binary_digits (s : bool) (m : positive) (e : Z) :
  valid_binary 53 1024 (S754_finite s m e) = true -> Zpos (digits2_pos m) <= 53.
Proof.
  cbn [valid_binary]. unfold bounded, canonical_mantissa. intros Hvalid.
  apply andb_true_iff in Hvalid as [Hcanon _]. apply Z.eqb_eq in Hcanon.
  unfold fexp, emin in Hcanon. lia.
Qed.

(** The product of a binary64 value below [10^12] and 1000 is zero or
    a finite value with a mantissa of at most 53 bits. *)
Lemma times_1000_shape (v : spec_float) :
  valid_binary 53 1024 v = true -> isFiniteNumber v = true ->
  SFleb v num_zero = false -> SFltb v num_1e12 = true ->
  match SFmul 53 1024 v num_1000 with
  | S754_zero _ => True
  | S754_finite _ m _ => Zpos (digits2_pos m) <= 53
  | _ => False
  end.
Proof.
  intros Hvalid Hfin Hpos Hlt. destruct v as [s | s | | s m e]; try done.
  destruct s; [ unfold SFleb, SFcompare, num_zero in Hpos; done | ].
  assert (He : e <= -13).
  { unfold SFltb, SFcompare, num_1e12 in Hlt.
    destruct (Z.compare_spec e (-13)); [ lia | lia | done ]. }
  pose proof (valid_binary_digits _ _ _ Hvalid) as Hd.
  pose proof (digits2_pos_bounds m) as [_ Hm].
  assert (Hm53 : Zpos m < 2 ^ 53).
  { assert (2 ^ Zpos (digits2_pos m) <= 2 ^ 53) by (apply Z.pow_le_mono_r; lia). lia. }
  unfold num_1000. cbn [SFmul xorb].
  match goal with
  | |- context [binary_round_aux 53 1024 false ?mx ?ex loc_Exact] =>
      destruct (binary_round_aux_small false mx ex) as [-> | (m' & e' & -> & Hd')]
  end; try done.
  - rewrite Pos2Z.inj_mul. change (2 ^ 106) with (2 ^ 53 * 2 ^ 53).
    change (2 ^ 53) with 9007199254740992 in *. nia.
  - lia.
Qed.

Example normalizeTimestamp_seconds :
  fst (normalizeTimestamp (Some (ofZ 1700000000)) (freshBridge None))
  = Ok (ofZ 1700000000000).
Proof. vm_compute. reflexivity. Qed.

Example normalizeTimestamp_fraction :
  fst (normalizeTimestamp (Some (S754_finite false 7486832687582413 (-12)))
         (freshBridge None))
  = Ok (ofZ 1827840011617).
Proof. vm_compute. reflexivity. Qed.

(** C9.  Read at a state [st], with [now] the clock reading the call
    would make: a value that is not a number, a non-finite value and a
    value at or below zero give [now]; a finite positive value below
    [10^12] gives the rounded product of the value and 1000, and the
    clock is not read; a finite value at or above [10^12] gives the
    rounded value; and normalizing that result again returns it
    unchanged.  For a binary64 value, rounded means the nearest
    integer, the upper one of two that are equally near: the result is
    an integer [n] with [n - 1/2 <= x < n + 1/2], where [x] is the
    product with 1000 below [10^12] and the value itself from [10^12]
    on.  The two constants are the integers 1000 and [10^12]. *)
Theorem timestamp_normalization `{Host} (st : Bridge) (v : spec_float) :
  let now := ofZ (Date_now (clockReads st)) in
  fst (normalizeTimestamp None st) = Ok now
  /\ (isFiniteNumber v = false \/ SFleb v num_zero = true ->
      fst (normalizeTimestamp (Some v) st) = Ok now)
  /\ (isFiniteNumber v = true -> SFleb v num_zero = false -> SFltb v num_1e12 = true ->
      normalizeTimestamp (Some v) st = (Ok (Math_round (SFmul 53 1024 v num_1000)), st))
  /\ (isFiniteNumber v = true -> SFleb num_1e12 v = true ->
      normalizeTimestamp (Some v) st = (Ok (Math_round v), st))
  /\ (valid_binary 53 1024 v = true -> isFiniteNumber v = true -> SFleb num_1e12 v = true ->
      normalizeTimestamp (Some (Math_round v)) st = (Ok (Math_round v), st))
  /\ (valid_binary 53 1024 v = true -> isFiniteNumber v = true -> SFleb v num_zero = false ->
      SFltb v num_1e12 = true ->
      exists r, normalizeTimestamp (Some v) st = (Ok r, st)
                /\ roundedTo (SFmul 53 1024 v num_1000) r)
  /\ (valid_binary 53 1024 v = true -> isFiniteNumber v = true -> SFleb num_1e12 v = true ->
      exists r, normalizeTimestamp (Some v) st = (Ok r, st) /\ roundedTo v r)
  /\ integerValue num_1000 = Some 1000
  /\ integerValue num_1e12 = Some 1000000000000.
Proof.
  intros now.
  assert (Hlarge : forall w, isFiniteNumber w = true -> SFleb num_1e12 w = true ->
                             normalizeTimestamp (Some w) st = (Ok (Math_round w), st)).
  { intros w Hfin Hge. destruct (at_least_1e12_branch w Hfin Hge) as [Hpos Hnot].
    unfold normalizeTimestamp. by rewrite Hfin, Hpos, Hnot. }
  split; [ done | ].
  split.
  { intros [Hinf | Hle]; unfold normalizeTimestamp.
    - by rewrite Hinf.
    - rewrite Hle, orb_true_r. done. }
  split.
  { intros Hfin Hpos Hlt. unfold normalizeTimestamp. by rewrite Hfin, Hpos, Hlt. }
  split; [ apply Hlarge | ].
  split; [ | split; [ | split; [ | by split ] ] ].
  2: { intros Hvalid Hfin Hpos Hlt. eexists. split.
       - unfold normalizeTimestamp. rewrite Hfin, Hpos, Hlt. reflexivity.
       - apply Math_round_nearest. by apply times_1000_shape. }
  2: { intros Hvalid Hfin Hge. exists (Math_round v). split; [ by apply Hlarge | ].
       apply Math_round_nearest.
       destruct v as [ | | | s m e]; try done. by eapply valid_binary_digits. }
  intros Hvalid Hfin Hge.
  destruct (at_least_1e12_shape v Hfin Hge) as (m & e & -> & Hcases).
  destruct (Z_lt_ge_dec e 0) as [Hneg | Hnonneg].
  - destruct (round_at_least_1e12 m e Hvalid Hneg Hcases) as (p & Hp & Hdigits & Hbig).
    assert (Hround : Math_round (S754_finite false m e) = normalForm false p).
    { cbn [Math_round]. replace (0 <=? e) with false by (symmetry; apply Z.leb_gt; lia).
      cbn [cond_Zopp]. rewrite Hp. unfold binary_normalize. by apply binary_round_small. }
    rewrite Hround.
    destruct (normalForm_stable p Hdigits Hbig) as (Hfin' & Hge' & Hfix).
    rewrite (Hlarge _ Hfin' Hge'). by rewrite Hfix.
  - assert (Hround : Math_round (S754_finite false m e) = S754_finite false m e).
    { cbn [Math_round]. by replace (0 <=? e) with true by (symmetry; apply Z.leb_le; lia). }
    rewrite Hround, (Hlarge _ Hfin Hge). by rewrite Hround.
Qed.

(** The theorem at the not-a-number value, at 1700000000 seconds, at a
    value just above 1700000000000 milliseconds and at 1700000000.25
    seconds. *)
Lemma timestamp_normalization_witness :
  fst (normalizeTimestamp (Some S754_nan) (freshBridge None)) = Ok (ofZ 1700000000000)
  /\ normalizeTimestamp (Some (ofZ 1700000000)) (freshBridge None)
     = (Ok (Math_round (SFmul 53 1024 (ofZ 1700000000) num_1000)), freshBridge None)
  /\ normalizeTimestamp (Some (S754_finite false 6963200000000002 (-12))) (freshBridge None)
     = (Ok (Math_round (S754_finite false 6963200000000002 (-12))), freshBridge None)
  /\ normalizeTimestamp (Some (Math_round (S754_finite false 6963200000000002 (-12))))
       (freshBridge None)
     = (Ok (Math_round (S754_finite false 6963200000000002 (-12))), freshBridge None)
  /\ (exists r,
        normalizeTimestamp (Some (S754_finite false 7130316801048576 (-22))) (freshBridge None)
        = (Ok r, freshBridge None)
        /\ roundedTo (SFmul 53 1024 (S754_finite false 7130316801048576 (-22)) num_1000) r)
  /\ (exists r,
        normalizeTimestamp (Some (S754_finite false 6963200000000002 (-12))) (freshBridge None)
        = (Ok r, freshBridge None)
        /\ roundedTo (S754_finite false 6963200000000002 (-12)) r).
Proof.
  pose proof (timestamp_normalization (freshBridge None) S754_nan) as (_ & Hnan & _).
  pose proof (timestamp_normalization (freshBridge None) (ofZ 1700000000))
    as (_ & _ & Hseconds & _).
  pose proof (timestamp_normalization (freshBridge None)
                (S754_finite false 6963200000000002 (-12)))
    as (_ & _ & _ & Hmillis & Hagain & _ & Hnearest & _).
  pose proof (timestamp_normalization (freshBridge None)
                (S754_finite false 7130316801048576 (-22)))
    as (_ & _ & _ & _ & _ & Hproduct & _).
  split; [ apply Hnan; left; reflexivity | ].
  split; [ apply Hseconds; vm_compute; reflexivity | ].
  split; [ apply Hmillis; vm_compute; reflexivity | ].
  split; [ apply Hagain; vm_compute; reflexivity | ].
  split; [ apply Hproduct; vm_compute; reflexivity | ].
  apply Hnearest; vm_compute; reflexivity.
Defined.

(** 1700000000.25 seconds are 1700000000250 milliseconds. *)
Example normalizeTimestamp_quarter :
  fst (normalizeTimestamp (Some (S754_finite false 7130316801048576 (-22))) (freshBridge None))
  = Ok (ofZ 1700000000250).
Proof. vm_compute. reflexivity. Qed.

Example round_just_above :
  Math_round (S754_finite false 6963200000000002 (-12)) = ofZ 1700000000000.
Proof. vm_compute. reflexivity. Qed.

(** ** Attachment file names *)

Definition isDigitUnit (c : N) : bool := ((48 <=? c) && (c <=? 57))%N.

(** The pattern of the specification for an attachment file name: two
    digits, a hyphen, then 1 to 120 code units among letters, digits,
    dot, underscore and hyphen. *)
Definition matchesAttachmentPattern (s : jsstring) : bool :=
  match s with
  | d1 :: d2 :: dash :: rest =>
      isDigitUnit d1 && isDigitUnit d2 && (dash =? 45)%N
      && (1 <=? length rest)%nat && (length rest <=? 120)%nat && forallb isSafeUnit rest
  | _ => false
  end.

(** The files the loop of [materializeAttachmentInputs] writes for
    [attachments] from index [index] on, and the inputs it pushes. *)
Fixpoint expectedNames `{Host} (index : nat) (attachments : list DispatchAttachment)
  : list jsstring :=
  match attachments with
  | [] => []
  | a :: rest =>
      attachmentFileName index (sanitizeAttachmentName (att_name a))
      :: expectedNames (S index) rest
  end.

Definition inputPath (i : CodexTurnInputItem) : jsstring :=
  match i with
  | TextInput _ => []
  | LocalImageInput p => p
  | MentionInput _ p => p
  end.

Example natToString_examples :
  natToString 0 = lit "0" /\ natToString 7 = lit "7" /\ natToString 12 = lit "12"
  /\ natToString 100 = lit "100".
Proof. by repeat split. Qed.

Example attachmentFileName_examples :
  attachmentFileName 0 (lit "a.png") = lit "01-a.png"
  /\ attachmentFileName 11 (lit "b") = lit "12-b"
  /\ attachmentFileName 99 (lit "c") = lit "100-c".
Proof. by repeat split. Qed.

Lemma uint_digits (d : Decimal.uint) :
  forallb isDigitUnit (lit (NilEmpty.string_of_uint d)) = true.
Proof. induction d; cbn; by rewrite ?IHd. Qed.

Lemma natToString_digits (n : nat) :
  forallb isDigitUnit (natToString n) = true /\ (1 <= length (natToString n))%nat.
Proof.
  unfold natToString, NilZero.string_of_uint.
  destruct (Nat.to_uint n) as [ | d | d | d | d | d | d | d | d | d | d] eqn:E;
    (split; [ first [ done | apply uint_digits ] | cbn; lia ]).
Qed.

Lemma padStart0_digits (width : nat) (s : jsstring) :
  forallb isDigitUnit s = true -> forallb isDigitUnit (padStart0 width s) = true.
Proof.
  intros Hs. unfold padStart0. rewrite forallb_app, Hs, andb_true_r.
  induction (width - length s)%nat as [ | k IH]; [ done | by cbn ].
Qed.

Lemma padStart0_length (width : nat) (s : jsstring) :
  (width <= length (padStart0 width s))%nat.
Proof. unfold padStart0. rewrite length_app, repeat_length. lia. Qed.

Section Attachments.
Context `{Host} `{Agent}.

Lemma sanitizeAttachmentName_safe (rawName : jsstring) :
  (1 <= length (sanitizeAttachmentName rawName) <= 120)%nat
  /\ forallb isSafeUnit (sanitizeAttachmentName rawName) = true.
Proof.
  unfold sanitizeAttachmentName.
  set (baseName := path_basename _).
  set (sanitized := map _ baseName).
  assert (Hsafe : forallb isSafeUnit sanitized = true).
  { subst sanitized. induction baseName as [ | c rest IH]; [ done | ].
    cbn. rewrite IH, andb_true_r. by destruct (isSafeUnit c) eqn:E. }
  clearbody sanitized. clear baseName.
  destruct (120 <? length sanitized)%nat eqn:Elong.
  - apply Nat.ltb_lt in Elong. unfold slice0. rewrite length_firstn. split; [ lia | ].
    rewrite <- (firstn_skipn 120 sanitized), forallb_app in Hsafe.
    by apply andb_true_iff in Hsafe as [Hsafe _].
  - apply Nat.ltb_ge in Elong.
    destruct sanitized as [ | c rest]; cbn [nonEmpty].
    + split; [ cbn; lia | reflexivity ].
    + split; [ cbn [length] in *; lia | done ].
Qed.

(** Below the hundredth attachment the file name has the pattern. *)
Lemma attachmentFileName_pattern (index : nat) (safeName : jsstring) :
  (index < 99)%nat -> (1 <= length safeName <= 120)%nat ->
  forallb isSafeUnit safeName = true ->
  matchesAttachmentPattern (attachmentFileName index safeName) = true.
Proof.
  intros Hindex [Hlo Hhi] Hsafe.
  assert (Hshape : exists d1 d2, isDigitUnit d1 = true /\ isDigitUnit d2 = true
                                 /\ padStart0 2 (natToString (index + 1)) = [d1; d2]).
  { do 99 (destruct index as [ | index];
           [ eexists _, _; vm_compute; by repeat split | ]).
    lia. }
  destruct Hshape as (d1 & d2 & Hd1 & Hd2 & Hpad).
  unfold attachmentFileName. rewrite Hpad.
  change ([d1; d2] ++ lit "-" ++ safeName) with (d1 :: d2 :: 45%N :: safeName).
  unfold matchesAttachmentPattern.
  assert (Hone : (1 <=? length safeName)%nat = true) by (apply Nat.leb_le; lia).
  assert (Hmax : (length safeName <=? 120)%nat = true) by (apply Nat.leb_le; lia).
  by rewrite Hd1, Hd2, Hsafe, Hone, Hmax, N.eqb_refl.
Qed.

Lemma expectedNames_lookup (attachments : list DispatchAttachment) :
  forall index i name,
    expectedNames index attachments !! i = Some name ->
    exists a, attachments !! i = Some a
              /\ name = attachmentFileName (index + i)
                          (sanitizeAttachmentName (att_name a)).
Proof.
  induction attachments as [ | a rest IH]; intros index i name; [ done | ].
  destruct i as [ | i]; cbn.
  - intros [= <-]. exists a. by rewrite Nat.add_0_r.
  - intros Hlookup. destruct (IH _ _ _ Hlookup) as (a' & Ha' & ->).
    exists a'. split; [ done | ]. f_equal. lia.
Qed.

Lemma written_closeRelay st : written (closeRelay st) = written st.
Proof. unfold closeRelay. by destruct (ws st). Qed.

(** One turn of the loop: the file is written and the input pushed,
    or the write fails and nothing is written. *)
Lemma materializeOne_step (dir : jsstring) (s : nat * list CodexTurnInputItem)
    (a : DispatchAttachment) (st : Bridge) :
  let file := path_join [dir; attachmentFileName (fst s)
                                (sanitizeAttachmentName (att_name a))] in
  match fst (materializeOne dir s a st) with
  | Ok s' =>
      fst s' = S (fst s)
      /\ map inputPath (snd s') = map inputPath (snd s) ++ [file]
      /\ written (snd (materializeOne dir s a st))
         = written st ++ [(file, att_contentBase64 a)]
  | Throw _ => written (snd (materializeOne dir s a st)) = written st
  end.
Proof.
  unfold materializeOne, writeFile, await, modify, mbind, M_bind, mret, M_ret.
  cbn [fst snd].
  destruct (outcome_result (fs_writeFile _ _)) as [[] | e]; cbn [fst snd].
  - split; [ done | ]. split.
    + cbn [snd]. rewrite List.map_app. by destruct (att_isImage a).
    + destruct (outcome_relayCloses _); cbn [written pushWritten];
        by rewrite ?written_closeRelay.
  - destruct (outcome_relayCloses _); by rewrite ?written_closeRelay.
Qed.

(** The loop writes the expected files in order, up to the first
    write that fails. *)
Lemma materialize_loop (dir : jsstring) (attachments : list DispatchAttachment) :
  forall s st,
    let out := foldM (materializeOne dir) attachments s st in
    exists names,
      map fst (written (snd out))
      = map fst (written st) ++ map (fun name => path_join [dir; name]) names
      /\ names `prefix_of` expectedNames (fst s) attachments
      /\ (forall r, fst out = Ok r ->
          names = expectedNames (fst s) attachments
          /\ map inputPath (snd r)
             = map inputPath (snd s) ++ map (fun name => path_join [dir; name]) names).
Proof.
  induction attachments as [ | a rest IH]; intros s st; cbn zeta.
  - exists []. cbn. rewrite !app_nil_r. split; [ done | ]. split; [ done | ].
    intros r' [= <-]. done.
  - cbn [foldM expectedNames]. unfold mbind, M_bind.
    pose proof (materializeOne_step dir s a st) as Hstep. cbn zeta in Hstep.
    destruct (materializeOne dir s a st) as [[s' | e] st1]; cbn [fst snd] in *.
    + destruct Hstep as (Hindex & Hinputs & Hwritten).
      destruct (IH s' st1) as (names & Hw & Hprefix & Hok). cbn zeta in *.
      rewrite Hindex in Hprefix, Hok.
      exists (attachmentFileName (fst s) (sanitizeAttachmentName (att_name a)) :: names).
      split; [ | split ].
      * rewrite Hw, Hwritten, map_app. cbn. by rewrite <- app_assoc.
      * by apply prefix_cons.
      * intros r Hr. destruct (Hok r Hr) as [-> Hpaths]. split; [ done | ].
        rewrite Hpaths, Hinputs. cbn. by rewrite <- app_assoc.
    + exists []. cbn. rewrite app_nil_r. split; [ by rewrite Hstep | ].
      split; [ apply prefix_nil | done ].
Qed.

End Attachments.

Lemma expectedNames_length `{Host} (attachments : list DispatchAttachment) (index : nat) :
  length (expectedNames index attachments) = length attachments.
Proof.
  revert index. induction attachments as [ | a rest IH]; intros index; [ done | ].
  cbn. by rewrite IH.
Qed.

Definition exampleAttachment (name : string) (image : bool) : DispatchAttachment :=
  {| att_id := lit "att"; att_name := lit name; att_mimeType := lit "image/png";
     att_contentBase64 := lit "AAAA"; att_isImage := image |}.

Example materialize_two :
  let out := materializeAttachmentInputs (Some (lit "/w")) (lit "req-1")
               (Some [exampleAttachment "shot one.png" true;
                      exampleAttachment "../notes.txt" false])
               (freshBridge (Some OPEN)) in
  fst out = Ok [LocalImageInput (lit "/w/.durango/uploads/req-1/01-shot_one.png");
                MentionInput (lit "../notes.txt")
                  (lit "/w/.durango/uploads/req-1/02-notes.txt")]
  /\ map fst (written (snd out))
     = [lit "/w/.durango/uploads/req-1/01-shot_one.png";
        lit "/w/.durango/uploads/req-1/02-notes.txt"].
Proof. vm_compute. by split. Qed.

(** C7, the claim as stated fails: the hundredth attachment of a
    dispatch is written to a file whose name starts with three digits. *)
Lemma attachment_file_names_counterexample :
  let out := materializeAttachmentInputs (Some (lit "/w")) (lit "req-1")
               (Some (repeat (exampleAttachment "a.png" true) 100))
               (freshBridge (Some OPEN)) in
  last (map fst (written (snd out))) = Some (lit "/w/.durango/uploads/req-1/100-a.png")
  /\ matchesAttachmentPattern (lit "100-a.png") = false.
Proof. vm_compute. by split. Qed.

(** C7, amended.  The files written for a list of attachments are, in
    order and up to the first write that fails, [dir/name] with [dir]
    the join of the base directory (the resolved cwd, or the temporary
    directory), [.durango], [uploads] and the request id; when the call
    returns, every attachment has its file and its input item.  The
    name of the file at position [i] is the decimal of [i + 1] padded
    with zeros to at least two digits, a hyphen, and the sanitized name,
    which has 1 to 120 code units among letters, digits, dot,
    underscore and hyphen.  For the first 99 attachments the name
    matches the two-digit pattern. *)
Theorem attachment_file_names `{Host} `{Agent} (cwd : option jsstring) (requestId : jsstring)
    (attachments : list DispatchAttachment) (st : Bridge) :
  let baseDir := match cwd with
                 | Some c => if nonEmpty c then path_resolve c else os_tmpdir
                 | None => os_tmpdir
                 end in
  let dir := path_join [baseDir; lit ".durango"; lit "uploads"; requestId] in
  let out := materializeAttachmentInputs cwd requestId (Some attachments) st in
  exists names,
    map fst (written (snd out))
    = map fst (written st) ++ map (fun name => path_join [dir; name]) names
    /\ (length names <= length attachments)%nat
    /\ (forall inputs, fst out = Ok inputs ->
        length names = length attachments
        /\ map inputPath inputs = map (fun name => path_join [dir; name]) names)
    /\ forall i name, names !! i = Some name ->
         exists a, attachments !! i = Some a
           /\ let number := padStart0 2 (natToString (i + 1)) in
              let safeName := sanitizeAttachmentName (att_name a) in
              name = number ++ lit "-" ++ safeName
              /\ forallb isDigitUnit number = true /\ (2 <= length number)%nat
              /\ (1 <= length safeName <= 120)%nat /\ forallb isSafeUnit safeName = true
              /\ ((i < 99)%nat -> matchesAttachmentPattern name = true).
Proof.
  intros baseDir dir out.
  assert (Hnames : forall names, names `prefix_of` expectedNames 0 attachments ->
            (length names <= length attachments)%nat
            /\ forall i name, names !! i = Some name ->
                 exists a, attachments !! i = Some a
                   /\ let number := padStart0 2 (natToString (i + 1)) in
                      let safeName := sanitizeAttachmentName (att_name a) in
                      name = number ++ lit "-" ++ safeName
                      /\ forallb isDigitUnit number = true /\ (2 <= length number)%nat
                      /\ (1 <= length safeName <= 120)%nat
                      /\ forallb isSafeUnit safeName = true
                      /\ ((i < 99)%nat -> matchesAttachmentPattern name = true)).
  { intros names Hprefix. split.
    - rewrite <- (expectedNames_length attachments 0). by apply prefix_length.
    - intros i name Hlookup.
      apply (prefix_lookup_Some _ _ _ _ Hlookup) in Hprefix.
      destruct (expectedNames_lookup attachments 0 i name Hprefix) as (a & Ha & ->).
      exists a. split; [ done | ]. cbn zeta.
      destruct (sanitizeAttachmentName_safe (att_name a)) as [Hlen Hsafe].
      split; [ done | ].
      split; [ apply padStart0_digits, natToString_digits | ].
      split; [ apply padStart0_length | ].
      split; [ done | ]. split; [ done | ].
      intros Hi. by apply (attachmentFileName_pattern i). }
  destruct attachments as [ | a rest].
  { exists []. cbn. rewrite app_nil_r. split; [ done | ]. split; [ done | ].
    split; [ by intros inputs [= <-] | done ]. }
  remember out as result eqn:Eout. subst out.
  unfold materializeAttachmentInputs in Eout.
  change (attachmentDirFor cwd requestId) with dir in Eout.
  unfold mkdir, await, modify, mbind, M_bind, mret, M_ret in Eout. cbn [fst snd] in Eout.
  destruct (outcome_result (fs_mkdir dir)) as [[] | e].
  - set (st1 := pushMade dir _) in Eout.
    assert (Hst1 : written st1 = written st).
    { subst st1. cbn [written pushMade].
      destruct (outcome_relayCloses _); by rewrite ?written_closeRelay. }
    destruct (materialize_loop dir (a :: rest) (0%nat, []) st1)
      as (names & Hw & Hprefix & Hok).
    cbn zeta in *. cbn [fst snd] in *. rewrite Hst1 in Hw.
    destruct (Hnames names Hprefix) as [Hlen Heach].
    destruct (foldM (materializeOne dir) (a :: rest) (0%nat, []) st1)
      as [[r | e] st2]; subst result; cbn [fst snd] in *.
    + exists names. split; [ done | ]. split; [ done | ]. split; [ | done ].
      intros inputs [= <-]. destruct (Hok r eq_refl) as [-> Hpaths].
      split; [ apply expectedNames_length | done ].
    + exists names. split; [ done | ]. split; [ done | ]. split; [ done | done ].
  - subst result. cbn [fst snd]. exists []. cbn [map]. rewrite app_nil_r. split.
    { destruct (outcome_relayCloses _); by rewrite ?written_closeRelay. }
    split; [ cbn; lia | ]. split; [ done | done ].
Qed.

(** The theorem at a list of two attachments, the second one a file. *)
Lemma attachment_file_names_witness :
  exists names,
    map fst (written (snd (materializeAttachmentInputs (Some (lit "/w")) (lit "req-1")
                             (Some [exampleAttachment "shot one.png" true;
                                    exampleAttachment "../notes.txt" false])
                             (freshBridge (Some OPEN)))))
    = map (fun name => lit "/w/.durango/uploads/req-1/" ++ name) names
    /\ Forall (fun name => matchesAttachmentPattern name = true) names.
Proof.
  destruct (attachment_file_names (Some (lit "/w")) (lit "req-1")
              [exampleAttachment "shot one.png" true;
               exampleAttachment "../notes.txt" false]
              (freshBridge (Some OPEN))) as (names & Hw & Hlen & _ & Heach).
  exists names. split; [ exact Hw | ].
  apply Forall_lookup_2. intros i name Hlookup.
  destruct (Heach i name Hlookup) as (a & Ha & _ & _ & _ & _ & _ & Hpattern).
  apply Hpattern. apply lookup_lt_Some in Hlookup. cbn [length] in Hlen. lia.
Defined.

(** ** Sync bootstrap: binding threads to projects *)

Lemma startsWith_prefix (s p : jsstring) :
  startsWith s p = true <-> exists rest, s = p ++ rest.
Proof.
  revert s. induction p as [ | a p IH]; intros s.
  - destruct s; cbn; (split; [ intros _; by eexists | done ]).
  - destruct s as [ | b s]; cbn; [ split; [ done | by intros (rest & Hrest) ] | ].
    rewrite andb_true_iff, N.eqb_eq, IH. split.
    + intros [-> (rest & ->)]. by exists rest.
    + intros (rest & [= -> ->]). split; [ done | by exists rest ].
Qed.

(** The normalized form of a path as the specification speaks of it:
    the absolute path without the slashes and backslashes at its end,
    where a path of a single code unit (the root) is left as it is.
    It is written from the front of the path and does not use
    [normalizePath]. *)
Definition isSeparatorUnit (c : N) : bool := ((c =? 47) || (c =? 92))%N.

Fixpoint withoutTrailingSeparators (path : jsstring) : jsstring :=
  match path with
  | [] => []
  | c :: rest =>
      match withoutTrailingSeparators rest with
      | [] => if isSeparatorUnit c then [] else [c]
      | kept => c :: kept
      end
  end.

Definition specNormalizedPath `{Host} (input : jsstring) : jsstring :=
  match path_resolve input with
  | [] => []
  | [c] => [c]
  | absolute => withoutTrailingSeparators absolute
  end.

Lemma dropSlashes_snoc (s : jsstring) (c : N) :
  dropSlashes (s ++ [c])
  = match dropSlashes s with
    | [] => if isSeparatorUnit c then [] else [c]
    | kept => kept ++ [c]
    end.
Proof.
  induction s as [ | d rest IH]; [ done | ].
  cbn [app dropSlashes]. destruct (isSlash d); [ exact IH | done ].
Qed.

Lemma withoutTrailingSeparators_dropSlashes (s : jsstring) :
  withoutTrailingSeparators s = rev (dropSlashes (rev s)).
Proof.
  induction s as [ | c rest IH]; [ done | ].
  cbn [withoutTrailingSeparators rev]. rewrite IH, dropSlashes_snoc.
  destruct (dropSlashes (rev rest)) as [ | d kept].
  - cbn [rev]. by destruct (isSeparatorUnit c).
  - rewrite rev_app_distr. cbn [rev app].
    by destruct (rev kept ++ [d]) eqn:E; [ destruct (rev kept) | ].
Qed.

(** [normalizePath] computes the normalized form of the specification. *)
Lemma normalizePath_spec `{Host} (input : jsstring) :
  normalizePath input = specNormalizedPath input.
Proof.
  unfold normalizePath, specNormalizedPath.
  rewrite <- withoutTrailingSeparators_dropSlashes.
  by destruct (path_resolve input) as [ | c [ | d rest]].
Qed.

Section SyncBootstrap.
Context `{Host} `{Agent}.
Variable cfg : CliConfig.
Variable projects : list ProjectRegistration.

(** [projectPath] is a parent of [cwd]: the same path, or [cwd]
    continues it after the separator.  Both are normalized paths. *)
Definition isParentPath (projectPath cwd : jsstring) : Prop :=
  cwd = projectPath \/ exists rest, cwd = projectPath ++ path_sep ++ rest.

Definition projectPathOf (p : ProjectRegistration) : jsstring :=
  specNormalizedPath (proj_absolutePath p).

(** [p] is a registered project that is a parent of [cwd], and no
    registered parent of [cwd] has a longer normalized path. *)
Definition LongestParent (cwd : jsstring) (p : ProjectRegistration) : Prop :=
  In p projects
  /\ isParentPath (projectPathOf p) (specNormalizedPath cwd)
  /\ forall q, In q projects -> isParentPath (projectPathOf q) (specNormalizedPath cwd) ->
               (length (projectPathOf q) <= length (projectPathOf p))%nat.

Definition NoParent (cwd : jsstring) : Prop :=
  forall q, In q projects -> ~ isParentPath (projectPathOf q) (specNormalizedPath cwd).

(** The [thread.upsert] the specification asks for a listed thread:
    the thread has an id and a cwd, and the message carries the
    derived id, the id of a longest parent project and the agent id. *)
Definition UpsertFor (t : Json) (id : jsstring) (m : RelayClientMessage) : Prop :=
  exists cwd p createdAt updatedAt,
    t <> JNull
    /\ getString (prop "id" t) = Some id /\ id <> []
    /\ getString (prop "cwd" t) = Some cwd /\ cwd <> []
    /\ LongestParent cwd p
    /\ m = ThreadUpsert (cfg_machineId cfg)
             {| thr_id := lit "codex:" ++ id; thr_projectId := proj_id p;
                thr_codexThreadId := id;
                thr_title := titleFromPreview (getString (prop "preview" t));
                thr_status := lit "active";
                thr_createdAt := createdAt; thr_updatedAt := updatedAt |}.

(** A listed thread that is passed over: it lacks an id or a cwd, or
    no registered project is a parent of its cwd. *)
Definition PassedOver (t : Json) : Prop :=
  t <> JNull
  /\ match getString (prop "id" t), getString (prop "cwd" t) with
     | Some id, Some cwd => id = [] \/ cwd = [] \/ NoParent cwd
     | _, _ => True
     end.

(** What the bootstrap owes for a list of threads: one upsert and one
    binding for each thread that has a parent project, in order, and
    nothing for the others. *)
Inductive SyncTrace : list Json -> list RelayClientMessage ->
                      gmap jsstring jsstring -> gmap jsstring jsstring -> Prop :=
| SyncTrace_nil bindings : SyncTrace [] [] bindings bindings
| SyncTrace_bind t threads id m messages bindings bindings' :
    UpsertFor t id m ->
    SyncTrace threads messages (<[id := lit "codex:" ++ id]> bindings) bindings' ->
    SyncTrace (t :: threads) (m :: messages) bindings bindings'
| SyncTrace_pass t threads messages bindings bindings' :
    PassedOver t ->
    SyncTrace threads messages bindings bindings' ->
    SyncTrace (t :: threads) messages bindings bindings'.

Lemma withinProject_parent (cwd projectPath : jsstring) :
  withinProject cwd projectPath = true <-> isParentPath projectPath cwd.
Proof.
  unfold withinProject, isParentPath.
  rewrite orb_true_iff, jsstring_eqb_true, startsWith_prefix.
  split; intros [Heq | (rest & Hrest)]; [ by left | right | by left | right ];
    exists rest; by rewrite Hrest, <- ?app_assoc.
Qed.

Lemma findBest_spec (cwd : jsstring) (candidates : list ProjectRegistration) :
  forall bestMatch bestPathLength,
    match bestMatch with
    | Some b => bestPathLength = Z.of_nat (length (projectPathOf b))
    | None => bestPathLength = -1
    end ->
    match findBest cwd candidates bestMatch bestPathLength with
    | Some r =>
        (bestMatch = Some r \/ (In r candidates /\ isParentPath (projectPathOf r) cwd))
        /\ bestPathLength <= Z.of_nat (length (projectPathOf r))
        /\ forall q, In q candidates -> isParentPath (projectPathOf q) cwd ->
                     (length (projectPathOf q) <= length (projectPathOf r))%nat
    | None =>
        bestMatch = None
        /\ forall q, In q candidates -> ~ isParentPath (projectPathOf q) cwd
    end.
Proof.
  induction candidates as [ | project rest IH]; intros bestMatch bestPathLength Hbest.
  - cbn. destruct bestMatch as [b | ].
    + split; [ by left | ]. split; [ lia | done ].
    + done.
  - cbn [findBest]. rewrite normalizePath_spec. fold (projectPathOf project).
    destruct (withinProject cwd (projectPathOf project)) eqn:Ewithin; cbn [negb].
    + apply withinProject_parent in Ewithin.
      destruct (bestPathLength <? Z.of_nat (length (projectPathOf project))) eqn:Elonger.
      * apply Z.ltb_lt in Elonger.
        specialize (IH (Some project) (Z.of_nat (length (projectPathOf project))) eq_refl).
        destruct (findBest cwd rest (Some project) _) as [r | ]; [ | by destruct IH ].
        destruct IH as (Horigin & Hlen & Hmax).
        split; [ | split; [ lia | ] ].
        -- right. destruct Horigin as [[= <-] | [Hin Hparent]]; cbn; by auto.
        -- intros q [<- | Hq] Hparent; [ lia | by apply Hmax ].
      * apply Z.ltb_ge in Elonger.
        specialize (IH bestMatch bestPathLength Hbest).
        destruct (findBest cwd rest bestMatch bestPathLength) as [r | ].
        -- destruct IH as (Horigin & Hlen & Hmax).
           split; [ | split; [ done | ] ].
           ++ destruct Horigin as [-> | [Hin Hparent]]; cbn; by auto.
           ++ intros q [<- | Hq] Hparent; [ lia | by apply Hmax ].
        -- destruct IH as [-> _]. lia.
    + assert (Hnot : ~ isParentPath (projectPathOf project) cwd).
      { rewrite <- withinProject_parent. by rewrite Ewithin. }
      specialize (IH bestMatch bestPathLength Hbest).
      destruct (findBest cwd rest bestMatch bestPathLength) as [r | ].
      * destruct IH as (Horigin & Hlen & Hmax).
        split; [ | split; [ done | ] ].
        -- destruct Horigin as [-> | [Hin Hparent]]; cbn; by auto.
        -- intros q [<- | Hq] Hparent; [ done | by apply Hmax ].
      * destruct IH as [-> Hnone]. split; [ done | ].
        intros q [<- | Hq]; [ done | by apply Hnone ].
Qed.

(** [findProjectIdForCwd] returns the id of a longest parent project,
    or null when no project is a parent. *)
Lemma findProjectIdForCwd_spec (cwd : jsstring) :
  match findProjectIdForCwd projects cwd with
  | Some projectId => exists p, LongestParent cwd p /\ projectId = proj_id p
  | None => NoParent cwd
  end.
Proof.
  unfold findProjectIdForCwd. rewrite normalizePath_spec.
  pose proof (findBest_spec (specNormalizedPath cwd) projects None (-1) eq_refl) as Hbest.
  destruct (findBest (specNormalizedPath cwd) projects None (-1)) as [r | ].
  - destruct Hbest as ([[=] | [Hin Hparent]] & _ & Hmax).
    exists r. by repeat split.
  - by destruct Hbest as [_ Hnone].
Qed.

End SyncBootstrap.

Lemma nonEmpty_false (s : jsstring) : nonEmpty s = false <-> s = [].
Proof. by destruct s. Qed.

Lemma nonEmpty_true (s : jsstring) : nonEmpty s = true <-> s <> [].
Proof. by destruct s. Qed.

Lemma normalizeTimestamp_runs `{Host} (value : option spec_float) (st : Bridge) :
  exists r st', normalizeTimestamp value st = (Ok r, st')
                /\ wire st' = wire st /\ ws st' = ws st
                /\ threadBindings st' = threadBindings st.
Proof.
  unfold normalizeTimestamp, dateNow, mbind, M_bind, mret, M_ret.
  destruct value as [v | ]; [ destruct (_ || _) | ]; by eexists _, _.
Qed.

(** An entry that is not [null] is read member by member. *)
Lemma syncThread_not_null `{Host} (cfg : CliConfig) (projects : list ProjectRegistration)
    (synced : nat) (t : Json) (st : Bridge) :
  t <> JNull ->
  syncThread cfg projects synced t st
  = match getString (prop "id" t), getString (prop "cwd" t) with
      | Some codexThreadId, Some cwd =>
          if negb (nonEmpty codexThreadId) || negb (nonEmpty cwd)
          then mret synced
          else
            match findProjectIdForCwd projects cwd with
            | None => mret synced
            | Some projectId =>
                if negb (nonEmpty projectId) then mret synced
                else
                  let durangoThreadId := makeDurangoThreadId codexThreadId in
                  modify (setBinding codexThreadId durangoThreadId);;
                  createdAt ← normalizeTimestamp
                                (getNumber (prop "createdAt" t));
                  updatedAt ← normalizeTimestamp
                                (match getNumber (prop "updatedAt" t) with
                                 | Some u => Some u
                                 | None => getNumber (prop "createdAt" t)
                                 end);
                  send (ThreadUpsert (cfg_machineId cfg)
                          {| thr_id := durangoThreadId;
                             thr_projectId := projectId;
                             thr_codexThreadId := codexThreadId;
                             thr_title :=
                               titleFromPreview (getString (prop "preview" t));
                             thr_status := lit "active";
                             thr_createdAt := createdAt;
                             thr_updatedAt := updatedAt |});;
                  mret (S synced)
            end
      | _, _ => mret synced
      end st.
Proof. by destruct t. Qed.

Section SyncLoop.
Context `{Host} `{Agent}.
Variable cfg : CliConfig.
Variable projects : list ProjectRegistration.
Hypothesis projectIds : Forall (fun p => proj_id p <> []) projects.

(** One listed entry that is not [null], on an open socket: it is
    passed over and nothing changes, or it is bound and its upsert is
    sent. *)
Lemma syncThread_step (synced : nat) (t : Json) (st : Bridge) :
  t <> JNull ->
  ws st = Some OPEN ->
  let out := syncThread cfg projects synced t st in
  ws (snd out) = Some OPEN
  /\ exists n, fst out = Ok n
  /\ ((PassedOver projects t
       /\ wire (snd out) = wire st /\ threadBindings (snd out) = threadBindings st)
      \/ exists id m,
           UpsertFor cfg projects t id m
           /\ wire (snd out) = wire st ++ [m]
           /\ threadBindings (snd out) = <[id := lit "codex:" ++ id]> (threadBindings st)).
Proof.
  intros Hentry Hopen out. subst out. unfold PassedOver.
  rewrite syncThread_not_null by done.
  destruct (getString (prop "id" t)) as [id | ] eqn:Eid;
    [ | split; [ done | ]; exists synced; split; [ done | by left ] ].
  destruct (getString (prop "cwd" t)) as [cwd | ] eqn:Ecwd;
    [ | split; [ done | ]; exists synced; split; [ done | by left ] ].
  destruct (nonEmpty id) eqn:Eidne; cbn [negb orb];
    [ | split; [ done | ]; exists synced; split; [ done | ];
        left; split; [ split; [ done | left; by apply nonEmpty_false ] | done ] ].
  destruct (nonEmpty cwd) eqn:Ecwdne; cbn [negb orb];
    [ | split; [ done | ]; exists synced; split; [ done | ];
        left; split; [ split; [ done | right; left; by apply nonEmpty_false ] | done ] ].
  pose proof (findProjectIdForCwd_spec projects cwd) as Hfind.
  destruct (findProjectIdForCwd projects cwd) as [projectId | ];
    [ | split; [ done | ]; exists synced; split; [ done | ];
        left; split; [ split; [ done | by right; right ] | done ] ].
  destruct Hfind as (p & Hlongest & ->).
  assert (Hp : nonEmpty (proj_id p) = true).
  { apply nonEmpty_true. destruct Hlongest as [Hin _].
    exact (proj1 (List.Forall_forall _ _) projectIds p Hin). }
  rewrite Hp. cbn [negb].
  unfold mbind, M_bind, modify. cbn [fst snd].
  set (st1 := setBinding id _ st).
  destruct (normalizeTimestamp_runs (getNumber (prop "createdAt" t)) st1)
    as (createdAt & st2 & -> & Hw2 & Hs2 & Hb2).
  match goal with
  | |- context [normalizeTimestamp ?v st2] =>
      destruct (normalizeTimestamp_runs v st2) as (updatedAt & st3 & -> & Hw3 & Hs3 & Hb3)
  end.
  assert (Hopen3 : ws st3 = Some OPEN) by (by rewrite Hs3, Hs2).
  rewrite (send_open st3 _ Hopen3). unfold mret, M_ret. cbn [fst snd].
  split; [ done | ]. exists (S synced). split; [ done | ].
  right. eexists id, _. split; [ | split ].
  - exists cwd, p, createdAt, updatedAt.
    split; [ done | ].
    split; [ done | ]. split; [ by apply nonEmpty_true | ].
    split; [ done | ]. split; [ by apply nonEmpty_true | ].
    split; [ exact Hlongest | reflexivity ].
  - cbn [wire pushWire]. by rewrite Hw3, Hw2.
  - cbn [threadBindings pushWire]. by rewrite Hb3, Hb2.
Qed.

Lemma syncThreads_loop (threads : list Json) :
  Forall (fun t => t <> JNull) threads ->
  forall synced st,
    ws st = Some OPEN ->
    let out := foldM (syncThread cfg projects) threads synced st in
    (exists n, fst out = Ok n)
    /\ exists messages,
         wire (snd out) = wire st ++ messages
         /\ SyncTrace cfg projects threads messages
              (threadBindings st) (threadBindings (snd out)).
Proof.
  induction 1 as [ | t rest Hentry _ IH]; intros synced st Hopen; cbn zeta.
  - split; [ by exists synced | ]. exists []. rewrite app_nil_r.
    split; [ done | constructor ].
  - cbn [foldM]. unfold mbind, M_bind.
    destruct (syncThread_step synced t st Hentry Hopen) as (Hopen1 & n & Hok & Hstep).
    cbn zeta in *.
    destruct (syncThread cfg projects synced t st) as [r st1]. cbn [fst snd] in *.
    subst r.
    destruct (IH n st1 Hopen1) as (Hok' & messages & Hw & Htrace). cbn zeta in *.
    split; [ done | ].
    destruct Hstep as [(Hpass & Hw1 & Hb1) | (id & m & Hupsert & Hw1 & Hb1)].
    + exists messages. rewrite Hw, Hw1. split; [ done | ].
      apply SyncTrace_pass; [ done | ]. by rewrite <- Hb1.
    + exists (m :: messages). rewrite Hw, Hw1, <- app_assoc. split; [ done | ].
      eapply SyncTrace_bind; [ exact Hupsert | ]. by rewrite <- Hb1.
Qed.

End SyncLoop.

Lemma SyncTrace_no_projects `{Host} (cfg : CliConfig) (threads : list Json)
    (bindings : gmap jsstring jsstring) :
  Forall (fun t => t <> JNull) threads ->
  SyncTrace cfg [] threads [] bindings bindings.
Proof.
  induction 1 as [ | t rest Hentry _ IH]; [ constructor | ].
  apply SyncTrace_pass; [ | done ].
  split; [ done | ].
  destruct (getString (prop "id" t)); [ | done ].
  destruct (getString (prop "cwd" t)); [ | done ].
  right. right. by intros q Hq.
Qed.

Definition exampleProjects : list ProjectRegistration :=
  [{| proj_id := lit "p-a"; proj_machineId := lit "machine-test";
      proj_absolutePath := lit "/a/"; proj_name := lit "a" |};
   {| proj_id := lit "p-ab"; proj_machineId := lit "machine-test";
      proj_absolutePath := lit "/a/b"; proj_name := lit "b" |}].

Example findProjectIdForCwd_scenario :
  findProjectIdForCwd exampleProjects (lit "/a/b/c") = Some (lit "p-ab")
  /\ findProjectIdForCwd exampleProjects (lit "/a/x") = Some (lit "p-a")
  /\ findProjectIdForCwd exampleProjects (lit "/a/b") = Some (lit "p-ab")
  /\ findProjectIdForCwd exampleProjects (lit "/ab") = None
  /\ findProjectIdForCwd exampleProjects (lit "/other") = None.
Proof. by repeat split. Qed.

Example syncThreads_scenario :
  map (fun m => match m with
                | ThreadUpsert _ t => (thr_id t, thr_projectId t)
                | _ => ([], [])
                end)
    (wire (snd (syncThreads exampleConfig exampleProjects (freshBridge (Some OPEN)))))
  = [(lit "codex:t-/a/b/c", lit "p-ab"); (lit "codex:t-/a/x", lit "p-a")].
Proof. vm_compute. reflexivity. Qed.

(** An agent whose listing holds a [null] before a thread in [/a/b/c]. *)
Definition nullEntryAgent : Agent := {|
  agent_threadStart := fun _ _ => answers (lit "thread-1");
  agent_turnStart := fun _ _ _ => answers tt;
  agent_threadRead := fun _ => answers JNull;
  agent_listModels := answers [];
  agent_listThreads := answers [JNull; exampleThread "/a/b/c"];
  agent_turnInterrupt := fun _ => answers tt;
  fs_mkdir := fun _ => answers tt;
  fs_writeFile := fun _ _ => answers tt
|}.

(** C8, the claim as stated fails, in two ways.  On a relay socket
    that is closed the thread in [/a/b/c] is bound but no
    [thread.upsert] is sent for it, since [send] discards what it is
    given.  And when a [null] entry stands before the thread in the
    listing, the bootstrap ends with a [TypeError] at that entry: the
    thread has an id and a cwd and the project at [/a/b] is a parent of
    its cwd, but it is not bound and no [thread.upsert] is sent. *)
Lemma sync_binds_longest_parent_counterexample :
  let closed := @syncThreads exampleHost exampleAgent exampleConfig exampleProjects
                  (freshBridge (Some CLOSED)) in
  let out := @syncThreads exampleHost nullEntryAgent exampleConfig exampleProjects
               (freshBridge (Some OPEN)) in
  getString (prop "id" (exampleThread "/a/b/c")) = Some (lit "t-/a/b/c")
  /\ getString (prop "cwd" (exampleThread "/a/b/c")) = Some (lit "/a/b/c")
  /\ findProjectIdForCwd exampleProjects (lit "/a/b/c") = Some (lit "p-ab")
  /\ (fst closed = Ok tt
      /\ threadBindings (snd closed) !! lit "t-/a/b/c" = Some (lit "codex:t-/a/b/c")
      /\ wire (snd closed) = [])
  /\ (fst out = Throw (ThrownError (lit "Cannot read properties of null (reading 'id')"))
      /\ threadBindings (snd out) !! lit "t-/a/b/c" = None
      /\ wire (snd out) = []).
Proof. vm_compute. by repeat split. Qed.

(** C8, amended.  With project ids that are not empty (the manifest
    loader accepts no other), on a relay socket that is open and a
    thread list the agent returned in which no entry is [null]: the
    bootstrap goes through the threads in order; for each thread that
    has an id and a cwd and whose normalized cwd has a registered
    parent project it installs the binding of the agent id to
    [codex:<agent id>] and sends one [thread.upsert] with that id, the
    agent id and the id of a parent project of greatest normalized path
    length; for every other thread it installs nothing and sends
    nothing.  A normalized path is the absolute path without the
    separators at its end ([specNormalizedPath]). *)
Theorem sync_binds_longest_parent `{Host} `{Agent} (cfg : CliConfig)
    (projects : list ProjectRegistration) (threads : list Json) (st : Bridge) :
  Forall (fun p => proj_id p <> []) projects ->
  ws st = Some OPEN ->
  outcome_result agent_listThreads = Ok threads ->
  outcome_relayCloses agent_listThreads = false ->
  Forall (fun t => t <> JNull) threads ->
  let out := syncThreads cfg projects st in
  fst out = Ok tt
  /\ exists messages,
       wire (snd out) = wire st ++ messages
       /\ SyncTrace cfg projects threads messages
            (threadBindings st) (threadBindings (snd out)).
Proof.
  intros Hids Hopen Hlist Hstays Hentries out. subst out. unfold syncThreads.
  destruct projects as [ | p rest] eqn:Eprojects.
  { split; [ done | ]. exists []. rewrite app_nil_r. split; [ done | ].
    by apply SyncTrace_no_projects. }
  rewrite <- Eprojects in *. clear Eprojects.
  unfold tryCatch, await, mbind, M_bind, mret, M_ret. rewrite Hlist, Hstays.
  cbn [fst snd].
  destruct (syncThreads_loop cfg projects Hids threads Hentries 0%nat st Hopen)
    as ((n & Hok) & messages & Hw & Htrace). cbn zeta in *.
  destruct (foldM (syncThread cfg projects) threads 0%nat st) as [r st1].
  cbn [fst snd] in *. subst r. split; [ done | ]. by exists messages.
Qed.

(** The theorem on the example agent, which lists threads in [/a/b/c],
    [/a/x] and [/other], with projects at [/a] and [/a/b]. *)
Lemma sync_binds_longest_parent_witness :
  exists messages,
    wire (snd (syncThreads exampleConfig exampleProjects (freshBridge (Some OPEN))))
    = messages
    /\ SyncTrace exampleConfig exampleProjects
         [exampleThread "/a/b/c"; exampleThread "/a/x"; exampleThread "/other"] messages
         ∅ (threadBindings (snd (syncThreads exampleConfig exampleProjects
                                   (freshBridge (Some OPEN))))).
Proof.
  assert (Hids : Forall (fun p => proj_id p <> []) exampleProjects).
  { repeat constructor; discriminate. }
  assert (Hlist : outcome_result agent_listThreads
                  = Ok [exampleThread "/a/b/c"; exampleThread "/a/x"; exampleThread "/other"])
    by reflexivity.
  assert (Hstays : outcome_relayCloses agent_listThreads = false) by reflexivity.
  assert (Hentries : Forall (fun t => t <> JNull)
                       [exampleThread "/a/b/c"; exampleThread "/a/x"; exampleThread "/other"]).
  { repeat constructor; discriminate. }
  destruct (sync_binds_longest_parent exampleConfig exampleProjects _
              (freshBridge (Some OPEN)) Hids eq_refl Hlist Hstays Hentries)
    as (_ & messages & Hw & Htrace).
  exists messages. split; [ exact Hw | exact Htrace ].
Defined.

(** ** The pending-request table *)

Section PendingTable.
Import CodexAppServerClient.
Context `{Host}.

Definition closedMessage (id : jsstring) : jsstring :=
  lit "Client closed before response: " ++ id.

(** The events of [stop] for one entry. *)
Definition rejection (entry : jsstring * jsstring) : list Event :=
  [EvClearTimeout (fst entry); EvSettle (fst entry) (Rejected (closedMessage (fst entry)));
   EvDelete (fst entry)].

(** Every settlement in the trace comes after the removal of its
    entry, or is the rejection of [stop], which the removal follows
    at once. *)
Definition Ordered (t : list Event) : Prop :=
  forall pre id s post,
    t = pre ++ EvSettle id s :: post ->
    In (EvDelete id) pre
    \/ (s = Rejected (closedMessage id) /\ exists post', post = EvDelete id :: post').

(** The claim as stated: the removal always comes first. *)
Definition RemovedBeforeSignaled (t : list Event) : Prop :=
  forall pre id s post, t = pre ++ EvSettle id s :: post -> In (EvDelete id) pre.

Definition Settled (c : Client) : Prop :=
  (forall id, mapGet id (armed c) = mapGet id (pending c))
  /\ (forall id, isPending id c = true ->
                 In id (issued c) /\ settlements id (trace c) = [])
  /\ (forall id, isPending id c = false -> In id (issued c) ->
                 exists s, settlements id (trace c) = [s])
  /\ (forall id, ~ In id (issued c) -> settlements id (trace c) = [])
  /\ NoDup (map fst (pending c))
  /\ Ordered (trace c).

Lemma mapGet_mapSet (k id v : jsstring) (m : list (jsstring * jsstring)) :
  mapGet k (mapSet id v m) = if jsstring_eqb k id then Some v else mapGet k m.
Proof.
  induction m as [ | [k' w] m IH]; cbn.
  - by destruct (jsstring_eqb k id).
  - destruct (jsstring_eqb id k') eqn:E; cbn.
    + apply jsstring_eqb_true in E as <-. by destruct (jsstring_eqb k id).
    + rewrite IH. destruct (jsstring_eqb k k') eqn:E'; [ | done ].
      apply jsstring_eqb_true in E' as <-.
      destruct (jsstring_eqb k id) eqn:E''; [ | done ].
      apply jsstring_eqb_true in E'' as <-. by rewrite jsstring_eqb_refl in E.
Qed.

Lemma mapGet_mapDelete (k id : jsstring) (m : list (jsstring * jsstring)) :
  mapGet k (mapDelete id m) = if jsstring_eqb k id then None else mapGet k m.
Proof.
  unfold mapDelete. induction m as [ | [k' w] m IH]; cbn.
  - by destruct (jsstring_eqb k id).
  - destruct (jsstring_eqb id k') eqn:E; cbn.
    + apply jsstring_eqb_true in E as <-. rewrite IH.
      by destruct (jsstring_eqb k id).
    + rewrite IH. destruct (jsstring_eqb k k') eqn:E'; [ | done ].
      apply jsstring_eqb_true in E' as <-.
      destruct (jsstring_eqb k id) eqn:E''; [ | done ].
      apply jsstring_eqb_true in E'' as <-. by rewrite jsstring_eqb_refl in E.
Qed.

Lemma mapGet_None_keys (k : jsstring) (m : list (jsstring * jsstring)) :
  mapGet k m = None <-> ~ In k (map fst m).
Proof.
  induction m as [ | [k' w] m IH]; cbn; [ tauto | ].
  destruct (jsstring_eqb k k') eqn:E.
  - apply jsstring_eqb_true in E as <-. split; [ done | tauto ].
  - apply jsstring_eqb_false in E. rewrite IH. split; [ | tauto ].
    intros Hnot [-> | Hin]; tauto.
Qed.

Lemma mapDelete_keys (id : jsstring) (m : list (jsstring * jsstring)) :
  forall k, In k (map fst (mapDelete id m)) <-> In k (map fst m) /\ k <> id.
Proof.
  intros k. unfold mapDelete. rewrite !in_map_iff. split.
  - intros ([k' w] & <- & Hin). apply filter_In in Hin as [Hin Hne]. cbn in *.
    apply negb_true_iff, jsstring_eqb_false in Hne.
    split; [ by exists (k', w) | congruence ].
  - intros [([k' w] & <- & Hin) Hne]. exists (k', w). split; [ done | ].
    apply filter_In. split; [ done | ]. cbn in *.
    apply negb_true_iff, jsstring_eqb_false. congruence.
Qed.

Lemma mapDelete_NoDup (id : jsstring) (m : list (jsstring * jsstring)) :
  NoDup (map fst m) -> NoDup (map fst (mapDelete id m)).
Proof.
  unfold mapDelete. induction m as [ | [k w] m IH]; cbn; [ done | ].
  rewrite NoDup_cons. intros [Hk Hm]. destruct (negb (jsstring_eqb id k)); cbn; [ | auto ].
  apply NoDup_cons. split; [ | auto ].
  intros Hin. apply Hk. apply list_elem_of_In in Hin. apply list_elem_of_In.
  apply (mapDelete_keys id m k) in Hin. tauto.
Qed.

Lemma mapSet_fresh (id v : jsstring) (m : list (jsstring * jsstring)) :
  mapGet id m = None -> mapSet id v m = m ++ [(id, v)].
Proof.
  induction m as [ | [k w] m IH]; cbn; [ done | ].
  destruct (jsstring_eqb id k); [ done | ]. intros Hnone. by rewrite IH.
Qed.

Lemma settlements_app (id : jsstring) (t1 t2 : list Event) :
  settlements id (t1 ++ t2) = settlements id t1 ++ settlements id t2.
Proof. unfold settlements. apply flat_map_app. Qed.

Lemma Ordered_app (t suffix : list Event) :
  Ordered t -> Ordered suffix -> Ordered (t ++ suffix).
Proof.
  intros Ht Hs pre id s post Heq.
  apply app_eq_app in Heq as (l & [[-> Hsplit] | [-> Hsplit]]).
  - destruct l as [ | e l].
    + cbn in Hsplit.
      destruct (Hs [] id s post) as [[] | Hclosed]; [ by rewrite <- Hsplit | by right ].
    + cbn in Hsplit. injection Hsplit as <- ->.
      destruct (Ht pre id s l eq_refl) as [Hin | (-> & post' & ->)]; [ by left | ].
      right. split; [ done | ]. by eexists.
  - destruct (Hs l id s post Hsplit) as [Hin | Hclosed]; [ | by right ].
    left. apply in_or_app. by right.
Qed.

Lemma Ordered_quiet (suffix : list Event) :
  (forall id s, ~ In (EvSettle id s) suffix) -> Ordered suffix.
Proof.
  intros Hnone pre id s post ->. exfalso. apply (Hnone id s).
  apply in_or_app. right. by left.
Qed.

Lemma Ordered_removed_first (id : jsstring) (middle : list Event) (s : Settlement) :
  (forall k r, ~ In (EvSettle k r) middle) ->
  Ordered (EvDelete id :: middle ++ [EvSettle id s]).
Proof.
  intros Hmiddle pre k r post Heq. left.
  destruct pre as [ | e pre]; [ done | ]. injection Heq as <- Heq.
  assert (Hk : k = id); [ | subst k; by left ].
  apply app_eq_app in Heq as (l & [[-> Hsplit] | [-> Hsplit]]).
  - destruct l as [ | e l]; cbn in Hsplit.
    + by injection Hsplit as <- _ _.
    + exfalso. injection Hsplit as <- _. apply (Hmiddle k r).
      apply in_or_app. right. by left.
  - destruct l as [ | e l]; cbn in Hsplit.
    + by injection Hsplit as -> _ _.
    + injection Hsplit as _ Hl. by destruct l.
Qed.

Lemma Ordered_rejections (entries : list (jsstring * jsstring)) :
  Ordered (flat_map rejection entries).
Proof.
  induction entries as [ | [id method] rest IH]; [ by intros [ | ] ? ? ? | ].
  cbn [flat_map]. intros pre k s post Heq.
  destruct pre as [ | e1 pre]; [ done | ]. injection Heq as <- Heq.
  destruct pre as [ | e2 pre].
  { injection Heq as <- <- <-. right. split; [ done | ]. by eexists. }
  injection Heq as <- Heq.
  destruct pre as [ | e3 pre]; [ done | ]. injection Heq as <- Heq.
  destruct (IH pre k s post Heq) as [Hin | Hclosed]; [ | by right ].
  left. cbn. tauto.
Qed.

Lemma settlements_rejections (id : jsstring) (entries : list (jsstring * jsstring)) :
  NoDup (map fst entries) ->
  settlements id (flat_map rejection entries)
  = if bool_decide (id ∈ map fst entries) then [Rejected (closedMessage id)] else [].
Proof.
  induction entries as [ | [k method] rest IH]; cbn [flat_map map fst]; [ done | ].
  rewrite NoDup_cons. intros [Hk Hrest].
  rewrite settlements_app, (IH Hrest). cbn.
  destruct (jsstring_eqb id k) eqn:E.
  - apply jsstring_eqb_true in E as <-.
    rewrite (bool_decide_eq_false_2 (id ∈ map fst rest)) by done.
    rewrite bool_decide_eq_true_2; [ done | by left ].
  - apply jsstring_eqb_false in E. cbn.
    destruct (bool_decide (id ∈ map fst rest)) eqn:Erest.
    + apply bool_decide_eq_true in Erest.
      by rewrite bool_decide_eq_true_2 by (by right).
    + apply bool_decide_eq_false in Erest.
      rewrite bool_decide_eq_false_2; [ done | ].
      rewrite elem_of_cons. tauto.
Qed.

Lemma deleted_keys (k id : jsstring) (rest : list jsstring) (found : option jsstring) :
  (if bool_decide (k ∈ rest) then None else if jsstring_eqb k id then None else found)
  = if bool_decide (k ∈ id :: rest) then None else found.
Proof.
  destruct (bool_decide (k ∈ rest)) eqn:Erest.
  - apply bool_decide_eq_true in Erest.
    by rewrite bool_decide_eq_true_2 by (by right).
  - apply bool_decide_eq_false in Erest.
    destruct (jsstring_eqb k id) eqn:E.
    + apply jsstring_eqb_true in E as ->.
      by rewrite bool_decide_eq_true_2 by (by left).
    + apply jsstring_eqb_false in E.
      rewrite bool_decide_eq_false_2; [ done | ]. rewrite elem_of_cons. tauto.
Qed.

(** [stop] rejects every entry, each one before it is removed, and
    leaves the table and the timers empty. *)
Lemma rejectAll_result (entries : list (jsstring * jsstring)) :
  forall c,
    let c' := rejectAll entries c in
    trace c' = trace c ++ flat_map rejection entries
    /\ issued c' = issued c
    /\ (forall k, mapGet k (pending c')
                  = if bool_decide (k ∈ map fst entries) then None
                    else mapGet k (pending c))
    /\ (forall k, mapGet k (armed c')
                  = if bool_decide (k ∈ map fst entries) then None
                    else mapGet k (armed c))
    /\ (NoDup (map fst (pending c)) -> NoDup (map fst (pending c'))).
Proof.
  induction entries as [ | [id method] rest IH]; intros c; cbn zeta.
  - cbn. rewrite app_nil_r. by repeat split.
  - cbn [rejectAll flat_map map fst].
    match goal with
    | |- context [rejectAll rest ?c1] => destruct (IH c1) as (Ht & Hi & Hp & Ha & Hn)
    end.
    cbn zeta in *. cbn [trace issued pending armed] in *.
    split; [ rewrite Ht; by rewrite <- app_assoc | ].
    split; [ done | ].
    split; [ | split ].
    + intros k. rewrite Hp, mapGet_mapDelete. apply deleted_keys.
    + intros k. rewrite Ha. unfold disarm. rewrite mapGet_mapDelete. apply deleted_keys.
    + intros Hnodup. apply Hn. by apply mapDelete_NoDup.
Qed.

End PendingTable.

Section PendingInvariant.
Import CodexAppServerClient.
Context `{Host}.

Lemma settlements_quiet (id : jsstring) (t : list Event) :
  (forall k r, ~ In (EvSettle k r) t) -> settlements id t = [].
Proof.
  unfold settlements. induction t as [ | e t IH]; intros Hnone; [ done | ].
  cbn [flat_map]. rewrite IH by (intros k r Hin; apply (Hnone k r); by right).
  destruct e; try done. exfalso. eapply Hnone. by left.
Qed.

Lemma isPending_get (id : jsstring) (c : Client) :
  isPending id c = true <-> exists method, mapGet id (pending c) = Some method.
Proof.
  unfold isPending. destruct (mapGet id (pending c)); split; try done.
  - by eexists.
  - by intros (method & ?).
Qed.

Lemma mapGet_all_None (m : list (jsstring * jsstring)) :
  (forall k, mapGet k m = None) -> m = [].
Proof.
  destruct m as [ | [k v] m]; [ done | ]. intros Hnone. specialize (Hnone k).
  cbn in Hnone. by rewrite jsstring_eqb_refl in Hnone.
Qed.

Lemma Settled_initial : Settled initial.
Proof.
  repeat split; try done.
  - constructor.
  - by intros [ | ] ? ? ? ?.
Qed.

(** Events that settle nothing keep the invariant. *)
Lemma Settled_quiet (c : Client) (open : bool) (events : list Event) :
  (forall k r, ~ In (EvSettle k r) events) ->
  Settled c ->
  Settled {| socketOpen := open; pending := pending c; armed := armed c;
             issued := issued c; trace := trace c ++ events |}.
Proof.
  intros Hquiet (P1 & P2 & P3 & P4 & P5 & P6).
  unfold Settled, isPending in *. cbn [pending armed issued trace].
  split; [ done | ].
  split; [ intros id Hp; rewrite settlements_app, (settlements_quiet id events Hquiet),
             app_nil_r; by apply P2 | ].
  split; [ intros id Hp Hi; rewrite settlements_app,
             (settlements_quiet id events Hquiet), app_nil_r; by apply P3 | ].
  split; [ intros id Hi; rewrite settlements_app,
             (settlements_quiet id events Hquiet), app_nil_r; by apply P4 | ].
  split; [ done | ]. apply Ordered_app; [ done | by apply Ordered_quiet ].
Qed.

Lemma Settled_request (method id : jsstring) (c : Client) :
  Settled c -> ~ In id (issued c) -> Settled (request method id c).
Proof.
  intros HS Hfresh. unfold request.
  destruct (socketOpen c); cbn [negb].
  - destruct HS as (P1 & P2 & P3 & P4 & P5 & P6).
    assert (Hnone : mapGet id (pending c) = None).
    { destruct (mapGet id (pending c)) eqn:E; [ | done ].
      exfalso. apply Hfresh. apply P2. unfold isPending. by rewrite E. }
    assert (Hquiet : forall k r,
               ~ In (EvSettle k r) [EvArm id timeoutMs; EvSet id; EvSend id method]).
    { intros k r [E | [E | [E | []]]]; discriminate E. }
    rewrite <- (mapSet_fresh id method (armed c)) by (by rewrite P1).
    unfold Settled, isPending. cbn [pending armed issued trace].
    split; [ intros k; rewrite !mapGet_mapSet; by rewrite P1 | ].
    split; [ | split; [ | split; [ | split ] ] ].
    + intros k. rewrite mapGet_mapSet, settlements_app, (settlements_quiet _ _ Hquiet),
        app_nil_r.
      destruct (jsstring_eqb k id) eqn:E.
      * apply jsstring_eqb_true in E as ->. intros _.
        split; [ apply in_or_app; right; by left | by apply P4 ].
      * intros Hk. destruct (P2 k Hk) as [Hin Hs].
        split; [ apply in_or_app; by left | done ].
    + intros k. rewrite mapGet_mapSet, settlements_app, (settlements_quiet _ _ Hquiet),
        app_nil_r.
      destruct (jsstring_eqb k id) eqn:E; [ done | ].
      apply jsstring_eqb_false in E.
      intros Hk Hin. apply P3; [ done | ].
      apply in_app_or in Hin as [Hin | [-> | []]]; done.
    + intros k Hk. rewrite settlements_app, (settlements_quiet _ _ Hquiet), app_nil_r.
      apply P4. intros Hin. apply Hk. apply in_or_app. by left.
    + rewrite (mapSet_fresh _ _ _ Hnone), map_app. cbn.
      apply NoDup_app. split; [ done | ]. split; [ | apply NoDup_singleton ].
      intros k Hk ->%list_elem_of_singleton.
      apply list_elem_of_In in Hk. by apply mapGet_None_keys in Hnone.
    + apply Ordered_app; [ done | by apply Ordered_quiet ].
  - apply Settled_quiet; [ | done ]. intros k r [E | []]. discriminate E.
Qed.

(** Removing the entry of a pending request and then settling it once
    keeps the invariant. *)
Lemma Settled_settle (id : jsstring) (middle : list Event) (s : Settlement) (c : Client) :
  (forall k r, ~ In (EvSettle k r) middle) ->
  isPending id c = true ->
  Settled c ->
  Settled {| socketOpen := socketOpen c;
             pending := mapDelete id (pending c);
             armed := disarm id (armed c);
             issued := issued c;
             trace := trace c ++ EvDelete id :: middle ++ [EvSettle id s] |}.
Proof.
  intros Hmiddle Hpending (P1 & P2 & P3 & P4 & P5 & P6).
  assert (Hsuffix : forall k, settlements k (EvDelete id :: middle ++ [EvSettle id s])
                              = if jsstring_eqb k id then [s] else []).
  { intros k. change (EvDelete id :: middle ++ [EvSettle id s])
      with ([EvDelete id] ++ middle ++ [EvSettle id s]).
    rewrite !settlements_app, (settlements_quiet k middle Hmiddle). cbn.
    by destruct (jsstring_eqb k id). }
  unfold Settled, isPending, disarm in *. cbn [pending armed issued trace].
  split; [ intros k; rewrite !mapGet_mapDelete; by rewrite P1 | ].
  split; [ | split; [ | split; [ | split ] ] ].
  - intros k. rewrite mapGet_mapDelete, settlements_app, Hsuffix.
    destruct (jsstring_eqb k id); [ done | ]. rewrite app_nil_r. apply P2.
  - intros k. rewrite mapGet_mapDelete, settlements_app, Hsuffix.
    destruct (jsstring_eqb k id) eqn:E.
    + apply jsstring_eqb_true in E as ->. intros _ _.
      destruct (P2 id Hpending) as [_ ->]. by exists s.
    + rewrite app_nil_r. apply P3.
  - intros k Hk. rewrite settlements_app, Hsuffix.
    destruct (jsstring_eqb k id) eqn:E.
    + apply jsstring_eqb_true in E as ->. by destruct (P2 id Hpending) as [Hin _].
    + rewrite app_nil_r. by apply P4.
  - by apply mapDelete_NoDup.
  - apply Ordered_app; [ done | by apply Ordered_removed_first ].
Qed.

Lemma Settled_onTimeout (id method : jsstring) (c : Client) :
  Settled c -> mapGet id (armed c) = Some method -> Settled (onTimeout id method c).
Proof.
  intros HS Harmed. unfold onTimeout.
  apply (Settled_settle id [] _ c); [ by intros k r [] | | done ].
  destruct HS as (P1 & _). unfold isPending. by rewrite <- P1, Harmed.
Qed.

Lemma Settled_onMessage (message : JsonRpcMessage) (c : Client) :
  Settled c -> Settled (onMessage message c).
Proof.
  intros HS. unfold onMessage.
  assert (Hnotification :
    Settled match msg_method message with
            | Some method =>
                if nonEmpty method then
                  {| socketOpen := socketOpen c; pending := pending c; armed := armed c;
                     issued := issued c;
                     trace := trace c ++ [EvNotification method (msg_params message)] |}
                else c
            | None => c
            end).
  { destruct (msg_method message) as [method | ]; [ | done ].
    destruct (nonEmpty method); [ | done ].
    apply Settled_quiet; [ | done ]. intros k r [E | []]. discriminate E. }
  destruct (msg_id message) as [rpcId | ]; [ | done ].
  destruct (msg_result message) as [result | ] eqn:Eresult;
    destruct (msg_error message) as [error | ] eqn:Eerror; try done.
  all: destruct (mapGet (idToString rpcId) (pending c)) as [method | ] eqn:Eget;
    [ | done ].
  all: apply (Settled_settle _ [EvClearTimeout _] _ c);
    [ intros k r [E | []]; discriminate E | unfold isPending; by rewrite Eget | done ].
Qed.

Lemma Settled_stop (c : Client) : Settled c -> Settled (stop c).
Proof.
  intros (P1 & P2 & P3 & P4 & P5 & P6). unfold stop.
  destruct (rejectAll_result (pending c) c) as (Ht & Hi & Hp & Ha & Hn).
  cbn zeta in *.
  assert (Hgone : forall k, mapGet k (pending (rejectAll (pending c) c)) = None).
  { intros k. rewrite Hp. destruct (bool_decide _) eqn:E; [ done | ].
    apply bool_decide_eq_false in E. apply mapGet_None_keys.
    intros Hin. apply E. by apply list_elem_of_In. }
  unfold Settled, isPending in *. cbn [pending armed issued trace].
  split; [ | split; [ | split; [ | split; [ | split ] ] ] ].
  - intros k. rewrite Ha, Hgone. destruct (bool_decide _) eqn:E; [ done | ].
    apply bool_decide_eq_false in E. rewrite P1. apply mapGet_None_keys.
    intros Hin. apply E. by apply list_elem_of_In.
  - intros k. by rewrite Hgone.
  - intros k _. rewrite Hi, Ht, settlements_app, (settlements_rejections k _ P5).
    intros Hin. destruct (bool_decide _) eqn:E.
    + apply bool_decide_eq_true, list_elem_of_In in E.
      destruct (mapGet k (pending c)) as [method | ] eqn:Eget.
      * destruct (P2 k) as [_ ->]; [ by rewrite Eget | ]. by eexists.
      * by apply mapGet_None_keys in Eget.
    + rewrite app_nil_r. apply bool_decide_eq_false in E.
      apply P3; [ | done ].
      destruct (mapGet k (pending c)) as [method | ] eqn:Eget; [ | done ].
      assert (Hnone : mapGet k (pending c) = None).
      { apply mapGet_None_keys. intros Hin'. apply E. by apply list_elem_of_In. }
      congruence.
  - intros k. rewrite Hi, Ht, settlements_app, (settlements_rejections k _ P5).
    intros Hk. rewrite (P4 k Hk). destruct (bool_decide _) eqn:E; [ | done ].
    apply bool_decide_eq_true, list_elem_of_In in E. exfalso.
    destruct (mapGet k (pending c)) as [method | ] eqn:Eget.
    + apply Hk. apply P2. by rewrite Eget.
    + by apply mapGet_None_keys in Eget.
  - by apply Hn.
  - rewrite Ht. apply Ordered_app; [ done | apply Ordered_rejections ].
Qed.

End PendingInvariant.

Section PendingTheorem.
Import CodexAppServerClient.
Context `{Host}.

Lemma Settled_step (a : Action) (c c' : Client) :
  Settled c -> step a c = Some c' -> Settled c'.
Proof.
  intros HS. destruct a as [method id | message | id | | ]; cbn [step].
  - destruct (existsb (jsstring_eqb id) (issued c)) eqn:E; [ done | ].
    intros [= <-]. apply Settled_request; [ done | ].
    intros Hin. apply not_true_iff_false in E. apply E.
    apply existsb_exists. exists id. split; [ done | apply jsstring_eqb_refl ].
  - intros [= <-]. by apply Settled_onMessage.
  - destruct (mapGet id (armed c)) as [method | ] eqn:E; [ | done ].
    intros [= <-]. by apply Settled_onTimeout.
  - intros [= <-]. apply (Settled_quiet c false [EvDisconnected]); [ | done ].
    intros k r [E | []]. discriminate E.
  - intros [= <-]. by apply Settled_stop.
Qed.

Lemma Settled_run (actions : list Action) :
  forall c c', Settled c -> run actions c = Some c' -> Settled c'.
Proof.
  induction actions as [ | a rest IH]; intros c c' HS; cbn [run].
  - by intros [= <-].
  - destruct (step a c) as [c1 | ] eqn:E; [ | done ].
    apply IH. by apply (Settled_step a c).
Qed.

(** The settlement of a response frame. *)
Definition responseSettlement (message : JsonRpcMessage) : Settlement :=
  match msg_error message with
  | Some e => Rejected (rpc_message e)
  | None => Resolved (match msg_result message with Some r => r | None => JNull end)
  end.

End PendingTheorem.

Example request_then_stop :
  option_map CodexAppServerClient.trace
    (CodexAppServerClient.run
       [CodexAppServerClient.DoRequest (lit "thread/list") (lit "id-1");
        CodexAppServerClient.DoStop]
       CodexAppServerClient.initial)
  = Some [CodexAppServerClient.EvArm (lit "id-1") 30000;
          CodexAppServerClient.EvSet (lit "id-1");
          CodexAppServerClient.EvSend (lit "id-1") (lit "thread/list");
          CodexAppServerClient.EvClearTimeout (lit "id-1");
          CodexAppServerClient.EvSettle (lit "id-1")
            (CodexAppServerClient.Rejected (lit "Client closed before response: id-1"));
          CodexAppServerClient.EvDelete (lit "id-1")].
Proof. vm_compute. reflexivity. Qed.

(** C4, the claim as stated fails: when [stop] runs with a request
    pending, the request is rejected while its entry is still in the
    table; the entry is removed right after. *)
Lemma pending_entries_counterexample :
  match CodexAppServerClient.run
          [CodexAppServerClient.DoRequest (lit "thread/list") (lit "id-1");
           CodexAppServerClient.DoStop]
          CodexAppServerClient.initial with
  | Some c => ~ RemovedBeforeSignaled (CodexAppServerClient.trace c)
  | None => False
  end.
Proof.
  vm_compute. intros Hclaim.
  match type of Hclaim with
  | forall pre id s post, ?a :: ?b :: ?c :: ?d :: ?e :: ?f = _ -> _ =>
      specialize (Hclaim [a; b; c; d] _ _ _ eq_refl)
  end.
  repeat (destruct Hclaim as [Hclaim | Hclaim]; [ discriminate Hclaim | ]).
  exact Hclaim.
Qed.

(** C4, amended.  After any sequence of requests with fresh ids, frames,
    timer firings, socket closures and stops: every issued request is
    either pending with its timer armed and not yet signaled, or not
    pending, its timer gone, and signaled exactly once; every signal
    comes after the removal of its entry, except the rejection of
    [stop], which is signaled first and followed at once by the
    removal.  A request on an open socket installs its entry and a
    timer of 30000 ms.  A response for a pending id removes the entry,
    clears the timer and then resolves with the result or rejects with
    the message of the error.  A timer that fires removes the entry
    and then rejects.  [stop] rejects every entry with the client
    closed message and leaves no entry and no timer. *)
Theorem pending_entries_settled_once `{Host} (actions : list CodexAppServerClient.Action)
    (c : CodexAppServerClient.Client) :
  CodexAppServerClient.run actions CodexAppServerClient.initial = Some c ->
  (forall id, In id (CodexAppServerClient.issued c) ->
     (CodexAppServerClient.isPending id c = true
      /\ CodexAppServerClient.isArmed id c = true
      /\ CodexAppServerClient.settlements id (CodexAppServerClient.trace c) = [])
     \/ (CodexAppServerClient.isPending id c = false
         /\ CodexAppServerClient.isArmed id c = false
         /\ exists s, CodexAppServerClient.settlements id (CodexAppServerClient.trace c)
                      = [s]))
  /\ Ordered (CodexAppServerClient.trace c)
  /\ (forall method id,
        ~ In id (CodexAppServerClient.issued c) ->
        CodexAppServerClient.socketOpen c = true ->
        let c' := CodexAppServerClient.request method id c in
        CodexAppServerClient.isPending id c' = true
        /\ CodexAppServerClient.trace c'
           = CodexAppServerClient.trace c
             ++ [CodexAppServerClient.EvArm id 30000; CodexAppServerClient.EvSet id;
                 CodexAppServerClient.EvSend id method])
  /\ (forall message rpcId,
        CodexAppServerClient.msg_id message = Some rpcId ->
        CodexAppServerClient.msg_result message <> None
        \/ CodexAppServerClient.msg_error message <> None ->
        let id := CodexAppServerClient.idToString rpcId in
        let c' := CodexAppServerClient.onMessage message c in
        CodexAppServerClient.isPending id c = true ->
        CodexAppServerClient.isPending id c' = false
        /\ CodexAppServerClient.trace c'
           = CodexAppServerClient.trace c
             ++ [CodexAppServerClient.EvDelete id; CodexAppServerClient.EvClearTimeout id;
                 CodexAppServerClient.EvSettle id (responseSettlement message)])
  /\ (forall id method,
        let c' := CodexAppServerClient.onTimeout id method c in
        CodexAppServerClient.isPending id c' = false
        /\ CodexAppServerClient.trace c'
           = CodexAppServerClient.trace c
             ++ [CodexAppServerClient.EvDelete id;
                 CodexAppServerClient.EvSettle id
                   (CodexAppServerClient.Rejected (lit "Request timed out: " ++ method))])
  /\ (let c' := CodexAppServerClient.stop c in
      CodexAppServerClient.pending c' = []
      /\ CodexAppServerClient.armed c' = []
      /\ CodexAppServerClient.trace c'
         = CodexAppServerClient.trace c
           ++ flat_map rejection (CodexAppServerClient.pending c)).
Proof.
  intros Hrun.
  pose proof (Settled_run actions _ _ Settled_initial Hrun) as HS.
  pose proof (Settled_stop c HS) as HSstop.
  destruct HS as (P1 & P2 & P3 & P4 & P5 & P6).
  split; [ | split; [ done | ] ].
  { intros id Hin. unfold CodexAppServerClient.isArmed. rewrite P1.
    fold (CodexAppServerClient.isPending id c).
    destruct (CodexAppServerClient.isPending id c) eqn:E.
    - left. split; [ done | ]. split; [ done | ]. by apply P2.
    - right. split; [ done | ]. split; [ done | ]. by apply P3. }
  split.
  { intros method id Hfresh Hopen c'. subst c'.
    unfold CodexAppServerClient.request, CodexAppServerClient.isPending. rewrite Hopen.
    cbn. by rewrite mapGet_mapSet, jsstring_eqb_refl. }
  split.
  { intros message rpcId Hid Hresponse id c' Hpending. subst c'.
    unfold CodexAppServerClient.onMessage, responseSettlement. rewrite Hid. fold id.
    apply isPending_get in Hpending as (method & Hget). rewrite Hget.
    unfold CodexAppServerClient.isPending.
    destruct (CodexAppServerClient.msg_result message);
      destruct (CodexAppServerClient.msg_error message); cbn;
      rewrite ?mapGet_mapDelete, ?jsstring_eqb_refl; try done.
    by destruct Hresponse. }
  split.
  { intros id method c'. subst c'.
    unfold CodexAppServerClient.onTimeout, CodexAppServerClient.isPending. cbn.
    by rewrite mapGet_mapDelete, jsstring_eqb_refl. }
  cbn zeta.
  destruct HSstop as (Q1 & Q2 & _).
  assert (Hempty : CodexAppServerClient.pending (CodexAppServerClient.stop c) = []).
  { apply mapGet_all_None. intros k.
    destruct (CodexAppServerClient.mapGet k
                (CodexAppServerClient.pending (CodexAppServerClient.stop c))) eqn:E;
      [ | done ].
    exfalso. unfold CodexAppServerClient.stop in E. cbn in E.
    destruct (rejectAll_result (CodexAppServerClient.pending c) c) as (_ & _ & Hp & _).
    cbn zeta in Hp. rewrite Hp in E. destruct (bool_decide _) eqn:Ek; [ done | ].
    apply bool_decide_eq_false in Ek.
    assert (Hnone : CodexAppServerClient.mapGet k (CodexAppServerClient.pending c) = None).
    { apply mapGet_None_keys. intros Hin. apply Ek. by apply list_elem_of_In. }
    congruence. }
  split; [ done | ]. split.
  - apply mapGet_all_None. intros k. by rewrite Q1, Hempty.
  - unfold CodexAppServerClient.stop. cbn.
    by destruct (rejectAll_result (CodexAppServerClient.pending c) c) as (-> & _).
Qed.

(** The theorem after two requests, the answer to the first and the
    timeout of the second. *)
Lemma pending_entries_settled_once_witness :
  exists c,
    CodexAppServerClient.run
      [CodexAppServerClient.DoRequest (lit "thread/list") (lit "id-1");
       CodexAppServerClient.DoRequest (lit "turn/start") (lit "id-2");
       CodexAppServerClient.DoMessage
         {| CodexAppServerClient.msg_id := Some (CodexAppServerClient.IdString (lit "id-1"));
            CodexAppServerClient.msg_method := None;
            CodexAppServerClient.msg_params := None;
            CodexAppServerClient.msg_result := Some JNull;
            CodexAppServerClient.msg_error := None |};
       CodexAppServerClient.DoTimeout (lit "id-2")]
      CodexAppServerClient.initial = Some c
    /\ Ordered (CodexAppServerClient.trace c)
    /\ CodexAppServerClient.pending (CodexAppServerClient.stop c) = [].
Proof.
  eexists. split; [ vm_compute; reflexivity | ].
  match goal with
  | |- Ordered (CodexAppServerClient.trace ?c) /\ _ =>
      pose proof (pending_entries_settled_once
                    [CodexAppServerClient.DoRequest (lit "thread/list") (lit "id-1");
                     CodexAppServerClient.DoRequest (lit "turn/start") (lit "id-2");
                     CodexAppServerClient.DoMessage
                       {| CodexAppServerClient.msg_id :=
                            Some (CodexAppServerClient.IdString (lit "id-1"));
                          CodexAppServerClient.msg_method := None;
                          CodexAppServerClient.msg_params := None;
                          CodexAppServerClient.msg_result := Some JNull;
                          CodexAppServerClient.msg_error := None |};
                     CodexAppServerClient.DoTimeout (lit "id-2")]
                    c) as Hthm
  end.
  destruct Hthm as (_ & Hordered & _ & _ & _ & Hstop & _); [ vm_compute; reflexivity | ].
  split; [ exact Hordered | exact Hstop ].
Defined.

(** ** Hydration: what a replay emits *)

(** The items of the [event.upsert] messages among [delta]. *)
Definition itemsOf (delta : list RelayClientMessage) : list DurangoThreadItem :=
  omap (fun m => match m with EventUpsert _ _ _ item => Some item | _ => None end) delta.

Definition isUpsert (m : RelayClientMessage) : Prop :=
  match m with EventUpsert _ _ _ _ => True | _ => False end.

(** [b] may follow [a] in a pass: its timestamp is greater, or both are
    file changes with the same timestamp. *)
Definition follows (a b : DurangoThreadItem) : Prop :=
  timestampOf a < timestampOf b
  \/ (timestampOf a = timestampOf b /\ isFileChange a = true /\ isFileChange b = true).

Definition InOrder (items : list DurangoThreadItem) : Prop :=
  forall i j a b, (i < j)%nat -> items !! i = Some a -> items !! j = Some b -> follows a b.

(** The claim as stated: timestamps strictly increase. *)
Definition StrictlyIncreasing (items : list DurangoThreadItem) : Prop :=
  forall i j a b, (i < j)%nat -> items !! i = Some a -> items !! j = Some b ->
                  timestampOf a < timestampOf b.

(** Items in order whose timestamps lie in [lo, hi). *)
Definition Chain (lo hi : Z) (items : list DurangoThreadItem) : Prop :=
  lo <= hi
  /\ Forall (fun a => lo <= timestampOf a < hi) items
  /\ InOrder items.

Lemma itemsOf_app d1 d2 : itemsOf (d1 ++ d2) = itemsOf d1 ++ itemsOf d2.
Proof. unfold itemsOf. apply omap_app. Qed.

Lemma itemsOf_upserts (requestId machineId threadId : jsstring)
    (items : list DurangoThreadItem) :
  itemsOf (map (EventUpsert requestId machineId threadId) items) = items.
Proof.
  unfold itemsOf. induction items as [ | a items IH]; [ done | ].
  cbn. f_equal. exact IH.
Qed.

Lemma Chain_nil (lo hi : Z) : lo <= hi -> Chain lo hi [].
Proof. intros Hle. split; [ done | ]. split; [ constructor | ]. by intros i j a b _ Hi. Qed.

Lemma Chain_app (lo mid hi : Z) (l1 l2 : list DurangoThreadItem) :
  Chain lo mid l1 -> Chain mid hi l2 -> Chain lo hi (l1 ++ l2).
Proof.
  intros (Hle1 & Hb1 & Ho1) (Hle2 & Hb2 & Ho2).
  split; [ lia | ]. split.
  - apply Forall_app. split.
    + eapply Forall_impl; [ exact Hb1 | ]. cbn. intros a Ha. lia.
    + eapply Forall_impl; [ exact Hb2 | ]. cbn. intros a Ha. lia.
  - intros i j a b Hij Hi Hj.
    destruct (decide (j < length l1)%nat) as [Hj1 | Hj1].
    + rewrite lookup_app_l in Hi, Hj by lia. by apply (Ho1 i j).
    + rewrite lookup_app_r in Hj by lia.
      destruct (decide (i < length l1)%nat) as [Hi1 | Hi1].
      * rewrite lookup_app_l in Hi by lia. left.
        rewrite Forall_lookup in Hb1, Hb2.
        specialize (Hb1 _ _ Hi). specialize (Hb2 _ _ Hj). cbn in *. lia.
      * rewrite lookup_app_r in Hi by lia. apply (Ho2 (i - length l1)%nat (j - length l1)%nat);
          [ lia | done | done ].
Qed.

(** The items mapped from one upstream item share its timestamp; they
    are more than one only for a file change. *)
Lemma Chain_same (t : Z) (items : list DurangoThreadItem) :
  Forall (fun a => timestampOf a = t) items ->
  (length items <= 1)%nat \/ Forall (fun a => isFileChange a = true) items ->
  Chain t (t + 1) items.
Proof.
  intros Hts Hkind. split; [ lia | ]. split.
  - eapply Forall_impl; [ exact Hts | ]. cbn. intros a Ha. lia.
  - intros i j a b Hij Hi Hj. right.
    rewrite Forall_lookup in Hts.
    split; [ by rewrite (Hts _ _ Hi), (Hts _ _ Hj) | ].
    destruct Hkind as [Hshort | Hfc].
    + apply lookup_lt_Some in Hj. lia.
    + rewrite Forall_lookup in Hfc. split; [ by apply (Hfc i) | by apply (Hfc j) ].
Qed.

Lemma mapChanges_items (id turnId : jsstring) (t : Z) (changes : list Json) :
  forall index,
    Forall (fun a => timestampOf a = t /\ isFileChange a = true)
      (mapChanges id turnId t index changes).
Proof.
  induction changes as [ | change rest IH]; intros index; cbn [mapChanges]; [ constructor | ].
  destruct (mapChange id turnId t index change) as [item | ] eqn:E; [ | apply IH ].
  constructor; [ | apply IH ].
  unfold mapChange in E.
  destruct (asObject (Some change)); [ | done ].
  destruct (getString _); [ | done ].
  destruct (negb _); [ done | ]. by injection E as <-.
Qed.

Lemma mapCodexItemBody_items `{Host} (id : jsstring) (item : Json) (turnId : jsstring) (t : Z) :
  let items := mapCodexItemBody id item turnId t in
  Forall (fun a => timestampOf a = t) items
  /\ ((length items <= 1)%nat \/ Forall (fun a => isFileChange a = true) items).
Proof.
  cbn zeta. unfold mapCodexItemBody.
  repeat match goal with
  | |- context [if ?b then _ else _] => destruct b
  | |- context [match ?l with [] => _ | _ :: _ => _ end] => destruct l
  end;
    try (split; [ repeat constructor | left; cbn; lia ]).
  all: split; [ | right ];
    (eapply Forall_impl; [ apply mapChanges_items | ]); cbn; tauto.
Qed.

(** ** Computations that only draw identifiers *)

Definition Calm {A} (m : M A) : Prop :=
  forall st, exists a st',
    m st = (Ok a, st')
    /\ ws st' = ws st /\ wire st' = wire st /\ clockReads st' = clockReads st.

Lemma Calm_ret {A} (a : A) : Calm (mret a).
Proof. intros st. by exists a, st. Qed.

Lemma Calm_newUUID `{Host} : Calm newUUID.
Proof. intros st. by eexists _, _. Qed.

Lemma Calm_bind {A B} (m : M A) (k : A -> M B) :
  Calm m -> (forall a, Calm (k a)) -> Calm (m ≫= k).
Proof.
  intros Hm Hk st. unfold mbind, M_bind.
  destruct (Hm st) as (a & st1 & -> & Hs1 & Hw1 & Hc1).
  destruct (Hk a st1) as (b & st2 & -> & Hs2 & Hw2 & Hc2).
  exists b, st2. repeat split; congruence.
Qed.

Lemma Calm_mapM {A B} (f : A -> M B) (xs : list A) :
  (forall x, Calm (f x)) -> Calm (mapM f xs).
Proof.
  intros Hf. induction xs as [ | x xs IH]; cbn [mapM]; [ apply Calm_ret | ].
  apply Calm_bind; [ apply Hf | intros y ].
  apply Calm_bind; [ apply IH | intros ys; apply Calm_ret ].
Qed.

Lemma Calm_extractTurns `{Host} (response : option Json) :
  Calm (extractTurnsFromThreadReadResponse response).
Proof.
  unfold extractTurnsFromThreadReadResponse.
  destruct (search _ _ response) as [turns | ] eqn:E; [ | apply Calm_ret ].
  unfold search in E. destruct response as [r | ]; [ | done ].
  destruct (bfs _ _ _ _) as [[found | ] | ] eqn:Eb; try done.
  injection E as ->.
  revert Eb. generalize (S (jsize r)) as fuel. generalize [r] as queue.
  intros queue fuel. revert queue.
  induction fuel as [ | fuel IH]; intros queue; cbn [bfs]; [ done | ].
  destruct queue as [ | current rest]; [ done | ].
  destruct (asObject (Some current)) as [object | ]; [ | apply IH ].
  destruct (turnsAt object) as [found | ] eqn:Et; [ | apply IH ].
  intros [= <-]. unfold turnsAt in Et.
  repeat match type of Et with
  | match ?x with _ => _ end = _ => destruct x
  end; try done; injection Et as <-; unfold normalizeTurnEntries.
  all: repeat first
         [ apply Calm_ret | apply Calm_newUUID
         | apply Calm_mapM; intros ?
         | apply Calm_bind; [ | intros ? ]
         | match goal with |- Calm (match ?x with _ => _ end) => destruct x end ].
Qed.

Section ReplayOpen.
Context `{Host}.
Variable cfg : CliConfig.
Variable threadId : jsstring.

(** What one step of a replay loop does on an open socket: it
    returns, leaves the socket open and the clock unread, and sends
    [items] for the turn [turnId]. *)
Definition Emits {A} (m : M A) (st : Bridge) (turnId : jsstring) (a : A)
    (items : list DurangoThreadItem) : Prop :=
  exists st',
    m st = (Ok a, st')
    /\ ws st' = Some OPEN
    /\ clockReads st' = clockReads st
    /\ wire st' = wire st ++ map (EventUpsert turnId (cfg_machineId cfg) threadId) items.

Lemma drawn_id (known : option jsstring) (st : Bridge) :
  exists id st1,
    match known with Some s => mret s | None => newUUID end st = (Ok id, st1)
    /\ ws st1 = ws st /\ clockReads st1 = clockReads st /\ wire st1 = wire st
    /\ id = match known with Some s => s | None => randomUUID (uuidsDrawn st) end
    /\ st1 = match known with Some _ => st | None => tickUuid st end.
Proof. destruct known; by eexists _, _. Qed.

Lemma replayMapped_loop (turnId : jsstring) (mappedItems : list DurangoThreadItem) :
  forall r st,
    ws st = Some OPEN ->
    Emits (foldM (replayMapped cfg threadId turnId) mappedItems r) st turnId
      {| timestamp := timestamp r;
         importedItemCount := importedItemCount r + length mappedItems;
         importedTurnItemCount := importedTurnItemCount r + length mappedItems;
         hasRunningActivity := hasRunningActivity r || existsb isRunningCommand mappedItems |}
      mappedItems.
Proof.
  unfold Emits. induction mappedItems as [ | item rest IH]; intros r st Hopen.
  - exists st. cbn. rewrite !Nat.add_0_r, orb_false_r, app_nil_r. by destruct r.
  - cbn [foldM]. unfold mbind at 1, M_bind at 1.
    unfold replayMapped at 1, mbind, M_bind. rewrite (send_open st _ Hopen).
    unfold mret, M_ret.
    set (st1 := pushWire _ st). set (r1 := Build_Replay _ _ _ _).
    destruct (IH r1 st1 Hopen) as (st2 & -> & Hopen2 & Hclock & Hwire).
    exists st2. split; [ | split; [ done | split; [ done | ] ] ].
    + subst r1. cbn [timestamp importedItemCount importedTurnItemCount
                     hasRunningActivity length existsb].
      replace (S (importedItemCount r) + length rest)%nat
        with (importedItemCount r + S (length rest))%nat by lia.
      replace (S (importedTurnItemCount r) + length rest)%nat
        with (importedTurnItemCount r + S (length rest))%nat by lia.
      replace ((if isRunningCommand item then true else hasRunningActivity r)
               || existsb isRunningCommand rest)
        with (hasRunningActivity r
              || (isRunningCommand item || existsb isRunningCommand rest)); [ done | ].
      destruct (isRunningCommand item), (hasRunningActivity r); done.
    + rewrite Hwire. subst st1. cbn [wire pushWire map]. by rewrite <- app_assoc.
Qed.

(** One raw item: the items sent share the timestamp of the loop,
    which then moves on or stays. *)
Lemma replayRaw_open (turnId : jsstring) (r : Replay) (rawItem : Json) (st : Bridge) :
  ws st = Some OPEN ->
  exists r' items,
    Emits (replayRaw cfg threadId turnId r rawItem) st turnId r' items
    /\ Chain (timestamp r) (timestamp r') items
    /\ importedItemCount r' = (importedItemCount r + length items)%nat
    /\ importedTurnItemCount r' = (importedTurnItemCount r + length items)%nat
    /\ hasRunningActivity r' = hasRunningActivity r || existsb isRunningCommand items.
Proof.
  intros Hopen. unfold Emits, replayRaw.
  pose proof (replayMapped_loop turnId) as Hloop. unfold Emits in Hloop.
  destruct (asObject (Some rawItem)) as [item | ].
  - unfold mapCodexItem. unfold mbind, M_bind, mret, M_ret.
    destruct (drawn_id (getString (prop "id" item)) st)
      as (id & st1 & Hdraw & Hopen1 & Hclock1 & Hwire1 & _ & _).
    unfold mret, M_ret in Hdraw. rewrite Hdraw.
    rewrite Hopen in Hopen1.
    set (mapped := mapCodexItemBody id item turnId (timestamp r)).
    set (r1 := Build_Replay _ _ _ _).
    destruct (Hloop mapped r1 st1 Hopen1) as (st2 & Hrun & Hopen2 & Hclock2 & Hwire2).
    destruct (mapCodexItemBody_items id item turnId (timestamp r)) as [Hts Hkind].
    eexists _, mapped. split; [ | split ].
    + exists st2. rewrite Hrun. repeat split; [ done | congruence | congruence ].
    + cbn [timestamp r1]. by apply Chain_same.
    + by repeat split.
  - cbv zeta.
    destruct (negb (nonEmpty _)) eqn:Eempty.
    + exists r, []. split; [ | split; [ apply Chain_nil; lia | ] ].
      * exists st. unfold mret, M_ret. rewrite app_nil_r. by repeat split.
      * cbn. rewrite !Nat.add_0_r, orb_false_r. by repeat split.
    + unfold mbind, M_bind, newUUID, mret, M_ret.
      assert (Hopen1 : ws (tickUuid st) = Some OPEN) by done.
      rewrite (send_open _ _ Hopen1).
      eexists _, [_]. split; [ | split ].
      * eexists. by repeat split.
      * cbn [timestamp]. apply Chain_same; [ by repeat constructor | left; cbn; lia ].
      * cbn. rewrite orb_false_r. repeat split; lia.
Qed.

Lemma replayRaw_loop (turnId : jsstring) (rawItems : list Json) :
  forall r st,
    ws st = Some OPEN ->
    exists r' items,
      Emits (foldM (replayRaw cfg threadId turnId) rawItems r) st turnId r' items
      /\ Chain (timestamp r) (timestamp r') items
      /\ importedItemCount r' = (importedItemCount r + length items)%nat
      /\ importedTurnItemCount r' = (importedTurnItemCount r + length items)%nat
      /\ hasRunningActivity r' = hasRunningActivity r || existsb isRunningCommand items.
Proof.
  unfold Emits. induction rawItems as [ | rawItem rest IH]; intros r st Hopen.
  - exists r, []. split; [ | split; [ apply Chain_nil; lia | ] ].
    + exists st. cbn. rewrite app_nil_r. by repeat split.
    + cbn. rewrite !Nat.add_0_r, orb_false_r. by repeat split.
  - cbn [foldM]. unfold mbind, M_bind.
    pose proof (replayRaw_open turnId r rawItem st Hopen) as Hstep.
    unfold Emits in Hstep.
    destruct Hstep
      as (r1 & items1 & (st1 & -> & Hopen1 & Hclock1 & Hwire1) & Hchain1 & Hn1 & Hm1 & Hf1).
    destruct (IH r1 st1 Hopen1)
      as (r2 & items2 & (st2 & Hrun & Hopen2 & Hclock2 & Hwire2) & Hchain2 & Hn2 & Hm2 & Hf2).
    exists r2, (items1 ++ items2). split; [ | split; [ by eapply Chain_app | ] ].
    + exists st2. rewrite Hrun. split; [ done | ]. split; [ done | ].
      split; [ congruence | ]. rewrite Hwire2, Hwire1, map_app. by rewrite <- app_assoc.
    + rewrite length_app, existsb_app, Hn2, Hn1, Hm2, Hm1, Hf2, Hf1, orb_assoc.
      repeat split; lia.
Qed.

(** The id of a turn: its [id] when that is a string, else a fresh
    identifier. *)
Definition turnIdAt (turn : Json) (st : Bridge) : jsstring :=
  match getString (prop "id" turn) with
  | Some s => s
  | None => randomUUID (uuidsDrawn st)
  end.

(** The state in which the items of [turn] are replayed. *)
Definition afterTurnId (turn : Json) (st : Bridge) : Bridge :=
  match getString (prop "id" turn) with
  | Some _ => st
  | None => tickUuid st
  end.

Definition startOfTurn (carried : Z * nat) : Replay :=
  {| timestamp := fst carried; importedItemCount := snd carried;
     importedTurnItemCount := 0; hasRunningActivity := false |}.

(** One turn: the replayed items, then the terminator if one is
    inferred from the turn, the number of items and the running flag. *)
Lemma replayTurn_open (carried : Z * nat) (turn : Json) (st : Bridge) :
  ws st = Some OPEN ->
  let turnId := turnIdAt turn st in
  exists carried' replayed terminator r',
    Emits (replayTurn cfg threadId carried turn) st turnId carried'
      (replayed ++ terminator)
    /\ Emits (foldM (replayRaw cfg threadId turnId) (extractItemsFromTurn turn)
                (startOfTurn carried)) (afterTurnId turn st) turnId r' replayed
    /\ Chain (fst carried) (fst carried') (replayed ++ terminator)
    /\ snd carried' = (snd carried + length (replayed ++ terminator))%nat
    /\ match inferHydratedTurnLifecycleStatus turn (length replayed)
               (existsb isRunningCommand replayed) with
       | Some status =>
           exists id, terminator
                      = [PlanItem {| item_id := id; item_turnId := turnId;
                                     item_timestamp := timestamp r' |}
                           (terminatorText status)]
       | None => terminator = []
       end.
Proof.
  intros Hopen turnId. unfold Emits, replayTurn.
  pose proof (replayRaw_loop turnId) as Hloop. unfold Emits in Hloop.
  unfold mbind at 1, M_bind at 1.
  destruct (drawn_id (getString (prop "id" turn)) st)
    as (id0 & st0 & -> & _ & _ & _ & Hid0 & Hst0).
  fold (turnIdAt turn st) in Hid0. fold (afterTurnId turn st) in Hst0.
  fold turnId in Hid0. subst id0 st0.
  assert (Hopen0 : ws (afterTurnId turn st) = Some OPEN).
  { unfold afterTurnId. by destruct (getString (prop "id" turn)). }
  assert (Hclock0 : clockReads (afterTurnId turn st) = clockReads st).
  { unfold afterTurnId. by destruct (getString (prop "id" turn)). }
  assert (Hwire0 : wire (afterTurnId turn st) = wire st).
  { unfold afterTurnId. by destruct (getString (prop "id" turn)). }
  destruct (Hloop (extractItemsFromTurn turn) (startOfTurn carried)
              (afterTurnId turn st) Hopen0)
    as (r' & replayed & Hemits & Hchain & Hn & Hm & Hf).
  pose proof Hemits as (st1 & Hrun & Hopen1 & Hclock1 & Hwire1).
  fold (startOfTurn carried). unfold mbind at 1, M_bind at 1. rewrite Hrun.
  cbn [startOfTurn timestamp importedItemCount importedTurnItemCount hasRunningActivity
       orb Nat.add] in *.
  rewrite Hm, Hf.
  destruct (inferHydratedTurnLifecycleStatus turn (length replayed)
              (existsb isRunningCommand replayed)) as [status | ] eqn:Einfer.
  - unfold mbind, M_bind, newUUID, mret, M_ret.
    assert (Hopen2 : ws (tickUuid st1) = Some OPEN) by done.
    rewrite (send_open _ _ Hopen2).
    eexists _, replayed, [_], r'. split; [ | split; [ by exists st1 | ] ].
    + eexists. split; [ reflexivity | ]. split; [ done | ]. split; [ cbn; congruence | ].
      cbn [wire pushWire tickUuid]. rewrite Hwire1, Hwire0, map_app.
      by rewrite <- app_assoc.
    + cbn [fst snd]. split; [ | split ].
      * eapply Chain_app; [ exact Hchain | ].
        apply Chain_same; [ by repeat constructor | left; cbn; lia ].
      * rewrite length_app, Hn. cbn. lia.
      * rewrite Einfer. by eexists.
  - unfold mret, M_ret.
    exists (timestamp r', importedItemCount r'), replayed, [], r'.
    rewrite app_nil_r. split; [ | split; [ by exists st1 | ] ].
    + exists st1. split; [ done | ]. split; [ done | ]. split; [ congruence | ].
      by rewrite Hwire1, Hwire0.
    + cbn [fst snd]. rewrite Einfer.
      split; [ exact Hchain | split; [ exact Hn | reflexivity ] ].
Qed.

(** A pass over the turns, on an open socket: what is sent is in
    order, from the first timestamp on. *)
Lemma replayTurns_loop (turns : list Json) :
  forall carried st,
    ws st = Some OPEN ->
    exists carried' st' delta,
      foldM (replayTurn cfg threadId) turns carried st = (Ok carried', st')
      /\ ws st' = Some OPEN
      /\ wire st' = wire st ++ delta
      /\ Forall isUpsert delta
      /\ Chain (fst carried) (fst carried') (itemsOf delta).
Proof.
  induction turns as [ | turn rest IH]; intros carried st Hopen.
  - exists carried, st, []. rewrite app_nil_r.
    split; [ done | ]. split; [ done | ]. split; [ done | ]. split; [ constructor | ].
    apply Chain_nil. lia.
  - cbn [foldM]. unfold mbind, M_bind.
    pose proof (replayTurn_open carried turn st Hopen) as Hstep.
    cbn zeta in Hstep. unfold Emits in Hstep.
    destruct Hstep
      as (carried1 & replayed & terminator & r'
          & (st1 & -> & Hopen1 & _ & Hwire1) & _ & Hchain1 & _).
    destruct (IH carried1 st1 Hopen1)
      as (carried2 & st2 & delta2 & -> & Hopen2 & Hwire2 & Hups2 & Hchain2).
    eexists carried2, st2, (_ ++ delta2). split; [ done | ]. split; [ done | ].
    split; [ rewrite Hwire2, Hwire1; by rewrite <- app_assoc | ].
    split.
    + apply Forall_app. split; [ | done ].
      apply Forall_forall. intros m Hm. apply list_elem_of_In, in_map_iff in Hm.
      by destruct Hm as (a & <- & _).
    + rewrite itemsOf_app, itemsOf_upserts. by eapply Chain_app.
Qed.

End ReplayOpen.

(** ** The timestamps of a hydration pass *)

(** The turns found in [response], read in state [st]. *)
Definition turnsOf `{Host} (response : Json) (st : Bridge) : list Json :=
  match fst (extractTurnsFromThreadReadResponse (Some response) st) with
  | Ok turns => turns
  | Throw _ => []
  end.

(** The first timestamp of a pass over [response] started in [st]. *)
Definition passStart `{Host} (response : Json) (st : Bridge) : Z :=
  firstTimestamp (Date_now (clockReads st)) (length (turnsOf response st)).

Definition timestampsOf (delta : list RelayClientMessage) : list Z :=
  map timestampOf (itemsOf delta).

Section HydrationPass.
Context `{Host}.
Variable cfg : CliConfig.
Variable threadId : jsstring.

Lemma replayResponse_open (response : Json) (st : Bridge) :
  ws st = Some OPEN ->
  exists delta,
    wire (snd (replayResponse cfg threadId response st)) = wire st ++ delta
    /\ Forall isUpsert delta
    /\ InOrder (itemsOf delta)
    /\ Forall (fun a => passStart response st <= timestampOf a) (itemsOf delta).
Proof.
  intros Hopen. unfold passStart, turnsOf, replayResponse.
  unfold mbind at 1, M_bind at 1.
  destruct (Calm_extractTurns (Some response) st) as (turns & st1 & -> & Hws1 & Hwire1 & Hclock1).
  cbn [fst]. unfold mbind at 1, M_bind at 1, dateNow at 1.
  unfold mbind, M_bind. rewrite Hclock1.
  set (start := firstTimestamp _ _).
  assert (Hopen1 : ws (tickClock st1) = Some OPEN) by (cbn; congruence).
  destruct (replayTurns_loop cfg threadId turns (start, 0%nat) (tickClock st1) Hopen1)
    as (carried' & st2 & delta & -> & _ & Hwire2 & Hups & Hle & Hbounds & Horder).
  exists delta. cbn [snd mret M_ret]. split; [ | split; [ done | split; [ done | ] ] ].
  - rewrite Hwire2. cbn [wire tickClock]. by rewrite Hwire1.
  - eapply Forall_impl; [ exact Hbounds | ]. cbn. intros a Ha. lia.
Qed.

Lemma replayResponse_closed (response : Json) (st : Bridge) :
  ws st <> Some OPEN ->
  wire (snd (replayResponse cfg threadId response st)) = wire st.
Proof.
  intros Hclosed.
  destruct (Sends_replayResponse cfg anyMessage threadId response (fun _ _ _ _ => I) st)
    as (delta & Hwire & _ & Hnone & _).
  rewrite Hwire, (Hnone Hclosed). apply app_nil_r.
Qed.

End HydrationPass.

Example hydration_of_a_file_change :
  timestampsOf
    (wire (snd (hydrateThreadHistory exampleConfig (lit "d-1") (lit "thread-1")
                  (freshBridge (Some OPEN)))))
  = [1699999999900; 1699999999900; 1699999999901].
Proof. vm_compute. reflexivity. Qed.

Example hydration_on_a_closed_socket :
  wire (snd (hydrateThreadHistory exampleConfig (lit "d-1") (lit "thread-1")
               (freshBridge (Some CLOSED))))
  = [].
Proof. vm_compute. reflexivity. Qed.

(** C3, as stated, fails: the two files of one file change are replayed
    with the same timestamp, so the timestamps of a pass do not
    strictly increase. *)
Lemma hydration_timestamps_counterexample :
  ~ StrictlyIncreasing
      (itemsOf
         (wire (snd (hydrateThreadHistory exampleConfig (lit "d-1") (lit "thread-1")
                       (freshBridge (Some OPEN)))))).
Proof.
  intros Hstrict.
  set (items := itemsOf _) in Hstrict.
  assert (Hitems : exists a b rest,
             items = a :: b :: rest /\ timestampOf a = timestampOf b).
  { vm_compute. by eexists _, _, _. }
  destruct Hitems as (a & b & rest & Hitems & Hsame).
  specialize (Hstrict 0%nat 1%nat a b).
  rewrite Hitems in Hstrict. cbn in Hstrict.
  specialize (Hstrict (Nat.lt_0_succ 0) eq_refl eq_refl). lia.
Qed.

(** C3 (amended): in one call of [hydrateThreadHistory] everything put
    on the relay socket is an [event.upsert]; of two items emitted, the
    later has the greater timestamp, or both are file changes with the
    same timestamp; and no timestamp is below the first one of the
    pass, [Date.now() - Math.max(1, turns.length * 100)].  When
    [thread/read] fails nothing is emitted. *)
Theorem hydration_timestamps_in_order `{Host} `{Agent} (cfg : CliConfig)
    (threadId codexThreadId : jsstring) (st : Bridge) :
  exists delta,
    wire (snd (hydrateThreadHistory cfg threadId codexThreadId st)) = wire st ++ delta
    /\ Forall isUpsert delta
    /\ InOrder (itemsOf delta)
    /\ match outcome_result (agent_threadRead codexThreadId) with
       | Ok response =>
           Forall (fun a => passStart response st <= timestampOf a) (itemsOf delta)
       | Throw _ => delta = []
       end.
Proof.
  unfold hydrateThreadHistory, mbind, M_bind, await.
  set (read := agent_threadRead codexThreadId).
  assert (Hquiet : forall st' : Bridge,
             wire st' = wire st ->
             wire st' = wire st ++ [] /\ Forall isUpsert []
             /\ InOrder (itemsOf [])).
  { intros st' ->. rewrite app_nil_r. split; [ done | ]. split; [ constructor | ].
    by intros i j a b _ Hi. }
  assert (Hclose : wire (closeRelay st) = wire st /\ ws (closeRelay st) <> Some OPEN).
  { unfold closeRelay. destruct (ws st) eqn:Ews; cbn; [ done | ].
    rewrite Ews. done. }
  destruct (outcome_result read) as [response | e].
  - destruct (outcome_relayCloses read).
    + exists []. destruct Hclose as [Hwire Hclosed].
      rewrite (replayResponse_closed _ _ _ _ Hclosed).
      destruct (Hquiet _ Hwire) as (? & ? & ?). by repeat (split; [ done | ]).
    + destruct (decide (ws st = Some OPEN)) as [Hopen | Hclosed].
      * exact (replayResponse_open cfg threadId response st Hopen).
      * exists []. rewrite (replayResponse_closed _ _ _ _ Hclosed).
        destruct (Hquiet st eq_refl) as (? & ? & ?). by repeat (split; [ done | ]).
  - exists []. cbn [snd].
    assert (Hwire : wire (if outcome_relayCloses read then closeRelay st else st) = wire st).
    { destruct (outcome_relayCloses read); [ apply Hclose | done ]. }
    destruct (Hquiet _ Hwire) as (? & ? & ?). by repeat (split; [ done | ]).
Qed.

(** ** The terminator of a hydrated turn *)

(** *** The terminator as the specification gives it

    These definitions are written from the words of the specification
    and use neither [inferHydratedTurnLifecycleStatus] nor the
    functions it calls. *)

(** [value.key]: the member of an object; anything else has none. *)
Definition specMember (key : string) (value : option Json) : option Json :=
  match value with
  | Some (JObject fields) =>
      snd <$> List.find (fun field => bool_decide (fst field = lit key)) fields
  | _ => None
  end.

(** The status candidates of a turn, in order: [turn.status],
    [turn.result.status], [turn.turn.status], [turn.metadata.status]. *)
Definition specStatusCandidates (turn : Json) : list (option Json) :=
  [specMember "status" (Some turn);
   specMember "status" (specMember "result" (Some turn));
   specMember "status" (specMember "turn" (Some turn));
   specMember "status" (specMember "metadata" (Some turn))].

(** The status a candidate normalizes to: a string that, lower-cased
    and trimmed, is one of the words of a state; nothing else is
    normalizable. *)
Definition specTurnStatus `{Host} (candidate : option Json) : option TurnLifecycle :=
  match candidate with
  | Some (JString s) =>
      let word := trim (toLowerCase s) in
      if bool_decide (word ∈ (map lit ["running"; "in_progress"; "inprogress"; "queued";
                                        "pending"; "started"]%string))
      then Some TurnRunning
      else if bool_decide (word ∈ (map lit ["completed"; "complete"; "success";
                                             "succeeded"]%string))
      then Some TurnCompleted
      else if bool_decide (word ∈ (map lit ["interrupted"; "aborted"; "cancelled";
                                             "canceled"]%string))
      then Some TurnInterrupted
      else if bool_decide (word ∈ (map lit ["failed"; "error"; "errored"]%string))
      then Some TurnFailed
      else None
  | _ => None
  end.

(** The first normalizable status among the candidates of [turn]. *)
Definition firstNormalizable `{Host} (turn : Json) : option TurnLifecycle :=
  head (omap specTurnStatus (specStatusCandidates turn)).

(** A replayed command execution with status running. *)
Definition specRunningCommand (item : DurangoThreadItem) : bool :=
  match item with
  | CommandExecutionItem _ _ _ CmdRunning _ _ => true
  | _ => false
  end.

(** The terminator of [turn] after [replayed] were replayed for it:
    decided by the first normalizable status, where running yields
    none; without one, none when a replayed command is running,
    completed when an item was replayed, and none otherwise. *)
Definition terminatorFor `{Host} (turn : Json) (replayed : list DurangoThreadItem)
  : option TurnLifecycle :=
  match firstNormalizable turn with
  | Some TurnRunning => None
  | Some status => Some status
  | None =>
      if existsb specRunningCommand replayed then None
      else match replayed with
           | [] => None
           | _ :: _ => Some TurnCompleted
           end
  end.

(** The JSON of [{method: "turn/completed", params: {status}}], unit
    by unit; 34 is the double quote. *)
Definition specQuoted (word : string) : jsstring := [34%N] ++ lit word ++ [34%N].

Definition specStatusName (status : TurnLifecycle) : string :=
  match status with
  | TurnRunning => "running"
  | TurnCompleted => "completed"
  | TurnFailed => "failed"
  | TurnInterrupted => "interrupted"
  end.

Definition specTerminatorText (status : TurnLifecycle) : jsstring :=
  lit "{" ++ specQuoted "method" ++ lit ":" ++ specQuoted "turn/completed" ++ lit ","
  ++ specQuoted "params" ++ lit ":{" ++ specQuoted "status" ++ lit ":"
  ++ specQuoted (specStatusName status) ++ lit "}}".

Definition runningCommand : Json :=
  JObject [(lit "type", JString (lit "commandExecution")); (lit "id", JString (lit "cmd"));
           (lit "command", JString (lit "make")); (lit "status", JString (lit "running"))].

Definition agentMessage : Json :=
  JObject [(lit "type", JString (lit "agentMessage")); (lit "id", JString (lit "msg"));
           (lit "text", JString (lit "done"))].

Definition exampleTurn (fields : list (jsstring * Json)) (items : list Json) : Json :=
  JObject ((lit "id", JString (lit "turn-1")) :: fields ++ [(lit "items", JArray items)]).

(** The texts of the plan items among the items emitted for one turn. *)
Definition planTexts `{Host} (turn : Json) : list jsstring :=
  omap (fun a => match a with PlanItem _ text => Some text | _ => None end)
    (itemsOf (wire (snd (replayTurn exampleConfig (lit "d-1") (0, 0%nat) turn
                           (freshBridge (Some OPEN)))))).

Lemma specMember_prop (key : string) (value : Json) :
  specMember key (Some value) = prop key value.
Proof.
  destruct value as [ | | | | | fields]; try done.
  cbn [specMember prop]. induction fields as [ | [k v] rest IH]; [ done | ].
  cbn [List.find lookupField fst]. unfold jsstring_eqb.
  destruct (decide (k = lit key)) as [-> | Hne].
  - by rewrite !bool_decide_eq_true_2.
  - by rewrite !bool_decide_eq_false_2.
Qed.

Lemma specMember_propU (key : string) (value : option Json) :
  specMember key (asObject value) = specMember key value.
Proof. by destruct value as [[] | ]. Qed.

Lemma specMember_asObject (key inner : string) (value : Json) :
  propU key (asObject (prop inner value)) = specMember key (specMember inner (Some value)).
Proof.
  rewrite specMember_prop.
  destruct (prop inner value) as [[ | | | | | fields] | ]; try done.
  cbn [asObject propU]. by rewrite <- specMember_prop.
Qed.

Lemma lifecycleCandidates_spec (turn : Json) :
  lifecycleCandidates turn = specStatusCandidates turn.
Proof.
  unfold lifecycleCandidates, specStatusCandidates.
  by rewrite !specMember_asObject, <- (specMember_prop "status" turn).
Qed.

Lemma isOneOf_decide (w : jsstring) (words : list string) :
  isOneOf w words = bool_decide (w ∈ map lit words).
Proof.
  destruct (isOneOf w words) eqn:E.
  - apply isOneOf_In in E. rewrite bool_decide_eq_true_2; [ done | ].
    by apply list_elem_of_In.
  - apply isOneOf_not_In in E. rewrite bool_decide_eq_false_2; [ done | ].
    by rewrite list_elem_of_In.
Qed.

Lemma normalizeTurnLifecycleStatus_spec `{Host} (candidate : option Json) :
  normalizeTurnLifecycleStatus candidate = specTurnStatus candidate.
Proof.
  unfold normalizeTurnLifecycleStatus, specTurnStatus.
  destruct candidate as [[ | | | s | | ] | ]; try done.
  cbn [getString]. cbv zeta. rewrite !isOneOf_decide.
  destruct (nonEmpty (trim (toLowerCase s))) eqn:Eempty; [ done | ].
  apply nonEmpty_false in Eempty. rewrite Eempty. reflexivity.
Qed.

Lemma inferFromCandidates_first `{Host} (candidates : list (option Json))
    (otherwise : option TurnLifecycle) :
  inferFromCandidates candidates otherwise
  = match head (omap specTurnStatus candidates) with
    | Some TurnRunning => None
    | Some status => Some status
    | None => otherwise
    end.
Proof.
  induction candidates as [ | candidate rest IH]; [ reflexivity | ].
  cbn [inferFromCandidates]. change (omap ?f (candidate :: rest))
    with (match f candidate with Some y => y :: omap f rest | None => omap f rest end).
  rewrite normalizeTurnLifecycleStatus_spec.
  destruct (specTurnStatus candidate) as [status | ]; [ | exact IH ].
  by destruct status.
Qed.

Lemma inferHydratedTurnLifecycleStatus_terminatorFor `{Host} (turn : Json)
    (replayed : list DurangoThreadItem) :
  inferHydratedTurnLifecycleStatus turn (length replayed) (existsb isRunningCommand replayed)
  = terminatorFor turn replayed.
Proof.
  unfold inferHydratedTurnLifecycleStatus, terminatorFor, firstNormalizable.
  rewrite inferFromCandidates_first, lifecycleCandidates_spec. by destruct replayed.
Qed.

Lemma terminatorText_spec `{Host} (status : TurnLifecycle) :
  terminatorText status = specTerminatorText status.
Proof. by destruct status. Qed.

Example terminator_from_status :
  planTexts (exampleTurn [(lit "result", JObject [(lit "status", JString (lit " Errored"))])]
               [runningCommand])
  = [specTerminatorText TurnFailed].
Proof. vm_compute. reflexivity. Qed.

Example terminator_status_in_order :
  planTexts (exampleTurn [(lit "status", JString (lit "unknown"));
                          (lit "turn", JObject [(lit "status", JString (lit "aborted"))]);
                          (lit "metadata", JObject [(lit "status", JString (lit "failed"))])]
               [])
  = [specTerminatorText TurnInterrupted].
Proof. vm_compute. reflexivity. Qed.

Example terminator_none_when_status_running :
  planTexts (exampleTurn [(lit "status", JString (lit "in_progress"));
                          (lit "result", JObject [(lit "status", JString (lit "failed"))])]
               [agentMessage])
  = [].
Proof. vm_compute. reflexivity. Qed.

Example terminator_none_when_command_running :
  planTexts (exampleTurn [] [agentMessage; runningCommand]) = [].
Proof. vm_compute. reflexivity. Qed.

Example terminator_completed_when_items :
  planTexts (exampleTurn [] [agentMessage]) = [specTerminatorText TurnCompleted].
Proof. vm_compute. reflexivity. Qed.

Example terminator_none_when_empty :
  planTexts (exampleTurn [] []) = [].
Proof. vm_compute. reflexivity. Qed.

Example terminatorText_completed :
  terminatorText TurnCompleted
  = lit "{" ++ [34%N] ++ lit "method" ++ [34%N] ++ lit ":" ++ [34%N] ++ lit "turn/completed"
    ++ [34%N] ++ lit "," ++ [34%N] ++ lit "params" ++ [34%N] ++ lit ":{" ++ [34%N]
    ++ lit "status" ++ [34%N] ++ lit ":" ++ [34%N] ++ lit "completed" ++ [34%N] ++ lit "}}".
Proof. vm_compute. reflexivity. Qed.

(** [result] is an array: it has no status, and the next candidate
    decides. *)
Example terminator_skips_array :
  planTexts (exampleTurn [(lit "result", JArray [JString (lit "failed")]);
                          (lit "metadata", JObject [(lit "status", JString (lit "Canceled"))])]
               [agentMessage])
  = [specTerminatorText TurnInterrupted].
Proof. vm_compute. reflexivity. Qed.



(** ** Forwarding [turn/completed] *)

(** The status of a [turn/completed] notification: lower-cased,
    ["completed"] when absent. *)
Definition completedStatus `{Host} (params : option Json) : jsstring :=
  match getString (propU "status" (asObject params)) with
  | Some s => toLowerCase s
  | None => lit "completed"
  end.

Definition completedErrorMessage (params : option Json) : option jsstring :=
  getString (propU "message" (asObject (propU "error" (asObject params)))).

(** The text of the plan item that a [turn/completed] notification is
    forwarded as, spelled out: for the status [completed] or [success]
    the JSON of [{method, params}], where an undefined [params] is left
    out; for any other status the sentence that tells the status,
    between double quotes (34), and the error message when there is
    one. *)
Definition completedText `{Host} (method : jsstring) (params : option Json) : jsstring :=
  let status := completedStatus params in
  if bool_decide (status = lit "completed" \/ status = lit "success")
  then JSON_stringify
         (JObject ((lit "method", JString method)
                   :: match params with Some p => [(lit "params", p)] | None => [] end))
  else lit "Turn ended with status " ++ [34%N] ++ status ++ [34%N]
       ++ match completedErrorMessage params with
          | Some message => if nonEmpty message then lit ": " ++ message else []
          | None => []
          end
       ++ lit ".".

Lemma completedText_code `{Host} (method : jsstring) (params : option Json) :
  completedText method params
  = if isOneOf (completedStatus params) ["completed"; "success"]%string
    then notificationText method params
    else turnEndedText (completedStatus params) (completedErrorMessage params).
Proof.
  unfold completedText, isOneOf. cbv zeta. cbn [existsb]. rewrite orb_false_r.
  destruct (jsstring_eqb (completedStatus params) (lit "completed")) eqn:Ecompleted;
    [ | destruct (jsstring_eqb (completedStatus params) (lit "success")) eqn:Esuccess ];
    cbn [orb].
  - apply jsstring_eqb_true in Ecompleted. by rewrite bool_decide_eq_true_2 by by left.
  - apply jsstring_eqb_true in Esuccess. by rewrite bool_decide_eq_true_2 by by right.
  - apply jsstring_eqb_false in Ecompleted, Esuccess.
    by rewrite bool_decide_eq_false_2 by by intros [ | ].
Qed.

(** The turn the notification is about, and the state after it was
    determined. *)
Definition notifiedTurnId `{Host} (params : option Json) (st : Bridge) : jsstring :=
  match extractTurnId params with
  | Some t => t
  | None => randomUUID (uuidsDrawn st)
  end.

Definition afterNotifiedTurnId (params : option Json) (st : Bridge) : Bridge :=
  match extractTurnId params with
  | Some _ => st
  | None => tickUuid st
  end.

(** A bridge with an open relay socket on which the agent thread [t1]
    is bound to the thread [d1]. *)
Definition boundBridge : Bridge :=
  setBinding (lit "t1") (lit "d1") (freshBridge (Some OPEN)).

Definition completedParams (status : string) : option Json :=
  Some (JObject [(lit "threadId", JString (lit "t1")); (lit "turnId", JString (lit "turn-9"));
                 (lit "status", JString (lit status))]).

Lemma turn_completed_branch :
  startsWith (lit "turn/completed") (lit "thread/") = false
  /\ jsstring_eqb (lit "turn/completed") (lit "item/started") = false
  /\ jsstring_eqb (lit "turn/completed") (lit "item/completed") = false
  /\ jsstring_eqb (lit "turn/completed") (lit "turn/completed") = true.
Proof. vm_compute. done. Qed.

Example forwarded_failed_turn :
  itemsOf (wire (snd (forwardCodexNotification exampleConfig (lit "turn/completed")
                        (completedParams "Failed") boundBridge)))
  = [PlanItem {| item_id := lit "uuid-0"; item_turnId := lit "turn-9";
                 item_timestamp := 1700000000000 |}
       (lit "Turn ended with status " ++ [34%N] ++ lit "failed" ++ [34%N] ++ lit ".")].
Proof. vm_compute. reflexivity. Qed.

(** C2, as stated, fails: a [turn/completed] notification with status
    ["completed"] for a bound thread is forwarded, as one plan item
    whose text is the JSON of the notification. *)
Lemma turn_completed_forwarding_counterexample :
  extractThreadId (completedParams "completed") = Some (lit "t1")
  /\ threadBindings boundBridge !! lit "t1" = Some (lit "d1")
  /\ completedStatus (completedParams "completed") = lit "completed"
  /\ wire (snd (forwardCodexNotification exampleConfig (lit "turn/completed")
                  (completedParams "completed") boundBridge))
     = [EventUpsert (lit "turn-9") (lit "machine-test") (lit "d1")
          (PlanItem {| item_id := lit "uuid-0"; item_turnId := lit "turn-9";
                       item_timestamp := 1700000000000 |}
             (completedText (lit "turn/completed") (completedParams "completed")))]
  /\ wire (snd (forwardCodexNotification exampleConfig (lit "turn/completed")
                  (completedParams "completed") boundBridge))
     <> wire boundBridge.
Proof.
  split; [ vm_compute; reflexivity | ]. split; [ vm_compute; reflexivity | ].
  split; [ vm_compute; reflexivity | ]. split; [ vm_compute; reflexivity | ].
  vm_compute. discriminate.
Qed.

(** C2 (amended): a [turn/completed] notification for a bound thread,
    on an open relay socket, is forwarded as exactly one [event.upsert]
    that carries one plan item.  When the status (lower-cased,
    ["completed"] when absent) is neither ["completed"] nor
    ["success"], the text of the item tells the status and the error
    message, if any; otherwise it is the JSON of the notification. *)
Theorem turn_completed_forwarding `{Host} (cfg : CliConfig) (method : jsstring)
    (params : option Json) (codexThreadId durangoThreadId : jsstring) (st : Bridge) :
  toLowerCase method = lit "turn/completed" ->
  extractThreadId params = Some codexThreadId ->
  threadBindings st !! codexThreadId = Some durangoThreadId ->
  nonEmpty durangoThreadId = true ->
  ws st = Some OPEN ->
  let turnId := notifiedTurnId params st in
  let out := forwardCodexNotification cfg method params st in
  fst out = Ok tt
  /\ wire (snd out)
     = wire st
       ++ [EventUpsert turnId (cfg_machineId cfg) durangoThreadId
             (PlanItem {| item_id := randomUUID (uuidsDrawn (afterNotifiedTurnId params st));
                          item_turnId := turnId;
                          item_timestamp := Date_now (clockReads st) |}
                (completedText method params))].
Proof.
  intros Hmethod Hthread Hbound Hnamed Hopen turnId out.
  set (sent := EventUpsert _ _ _ _).
  assert (Hclock : clockReads (afterNotifiedTurnId params st) = clockReads st).
  { unfold afterNotifiedTurnId. by destruct (extractTurnId params). }
  assert (Hwire : wire (afterNotifiedTurnId params st) = wire st).
  { unfold afterNotifiedTurnId. by destruct (extractTurnId params). }
  assert (Hopen1 : ws (afterNotifiedTurnId params st) = Some OPEN).
  { unfold afterNotifiedTurnId. by destruct (extractTurnId params). }
  enough (Hrun : out = (Ok tt, pushWire sent (tickClock (tickUuid (afterNotifiedTurnId params st))))).
  { rewrite Hrun. cbn [fst snd wire pushWire tickClock tickUuid]. by rewrite Hwire. }
  subst out sent turnId. unfold forwardCodexNotification. cbv zeta.
  rewrite Hmethod, Hthread.
  destruct turn_completed_branch as (-> & -> & -> & ->).
  unfold mbind at 1, M_bind at 1, getState at 1. rewrite Hbound, Hnamed.
  cbn [negb andb]. unfold mbind at 1, M_bind at 1.
  rewrite completedText_code.
  fold (completedStatus params). fold (completedErrorMessage params).
  set (drawn := match extractTurnId params with Some t => mret t | None => newUUID end st).
  assert (Hdrawn : drawn = (Ok (notifiedTurnId params st), afterNotifiedTurnId params st)).
  { subst drawn. unfold notifiedTurnId, afterNotifiedTurnId.
    by destruct (extractTurnId params). }
  rewrite Hdrawn. clear drawn Hdrawn.
  unfold isOneOf. cbn [existsb]. rewrite orb_false_r.
  unfold emitOrFallback, sendItems.
  destruct (jsstring_eqb (completedStatus params) (lit "completed"));
    [ | destruct (jsstring_eqb (completedStatus params) (lit "success")) ];
    cbn [negb andb orb];
    unfold mbind, M_bind, newUUID, dateNow, mret, M_ret; cbn [foldM];
    unfold mbind, M_bind, mret, M_ret;
    (rewrite send_open; [ | done ]);
    cbn [clockReads uuidsDrawn tickClock tickUuid];
    by rewrite Hclock.
Qed.

Lemma turn_completed_forwarding_witness :
  let out := forwardCodexNotification exampleConfig (lit "turn/completed")
               (completedParams "Failed") boundBridge in
  fst out = Ok tt
  /\ wire (snd out)
     = wire boundBridge
       ++ [EventUpsert (lit "turn-9") (lit "machine-test") (lit "d1")
             (PlanItem {| item_id := lit "uuid-0"; item_turnId := lit "turn-9";
                          item_timestamp := 1700000000000 |}
                (lit "Turn ended with status " ++ [34%N] ++ lit "failed" ++ [34%N]
                 ++ lit "."))].
Proof.
  assert (Hmethod : toLowerCase (lit "turn/completed") = lit "turn/completed")
    by (vm_compute; reflexivity).
  assert (Hthread : extractThreadId (completedParams "Failed") = Some (lit "t1"))
    by (vm_compute; reflexivity).
  assert (Hbound : threadBindings boundBridge !! lit "t1" = Some (lit "d1"))
    by (vm_compute; reflexivity).
  assert (Hnamed : nonEmpty (lit "d1") = true) by reflexivity.
  assert (Hopen : ws boundBridge = Some OPEN) by reflexivity.
  exact (turn_completed_forwarding exampleConfig (lit "turn/completed")
           (completedParams "Failed") (lit "t1") (lit "d1") boundBridge
           Hmethod Hthread Hbound Hnamed Hopen).
Defined.

(** * Further properties of the bridge

    ** Titles of imported threads *)

Lemma collapseWhiteSpace_nonEmpty (inRun : bool) (s : jsstring) :
  trimStart s <> [] -> collapseWhiteSpace inRun s <> [].
Proof.
  revert inRun. induction s as [ | c rest IH]; intros inRun Hs; [ done | ].
  cbn [collapseWhiteSpace trimStart] in *.
  destruct (isWhiteSpace c); [ | done ].
  destruct inRun; [ by apply IH | done ].
Qed.

Lemma collapseWhiteSpace_spaces (inRun : bool) (s : jsstring) :
  Forall (fun c => isWhiteSpace c = true -> c = 32%N) (collapseWhiteSpace inRun s).
Proof.
  revert inRun. induction s as [ | c rest IH]; intros inRun; [ constructor | ].
  cbn [collapseWhiteSpace]. destruct (isWhiteSpace c) eqn:Ec.
  - destruct inRun; [ apply IH | constructor; [ done | apply IH ] ].
  - constructor; [ congruence | apply IH ].
Qed.

Lemma trimStart_idempotent (s : jsstring) : trimStart (trimStart s) = trimStart s.
Proof.
  induction s as [ | c rest IH]; [ done | ]. cbn [trimStart].
  destruct (isWhiteSpace c) eqn:Ec; [ exact IH | ]. cbn [trimStart]. by rewrite Ec.
Qed.

Lemma trimStart_head (s : jsstring) :
  match trimStart s with
  | c :: _ => isWhiteSpace c = false
  | [] => True
  end.
Proof.
  induction s as [ | c rest IH]; [ done | ]. cbn [trimStart].
  destruct (isWhiteSpace c) eqn:Ec; [ exact IH | done ].
Qed.

Lemma trimStart_suffix (s : jsstring) : exists blanks, s = blanks ++ trimStart s
                                                       /\ forallb isWhiteSpace blanks = true.
Proof.
  induction s as [ | c rest (blanks & IH & Hblanks)]; [ by exists [] | ]. cbn [trimStart].
  destruct (isWhiteSpace c) eqn:Ec; [ | by exists [] ].
  exists (c :: blanks). cbn. by rewrite Ec, Hblanks, <- IH.
Qed.

(** The first code unit of a trimmed string is not white space. *)
Lemma trim_head (s : jsstring) :
  match trim s with
  | c :: _ => isWhiteSpace c = false
  | [] => True
  end.
Proof.
  unfold trim, trimEnd.
  pose proof (trimStart_head s) as Hhead.
  destruct (trimStart_suffix (rev (trimStart s))) as (blanks & Hrev & Hblanks).
  assert (Hs : trimStart s = rev (trimStart (rev (trimStart s))) ++ rev blanks).
  { by rewrite <- rev_app_distr, <- Hrev, rev_involutive. }
  destruct (rev (trimStart (rev (trimStart s)))) as [ | c rest]; [ done | ].
  rewrite Hs in Hhead. exact Hhead.
Qed.

Lemma trim_trimStart (s : jsstring) : trim s <> [] -> trimStart (trim s) <> [].
Proof.
  intros Hs. pose proof (trim_head s) as Hhead.
  destruct (trim s) as [ | c rest]; [ done | ]. cbn [trimStart]. by rewrite Hhead.
Qed.

Lemma trim_idempotent (s : jsstring) : trim (trim s) = trim s.
Proof.
  assert (Hfixed : trimStart (trim s) = trim s).
  { pose proof (trim_head s) as Hhead. destruct (trim s) as [ | c rest]; [ done | ].
    cbn [trimStart]. by rewrite Hhead. }
  unfold trim at 1. rewrite Hfixed. unfold trim, trimEnd.
  by rewrite rev_involutive, trimStart_idempotent.
Qed.

Example titleFromPreview_first_line :
  titleFromPreview (Some (lit "  " ++ [13%N; 10%N] ++ lit "  Fix   the" ++ [9%N] ++ lit "bug  "
                          ++ [10%N] ++ lit "second line"))
  = lit "Fix the bug".
Proof. vm_compute. reflexivity. Qed.

Example titleFromPreview_blank :
  titleFromPreview (Some (lit "   " ++ [10%N; 9%N])) = lit "Imported Codex thread".
Proof. vm_compute. reflexivity. Qed.

Lemma trimStart_blank (s : jsstring) : forallb isWhiteSpace s = true -> trimStart s = [].
Proof.
  induction s as [ | c rest IH]; [ done | ]. cbn [forallb trimStart].
  intros [-> Hrest]%andb_true_iff. by apply IH.
Qed.

Lemma trim_blank (s : jsstring) : forallb isWhiteSpace s = true -> trim s = [].
Proof. intros Hs. unfold trim, trimEnd. by rewrite (trimStart_blank s Hs). Qed.

Lemma splitLines_units (P : N -> Prop) (s : jsstring) :
  forall line, Forall P line -> Forall P s -> Forall (Forall P) (splitLines line s).
Proof.
  assert (Hrev : forall line, Forall P line -> Forall P (rev line)).
  { intros line Hline. apply Forall_forall. intros c Hc%list_elem_of_In%in_rev.
    by eapply List.Forall_forall in Hline. }
  induction s as [s IH] using (induction_ltof1 _ (@length N)). unfold ltof in IH.
  intros line Hline Hs. destruct s as [ | c rest]; cbn [splitLines].
  { constructor; [ by apply Hrev | constructor ]. }
  inversion_clear Hs as [ | ? ? Hc Hrest].
  destruct (c =? 10)%N.
  { constructor; [ by apply Hrev | ]. apply IH; [ cbn; lia | constructor | done ]. }
  destruct (c =? 13)%N; [ | apply IH; [ cbn; lia | by constructor | done ] ].
  destruct rest as [ | d rest']; [ apply IH; [ cbn; lia | by constructor | done ] | ].
  destruct (d =? 10)%N; [ | apply IH; [ cbn; lia | by constructor | done ] ].
  constructor; [ by apply Hrev | ].
  inversion_clear Hrest. apply IH; [ cbn; lia | constructor | done ].
Qed.

Lemma find_none_blank (lines : list jsstring) :
  Forall (fun l => forallb isWhiteSpace l = true) lines ->
  List.find nonEmpty (map trim lines) = None.
Proof.
  induction 1 as [ | l lines Hl _ IH]; [ done | ]. cbn [map List.find].
  by rewrite (trim_blank l Hl).
Qed.

(** X1.  The title given to an imported thread is never empty, has at
    most 120 code units, and holds no white space other than plain
    spaces: no line break and no tab.  Without a preview, or with a
    blank one, it is the fixed title. *)
Theorem titleFromPreview_bounds (preview : option jsstring) :
  let title := titleFromPreview preview in
  title <> []
  /\ (length title <= 120)%nat
  /\ Forall (fun c => isWhiteSpace c = true -> c = 32%N) title
  /\ match preview with
     | None => title = lit "Imported Codex thread"
     | Some p => if forallb isWhiteSpace p then title = lit "Imported Codex thread" else True
     end.
Proof.
  cbv zeta.
  assert (Hfixed : let title := lit "Imported Codex thread" in
                   title <> [] /\ (length title <= 120)%nat
                   /\ Forall (fun c => isWhiteSpace c = true -> c = 32%N) title).
  { cbv zeta. split; [ done | ]. split; [ cbn; lia | ].
    apply Forall_forall. intros c Hc Hwhite. apply list_elem_of_In in Hc.
    cbn in Hc. decompose [or] Hc; subst; try done; vm_compute in Hwhite; done. }
  cbv zeta in Hfixed. destruct Hfixed as (Hf1 & Hf2 & Hf3).
  destruct preview as [p | ]; cbn [titleFromPreview]; [ | done ].
  destruct (nonEmpty p) eqn:Ep; cbn [negb].
  2: { destruct p; [ | done ]. done. }
  destruct (List.find nonEmpty (map trim (splitLines [] p))) as [firstLine | ] eqn:Efind.
  - pose proof Efind as Hfound. apply find_some in Efind as [Hin Hline].
    apply in_map_iff in Hin as (l & <- & _).
    assert (Hcollapsed : collapseWhiteSpace false (trim l) <> []).
    { apply collapseWhiteSpace_nonEmpty, trim_trimStart. by destruct (trim l). }
    split; [ | split; [ | split ] ].
    + unfold slice0. by destruct (collapseWhiteSpace false (trim l)).
    + unfold slice0. rewrite length_firstn. lia.
    + unfold slice0. apply Forall_take, collapseWhiteSpace_spaces.
    + destruct (forallb isWhiteSpace p) eqn:Hblank; [ | done ]. exfalso.
      assert (Hnone : List.find nonEmpty (map trim (splitLines [] p)) = None).
      { apply find_none_blank.
        eapply Forall_impl; [ apply (splitLines_units (fun c => isWhiteSpace c = true)) | ].
        - constructor.
        - apply Forall_forall. intros c Hc. apply list_elem_of_In in Hc.
          by eapply forallb_forall in Hblank.
        - cbn. intros line Hall. apply forallb_forall. intros c Hc.
          by eapply List.Forall_forall in Hall. }
      by rewrite Hnone in Hfound.
  - split; [ done | ]. split; [ done | ]. split; [ done | ]. by destruct (forallb _ _).
Qed.

(** ** Normalized paths and the choice of a project *)

Lemma dropSlashes_cut (s : jsstring) :
  exists slashes, s = slashes ++ dropSlashes s /\ forallb isSlash slashes = true.
Proof.
  induction s as [ | c rest (slashes & IH & Hslashes)]; [ by exists [] | ].
  cbn [dropSlashes]. destruct (isSlash c) eqn:Ec; [ | by exists [] ].
  exists (c :: slashes). cbn. by rewrite Ec, Hslashes, <- IH.
Qed.

Lemma dropSlashes_head (s : jsstring) :
  match dropSlashes s with
  | c :: _ => isSlash c = false
  | [] => True
  end.
Proof.
  induction s as [ | c rest IH]; [ done | ]. cbn [dropSlashes].
  destruct (isSlash c) eqn:Ec; [ exact IH | done ].
Qed.

Lemma forallb_rev {A} (f : A -> bool) (l : list A) : forallb f (rev l) = forallb f l.
Proof.
  induction l as [ | a l IH]; [ done | ]. cbn [rev forallb].
  rewrite forallb_app, IH. cbn. rewrite andb_true_r. apply andb_comm.
Qed.

Example normalizePath_trailing :
  normalizePath (lit "/home/me/project//") = lit "/home/me/project"
  /\ normalizePath (lit "/") = lit "/"
  /\ normalizePath (lit "//") = [].
Proof. vm_compute. done. Qed.

(** X2.  A normalized path is the resolved path without the slashes
    and backslashes at its end.  A resolved path of at most one code
    unit is kept as it is; a longer one made of slashes only becomes
    the empty string; in every other case the normalized path does not
    end with a slash or a backslash. *)
Theorem normalizePath_no_trailing_slash `{Host} (input : jsstring) :
  let resolved := path_resolve input in
  let normalized := normalizePath input in
  exists slashes,
    resolved = normalized ++ slashes
    /\ forallb isSlash slashes = true
    /\ if (length resolved <=? 1)%nat then slashes = []
       else match last normalized with
            | Some c => isSlash c = false
            | None => forallb isSlash resolved = true
            end.
Proof.
  cbv zeta. unfold normalizePath.
  destruct (length (path_resolve input) <=? 1)%nat.
  { exists []. by rewrite app_nil_r. }
  destruct (dropSlashes_cut (rev (path_resolve input))) as (slashes & Hcut & Hslashes).
  pose proof (dropSlashes_head (rev (path_resolve input))) as Hhead.
  assert (Hresolved : path_resolve input
                      = rev (dropSlashes (rev (path_resolve input))) ++ rev slashes).
  { by rewrite <- rev_app_distr, <- Hcut, rev_involutive. }
  exists (rev slashes). split; [ exact Hresolved | ].
  split; [ by rewrite forallb_rev | ].
  destruct (dropSlashes (rev (path_resolve input))) as [ | c rest].
  - cbn [rev last]. rewrite Hresolved. cbn [rev app]. by rewrite forallb_rev.
  - cbn [rev]. by rewrite last_snoc.
Qed.

(** The parents of [cwd] among [projects], as [findProjectIdForCwd]
    tests them. *)
Definition isParentOf `{Host} (cwd : jsstring) (p : ProjectRegistration) : bool :=
  withinProject (normalizePath cwd) (normalizePath (proj_absolutePath p)).

Definition pathLength `{Host} (p : ProjectRegistration) : nat :=
  length (normalizePath (proj_absolutePath p)).

Lemma findBest_first `{Host} (cwd : jsstring) (projects : list ProjectRegistration) :
  forall bestMatch bestPathLength,
    match bestMatch with
    | Some b => bestPathLength = Z.of_nat (pathLength b)
    | None => bestPathLength = -1
    end ->
    match findBest (normalizePath cwd) projects bestMatch bestPathLength with
    | Some r =>
        (bestMatch = Some r
         /\ Forall (fun q => isParentOf cwd q = true -> Z.of_nat (pathLength q) <= bestPathLength)
              projects)
        \/ exists before after,
             projects = before ++ r :: after
             /\ isParentOf cwd r = true
             /\ bestPathLength < Z.of_nat (pathLength r)
             /\ Forall (fun q => isParentOf cwd q = true -> (pathLength q < pathLength r)%nat)
                  before
             /\ Forall (fun q => isParentOf cwd q = true -> (pathLength q <= pathLength r)%nat)
                  after
    | None =>
        bestMatch = None /\ Forall (fun q => isParentOf cwd q = false) projects
    end.
Proof.
  induction projects as [ | p rest IH]; intros bestMatch bestPathLength Hbest0;
    cbn [findBest].
  { destruct bestMatch; [ left | ]; by split. }
  fold (isParentOf cwd p). fold (pathLength p).
  destruct (isParentOf cwd p) eqn:Eparent; cbn [negb].
  2: { specialize (IH bestMatch bestPathLength Hbest0).
       destruct (findBest _ rest bestMatch bestPathLength) as [r | ].
       - destruct IH as [[Hbest Hrest] | (before & after & -> & Hr & Hlt & Hbefore & Hafter)].
         + left. split; [ done | ]. constructor; [ congruence | done ].
         + right. exists (p :: before), after. split; [ done | ]. split; [ done | ].
           split; [ done | ]. split; [ | done ]. constructor; [ congruence | done ].
       - destruct IH as [Hbest Hrest]. split; [ done | ]. by constructor. }
  destruct (bestPathLength <? Z.of_nat (pathLength p)) eqn:Elonger.
  - apply Z.ltb_lt in Elonger.
    specialize (IH (Some p) (Z.of_nat (pathLength p)) eq_refl).
    destruct (findBest _ rest (Some p) _) as [r | ]; [ | by destruct IH ].
    right. destruct IH as [[[= <-] Hrest] | (before & after & -> & Hr & Hlt & Hbefore & Hafter)].
    + exists [], rest. split; [ done | ]. split; [ done | ]. split; [ done | ].
      split; [ constructor | ].
      eapply Forall_impl; [ exact Hrest | ]. cbn. intros q Hq Hparent.
      specialize (Hq Hparent). lia.
    + exists (p :: before), after. split; [ done | ]. split; [ done | ]. split; [ lia | ].
      split; [ | done ]. constructor; [ intros _; lia | done ].
  - apply Z.ltb_ge in Elonger.
    specialize (IH bestMatch bestPathLength Hbest0).
    destruct (findBest _ rest bestMatch bestPathLength) as [r | ].
    + destruct IH as [[Hbest Hrest] | (before & after & -> & Hr & Hlt & Hbefore & Hafter)].
      * left. split; [ done | ]. by constructor.
      * right. exists (p :: before), after. split; [ done | ]. split; [ done | ].
        split; [ done | ]. split; [ | done ]. constructor; [ intros _; lia | done ].
    + destruct IH as [-> Hrest]. lia.
Qed.

Definition exampleProject (id path : string) : ProjectRegistration :=
  {| proj_id := lit id; proj_machineId := lit "machine-test";
     proj_absolutePath := lit path; proj_name := lit id |}.

Example findProjectIdForCwd_tie :
  findProjectIdForCwd [exampleProject "short" "/w"; exampleProject "first" "/w/app";
                       exampleProject "second" "/w/app/"; exampleProject "other" "/x"]
    (lit "/w/app/src")
  = Some (lit "first").
Proof. vm_compute. reflexivity. Qed.

(** X3.  The project chosen for a working directory is the first, in
    registration order, among its parents of greatest normalized path
    length: every parent registered before it has a strictly shorter
    path, and none registered after it has a longer one.  No project
    is chosen exactly when none is a parent. *)
Theorem findProjectIdForCwd_first_longest `{Host} (projects : list ProjectRegistration)
    (cwd : jsstring) :
  match findProjectIdForCwd projects cwd with
  | Some id =>
      exists before chosen after,
        projects = before ++ chosen :: after
        /\ proj_id chosen = id
        /\ isParentOf cwd chosen = true
        /\ Forall (fun q => isParentOf cwd q = true -> (pathLength q < pathLength chosen)%nat)
             before
        /\ Forall (fun q => isParentOf cwd q = true -> (pathLength q <= pathLength chosen)%nat)
             after
  | None => Forall (fun q => isParentOf cwd q = false) projects
  end.
Proof.
  unfold findProjectIdForCwd.
  pose proof (findBest_first cwd projects None (-1) eq_refl) as Hbest.
  destruct (findBest (normalizePath cwd) projects None (-1)) as [r | ].
  - destruct Hbest as [[[=] _] | (before & after & -> & Hr & _ & Hbefore & Hafter)].
    by exists before, r, after.
  - by destruct Hbest.
Qed.

(** ** The items mapped from one agent item *)

From Stdlib Require DecimalNat.

Lemma lit_injective (s s' : string) : lit s = lit s' -> s = s'.
Proof.
  revert s'. induction s as [ | a s IH]; intros [ | a' s']; cbn; try done.
  intros [= Ha Hs]. f_equal; [ | by apply IH ].
  by rewrite <- (ascii_N_embedding a), <- (ascii_N_embedding a'), Ha.
Qed.

(** [String(n)] tells [n]. *)
Lemma natToString_injective (n m : nat) : natToString n = natToString m -> n = m.
Proof.
  unfold natToString. intros Heq%lit_injective.
  assert (Hnonnil : forall k, Nat.to_uint k <> Decimal.Nil).
  { intros k Hk. pose proof (f_equal Nat.of_uint Hk) as Hzero.
    rewrite DecimalNat.Unsigned.of_to in Hzero. by subst k. }
  apply (f_equal NilZero.uint_of_string) in Heq.
  rewrite !NilZero.usu in Heq by apply Hnonnil. injection Heq as Heq.
  by rewrite <- (DecimalNat.Unsigned.of_to n), <- (DecimalNat.Unsigned.of_to m), Heq.
Qed.

Definition idOf (a : DurangoThreadItem) : jsstring := item_id (itemCommon a).

Definition turnIdOf (a : DurangoThreadItem) : jsstring := item_turnId (itemCommon a).

(** An item that carries what it is about: a text, a summary line, a
    command, or a path and a patch. *)
Definition hasContent (a : DurangoThreadItem) : Prop :=
  match a with
  | UserMessageItem _ text | AgentMessageItem _ text | PlanItem _ text => text <> []
  | ReasoningItem _ summary => summary <> []
  | CommandExecutionItem _ command _ _ output _ => command <> [] /\ output <> Some []
  | FileChangeItem _ path patch => path <> [] /\ patch <> []
  end.

Lemma mapChange_item (id turnId : jsstring) (t : Z) (index : nat) (change : Json)
    (a : DurangoThreadItem) :
  mapChange id turnId t index change = Some a ->
  idOf a = id ++ lit ":" ++ natToString index
  /\ turnIdOf a = turnId /\ timestampOf a = t /\ isFileChange a = true /\ hasContent a.
Proof.
  unfold mapChange. destruct (asObject (Some change)) as [changeObject | ]; [ | done ].
  destruct (getString (prop "path" changeObject)) as [path | ]; [ | done ].
  destruct (nonEmpty path) eqn:Epath; [ | done ]. cbn [negb]. intros [= <-].
  split; [ done | ]. split; [ done | ]. split; [ done | ]. split; [ done | ].
  split; [ by destruct path | ].
  by destruct (trim _).
Qed.

Lemma mapChanges_ids (id turnId : jsstring) (t : Z) (changes : list Json) :
  forall index,
    Forall (fun a => exists k, (index <= k)%nat /\ idOf a = id ++ lit ":" ++ natToString k)
      (mapChanges id turnId t index changes)
    /\ NoDup (map idOf (mapChanges id turnId t index changes))
    /\ Forall (fun a => turnIdOf a = turnId /\ hasContent a)
         (mapChanges id turnId t index changes).
Proof.
  induction changes as [ | change rest IH]; intros index; cbn [mapChanges].
  { split; [ constructor | ]. split; constructor. }
  destruct (IH (S index)) as (Hids & Hdistinct & Hturn).
  assert (Hlater : Forall (fun a => exists k, (index <= k)%nat
                                              /\ idOf a = id ++ lit ":" ++ natToString k)
                     (mapChanges id turnId t (S index) rest)).
  { eapply Forall_impl; [ exact Hids | ]. cbn. intros a (k & Hk & Ha). exists k. split; [ lia | done ]. }
  destruct (mapChange id turnId t index change) as [a | ] eqn:Ea; [ | done ].
  apply mapChange_item in Ea as (Hid & Hturn0 & _ & _ & Hcontent).
  split; [ constructor; [ by exists index | done ] | ].
  split; [ | by constructor ].
  cbn [map]. apply NoDup_cons. split; [ | done ].
  intros Hin%list_elem_of_In%in_map_iff. destruct Hin as (b & Hsame & Hb).
  eapply List.Forall_forall in Hids; [ | exact Hb ]. destruct Hids as (k & Hk & Hidb).
  rewrite Hid, Hidb in Hsame.
  apply app_inv_head, app_inv_head, natToString_injective in Hsame. lia.
Qed.

Example mapCodexItem_unknown_type :
  mapCodexItemBody (lit "i1") (JObject [(lit "type", JString (lit "webSearch"))]) (lit "t1") 5
  = [PlanItem {| item_id := lit "i1"; item_turnId := lit "t1"; item_timestamp := 5 |}
       (lit "{" ++ [34%N] ++ lit "type" ++ [34%N] ++ lit ":" ++ [34%N] ++ lit "webSearch"
        ++ [34%N] ++ lit "}")].
Proof. vm_compute. reflexivity. Qed.

Example mapCodexItem_blank_message :
  mapCodexItemBody (lit "i1")
    (JObject [(lit "type", JString (lit "agentMessage")); (lit "text", JString (lit "  "))])
    (lit "t1") 5
  = [].
Proof. vm_compute. reflexivity. Qed.

Lemma mapCodexItem_run `{Host} (item : Json) (turnId : jsstring) (timestamp : option Z)
    (st : Bridge) :
  let t := match timestamp with Some t => t | None => Date_now (clockReads st) end in
  exists items st',
    mapCodexItem item turnId timestamp st = (Ok items, st')
    /\ wire st' = wire st /\ ws st' = ws st
    /\ threadBindings st' = threadBindings st /\ pending st' = pending st
    /\ Forall (fun a => turnIdOf a = turnId /\ timestampOf a = t) items
    /\ NoDup (map idOf items)
    /\ ((length items <= 1)%nat \/ Forall (fun a => isFileChange a = true) items).
Proof.
  cbv zeta. unfold mapCodexItem.
  set (t := match timestamp with Some t => t | None => Date_now (clockReads st) end).
  assert (Hbody : forall id,
             let items := mapCodexItemBody id item turnId t in
             Forall (fun a => turnIdOf a = turnId /\ timestampOf a = t) items
             /\ NoDup (map idOf items)
             /\ ((length items <= 1)%nat \/ Forall (fun a => isFileChange a = true) items)).
  { intros id. cbv zeta.
    destruct (mapCodexItemBody_items id item turnId t) as [Hts Hkind].
    split; [ | split; [ | exact Hkind ] ].
    - apply Forall_forall. intros a Ha. split; [ | by eapply Forall_forall in Hts ].
      revert a Ha. apply Forall_forall. unfold mapCodexItemBody.
      repeat match goal with
      | |- context [if ?b then _ else _] => destruct b
      | |- context [match ?l with [] => _ | _ :: _ => _ end] => destruct l
      end; try (repeat constructor).
      all: eapply Forall_impl; [ apply (mapChanges_ids id turnId t) | ]; cbn; tauto.
    - destruct Hkind as [Hshort | Hfiles].
      + destruct (mapCodexItemBody id item turnId t) as [ | a [ | b rest]];
          [ apply NoDup_nil_2 | apply NoDup_singleton | cbn in Hshort; lia ].
      + unfold mapCodexItemBody in *.
        repeat match goal with
        | |- context [if ?b then _ else _] => destruct b
        | |- context [match ?l with [] => _ | _ :: _ => _ end] => destruct l
        end; try apply NoDup_nil_2; try apply NoDup_singleton.
        all: apply (mapChanges_ids id turnId t). }
  destruct timestamp as [given | ];
    destruct (getString (prop "id" item)) as [known | ];
    unfold mbind, M_bind, mret, M_ret, dateNow, newUUID;
    eexists _, _; (split; [ reflexivity | ]); (split; [ done | ]); (split; [ done | ]);
    (split; [ done | ]); (split; [ done | ]); apply Hbody.
Qed.

(** X4.  The items that [mapCodexItem] returns for one agent item all
    carry the given turn id and one timestamp (the given one, or the
    clock when none is given), their ids are pairwise distinct, and
    there is more than one only for a file change, whose items are all
    file changes.  The call sends nothing. *)
Theorem mapCodexItem_items `{Host} (item : Json) (turnId : jsstring) (timestamp : option Z)
    (st : Bridge) :
  let t := match timestamp with Some t => t | None => Date_now (clockReads st) end in
  exists items st',
    mapCodexItem item turnId timestamp st = (Ok items, st')
    /\ wire st' = wire st /\ ws st' = ws st
    /\ Forall (fun a => turnIdOf a = turnId /\ timestampOf a = t) items
    /\ NoDup (map idOf items)
    /\ ((length items <= 1)%nat \/ Forall (fun a => isFileChange a = true) items).
Proof.
  cbv zeta.
  destruct (mapCodexItem_run item turnId timestamp st)
    as (items & st' & Hrun & Hwire & Hws & _ & _ & Hitems).
  by exists items, st'.
Qed.

(** X5.  No item mapped from an agent item is empty: a message or a
    plan has a text, a reasoning item has a summary line, a command
    execution has a command and no empty output, and a file change has
    a path and a patch.  An item of an unknown type is not dropped: it
    is mapped to one plan item that holds its JSON. *)
Theorem mapCodexItem_content `{Host} (id : jsstring) (fields : list (jsstring * Json))
    (turnId : jsstring) (t : Z) :
  let item := JObject fields in
  let type := toLowerCase (orEmpty (getString (prop "type" item))) in
  Forall hasContent (mapCodexItemBody id item turnId t)
  /\ if isOneOf type ["usermessage"; "user_message"; "agentmessage"; "assistant_message";
                      "assistantmessage"; "reasoning"; "commandexecution"; "command_execution";
                      "filechange"; "file_change"; "plan"]%string
     then True
     else mapCodexItemBody id item turnId t
          = [PlanItem {| item_id := id; item_turnId := turnId; item_timestamp := t |}
               (JSON_stringify item)].
Proof.
  cbv zeta. unfold mapCodexItemBody, isOneOf.
  set (type := toLowerCase _). cbn [existsb].
  assert (Htext : forall (text : jsstring) (a : DurangoThreadItem),
             (text <> [] -> hasContent a) ->
             Forall hasContent (if nonEmpty text then [a] else [])).
  { intros text a Ha. destruct text; [ constructor | ].
    constructor; [ by apply Ha | constructor ]. }
  repeat match goal with
  | |- context [jsstring_eqb type ?w] => destruct (jsstring_eqb type w); cbn [orb]
  end.
  all: split; [ | done ].
  all: try (apply Htext; intros Hnonblank; exact Hnonblank).
  all: try (eapply Forall_impl; [ apply (mapChanges_ids id turnId t) | cbn; tauto ]).
  - destruct (extractSummaryLinesU _); by repeat constructor.
  - destruct (orEmpty (getString (prop "command" (JObject fields)))) as [ | c command];
      cbn [nonEmpty negb]; [ constructor | ].
    constructor; [ | constructor ]. split; [ done | ]. by destruct (trim _).
  - destruct (orEmpty (getString (prop "command" (JObject fields)))) as [ | c command];
      cbn [nonEmpty negb]; [ constructor | ].
    constructor; [ | constructor ]. split; [ done | ]. by destruct (trim _).
  - by repeat constructor.
Qed.

(** ** The turns of a [thread/read] response *)

Definition isObject (j : Json) : Prop := asObject (Some j) = Some j.

(** What [normalizeTurnEntries] makes of one entry: an object is kept,
    anything else becomes the single item of a turn of its own. *)
Definition turnOfEntry (entry turn : Json) : Prop :=
  match asObject (Some entry) with
  | Some object => turn = object
  | None => exists id, turn = mkTurn id [entry]
  end.

Lemma asObject_isObject (value : option Json) (object : Json) :
  asObject value = Some object -> isObject object.
Proof. destruct value as [[] | ]; cbn; intros [= <-]; done. Qed.

Lemma normalizeTurnEntries_turns `{Host} (entries : list Json) (st : Bridge) :
  exists turns st',
    normalizeTurnEntries entries st = (Ok turns, st')
    /\ wire st' = wire st /\ ws st' = ws st /\ clockReads st' = clockReads st
    /\ Forall2 turnOfEntry entries turns
    /\ Forall isObject turns.
Proof.
  unfold normalizeTurnEntries. revert st.
  induction entries as [ | entry rest IH]; intros st; cbn [mapM].
  { exists [], st. by repeat (split; [ done | ]); constructor. }
  unfold mbind at 1, M_bind at 1.
  assert (Hfirst : exists turn st1,
             match asObject (Some entry) with
             | Some turn => mret turn
             | None => id ← newUUID; mret (mkTurn id [entry])
             end st = (Ok turn, st1)
             /\ wire st1 = wire st /\ ws st1 = ws st /\ clockReads st1 = clockReads st
             /\ turnOfEntry entry turn /\ isObject turn).
  { unfold turnOfEntry. destruct (asObject (Some entry)) as [object | ] eqn:Eobject.
    - exists object, st. repeat (split; [ done | ]). by eapply asObject_isObject.
    - eexists _, _. unfold mbind, M_bind, newUUID, mret, M_ret.
      split; [ reflexivity | ]. repeat (split; [ done | ]). split; [ by eexists | done ]. }
  destruct Hfirst as (turn & st1 & -> & Hwire1 & Hws1 & Hclock1 & Hturn & Hobject).
  destruct (IH st1) as (turns & st2 & Hrest & Hwire2 & Hws2 & Hclock2 & Hturns & Hobjects).
  cbv beta iota. unfold mbind at 1, M_bind at 1. rewrite Hrest. unfold mret, M_ret.
  exists (turn :: turns), st2. split; [ done | ].
  split; [ congruence | ]. split; [ congruence | ]. split; [ congruence | ].
  split; by constructor.
Qed.

Lemma turnsAt_turns `{Host} (object : Json) (found : M (list Json)) (st : Bridge) :
  turnsAt object = Some found ->
  exists turns st',
    found st = (Ok turns, st')
    /\ wire st' = wire st /\ ws st' = ws st /\ Forall isObject turns.
Proof.
  unfold turnsAt. intros Hfound.
  assert (Hentries : forall entries,
             exists turns st',
               normalizeTurnEntries entries st = (Ok turns, st')
               /\ wire st' = wire st /\ ws st' = ws st /\ Forall isObject turns).
  { intros entries.
    destruct (normalizeTurnEntries_turns entries st)
      as (turns & st' & Hrun & Hwire & Hws & _ & _ & Hobjects).
    by exists turns, st'. }
  destruct (isArray (prop "turns" object)) as [entries | ].
  { injection Hfound as <-. apply Hentries. }
  destruct (isArray (propU "data" _)) as [entries | ].
  { injection Hfound as <-. apply Hentries. }
  destruct (isArray (prop "items" object)) as [items | ]; [ | done ].
  injection Hfound as <-.
  destruct (getString (prop "id" object)) as [id | ];
    unfold mbind, M_bind, newUUID, mret, M_ret; eexists _, _;
    (split; [ reflexivity | ]); repeat (split; [ done | ]); by repeat constructor.
Qed.

Lemma bfs_visited {A} (visit : Json -> option A) (children : Json -> list Json) (found : A) :
  forall fuel queue,
    bfs visit children fuel queue = Some (Some found) ->
    exists object, visit object = Some found.
Proof.
  induction fuel as [ | fuel IH]; intros queue; cbn [bfs]; [ done | ].
  destruct queue as [ | current rest]; [ done | ].
  destruct (asObject (Some current)) as [object | ]; [ | apply IH ].
  destruct (visit object) as [a | ] eqn:Evisit; [ | apply IH ].
  intros [= <-]. by exists object.
Qed.

Example extractTurns_nested_page :
  fst (extractTurnsFromThreadReadResponse
         (Some (JObject
                  [(lit "thread",
                    JObject
                      [(lit "turnsPage",
                        JObject
                          [(lit "data",
                            JArray [JObject [(lit "id", JString (lit "turn-1"));
                                             (lit "items",
                                              JArray [JObject [(lit "type", JString (lit "plan"));
                                                               (lit "text", JString (lit "ok"))]])]])])])]))
         (freshBridge None))
  = Ok [JObject [(lit "id", JString (lit "turn-1"));
                 (lit "items",
                  JArray [JObject [(lit "type", JString (lit "plan"));
                                   (lit "text", JString (lit "ok"))]])]].
Proof. vm_compute. reflexivity. Qed.

Example extractTurns_only_items :
  fst (extractTurnsFromThreadReadResponse
         (Some (JObject
                  [(lit "thread",
                    JObject [(lit "id", JString (lit "thread-1"));
                             (lit "items",
                              JArray [JObject [(lit "type", JString (lit "agentMessage"));
                                               (lit "text", JString (lit "hello"))]])])]))
         (freshBridge None))
  = Ok [mkTurn (lit "thread-1")
          [JObject [(lit "type", JString (lit "agentMessage"));
                    (lit "text", JString (lit "hello"))]]].
Proof. vm_compute. reflexivity. Qed.

(** X6.  [extractTurnsFromThreadReadResponse] always returns, sends
    nothing, and every turn it returns is an object.  When the response
    is an object with an array [turns], there is one turn per entry, in
    order: an entry that is an object is returned as it is, any other
    entry as the single item of a turn of its own. *)
Theorem extractTurns_objects `{Host} (response : option Json) (st : Bridge) :
  exists turns st',
    extractTurnsFromThreadReadResponse response st = (Ok turns, st')
    /\ wire st' = wire st /\ ws st' = ws st
    /\ Forall isObject turns
    /\ match response with
       | Some (JObject fields) =>
           match lookupField (lit "turns") fields with
           | Some (JArray entries) => Forall2 turnOfEntry entries turns
           | _ => True
           end
       | _ => turns = []
       end.
Proof.
  unfold extractTurnsFromThreadReadResponse.
  match goal with
  | |- context [search ?visit ?children response] =>
      set (children_ := children);
      destruct (search turnsAt children_ response) as [found | ] eqn:Esearch
  end.
  - unfold search in Esearch. destruct response as [root | ]; [ | done ].
    destruct (bfs turnsAt children_ (S (jsize root)) [root]) as [[found' | ] | ] eqn:Ebfs;
      try done.
    injection Esearch as ->.
    destruct (bfs_visited _ _ _ _ _ Ebfs) as (object & Hobject).
    destruct (turnsAt_turns object found st Hobject) as (turns & st' & Hrun & Hwire & Hws & Hall).
    exists turns, st'. repeat (split; [ done | ]).
    destruct root as [ | b | x | s | elems | fields]; try (cbn in Ebfs; done).
    cbn [bfs asObject] in Ebfs. destruct (lookupField (lit "turns") fields) as [[ | | | | entries | ] | ] eqn:Eturns;
        try done.
    unfold turnsAt in Ebfs. cbn [prop] in Ebfs. rewrite Eturns in Ebfs. cbn [isArray] in Ebfs.
    injection Ebfs as <-.
    destruct (normalizeTurnEntries_turns entries st)
      as (turns' & st'' & Hrun' & _ & _ & _ & Hturns & _).
    rewrite Hrun in Hrun'. injection Hrun' as Hsame _. by rewrite Hsame.
  - exists [], st. split; [ done | ]. split; [ done | ]. split; [ done | ].
    split; [ constructor | ].
    destruct response as [[ | | | | | fields] | ]; try done.
    destruct (lookupField (lit "turns") fields) as [[ | | | | entries | ] | ] eqn:Eturns;
      try done.
    exfalso. unfold search in Esearch. cbn [bfs asObject] in Esearch.
    unfold turnsAt in Esearch. cbn [prop] in Esearch. rewrite Eturns in Esearch.
    cbn [isArray] in Esearch. done.
Qed.

(** ** What forwarding a notification does to the bridge *)

(** [Forwards P Q m]: [m] returns a value that satisfies [Q], puts on
    the wire only messages that satisfy [P], and leaves the relay
    socket, the thread bindings and the pending runs as they are. *)
Definition Forwards {A} (P : RelayClientMessage -> Prop) (Q : A -> Prop) (m : M A) : Prop :=
  forall st, exists a st' delta,
    m st = (Ok a, st')
    /\ Q a
    /\ wire st' = wire st ++ delta
    /\ Forall P delta
    /\ ws st' = ws st
    /\ threadBindings st' = threadBindings st
    /\ pending st' = pending st.

Lemma Forwards_ret {A} P (Q : A -> Prop) (a : A) : Q a -> Forwards P Q (mret a).
Proof.
  intros Ha st. exists a, st, []. rewrite app_nil_r.
  split; [ done | ]. split; [ done | ]. split; [ done | ]. split; [ constructor | done ].
Qed.

Lemma Forwards_bind {A B} P (Q : A -> Prop) (R : B -> Prop) (m : M A) (k : A -> M B) :
  Forwards P Q m -> (forall a, Q a -> Forwards P R (k a)) -> Forwards P R (m ≫= k).
Proof.
  intros Hm Hk st. unfold mbind, M_bind.
  destruct (Hm st) as (a & st1 & d1 & -> & Ha & Hw1 & HP1 & Hs1 & Hb1 & Hp1).
  destruct (Hk a Ha st1) as (b & st2 & d2 & -> & Hb & Hw2 & HP2 & Hs2 & Hb2 & Hp2).
  exists b, st2, (d1 ++ d2). split; [ done | ]. split; [ done | ].
  split; [ by rewrite Hw2, Hw1, app_assoc | ]. split; [ by apply Forall_app | ].
  split; [ congruence | ]. split; congruence.
Qed.

Lemma Forwards_newUUID `{Host} P : Forwards P (fun _ => True) newUUID.
Proof.
  intros st. eexists _, _, []. rewrite app_nil_r. split; [ reflexivity | ].
  split; [ done | ]. split; [ done | ]. split; [ constructor | done ].
Qed.

Lemma Forwards_dateNow `{Host} P : Forwards P (fun _ => True) dateNow.
Proof.
  intros st. eexists _, _, []. rewrite app_nil_r. split; [ reflexivity | ].
  split; [ done | ]. split; [ done | ]. split; [ constructor | done ].
Qed.

Lemma Forwards_send (P : RelayClientMessage -> Prop) (message : RelayClientMessage) :
  P message -> Forwards P (fun _ => True) (send message).
Proof.
  intros HP st. unfold send.
  destruct (ws st) as [[ | | | ] | ] eqn:Ews;
    try (exists tt, st, []; rewrite app_nil_r; split; [ done | ]; split; [ done | ];
         split; [ done | ]; split; [ constructor | done ]).
  exists tt, (pushWire message st), [message]. split; [ done | ]. split; [ done | ].
  split; [ done | ]. split; [ by constructor | done ].
Qed.

Lemma Forwards_sendItems P (cfg : CliConfig) (turnId durangoThreadId : jsstring)
    (items : list DurangoThreadItem) :
  Forall (fun item => P (EventUpsert turnId (cfg_machineId cfg) durangoThreadId item)) items ->
  Forwards P (fun _ => True) (sendItems cfg turnId durangoThreadId items).
Proof.
  unfold sendItems.
  induction 1 as [ | item items Hitem _ IH]; cbn [foldM].
  - by apply Forwards_ret.
  - eapply Forwards_bind; [ by apply Forwards_send | intros [] _; apply IH ].
Qed.

Section Forwarding.
Context `{Host}.
Variable cfg : CliConfig.

(** A message for the thread [d] of this machine: a title update with
  a title, or an item filed under the turn it belongs to. *)
Definition forThread (d : jsstring) (m : RelayClientMessage) : Prop :=
match m with
| ThreadUpdate machineId threadId title =>
    machineId = cfg_machineId cfg /\ threadId = d /\ title <> [] /\ trim title = title
| EventUpsert requestId machineId threadId item =>
    machineId = cfg_machineId cfg /\ threadId = d /\ turnIdOf item = requestId
| _ => False
end.

(** The thread a notification is forwarded to, if any. *)
Definition boundThread (params : option Json) (st : Bridge) : option jsstring :=
match extractThreadId params with
| Some codexThreadId =>
    match threadBindings st !! codexThreadId with
    | Some d => if nonEmpty d then Some d else None
    | None => None
    end
| None => None
end.

Lemma Forwards_mapCodexItem P (item : Json) (turnId : jsstring) (timestamp : option Z) :
Forwards P (Forall (fun a => turnIdOf a = turnId)) (mapCodexItem item turnId timestamp).
Proof.
intros st.
destruct (mapCodexItem_run item turnId timestamp st)
  as (items & st' & Hrun & Hwire & Hws & Hbind & Hpend & Hitems & _).
exists items, st', []. rewrite app_nil_r. split; [ done | ].
split; [ eapply Forall_impl; [ exact Hitems | cbn; tauto ] | ].
split; [ done | ]. split; [ constructor | done ].
Qed.

Lemma Forwards_emitOrFallback (d method : jsstring) (params : option Json) (turnId : jsstring)
  (items : list DurangoThreadItem) :
Forall (fun a => turnIdOf a = turnId) items ->
Forwards (forThread d) (fun _ => True) (emitOrFallback cfg method params turnId d items).
Proof.
intros Hitems. unfold emitOrFallback.
eapply (Forwards_bind _ (Forall (fun a => turnIdOf a = turnId))).
- destruct items as [ | a items]; [ | by apply Forwards_ret ].
  eapply Forwards_bind; [ apply Forwards_newUUID | intros id _ ].
  eapply Forwards_bind; [ apply Forwards_dateNow | intros now _ ].
  apply Forwards_ret. by repeat constructor.
- intros items' Hitems'. apply Forwards_sendItems.
  eapply Forall_impl; [ exact Hitems' | ]. cbn. by intros a ->.
Qed.

End Forwarding.

Lemma extractThreadTitle_trimmed (params : option Json) (title : jsstring) :
  extractThreadTitle params = Some title -> title <> [] /\ trim title = title.
Proof.
  unfold extractThreadTitle, search. destruct params as [root | ]; [ | done ].
  destruct (bfs _ _ _ _) as [[found | ] | ] eqn:Ebfs; try done. intros [= ->].
  apply bfs_visited in Ebfs as (object & Hvisit). cbv zeta in Hvisit.
  match type of Hvisit with
  | match ?chosen with _ => _ end = _ => destruct chosen as [t | ]; [ | done ]
  end.
  destruct (nonEmpty (trim t)) eqn:Et; [ | done ]. injection Hvisit as <-.
  split; [ by destruct (trim t) | apply trim_idempotent ].
Qed.

Example forward_title_update :
  wire (snd (forwardCodexNotification exampleConfig (lit "thread/name/updated")
               (Some (JObject [(lit "threadId", JString (lit "t1"));
                               (lit "threadName", JString (lit "ignored"));
                               (lit "thread", JObject [(lit "name", JString (lit " New name "))])]))
               boundBridge))
  = [ThreadUpdate (lit "machine-test") (lit "d1") (lit "New name")].
Proof. vm_compute. reflexivity. Qed.

Example forward_unbound_thread :
  forwardCodexNotification exampleConfig (lit "item/completed")
    (Some (JObject [(lit "threadId", JString (lit "t2"));
                    (lit "item", JObject [(lit "type", JString (lit "plan"));
                                          (lit "text", JString (lit "step"))])]))
    boundBridge
  = (Ok tt, boundBridge).
Proof. vm_compute. reflexivity. Qed.

(** X7.  Forwarding an agent notification never throws and changes
    neither the relay socket, nor the thread bindings, nor the pending
    runs.  A notification that names no thread, or a thread that is
    not bound, changes nothing at all.  For a bound thread every
    message sent is for that thread and this machine: a
    [thread.update] with a title that is not empty and has no
    surrounding white space, or an [event.upsert] whose request id is
    the turn id of the item it carries. *)
Theorem forwardCodexNotification_routing `{Host} (cfg : CliConfig) (method : jsstring)
    (params : option Json) (st : Bridge) :
  let out := forwardCodexNotification cfg method params st in
  match boundThread params st with
  | None => out = (Ok tt, st)
  | Some d =>
      fst out = Ok tt
      /\ exists delta,
           wire (snd out) = wire st ++ delta
           /\ Forall (forThread cfg d) delta
           /\ ws (snd out) = ws st
           /\ threadBindings (snd out) = threadBindings st
           /\ pending (snd out) = pending st
  end.
Proof.
  cbv zeta. unfold boundThread, forwardCodexNotification.
  destruct (extractThreadId params) as [codexThreadId | ]; [ | done ].
  assert (Hlookup : forall k : Bridge -> M unit, (getState ≫= k) st = k st st) by done.
  rewrite Hlookup. clear Hlookup.
  destruct (threadBindings st !! codexThreadId) as [d | ]; [ | done ].
  destruct (nonEmpty d); cbn [negb]; [ | done ].
  enough (Hforwards : forall m : M unit,
             Forwards (forThread cfg d) (fun _ => True) m ->
             fst (m st) = Ok tt
             /\ exists delta,
                  wire (snd (m st)) = wire st ++ delta
                  /\ Forall (forThread cfg d) delta
                  /\ ws (snd (m st)) = ws st
                  /\ threadBindings (snd (m st)) = threadBindings st
                  /\ pending (snd (m st)) = pending st).
  { apply Hforwards. clear Hforwards.
    set (lowerMethod := toLowerCase method).
    assert (Hquiet : forall P, Forwards P (fun _ : unit => True) (mret tt))
      by (intros P; by apply Forwards_ret).
    destruct (startsWith lowerMethod (lit "thread/") && _).
    { destruct (extractThreadTitle params) as [title | ] eqn:Etitle; [ | apply Hquiet ].
      apply Forwards_send. apply extractThreadTitle_trimmed in Etitle. by cbn. }
    eapply (Forwards_bind _ (fun _ => True)).
    { destruct (extractTurnId params);
        [ by apply Forwards_ret | apply Forwards_newUUID ]. }
    intros turnId _.
    assert (Hmapped : forall raw,
               Forwards (forThread cfg d) (fun _ => True)
                 (items ← mapCodexItem raw turnId None;
                  emitOrFallback cfg method params turnId d items)).
    { intros raw. eapply Forwards_bind; [ apply Forwards_mapCodexItem | ].
      intros items Hitems. by apply Forwards_emitOrFallback. }
    destruct (jsstring_eqb lowerMethod (lit "item/started")).
    { destruct (asObject (propU "item" (asObject params))) as [raw | ]; [ | apply Hquiet ].
      destruct (isOneOf _ _); [ apply Hmapped | apply Hquiet ]. }
    assert (Hemit : forall items : M (list DurangoThreadItem),
               Forwards (forThread cfg d) (Forall (fun a => turnIdOf a = turnId)) items ->
               Forwards (forThread cfg d) (fun _ => True)
                 (items ≫= emitOrFallback cfg method params turnId d)).
    { intros items Hitems. eapply Forwards_bind; [ exact Hitems | ].
      intros found Hfound. by apply Forwards_emitOrFallback. }
    destruct (jsstring_eqb lowerMethod (lit "item/completed")).
    { apply Hemit. destruct (asObject (propU "item" (asObject params))) as [raw | ];
        [ apply Forwards_mapCodexItem | apply Forwards_ret; constructor ]. }
    destruct (jsstring_eqb lowerMethod (lit "turn/completed")).
    { apply Hemit. destruct (negb _ && negb _); [ | apply Forwards_ret; constructor ].
      eapply Forwards_bind; [ apply Forwards_newUUID | intros id _ ].
      eapply Forwards_bind; [ apply Forwards_dateNow | intros now _ ].
      apply Forwards_ret. by repeat constructor. }
    destruct (_ || _); [ apply Hquiet | ].
    apply Forwards_emitOrFallback. constructor. }
  intros m Hm. destruct (Hm st) as (u & st' & delta & -> & _ & Hwire & Hall & Hrest).
  split; [ by destruct u | ]. by exists delta.
Qed.

Definition isTitleMethod (lowerMethod : jsstring) : bool :=
  startsWith lowerMethod (lit "thread/")
  && (includes lowerMethod (lit "updated") || includes lowerMethod (lit "renamed")
      || includes lowerMethod (lit "title")).

(** X8.  Streaming deltas are not forwarded: a notification whose
    method contains [delta] in any case, and is not a [thread/] title
    method, puts nothing on the wire, whatever its parameters. *)
Theorem forwardCodexNotification_drops_deltas `{Host} (cfg : CliConfig) (method : jsstring)
    (params : option Json) (st : Bridge) :
  includes (toLowerCase method) (lit "delta") = true ->
  isTitleMethod (toLowerCase method) = false ->
  fst (forwardCodexNotification cfg method params st) = Ok tt
  /\ wire (snd (forwardCodexNotification cfg method params st)) = wire st.
Proof.
  unfold isTitleMethod, forwardCodexNotification. cbv zeta.
  set (lowerMethod := toLowerCase method). intros Hdelta ->.
  destruct (extractThreadId params) as [codexThreadId | ]; [ | done ].
  assert (Hlookup : forall k : Bridge -> M unit, (getState ≫= k) st = k st st) by done.
  rewrite Hlookup. clear Hlookup.
  destruct (threadBindings st !! codexThreadId) as [d | ]; [ | done ].
  destruct (nonEmpty d); cbn [negb]; [ | done ].
  assert (Hother : forall name : string,
             includes (lit name) (lit "delta") = false ->
             jsstring_eqb lowerMethod (lit name) = false).
  { intros name Hname. apply not_true_iff_false. intros Heq%jsstring_eqb_true.
    rewrite Heq in Hdelta. congruence. }
  rewrite !Hother by (vm_compute; reflexivity).
  rewrite Hdelta, orb_true_r. cbn [orb].
  unfold mbind, M_bind. by destruct (extractTurnId params).
Qed.

Lemma forwardCodexNotification_drops_deltas_witness :
  let out := forwardCodexNotification exampleConfig (lit "item/agentMessage/Delta")
               (Some (JObject [(lit "threadId", JString (lit "t1"));
                               (lit "delta", JString (lit "partial text"))]))
               boundBridge in
  fst out = Ok tt /\ wire (snd out) = wire boundBridge.
Proof.
  apply (forwardCodexNotification_drops_deltas exampleConfig (lit "item/agentMessage/Delta"));
    vm_compute; reflexivity.
Defined.

(** ** What a dispatch does to the bindings and the pending runs *)

(** [Keeps proj m]: whether it returns or throws, [m] leaves the
    component [proj] of the bridge as it was. *)
Definition Keeps {A X} (proj : Bridge -> X) (m : M A) : Prop :=
  forall st, proj (snd (m st)) = proj st.

Section KeepsLemmas.
Context {X : Type}.
Variable proj : Bridge -> X.
Hypothesis proj_setWs : forall w st, proj (setWs w st) = proj st.
Hypothesis proj_pushWire : forall m st, proj (pushWire m st) = proj st.
Hypothesis proj_tickUuid : forall st, proj (tickUuid st) = proj st.
Hypothesis proj_tickClock : forall st, proj (tickClock st) = proj st.

Lemma Keeps_ret {A} (a : A) : Keeps proj (mret a).
Proof. done. Qed.

Lemma Keeps_throw {A} (e : Thrown) : Keeps proj (@throw A e).
Proof. done. Qed.

Lemma Keeps_getState : Keeps proj getState.
Proof. done. Qed.

Lemma Keeps_newUUID `{Host} : Keeps proj newUUID.
Proof. intros st. apply proj_tickUuid. Qed.

Lemma Keeps_dateNow `{Host} : Keeps proj dateNow.
Proof. intros st. apply proj_tickClock. Qed.

Lemma Keeps_send (message : RelayClientMessage) : Keeps proj (send message).
Proof.
intros st. unfold send.
destruct (ws st) as [[ | | | ] | ]; cbn [snd]; first [ apply proj_pushWire | done ].
Qed.

Lemma Keeps_await {A} (o : Outcome A) : Keeps proj (await o).
Proof.
intros st. unfold await, closeRelay. cbn [snd].
destruct (outcome_relayCloses o); [ | done ].
destruct (ws st); [ apply proj_setWs | done ].
Qed.

Lemma Keeps_modify (f : Bridge -> Bridge) :
(forall st, proj (f st) = proj st) -> Keeps proj (modify f).
Proof. intros Hf st. apply Hf. Qed.

Lemma Keeps_bind {A B} (m : M A) (k : A -> M B) :
Keeps proj m -> (forall a, Keeps proj (k a)) -> Keeps proj (m ≫= k).
Proof.
intros Hm Hk st. unfold mbind, M_bind. specialize (Hm st).
destruct (m st) as [[a | e] st1]; cbn [snd] in *; [ | done ].
by rewrite Hk.
Qed.

Lemma Keeps_tryCatch {A} (body : M A) (handler : Thrown -> M A) :
Keeps proj body -> (forall e, Keeps proj (handler e)) -> Keeps proj (tryCatch body handler).
Proof.
intros Hm Hk st. unfold tryCatch. specialize (Hm st).
destruct (body st) as [[a | e] st1]; cbn [snd] in *; [ done | ].
by rewrite Hk.
Qed.

Lemma Keeps_foldM {A S} (body : S -> A -> M S) (xs : list A) :
(forall s x, Keeps proj (body s x)) -> forall s, Keeps proj (foldM body xs s).
Proof.
intros Hbody. induction xs as [ | x xs IH]; intros s; cbn [foldM].
- apply Keeps_ret.
- apply Keeps_bind; [ apply Hbody | intros s'; apply IH ].
Qed.

Lemma Keeps_mapM {A B} (f : A -> M B) (xs : list A) :
(forall x, Keeps proj (f x)) -> Keeps proj (mapM f xs).
Proof.
intros Hf. induction xs as [ | x xs IH]; cbn [mapM].
- apply Keeps_ret.
- apply Keeps_bind; [ apply Hf | intros y ].
  apply Keeps_bind; [ apply IH | intros ys; apply Keeps_ret ].
Qed.

End KeepsLemmas.

(** Breaks a computation down along its binds, loops and matches. *)
Ltac keeps_step :=
  lazymatch goal with
  | |- Keeps _ (mret _) => apply Keeps_ret
  | |- Keeps _ (throw _) => apply Keeps_throw
  | |- Keeps _ getState => apply Keeps_getState
  | |- Keeps _ newUUID => apply Keeps_newUUID; reflexivity
  | |- Keeps _ dateNow => apply Keeps_dateNow; reflexivity
  | |- Keeps _ (await _) => apply Keeps_await; reflexivity
  | |- Keeps _ (send _) => apply Keeps_send; reflexivity
  | |- Keeps _ (modify _) => apply Keeps_modify; reflexivity
  | |- Keeps _ (mbind _ _) => apply Keeps_bind; [ | intros ? ]
  | |- Keeps _ (tryCatch _ _) => apply Keeps_tryCatch; [ | intros ? ]
  | |- Keeps _ (foldM _ _ _) => apply Keeps_foldM; intros ? ?; cbv beta
  | |- Keeps _ (mapM _ _) => apply Keeps_mapM; intros ?; cbv beta
  | |- Keeps _ (match ?x with _ => _ end) => destruct x
  | |- Keeps _ (let _ := _ in _) => cbv zeta
  end.

Ltac keeps := repeat keeps_step.

Lemma Keeps_extractTurns `{Host} {X} (proj : Bridge -> X) (response : option Json) :
  (forall st, proj (tickUuid st) = proj st) ->
  Keeps proj (extractTurnsFromThreadReadResponse response).
Proof.
  intros Htick. unfold extractTurnsFromThreadReadResponse.
  destruct (search _ _ response) as [found | ] eqn:Esearch; [ | apply Keeps_ret ].
  unfold search in Esearch. destruct response as [root | ]; [ | done ].
  destruct (bfs _ _ _ _) as [[found' | ] | ] eqn:Ebfs; try done.
  injection Esearch as ->.
  apply bfs_visited in Ebfs as (object & Hobject). unfold turnsAt in Hobject.
  repeat match type of Hobject with
  | match ?x with _ => _ end = _ => destruct x
  end; try done; injection Hobject as <-; unfold normalizeTurnEntries.
  all: repeat first
         [ apply Keeps_ret | by apply Keeps_newUUID
         | apply Keeps_mapM; intros ?
         | apply Keeps_bind; [ | intros ? ]
         | match goal with |- Keeps _ (match ?x with _ => _ end) => destruct x end ].
Qed.

Section KeepsOfTheBridge.
Context `{Host} `{Agent}.
Variable cfg : CliConfig.

Lemma hydrateThreadHistory_keeps_bindings (threadId codexThreadId : jsstring) :
Keeps threadBindings (hydrateThreadHistory cfg threadId codexThreadId)
/\ Keeps pending (hydrateThreadHistory cfg threadId codexThreadId).
Proof.
split; unfold hydrateThreadHistory, replayResponse;
  (apply Keeps_bind; [ by apply Keeps_await | intros response ]);
  (apply Keeps_bind; [ by apply Keeps_extractTurns | intros turns ]);
  unfold replayTurn, replayRaw, replayMapped, mapCodexItem; keeps.
Qed.

Lemma buildTurnInput_keeps_bindings (prompt requestId : jsstring) (cwd : option jsstring)
  (attachments : option (list DispatchAttachment)) :
Keeps threadBindings (buildTurnInput prompt requestId cwd attachments)
/\ Keeps pending (buildTurnInput prompt requestId cwd attachments).
Proof.
split; unfold buildTurnInput, materializeAttachmentInputs, materializeOne, mkdir, writeFile;
  keeps.
Qed.

End KeepsOfTheBridge.

Example thread_start_binds_request :
  let action := exampleAction
                  (ThreadStartAction (lit "/w") (lit "hello") None
                     {| ts_model := None; ts_reasoningEffort := None;
                        ts_approvalPolicy := None; ts_sandbox := None |}) in
  threadBindings (snd (handleDispatch exampleConfig action (freshBridge (Some OPEN))))
  !! lit "thread-1"
  = Some (lit "req-1").
Proof. vm_compute. reflexivity. Qed.

Section DispatchEffects.
Context `{Host} `{Agent}.
Variable cfg : CliConfig.

Lemma ack_returns (action : DispatchAction) (status : AckStatus) (payload : option Json)
  (error : option ErrorEnvelope) (st : Bridge) :
exists st',
  ack action status payload error st = (Ok tt, st')
  /\ threadBindings st' = threadBindings st /\ pending st' = pending st
  /\ written st' = written st /\ made st' = made st.
Proof.
unfold ack, send. destruct (ws st) as [[ | | | ] | ]; by eexists.
Qed.

Lemma tryCatch_keeps {A X} (proj : Bridge -> X) (body : M A) (handler : Thrown -> M A)
  (st : Bridge) :
(forall e, Keeps proj (handler e)) ->
proj (snd (tryCatch body handler st)) = proj (snd (body st)).
Proof.
intros Hhandler. unfold tryCatch. destruct (body st) as [[a | e] st1]; [ done | ].
apply Hhandler.
Qed.

Lemma failed_ack_keeps {X} (proj : Bridge -> X) (action : DispatchAction) :
(forall m st, proj (pushWire m st) = proj st) ->
forall e, Keeps proj
            (ack action AckFailed None
               (Some {| err_code := lit "APP_SERVER_ERROR"; err_message := thrownMessage e |})).
Proof. intros Hpush e. unfold ack. by apply Keeps_send. Qed.

Lemma codex_turnStart_keeps {X} (proj : Bridge -> X) (codexThreadId : jsstring)
  (input : list CodexTurnInputItem) (settings : TurnSettings) :
(forall w st, proj (setWs w st) = proj st) ->
Keeps proj (codex_turnStart codexThreadId input settings).
Proof.
intros Hws. unfold codex_turnStart. destruct input; [ apply Keeps_throw | by apply Keeps_await ].
Qed.

(** The state in which the [try] block of [handleDispatch] starts. *)
Definition accepted (action : DispatchAction) (st : Bridge) : Bridge :=
snd (ack action AckAccepted None None st).

(** X9.  What a dispatch leaves in the thread bindings and the pending
  runs.  [thread.hydrate] and [turn.start] bind the agent thread to
  the thread of the action before anything else is tried, so the
  binding is there even when the dispatch fails.  [thread.start]
  binds the new agent thread to the request id, and records the
  pending run, only when the thread and its first turn were started;
  when any step fails it leaves both maps as they were.
  [model.list] and [turn.interrupt] change neither. *)
Theorem handleDispatch_bindings (action : DispatchAction) (st : Bridge) :
let out := handleDispatch cfg action st in
match act_kind action with
| ThreadStartAction cwd prompt attachments settings =>
    match fst (dispatchBody cfg action (accepted action st)) with
    | Ok _ =>
        exists thread,
          outcome_result (agent_threadStart cwd settings) = Ok thread
          /\ threadBindings (snd out)
             = <[thread := act_requestId action]> (threadBindings st)
          /\ pending (snd out)
             = <[act_requestId action :=
                   {| run_requestId := act_requestId action;
                      run_threadId := act_requestId action |}]> (pending st)
    | Throw _ =>
        threadBindings (snd out) = threadBindings st /\ pending (snd out) = pending st
    end
| ThreadHydrateAction threadId codexThreadId
| TurnStartAction threadId codexThreadId _ _ _ _ =>
    threadBindings (snd out) = <[codexThreadId := threadId]> (threadBindings st)
    /\ pending (snd out) = pending st
| ModelListAction | TurnInterruptAction _ _ =>
    threadBindings (snd out) = threadBindings st /\ pending (snd out) = pending st
end.
Proof.
cbv zeta. unfold accepted.
destruct (ack_returns action AckAccepted None None st) as (st1 & Hack & Hb1 & Hp1 & _).
assert (Hout : handleDispatch cfg action st
               = tryCatch (dispatchBody cfg action)
                   (fun error =>
                      ack action AckFailed None
                        (Some {| err_code := lit "APP_SERVER_ERROR";
                                 err_message := thrownMessage error |})) st1).
{ unfold handleDispatch, mbind, M_bind. by rewrite Hack. }
rewrite Hout, Hack. cbn [snd]. clear Hout Hack.
rewrite !(tryCatch_keeps threadBindings) by (by apply failed_ack_keeps).
rewrite !(tryCatch_keeps pending) by (by apply failed_ack_keeps).
rewrite <- Hb1, <- Hp1. clear Hb1 Hp1 st.
unfold dispatchBody.
destruct (act_kind action)
  as [cwd prompt attachments settings | threadId codexThreadId
      | threadId codexThreadId cwd prompt attachments settings | | threadId codexThreadId].
- (* thread.start *)
  match goal with
  | |- context [fst (?m st1)] => remember (m st1) as result eqn:Eresult
  end.
  unfold mbind at 1, M_bind at 1 in Eresult.
  destruct (ack_returns action AckRunning None None st1) as (st2 & Hack & Hb2 & Hp2 & _).
  rewrite Hack in Eresult. clear Hack.
  unfold mbind at 1, M_bind at 1, await at 1 in Eresult.
  set (st3 := if outcome_relayCloses _ then closeRelay st2 else st2) in Eresult.
  assert (Hb3 : threadBindings st3 = threadBindings st1 /\ pending st3 = pending st1).
  { subst st3. unfold closeRelay.
    destruct (outcome_relayCloses _); [ destruct (ws st2) | ]; by rewrite <- ?Hb2, <- ?Hp2. }
  destruct Hb3 as [Hb3 Hp3]. clearbody st3.
  destruct (outcome_result (agent_threadStart cwd settings)) as [thread | e];
    [ | by subst result ].
  unfold mbind at 1, M_bind at 1 in Eresult.
  destruct (buildTurnInput_keeps_bindings prompt (act_requestId action) (Some cwd) attachments)
    as [Hbuild1 Hbuild2].
  specialize (Hbuild1 st3). specialize (Hbuild2 st3).
  destruct (buildTurnInput prompt (act_requestId action) (Some cwd) attachments st3)
    as [[input | e] st4]; cbn [fst snd] in *;
    [ | subst result; cbn [fst snd]; by rewrite Hbuild1, Hbuild2 ].
  unfold mbind at 1, M_bind at 1 in Eresult.
  pose proof (codex_turnStart_keeps threadBindings thread input settings
                (fun _ _ => eq_refl) st4) as Hturn1.
  pose proof (codex_turnStart_keeps pending thread input settings
                (fun _ _ => eq_refl) st4) as Hturn2.
  destruct (codex_turnStart thread input settings st4) as [[[] | e] st5];
    cbn [fst snd] in *;
    [ | subst result; cbn [fst snd]; by rewrite Hturn1, Hturn2, Hbuild1, Hbuild2 ].
  unfold mbind, M_bind, modify in Eresult.
  set (st7 := setBinding _ _ (setPending _ _ st5)) in Eresult.
  destruct (ack_returns action AckCompleted
              (Some (JObject [(lit "codexThreadId", JString thread);
                              (lit "state", JString (lit "started"))])) None st7)
    as (st8 & Hack & Hb8 & Hp8 & _).
  rewrite Hack in Eresult. subst result.
  cbn [fst snd]. exists thread. split; [ done | ].
  rewrite Hb8, Hp8. subst st7. cbn [threadBindings pending setBinding setPending].
  by rewrite Hturn1, Hturn2, Hbuild1, Hbuild2, Hb3, Hp3.
- (* thread.hydrate *)
  match goal with
  | |- context [threadBindings (snd (?m st1))] => remember (m st1) as result eqn:Eresult
  end.
  unfold mbind at 1, M_bind at 1 in Eresult.
  destruct (ack_returns action AckRunning None None st1) as (st2 & Hack & Hb2 & Hp2 & _).
  rewrite Hack in Eresult. clear Hack.
  unfold mbind at 1, M_bind at 1, modify in Eresult.
  match type of Eresult with
  | _ = ?rest (setBinding ?c ?t st2) =>
      assert (Hrest : Keeps threadBindings rest /\ Keeps pending rest)
  end.
  { destruct (hydrateThreadHistory_keeps_bindings cfg threadId codexThreadId).
    split; (apply Keeps_bind; [ done | intros count; unfold ack; by apply Keeps_send ]). }
  destruct Hrest as [Hrest1 Hrest2]. subst result. rewrite Hrest1, Hrest2.
  cbn [threadBindings pending setBinding]. by rewrite Hb2, Hp2.
- (* turn.start *)
  match goal with
  | |- context [threadBindings (snd (?m st1))] => remember (m st1) as result eqn:Eresult
  end.
  unfold mbind at 1, M_bind at 1 in Eresult.
  destruct (ack_returns action AckRunning None None st1) as (st2 & Hack & Hb2 & Hp2 & _).
  rewrite Hack in Eresult. clear Hack.
  unfold mbind at 1, M_bind at 1, modify in Eresult.
  match type of Eresult with
  | _ = ?rest (setBinding ?c ?t st2) =>
      assert (Hrest : Keeps threadBindings rest /\ Keeps pending rest)
  end.
  { destruct (buildTurnInput_keeps_bindings prompt (act_requestId action) cwd attachments).
    split; (apply Keeps_bind; [ done | intros input ]);
      (apply Keeps_bind; [ by apply codex_turnStart_keeps | intros ? ]);
      unfold ack; by apply Keeps_send. }
  destruct Hrest as [Hrest1 Hrest2]. subst result. rewrite Hrest1, Hrest2.
  cbn [threadBindings pending setBinding]. by rewrite Hb2, Hp2.
- (* model.list *)
  split;
    match goal with
    | |- ?proj (snd (?m ?s)) = _ => enough (Hkeeps : Keeps proj m) by apply Hkeeps
    end;
    unfold ack; keeps.
- (* turn.interrupt *)
  split;
    match goal with
    | |- ?proj (snd (?m ?s)) = _ => enough (Hkeeps : Keeps proj m) by apply Hkeeps
    end;
    unfold ack; keeps.
Qed.

End DispatchEffects.

(** ** The number of items a hydration reports *)

Section HydrationCount.
Context `{Host}.
Variable cfg : CliConfig.
Variable threadId : jsstring.

Lemma replayTurns_count (turns : list Json) :
forall carried st,
  ws st = Some OPEN ->
  exists carried' st' delta,
    foldM (replayTurn cfg threadId) turns carried st = (Ok carried', st')
    /\ ws st' = Some OPEN
    /\ wire st' = wire st ++ delta
    /\ Forall isUpsert delta
    /\ snd carried' = (snd carried + length delta)%nat.
Proof.
induction turns as [ | turn rest IH]; intros carried st Hopen.
- exists carried, st, []. rewrite app_nil_r.
  split; [ done | ]. split; [ done | ]. split; [ done | ]. split; [ constructor | ].
  cbn. lia.
- cbn [foldM]. unfold mbind, M_bind.
  pose proof (replayTurn_open cfg threadId carried turn st Hopen) as Hstep.
  cbn zeta in Hstep. unfold Emits in Hstep.
  destruct Hstep
    as (carried1 & replayed & terminator & r'
        & (st1 & -> & Hopen1 & _ & Hwire1) & _ & _ & Hcount1 & _).
  destruct (IH carried1 st1 Hopen1)
    as (carried2 & st2 & delta2 & -> & Hopen2 & Hwire2 & Hups2 & Hcount2).
  eexists carried2, st2, (_ ++ delta2). split; [ done | ]. split; [ done | ].
  split; [ rewrite Hwire2, Hwire1; by rewrite <- app_assoc | ].
  split.
  + apply Forall_app. split; [ | done ].
    apply Forall_forall. intros m Hm. apply list_elem_of_In, in_map_iff in Hm.
    by destruct Hm as (a & <- & _).
  + rewrite Hcount2, Hcount1, !length_app, length_map, length_app. lia.
Qed.

Lemma replayResponse_count (response : Json) (st : Bridge) :
ws st = Some OPEN ->
exists delta st',
  replayResponse cfg threadId response st = (Ok (length delta), st')
  /\ ws st' = Some OPEN
  /\ wire st' = wire st ++ delta
  /\ Forall isUpsert delta.
Proof.
intros Hopen. unfold replayResponse. unfold mbind at 1, M_bind at 1.
destruct (Calm_extractTurns (Some response) st) as (turns & st1 & -> & Hws1 & Hwire1 & _).
unfold mbind at 1, M_bind at 1, dateNow at 1. unfold mbind, M_bind.
set (start := firstTimestamp _ _).
assert (Hopen1 : ws (tickClock st1) = Some OPEN) by (cbn; congruence).
destruct (replayTurns_count turns (start, 0%nat) (tickClock st1) Hopen1)
  as (carried' & st2 & delta & -> & Hopen2 & Hwire2 & Hups & Hcount).
exists delta, st2. cbn [snd mret M_ret] in *. rewrite Hcount.
split; [ done | ]. split; [ done | ]. split; [ | done ].
rewrite Hwire2. cbn [wire tickClock]. by rewrite Hwire1.
Qed.

End HydrationCount.

Example hydrate_dispatch_wire :
  wire (snd (handleDispatch exampleConfig
               (exampleAction (ThreadHydrateAction (lit "d-1") (lit "thread-1")))
               (freshBridge (Some OPEN))))
  = [DispatchAck (lit "req-1") (lit "machine-test") AckAccepted None None;
     DispatchAck (lit "req-1") (lit "machine-test") AckRunning None None;
     EventUpsert (lit "turn-1") (lit "machine-test") (lit "d-1")
       (FileChangeItem {| item_id := lit "fc:0"; item_turnId := lit "turn-1";
                          item_timestamp := 1699999999900 |}
          (lit "a.txt") (lit "(no patch text)"));
     EventUpsert (lit "turn-1") (lit "machine-test") (lit "d-1")
       (FileChangeItem {| item_id := lit "fc:1"; item_turnId := lit "turn-1";
                          item_timestamp := 1699999999900 |}
          (lit "b.txt") (lit "(no patch text)"));
     EventUpsert (lit "turn-1") (lit "machine-test") (lit "d-1")
       (PlanItem {| item_id := lit "uuid-0"; item_turnId := lit "turn-1";
                    item_timestamp := 1699999999901 |}
          (terminatorText TurnCompleted));
     DispatchAck (lit "req-1") (lit "machine-test") AckCompleted None
       (Some (JObject [(lit "state", JString (lit "hydrated"));
                       (lit "importedItemCount", JNumber (ofZ 3))]))].
Proof. vm_compute. reflexivity. Qed.

(** X10.  When a [thread.hydrate] dispatch runs on an open relay
    socket that stays open and the agent returns the thread, the wire
    gains the accepted and running acks, then the replayed items as
    [event.upsert] messages, then the completed ack; the
    [importedItemCount] of that ack is the number of those messages,
    terminators included. *)
Theorem hydrate_reports_what_it_sent `{Host} `{Agent} (cfg : CliConfig)
    (action : DispatchAction) (threadId codexThreadId : jsstring) (response : Json)
    (st : Bridge) :
  act_kind action = ThreadHydrateAction threadId codexThreadId ->
  ws st = Some OPEN ->
  outcome_result (agent_threadRead codexThreadId) = Ok response ->
  outcome_relayCloses (agent_threadRead codexThreadId) = false ->
  let ackOf status payload :=
    DispatchAck (act_requestId action) (act_machineId action) status None payload in
  exists upserts,
    Forall isUpsert upserts
    /\ wire (snd (handleDispatch cfg action st))
       = wire st
         ++ [ackOf AckAccepted None; ackOf AckRunning None]
         ++ upserts
         ++ [ackOf AckCompleted
               (Some (JObject [(lit "state", JString (lit "hydrated"));
                               (lit "importedItemCount",
                                JNumber (ofZ (Z.of_nat (length upserts))))]))].
Proof.
  intros Hkind Hopen Hread Hstays. cbv zeta.
  unfold handleDispatch, dispatchBody, ack. rewrite Hkind.
  unfold mbind at 1, M_bind at 1. rewrite (send_open st _ Hopen).
  unfold tryCatch. unfold mbind at 1, M_bind at 1.
  rewrite send_open by done.
  unfold mbind at 1, M_bind at 1, modify at 1.
  unfold mbind at 1, M_bind at 1, hydrateThreadHistory at 1.
  unfold mbind at 1, M_bind at 1, await at 1. rewrite Hread, Hstays.
  set (st3 := setBinding _ _ _).
  assert (Hopen3 : ws st3 = Some OPEN) by done.
  destruct (replayResponse_count cfg threadId response st3 Hopen3)
    as (upserts & st4 & -> & Hopen4 & Hwire4 & Hups).
  rewrite send_open by done. cbn [snd wire pushWire].
  exists upserts. split; [ done | ].
  rewrite Hwire4. subst st3. cbn [wire setBinding pushWire].
  by rewrite <- !app_assoc.
Qed.

Lemma hydrate_reports_what_it_sent_witness :
  exists upserts,
    Forall isUpsert upserts
    /\ wire (snd (handleDispatch exampleConfig
                    (exampleAction (ThreadHydrateAction (lit "d-1") (lit "thread-1")))
                    (freshBridge (Some OPEN))))
       = []
         ++ [DispatchAck (lit "req-1") (lit "machine-test") AckAccepted None None;
             DispatchAck (lit "req-1") (lit "machine-test") AckRunning None None]
         ++ upserts
         ++ [DispatchAck (lit "req-1") (lit "machine-test") AckCompleted None
               (Some (JObject [(lit "state", JString (lit "hydrated"));
                               (lit "importedItemCount",
                                JNumber (ofZ (Z.of_nat (length upserts))))]))].
Proof.
  exact (hydrate_reports_what_it_sent exampleConfig
           (exampleAction (ThreadHydrateAction (lit "d-1") (lit "thread-1")))
           (lit "d-1") (lit "thread-1") _ (freshBridge (Some OPEN))
           eq_refl eq_refl eq_refl eq_refl).
Defined.

(** ** The input of a turn *)

Definition attachmentCount (attachments : option (list DispatchAttachment)) : nat :=
  match attachments with
  | Some l => length l
  | None => 0
  end.

Section TurnInput.
Context `{Host} `{Agent}.

Lemma materialize_count (dir : jsstring) (attachments : list DispatchAttachment) :
forall s st r,
  fst (foldM (materializeOne dir) attachments s st) = Ok r ->
  length (snd r) = (length (snd s) + length attachments)%nat.
Proof.
induction attachments as [ | a rest IH]; intros s st r; cbn [foldM].
{ intros [= <-]. cbn. lia. }
unfold mbind at 1, M_bind at 1.
destruct (materializeOne dir s a st) as [[s1 | e] st1] eqn:Eone; [ | done ].
intros Hrest%IH. rewrite Hrest. cbn [length].
unfold materializeOne, writeFile, mbind, M_bind, await, modify, mret, M_ret in Eone.
destruct (outcome_result (fs_writeFile _ _)) as [[] | e]; [ | done ].
injection Eone as <- _. cbn [snd]. rewrite length_app. cbn. lia.
Qed.

Lemma materializeAttachmentInputs_count (cwd : option jsstring) (requestId : jsstring)
  (attachments : option (list DispatchAttachment)) (st : Bridge)
  (inputs : list CodexTurnInputItem) :
fst (materializeAttachmentInputs cwd requestId attachments st) = Ok inputs ->
length inputs = attachmentCount attachments.
Proof.
unfold materializeAttachmentInputs.
destruct attachments as [[ | a rest] | ]; try (by intros [= <-]).
unfold mbind at 1, M_bind at 1.
destruct (mkdir _ st) as [[[] | e] st1]; [ | done ].
unfold mbind, M_bind.
destruct (foldM _ (a :: rest) (0%nat, []) st1) as [[finished | e] st2] eqn:Eloop; [ | done ].
intros [= <-]. apply (f_equal fst) in Eloop. cbn [fst] in Eloop.
by apply materialize_count in Eloop.
Qed.

(** X11.  [buildTurnInput] returns the trimmed prompt as a text item,
  when it is not blank, followed by one input item for each
  attachment.  It never returns an empty input, so the check of
  [turnStart] for an empty input cannot fail on it.  It throws the
  error asking for a prompt or an attachment only when the prompt is
  blank and there is no attachment, and has then changed nothing;
  any other error comes from writing the attachments. *)
Theorem buildTurnInput_never_empty (prompt requestId : jsstring) (cwd : option jsstring)
  (attachments : option (list DispatchAttachment)) (st : Bridge) :
let out := buildTurnInput prompt requestId cwd attachments st in
match fst out with
| Ok input =>
    input <> []
    /\ (exists attachmentInputs,
          input = (if nonEmpty (trim prompt) then [TextInput (trim prompt)] else [])
                  ++ attachmentInputs
          /\ length attachmentInputs = attachmentCount attachments)
    /\ forall codexThreadId settings,
         codex_turnStart codexThreadId input settings
         = await (agent_turnStart codexThreadId input settings)
| Throw e =>
    (e = ThrownError (lit "turn/start requires prompt text or at least one attachment.")
     /\ trim prompt = [] /\ attachmentCount attachments = 0%nat /\ snd out = st)
    \/ fst (materializeAttachmentInputs cwd requestId attachments st) = Throw e
end.
Proof.
cbv zeta. unfold buildTurnInput. cbv zeta. unfold mbind, M_bind.
pose proof (materializeAttachmentInputs_count cwd requestId attachments st) as Hcount.
assert (Hnone : attachmentCount attachments = 0%nat ->
                materializeAttachmentInputs cwd requestId attachments st = (Ok [], st)).
{ by destruct attachments as [[ | a rest] | ]. }
destruct (materializeAttachmentInputs cwd requestId attachments st)
  as [[attachmentInputs | e] st1]; cbn [fst snd] in *; [ | by right ].
specialize (Hcount attachmentInputs eq_refl).
destruct (nonEmpty (trim prompt)) eqn:Eprompt; cbn [app].
- cbn [fst]. split; [ done | ]. split; [ by exists attachmentInputs | done ].
- destruct attachmentInputs as [ | a rest]; cbn [fst snd throw].
  + left. split; [ done | ]. split; [ by destruct (trim prompt) | ].
    split; [ done | ]. symmetry in Hcount. by injection (Hnone Hcount).
  + split; [ done | ]. split; [ by exists (a :: rest) | done ].
Qed.

End TurnInput.
(** ** When the sync bootstrap throws *)

Definition isThreadUpsert (m : RelayClientMessage) : Prop :=
  match m with ThreadUpsert _ _ => True | _ => False end.

Definition isNull (entry : Json) : bool :=
  match entry with JNull => true | _ => false end.

(** The entries of a listing before its first [null]. *)
Fixpoint beforeNull (entries : list Json) : list Json :=
  match entries with
  | [] => []
  | entry :: rest => if isNull entry then [] else entry :: beforeNull rest
  end.

(** The [TypeError] of reading [id] on [null]. *)
Definition nullEntryError : Thrown :=
  ThrownError (lit "Cannot read properties of null (reading 'id')").

Section SyncThrows.
Context `{Host} `{Agent}.
Variable cfg : CliConfig.
Variable projects : list ProjectRegistration.

Lemma syncThread_returns (synced : nat) (appThread : Json) (st : Bridge) :
isNull appThread = false ->
exists synced' st' delta,
  syncThread cfg projects synced appThread st = (Ok synced', st')
  /\ wire st' = wire st ++ delta
  /\ (length delta <= 1)%nat
  /\ Forall isThreadUpsert delta.
Proof.
intros Hentry.
assert (Hquiet : exists synced' st' delta,
           (mret synced : M nat) st = (Ok synced', st')
           /\ wire st' = wire st ++ delta /\ (length delta <= 1)%nat
           /\ Forall isThreadUpsert delta).
{ exists synced, st, []. rewrite app_nil_r. split; [ done | ]. split; [ done | ].
  split; [ cbn; lia | constructor ]. }
rewrite syncThread_not_null by (by destruct appThread).
destruct (getString (prop "id" appThread)) as [codexThreadId | ]; [ | done ].
destruct (getString (prop "cwd" appThread)) as [cwd | ]; [ | done ].
destruct (negb _ || negb _); [ done | ].
destruct (findProjectIdForCwd projects cwd) as [projectId | ]; [ | done ].
destruct (negb (nonEmpty projectId)); [ done | ]. clear Hquiet.
unfold mbind at 1, M_bind at 1, modify at 1.
set (st1 := setBinding _ _ st).
unfold mbind at 1, M_bind at 1.
destruct (normalizeTimestamp_runs (getNumber (prop "createdAt" appThread)) st1)
  as (createdAt & st2 & -> & Hwire2 & Hws2 & _).
unfold mbind at 1, M_bind at 1.
match goal with
| |- context [normalizeTimestamp ?value st2] =>
    destruct (normalizeTimestamp_runs value st2) as (updatedAt & st3 & -> & Hwire3 & Hws3 & _)
end.
unfold mbind, M_bind, mret, M_ret, send.
destruct (ws st3) as [[ | | | ] | ].
2: { eexists _, _, [_]. split; [ reflexivity | ]. cbn [wire pushWire].
     split; [ by rewrite Hwire3, Hwire2 | ]. split; [ cbn; lia | by repeat constructor ]. }
all: eexists _, _, []; (split; [ reflexivity | ]); rewrite app_nil_r;
  (split; [ by rewrite Hwire3, Hwire2 | ]); (split; [ cbn; lia | constructor ]).
Qed.

Lemma syncThreads_loop_result (threads : list Json) :
forall synced st,
  exists result st' delta,
    foldM (syncThread cfg projects) threads synced st = (result, st')
    /\ match result with
       | Ok _ => existsb isNull threads = false
       | Throw e => existsb isNull threads = true /\ e = nullEntryError
       end
    /\ wire st' = wire st ++ delta
    /\ (length delta <= length (beforeNull threads))%nat
    /\ Forall isThreadUpsert delta.
Proof.
induction threads as [ | t rest IH]; intros synced st; cbn [foldM beforeNull existsb].
{ exists (Ok synced), st, []. rewrite app_nil_r. split; [ done | ]. split; [ done | ].
  split; [ done | ]. split; [ cbn; lia | constructor ]. }
unfold mbind, M_bind.
destruct (isNull t) eqn:Enull.
{ destruct t; try done. cbn [syncThread]. unfold throw.
  exists (Throw nullEntryError), st, []. rewrite app_nil_r. split; [ done | ].
  split; [ done | ]. split; [ done | ]. split; [ cbn; lia | constructor ]. }
destruct (syncThread_returns synced t st Enull) as (synced1 & st1 & d1 & -> & Hw1 & Hl1 & Hu1).
destruct (IH synced1 st1) as (result & st2 & d2 & -> & Hresult & Hw2 & Hl2 & Hu2).
exists result, st2, (d1 ++ d2). split; [ done | ]. split; [ done | ].
split; [ by rewrite Hw2, Hw1, app_assoc | ].
split; [ rewrite length_app; cbn [length]; lia | by apply Forall_app ].
Qed.

End SyncThrows.

Example syncThreads_swallows_failure :
  let failing : Agent :=
    {| agent_threadStart := fun _ _ => fails "down";
       agent_turnStart := fun _ _ _ => fails "down";
       agent_threadRead := fun _ => fails "down";
       agent_listModels := fails "down";
       agent_listThreads := fails "down";
       agent_turnInterrupt := fun _ => fails "down";
       fs_mkdir := fun _ => answers tt;
       fs_writeFile := fun _ _ => answers tt |} in
  @syncThreads exampleHost failing exampleConfig exampleProjects (freshBridge (Some OPEN))
  = (Ok tt, freshBridge (Some OPEN)).
Proof. vm_compute. reflexivity. Qed.

(** A listing with a thread, a [null] and another thread: the first
    thread is bound, then the bootstrap throws. *)
Example syncThreads_stops_at_null :
  let listing : Agent :=
    {| agent_threadStart := fun _ _ => fails "down";
       agent_turnStart := fun _ _ _ => fails "down";
       agent_threadRead := fun _ => fails "down";
       agent_listModels := fails "down";
       agent_listThreads := answers [exampleThread "/a/x"; JNull; exampleThread "/a/b/c"];
       agent_turnInterrupt := fun _ => fails "down";
       fs_mkdir := fun _ => answers tt;
       fs_writeFile := fun _ _ => answers tt |} in
  let out := @syncThreads exampleHost listing exampleConfig exampleProjects
               (freshBridge (Some OPEN)) in
  fst out = Throw nullEntryError
  /\ map fst (map_to_list (threadBindings (snd out))) = [lit "t-/a/x"]
  /\ length (wire (snd out)) = 1%nat.
Proof. vm_compute. by repeat split. Qed.

(** X12.  The sync bootstrap throws only when the listing of the agent
    holds a [null] entry, which the loop reads without a guard: it
    then ends with the [TypeError] of that read, having handled the
    entries before the first [null] only.  Without registered
    projects it does not ask the agent for its threads and changes
    nothing; when the agent fails to list its threads the failure is
    swallowed and nothing is sent or bound; otherwise it sends at most
    one message for each entry it handled, and only [thread.upsert]
    messages. *)
Theorem syncThreads_throws_only_on_null `{Host} `{Agent} (cfg : CliConfig)
    (projects : list ProjectRegistration) (st : Bridge) :
  let out := syncThreads cfg projects st in
  match projects, outcome_result agent_listThreads with
  | [], _ => out = (Ok tt, st)
  | _ :: _, Throw _ =>
      fst out = Ok tt
      /\ wire (snd out) = wire st /\ threadBindings (snd out) = threadBindings st
  | _ :: _, Ok threads =>
      fst out = (if existsb isNull threads then Throw nullEntryError else Ok tt)
      /\ exists delta,
           wire (snd out) = wire st ++ delta
           /\ (length delta <= length (beforeNull threads))%nat
           /\ Forall isThreadUpsert delta
  end.
Proof.
  cbv zeta. unfold syncThreads.
  destruct projects as [ | p rest]; [ done | ].
  set (registered := p :: rest).
  unfold tryCatch, mbind, M_bind, await, mret, M_ret. cbn [fst snd].
  set (st1 := if outcome_relayCloses agent_listThreads then closeRelay st else st).
  assert (Hwire1 : wire st1 = wire st /\ threadBindings st1 = threadBindings st).
  { subst st1. unfold closeRelay. destruct (outcome_relayCloses _); [ | done ].
    by destruct (ws st). }
  destruct (outcome_result agent_listThreads) as [threads | e]; [ | done ].
  destruct (syncThreads_loop_result cfg registered threads 0%nat st1)
    as (result & st2 & delta & -> & Hresult & Hwire2 & Hlength & Hups).
  destruct Hwire1 as [Hwire1 _].
  destruct result as [synced | e]; cbn [fst snd].
  - rewrite Hresult. split; [ done | ]. exists delta. by rewrite Hwire2, Hwire1.
  - destruct Hresult as [-> ->]. split; [ done | ]. exists delta. by rewrite Hwire2, Hwire1.
Qed.

(** * Further properties of the agent client

    ** A closed socket settles nothing *)

Example close_then_timeout :
  let run := CodexAppServerClient.run
               [CodexAppServerClient.DoRequest (lit "thread/list") (lit "id-1");
                CodexAppServerClient.DoClose;
                CodexAppServerClient.DoRequest (lit "thread/read") (lit "id-2");
                CodexAppServerClient.DoTimeout (lit "id-1")]
               CodexAppServerClient.initial in
  option_map CodexAppServerClient.trace run
  = Some [CodexAppServerClient.EvArm (lit "id-1") 30000;
          CodexAppServerClient.EvSet (lit "id-1");
          CodexAppServerClient.EvSend (lit "id-1") (lit "thread/list");
          CodexAppServerClient.EvDisconnected;
          CodexAppServerClient.EvRefuse (lit "thread/read");
          CodexAppServerClient.EvDelete (lit "id-1");
          CodexAppServerClient.EvSettle (lit "id-1")
            (CodexAppServerClient.Rejected (lit "Request timed out: thread/list"))].
Proof. vm_compute. reflexivity. Qed.

(** X13.  When the socket of the agent closes, no pending request is
    settled: after any sequence of requests, frames, timer firings,
    closures and stops, the close listener leaves every request as
    pending, as armed and as unsettled as it was.  From then on a
    request is refused without an entry, a timer or a frame; and a
    request that was pending is rejected when its timer fires, with
    the timeout message of its own method. *)
Theorem close_settles_nothing `{Host} (actions : list CodexAppServerClient.Action)
    (c : CodexAppServerClient.Client) :
  CodexAppServerClient.run actions CodexAppServerClient.initial = Some c ->
  let closed := CodexAppServerClient.onClose c in
  (forall id,
      CodexAppServerClient.isPending id closed = CodexAppServerClient.isPending id c
      /\ CodexAppServerClient.isArmed id closed = CodexAppServerClient.isArmed id c
      /\ CodexAppServerClient.settlements id (CodexAppServerClient.trace closed)
         = CodexAppServerClient.settlements id (CodexAppServerClient.trace c))
  /\ (forall method id,
        let refused := CodexAppServerClient.request method id closed in
        CodexAppServerClient.pending refused = CodexAppServerClient.pending closed
        /\ CodexAppServerClient.armed refused = CodexAppServerClient.armed closed
        /\ CodexAppServerClient.trace refused
           = CodexAppServerClient.trace closed ++ [CodexAppServerClient.EvRefuse method])
  /\ (forall id method,
        CodexAppServerClient.mapGet id (CodexAppServerClient.pending closed) = Some method ->
        exists fired,
          CodexAppServerClient.step (CodexAppServerClient.DoTimeout id) closed = Some fired
          /\ CodexAppServerClient.isPending id fired = false
          /\ CodexAppServerClient.settlements id (CodexAppServerClient.trace fired)
             = [CodexAppServerClient.Rejected (lit "Request timed out: " ++ method)]).
Proof.
  intros Hrun closed.
  assert (HS : Settled closed).
  { apply (Settled_run (actions ++ [CodexAppServerClient.DoClose])
             CodexAppServerClient.initial); [ apply Settled_initial | ].
    clear -Hrun. revert Hrun. generalize CodexAppServerClient.initial.
    induction actions as [ | a rest IH]; intros c0; cbn [CodexAppServerClient.run app].
    - by intros [= <-].
    - destruct (CodexAppServerClient.step a c0); [ apply IH | done ]. }
  split; [ | split ].
  - intros id. split; [ done | ]. split; [ done | ].
    unfold closed, CodexAppServerClient.onClose. cbn [CodexAppServerClient.trace].
    rewrite settlements_app. cbn. by rewrite app_nil_r.
  - done.
  - intros id method Hpending.
    destruct HS as (Harmed & Hunsettled & _).
    cbn [CodexAppServerClient.step]. rewrite Harmed, Hpending.
    eexists. split; [ reflexivity | ].
    unfold CodexAppServerClient.isPending, CodexAppServerClient.onTimeout.
    cbn [CodexAppServerClient.pending CodexAppServerClient.trace].
    rewrite mapGet_mapDelete, jsstring_eqb_refl. split; [ done | ].
    rewrite settlements_app.
    destruct (Hunsettled id) as [_ ->].
    { unfold CodexAppServerClient.isPending. by rewrite Hpending. }
    cbn. by rewrite jsstring_eqb_refl.
Qed.

Lemma close_settles_nothing_witness :
  let c := CodexAppServerClient.request (lit "thread/list") (lit "id-1")
             CodexAppServerClient.initial in
  exists fired,
    CodexAppServerClient.step (CodexAppServerClient.DoTimeout (lit "id-1"))
      (CodexAppServerClient.onClose c)
    = Some fired
    /\ CodexAppServerClient.isPending (lit "id-1") fired = false
    /\ CodexAppServerClient.settlements (lit "id-1") (CodexAppServerClient.trace fired)
       = [CodexAppServerClient.Rejected (lit "Request timed out: " ++ lit "thread/list")].
Proof.
  pose proof (close_settles_nothing
                [CodexAppServerClient.DoRequest (lit "thread/list") (lit "id-1")]
                _ eq_refl) as (_ & _ & Hfires).
  exact (Hfires (lit "id-1") (lit "thread/list") eq_refl).
Defined.

(** ** Listing threads and models page by page

    [CodexAppServerClient.listThreads] and [listModels] are one loop
    over the pages of [thread/list] and of [model/list].  What the
    awaited [request] returns is given by [respond]: the result of the
    request number [n] (counted from 0) of this call, for a method, a
    limit and a cursor. *)

Definition isNaN (x : spec_float) : bool :=
  match x with S754_nan => true | _ => false end.

Definition isNegativeZero (x : spec_float) : bool :=
  match x with S754_zero true => true | _ => false end.

(** [Math.max] and [Math.min] of two numbers: [NaN] when either is,
    and [+0] above [-0]. *)
Definition Math_max (a b : spec_float) : spec_float :=
  if isNaN a || isNaN b then S754_nan
  else if SFltb a b then b
  else if SFltb b a then a
  else if isNegativeZero a then b else a.

Definition Math_min (a b : spec_float) : spec_float :=
  if isNaN a || isNaN b then S754_nan
  else if SFltb a b then a
  else if SFltb b a then b
  else if isNegativeZero b then b else a.

Definition num_1 : spec_float := Eval vm_compute in ofZ 1.
Definition num_5 : spec_float := Eval vm_compute in ofZ 5.
Definition num_20 : spec_float := Eval vm_compute in ofZ 20.
Definition num_50 : spec_float := Eval vm_compute in ofZ 50.
Definition num_100 : spec_float := Eval vm_compute in ofZ 100.

Record PageRequest := {
  req_method : jsstring;
  req_limit : spec_float;
  req_cursor : option Json
}.

(** [Array.isArray(response.data) ? response.data : []] *)
Definition pageOf (response : Json) : list Json :=
  match isArray (prop "data" response) with
  | Some page => page
  | None => []
  end.

Section Paging.
Variable respond : nat -> PageRequest -> Result Json.

(** The loop of [listThreads]: [pages] requests were made, [asked]
  holds them, oldest first; [fuel] bounds the iterations that are
  left, and [None] means it ran out. *)
Fixpoint pageLoop (method : jsstring) (pageLimit maxPages : spec_float) (fuel pages : nat)
  (cursor : option Json) (threads : list Json) (asked : list PageRequest)
: option (Result (list Json) * list PageRequest) :=
match fuel with
| O => None
| S fuel' =>
    if negb (SFltb (ofZ (Z.of_nat pages)) maxPages) then Some (Ok threads, asked)
    else
      let request := {| req_method := method; req_limit := pageLimit;
                        req_cursor := cursor |} in
      match respond pages request with
      | Throw e => Some (Throw e, asked ++ [request])
      | Ok JNull =>
          (* [response.data] on [null] *)
          Some (Throw (ThrownError (lit "Cannot read properties of null (reading 'data')")),
                asked ++ [request])
      | Ok response =>
          let page := pageOf response in
          let threads := threads ++ page in
          if negb (truthy (prop "nextCursor" response)) || (length page =? 0)%nat
          then Some (Ok threads, asked ++ [request])
          else pageLoop method pageLimit maxPages fuel' (S pages)
                 (prop "nextCursor" response) threads (asked ++ [request])
      end
end.

(** [Math.min(100, Math.max(1, args?.limit ?? 50))] and
  [Math.min(20, Math.max(1, args?.maxPages ?? 5))] *)
Definition pageLimitOf (limit : option spec_float) : spec_float :=
Math_min num_100 (Math_max num_1 (match limit with Some l => l | None => num_50 end)).

Definition maxPagesOf (maxPages : option spec_float) : spec_float :=
Math_min num_20 (Math_max num_1 (match maxPages with Some p => p | None => num_5 end)).

Definition listPages (method : jsstring) (limit maxPages : option spec_float)
: option (Result (list Json) * list PageRequest) :=
pageLoop method (pageLimitOf limit) (maxPagesOf maxPages) 21 0 None [] [].

(** [CodexAppServerClient.listThreads] and [listModels]. *)
Definition listThreads := listPages (lit "thread/list").

Definition listModels := listPages (lit "model/list").

End Paging.

Lemma SFltb_nan_r (x : spec_float) : SFltb x S754_nan = false.
Proof. by destruct x. Qed.

Lemma ofZ_0 : ofZ (Z.of_nat 0) = S754_zero false.
Proof. vm_compute. reflexivity. Qed.

Lemma ofZ_20 : ofZ (Z.of_nat 20) = num_20.
Proof. vm_compute. reflexivity. Qed.

(** At most twenty pages. *)
Lemma Math_min_20 (y : spec_float) : SFltb num_20 (Math_min num_20 y) = false.
Proof.
  unfold Math_min. cbn [isNaN num_20 orb].
  destruct (isNaN y); [ apply SFltb_nan_r | ].
  destruct (SFltb num_20 y) eqn:Elt; [ reflexivity | ].
  destruct (SFltb y num_20); [ exact Elt | ].
  destruct (isNegativeZero y); [ exact Elt | reflexivity ].
Qed.

Lemma Math_max_1_positive (x : spec_float) :
  isNaN x = false -> SFltb (S754_zero false) (Math_max num_1 x) = true.
Proof.
  intros Hx. unfold Math_max. rewrite Hx. cbn [isNaN num_1 orb].
  destruct x as [s | s | | s m e]; try discriminate; destruct s; try reflexivity.
  destruct (SFltb num_1 (S754_finite false m e)); [ reflexivity | ].
  by destruct (SFltb (S754_finite false m e) num_1).
Qed.

Lemma Math_min_20_positive (y : spec_float) :
  SFltb (S754_zero false) y = true -> SFltb (S754_zero false) (Math_min num_20 y) = true.
Proof.
  intros Hy. unfold Math_min.
  assert (Hnan : isNaN y = false) by (by destruct y).
  rewrite Hnan. cbn [isNaN num_20 orb].
  destruct (SFltb num_20 y); [ reflexivity | ].
  destruct (SFltb y num_20); [ exact Hy | ].
  destruct (isNegativeZero y) eqn:Ezero; [ exact Hy | reflexivity ].
Qed.

(** At least one page, unless the bound is not a number. *)
Lemma maxPagesOf_positive (maxPages : option spec_float) :
  match maxPages with Some p => isNaN p | None => false end = false ->
  SFltb (S754_zero false) (maxPagesOf maxPages) = true.
Proof.
  intros Hp. apply Math_min_20_positive, Math_max_1_positive.
  destruct maxPages; [ exact Hp | reflexivity ].
Qed.

Section PagingProofs.
Variable respond : nat -> PageRequest -> Result Json.
Variable method : jsstring.
Variable pageLimit maxPages : spec_float.

(** The cursor that the answer to the request number [n] hands on. *)
Definition nextCursorOf (n : nat) (r : PageRequest) : option Json :=
match respond n r with
| Ok response => prop "nextCursor" response
| Throw _ => None
end.

(** Every request is for [method] with the limit [pageLimit]; the first
  has no cursor, and each later one carries the cursor handed on by
  the answer to the one before. *)
Definition Chained (asked : list PageRequest) : Prop :=
forall n r,
  asked !! n = Some r ->
  req_method r = method /\ req_limit r = pageLimit
  /\ req_cursor r = match n with
                    | O => None
                    | S k => match asked !! k with
                             | Some prev => nextCursorOf k prev
                             | None => None
                             end
                    end.

(** The pages of the answers to [asked], one after the other. *)
Definition gathered (asked : list PageRequest) : list Json :=
concat (imap (fun n r => match respond n r with
                         | Ok response => pageOf response
                         | Throw _ => []
                         end) asked).

(** How a listing that fails has failed: its last request was
  rejected with the error, or answered with [null]. *)
Definition failedAt (asked : list PageRequest) (e : Thrown) : Prop :=
exists before r,
  asked = before ++ [r]
  /\ (respond (length before) r = Throw e
      \/ (respond (length before) r = Ok JNull
          /\ e = ThrownError (lit "Cannot read properties of null (reading 'data')"))).

Lemma Chained_prefix (asked more : list PageRequest) :
Chained (asked ++ more) -> Chained asked.
Proof.
intros Hchained n r Hn.
assert (Hlt : (n < length asked)%nat) by (by eapply lookup_lt_Some).
destruct (Hchained n r) as (Hm & Hl & Hc); [ by rewrite lookup_app_l | ].
split; [ done | ]. split; [ done | ]. rewrite Hc. destruct n as [ | k]; [ done | ].
by rewrite lookup_app_l by lia.
Qed.

Lemma Chained_snoc (asked : list PageRequest) (r : PageRequest) :
Chained asked ->
req_method r = method -> req_limit r = pageLimit ->
req_cursor r = match length asked with
               | O => None
               | S k => match asked !! k with
                        | Some prev => nextCursorOf k prev
                        | None => None
                        end
               end ->
Chained (asked ++ [r]).
Proof.
intros Hchained Hm Hl Hc n r' Hn.
destruct (decide (n < length asked)%nat) as [Hlt | Hge].
- rewrite lookup_app_l in Hn by done.
  destruct (Hchained n r' Hn) as (Hm' & Hl' & Hc').
  split; [ done | ]. split; [ done | ]. rewrite Hc'. destruct n as [ | k]; [ done | ].
  by rewrite lookup_app_l by lia.
- assert (n = length asked) as ->.
  { apply lookup_lt_Some in Hn. rewrite length_app in Hn. cbn in Hn. lia. }
  rewrite lookup_app_r, Nat.sub_diag in Hn by lia. injection Hn as <-.
  split; [ done | ]. split; [ done | ]. rewrite Hc.
  destruct (length asked) as [ | k] eqn:Elen; [ done | ].
  by rewrite lookup_app_l by lia.
Qed.

Lemma gathered_snoc (asked : list PageRequest) (r : PageRequest) :
gathered (asked ++ [r])
= gathered asked ++ match respond (length asked) r with
                    | Ok response => pageOf response
                    | Throw _ => []
                    end.
Proof.
unfold gathered. rewrite imap_app, concat_app. cbn [imap concat].
by rewrite Nat.add_0_r, app_nil_r.
Qed.

Lemma pageLoop_spec :
SFltb num_20 maxPages = false ->
forall fuel pages cursor threads asked,
  (pages + fuel = 21)%nat -> (pages <= 20)%nat ->
  length asked = pages ->
  Chained (asked ++ [{| req_method := method; req_limit := pageLimit;
                        req_cursor := cursor |}]) ->
  threads = gathered asked ->
  exists result asked',
    pageLoop respond method pageLimit maxPages fuel pages cursor threads asked
    = Some (result, asked')
    /\ (length asked' <= 20)%nat
    /\ (if SFltb (ofZ (Z.of_nat pages)) maxPages then (pages < length asked')%nat
        else asked' = asked)
    /\ Chained asked'
    /\ match result with
       | Ok found => found = gathered asked'
       | Throw e => failedAt asked' e
       end.
Proof.
intros Hbound. induction fuel as [ | fuel IH];
  intros pages cursor threads asked Hfuel Hpages Hlength Hchained Hthreads;
  [ lia | cbn [pageLoop] ].
destruct (SFltb (ofZ (Z.of_nat pages)) maxPages) eqn:Emore; cbn [negb].
2: { exists (Ok threads), asked. split; [ done | ]. split; [ lia | ]. split; [ done | ].
     split; [ by eapply Chained_prefix | done ]. }
assert (Hless : (pages < 20)%nat).
{ destruct (decide (pages = 20%nat)) as [-> | ]; [ | lia ].
  rewrite ofZ_20 in Emore. congruence. }
set (request := {| req_method := method; req_limit := pageLimit; req_cursor := cursor |}) in *.
assert (Hasked : (length (asked ++ [request]) <= 20)%nat
                 /\ (pages < length (asked ++ [request]))%nat).
{ rewrite length_app. cbn. lia. }
pose proof (gathered_snoc asked request) as Hgathered. rewrite Hlength in Hgathered.
destruct (respond pages request) as [response | e] eqn:Eresponse.
2: { exists (Throw e), (asked ++ [request]). split; [ done | ]. split; [ lia | ].
     split; [ lia | ]. split; [ done | ]. exists asked, request. split; [ done | ].
     rewrite Hlength. by left. }
assert (Hnull : response = JNull ->
                exists result asked',
                  Some (Throw (A := list Json)
                          (ThrownError (lit "Cannot read properties of null (reading 'data')")),
                        asked ++ [request])
                  = Some (result, asked')
                  /\ (length asked' <= 20)%nat /\ (pages < length asked')%nat
                  /\ Chained asked'
                  /\ match result with
                     | Ok found => found = gathered asked'
                     | Throw e => failedAt asked' e
                     end).
{ intros ->. eexists _, _. split; [ reflexivity | ]. split; [ lia | ]. split; [ lia | ].
  split; [ done | ]. exists asked, request. split; [ done | ].
  rewrite Hlength. by right. }
assert (Hgoes : response <> JNull ->
                exists result asked',
                  (if negb (truthy (prop "nextCursor" response))
                      || (length (pageOf response) =? 0)%nat
                   then Some (Ok (threads ++ pageOf response), asked ++ [request])
                   else pageLoop respond method pageLimit maxPages fuel (S pages)
                          (prop "nextCursor" response) (threads ++ pageOf response)
                          (asked ++ [request]))
                  = Some (result, asked')
                  /\ (length asked' <= 20)%nat /\ (pages < length asked')%nat
                  /\ Chained asked'
                  /\ match result with
                     | Ok found => found = gathered asked'
                     | Throw e => failedAt asked' e
                     end).
{ intros _. destruct (negb _ || _).
  - eexists _, _. split; [ reflexivity | ]. split; [ lia | ]. split; [ lia | ].
    split; [ done | ]. by rewrite Hgathered, Hthreads.
  - destruct (IH (S pages) (prop "nextCursor" response) (threads ++ pageOf response)
                (asked ++ [request]))
      as (result & asked' & Hrun & Hmost & Hleast & Hchained' & Hresult).
    + lia.
    + lia.
    + rewrite length_app. cbn. lia.
    + apply Chained_snoc; [ done | done | done | ]. cbn [req_cursor].
      rewrite length_app, Nat.add_comm. cbn [length Nat.add].
      rewrite lookup_app_r, Hlength, Nat.sub_diag by lia. cbn [lookup list_lookup].
      unfold nextCursorOf. by rewrite Eresponse.
    + by rewrite Hgathered, Hthreads.
    + exists result, asked'. split; [ done | ]. split; [ done | ]. split; [ | done ].
      destruct (SFltb (ofZ (Z.of_nat (S pages))) maxPages); [ lia | ].
      subst asked'. lia. }
destruct response; first [ by apply Hnull | by apply Hgoes ].
Qed.

End PagingProofs.

Lemma pageLimitOf_clamped (limit : option spec_float) :
  let pageLimit := pageLimitOf limit in
  isNaN pageLimit || (SFleb num_1 pageLimit && SFleb pageLimit num_100) = true.
Proof.
  cbv zeta. unfold pageLimitOf.
  set (x := match limit with Some l => l | None => num_50 end).
  assert (Hmax : isNaN x = true
                 \/ Math_max num_1 x = num_1
                 \/ (Math_max num_1 x = x /\ SFltb num_1 x = true)).
  { unfold Math_max. cbn [isNaN num_1 orb]. destruct (isNaN x); [ by left | right ].
    destruct (SFltb num_1 x); [ by right | left ].
    by destruct (SFltb x num_1). }
  unfold Math_min. cbn [isNaN num_100 orb].
  destruct Hmax as [Hnan | [-> | [-> Hone]]].
  - unfold Math_max. rewrite Hnan. cbn [isNaN num_1 orb]. reflexivity.
  - reflexivity.
  - assert (Hnan : isNaN x = false) by (by destruct x). rewrite Hnan.
    assert (Hle : SFleb num_1 x = true).
    { unfold SFleb. unfold SFltb in Hone. by destruct (SFcompare num_1 x) as [[ | | ] | ]. }
    destruct (SFltb num_100 x) eqn:Ebig; [ reflexivity | ].
    destruct (SFltb x num_100) eqn:Esmall.
    + rewrite Hnan, Hle. cbn [orb andb].
      unfold SFleb. unfold SFltb in Esmall. by destruct (SFcompare x num_100) as [[ | | ] | ].
    + destruct (isNegativeZero x) eqn:Ezero; [ | reflexivity ].
      by destruct x as [[ | ] | | | ].
Qed.

Example listThreads_two_pages :
  let respond := fun (n : nat) (r : PageRequest) =>
    match n with
    | O => Ok (JObject [(lit "data", JArray [JString (lit "a"); JString (lit "b")]);
                        (lit "nextCursor", JString (lit "c1"))])
    | _ => Ok (JObject [(lit "data", JArray [JString (lit "c")]);
                        (lit "nextCursor", JNull)])
    end in
  listThreads respond (Some num_50) (Some (ofZ 10))
  = Some (Ok [JString (lit "a"); JString (lit "b"); JString (lit "c")],
          [{| req_method := lit "thread/list"; req_limit := num_50; req_cursor := None |};
           {| req_method := lit "thread/list"; req_limit := num_50;
              req_cursor := Some (JString (lit "c1")) |}]).
Proof. vm_compute. reflexivity. Qed.

Example listModels_endless_cursor :
  let respond := fun (n : nat) (r : PageRequest) =>
    Ok (JObject [(lit "data", JArray [JString (lit "m")]);
                 (lit "nextCursor", JString (lit "again"))]) in
  option_map (fun out => length (snd out)) (listModels respond (Some num_100) (Some num_5))
  = Some 5%nat.
Proof. vm_compute. reflexivity. Qed.

(** X14.  [listThreads] and [listModels] always end, after at most 20
    requests, and after at least one unless the page bound is not a
    number.  Every request is for the method of the listing with the
    same limit, which lies between 1 and 100 unless it is not a
    number; the first request has no cursor and each later one carries
    the cursor that the answer before it handed on.  A listing that
    returns gives the pages of all the answers, in order; a listing
    fails when its last request was rejected or answered with [null],
    and the pages gathered before are lost. *)
Theorem listPages_bounded (respond : nat -> PageRequest -> Result Json) (method : jsstring)
    (limit maxPages : option spec_float) :
  exists result asked,
    listPages respond method limit maxPages = Some (result, asked)
    /\ (length asked <= 20)%nat
    /\ (if isNaN (maxPagesOf maxPages) then asked = [] /\ result = Ok []
        else (1 <= length asked)%nat)
    /\ isNaN (pageLimitOf limit)
       || (SFleb num_1 (pageLimitOf limit) && SFleb (pageLimitOf limit) num_100) = true
    /\ Chained respond method (pageLimitOf limit) asked
    /\ match result with
       | Ok found => found = gathered respond asked
       | Throw e => failedAt respond asked e
       end.
Proof.
  unfold listPages.
  destruct (pageLoop_spec respond method (pageLimitOf limit) (maxPagesOf maxPages)
              (Math_min_20 _) 21 0 None [] [])
    as (result & asked & Hrun & Hmost & Hleast & Hchained & Hresult);
    [ done | lia | done | | done | ].
  { intros [ | n] r; [ | done ]. by intros [= <-]. }
  exists result, asked. split; [ done | ]. split; [ done | ].
  split; [ | split; [ apply pageLimitOf_clamped | done ] ].
  rewrite ofZ_0 in Hleast.
  destruct (isNaN (maxPagesOf maxPages)) eqn:Enan.
  - assert (Hnot : SFltb (S754_zero false) (maxPagesOf maxPages) = false).
    { by destruct (maxPagesOf maxPages). }
    rewrite Hnot in Hleast. subst asked. split; [ done | ].
    destruct result as [found | e]; [ by rewrite Hresult | ].
    destruct Hresult as (before & r & Hnil & _). by destruct before.
  - assert (Hpositive : SFltb (S754_zero false) (maxPagesOf maxPages) = true).
    { apply maxPagesOf_positive. destruct maxPages as [p | ]; [ | done ].
      destruct (isNaN p) eqn:Ep; [ | done ].
      unfold maxPagesOf, Math_min, Math_max in Enan. rewrite Ep in Enan.
      cbn [isNaN num_1 num_20 orb] in Enan. done. }
    rewrite Hpositive in Hleast. lia.
Qed.

(** * Project manifests and the project registry ([projects.ts])

    A project keeps a manifest at [<project>/.durango/project.json];
    the registry at [<configDir>/projects.json] lists the manifests of
    this machine.  Both files are written with [JSON.stringify] and
    read with [JSON.parse]: the disk is modelled by the JSON value each
    file holds, and a file that is missing, unreadable or not JSON is
    absent from it (every read of this module is inside a [try] that
    treats the three alike). *)

Module Projects.

(** What this module takes from Node besides [Host]: the directory of
    the configuration ([configDir] of [config.ts]), [path.dirname],
    whether the [n]-th call of [mkdir] or [writeFile] fails on a path,
    with the error it throws, and what a [writeFile] that failed
    leaves in the file, given what the file held and what was being
    written: [writeFile] opens the file for writing before it writes,
    so the file may be left as it was, cut short (it no longer
    parses, and reads as absent) or written in full. *)
Class Files := {
  configDir : jsstring;
  path_dirname : jsstring -> jsstring;
  mkdir_error : nat -> jsstring -> option Thrown;
  writeFile_error : nat -> jsstring -> option Thrown;
  writeFile_leaves : nat -> jsstring -> option Json -> Json -> option Json
}.

(** [files] holds the JSON files, [made] the directories handed to
    [mkdir], oldest first, whether the call failed or not; [fsCalls]
    counts the calls of [mkdir] and
    [writeFile], [uuidsDrawn] and [clockReads] those of [randomUUID]
    and [Date.now].  Nothing else writes to the disk meanwhile. *)
Record Disk := {
  files : gmap jsstring Json;
  made : list jsstring;
  fsCalls : nat;
  uuidsDrawn : nat;
  clockReads : nat
}.

Definition D (A : Type) : Type := Disk -> Result A * Disk.

#[global] Instance D_ret : MRet D := fun A a disk => (Ok a, disk).

#[global] Instance D_bind : MBind D := fun A B k m disk =>
  match m disk with
  | (Ok a, disk') => k a disk'
  | (Throw e, disk') => (Throw e, disk')
  end.

Definition readJson (file : jsstring) : D (option Json) := fun disk =>
  (Ok (files disk !! file), disk).

Definition mkdir `{Files} (dir : jsstring) : D unit := fun disk =>
  let disk' := {| files := files disk; made := made disk ++ [dir];
                  fsCalls := S (fsCalls disk);
                  uuidsDrawn := uuidsDrawn disk; clockReads := clockReads disk |} in
  match mkdir_error (fsCalls disk) dir with
  | Some e => (Throw e, disk')
  | None => (Ok tt, disk')
  end.

(** What a file holds after a write: [None] removes it from the map. *)
Definition setFile (file : jsstring) (content : option Json) (fs : gmap jsstring Json)
  : gmap jsstring Json :=
  match content with
  | Some value => <[file := value]> fs
  | None => delete file fs
  end.

Definition writeJson `{Files} (file : jsstring) (value : Json) : D unit := fun disk =>
  match writeFile_error (fsCalls disk) file with
  | Some e =>
      (Throw e,
       {| files := setFile file
                     (writeFile_leaves (fsCalls disk) file (files disk !! file) value)
                     (files disk);
          made := made disk; fsCalls := S (fsCalls disk);
          uuidsDrawn := uuidsDrawn disk; clockReads := clockReads disk |})
  | None => (Ok tt, {| files := <[file := value]> (files disk); made := made disk;
                       fsCalls := S (fsCalls disk);
                       uuidsDrawn := uuidsDrawn disk; clockReads := clockReads disk |})
  end.

Definition newUUID `{Host} : D jsstring := fun disk =>
  (Ok (randomUUID (uuidsDrawn disk)),
   {| files := files disk; made := made disk; fsCalls := fsCalls disk;
      uuidsDrawn := S (uuidsDrawn disk); clockReads := clockReads disk |}).

Definition dateNow `{Host} : D Z := fun disk =>
  (Ok (Date_now (clockReads disk)),
   {| files := files disk; made := made disk; fsCalls := fsCalls disk;
      uuidsDrawn := uuidsDrawn disk; clockReads := S (clockReads disk) |}).

Fixpoint foldD {A S : Type} (body : S -> A -> D S) (xs : list A) (s : S) : D S :=
  match xs with
  | [] => mret s
  | x :: rest => s' ← body s x; foldD body rest s'
  end.

(** [ProjectRegistration], with all its fields. *)
Record ProjectRegistration := {
  reg_id : jsstring;
  reg_machineId : jsstring;
  reg_absolutePath : jsstring;
  reg_name : jsstring;
  reg_gitBranch : option jsstring;
  reg_gitRemoteUrl : option jsstring
}.

(** The [project] of a [LocalProjectFile]; its [version] is 1. *)
Record LocalProject := {
  lp_id : jsstring;
  lp_machineId : jsstring;
  lp_name : jsstring;
  lp_gitBranch : option jsstring;
  lp_gitRemoteUrl : option jsstring;
  lp_createdAt : spec_float
}.

(** [isString]: the value, when it is a string that is not blank. *)
Definition isString (value : option Json) : option jsstring :=
  match value with
  | Some (JString s) => if nonEmpty (trim s) then Some s else None
  | _ => None
  end.

Section Manifests.
Context `{Host} `{Files}.

Definition PROJECT_REGISTRY_FILE : jsstring := path_join [configDir; lit "projects.json"].

Definition projectFilePath (absolutePath : jsstring) : jsstring :=
  path_join [absolutePath; lit ".durango"; lit "project.json"].

(** [parseLocalProjectFile]; the clock is read only when [createdAt]
    is not a number. *)
Definition parseLocalProjectFile (raw : Json) : D (option LocalProject) :=
  match asObject (Some raw) with
  | None => mret None
  | Some maybe =>
      let versionIsOne :=
        match prop "version" maybe with
        | Some (JNumber v) => SFeqb v num_1
        | _ => false
        end in
      match versionIsOne, asObject (prop "project" maybe) with
      | true, Some project =>
          match isString (prop "id" project), isString (prop "machineId" project),
                isString (prop "name" project) with
          | Some id, Some machineId, Some name =>
              createdAt ← match prop "createdAt" project with
                          | Some (JNumber x) => mret x
                          | _ => now ← dateNow; mret (ofZ now)
                          end;
              mret (Some {| lp_id := id; lp_machineId := machineId; lp_name := name;
                            lp_gitBranch := isString (prop "gitBranch" project);
                            lp_gitRemoteUrl := isString (prop "gitRemoteUrl" project);
                            lp_createdAt := createdAt |})
          | _, _, _ => mret None
          end
      | _, _ => mret None
      end
  end.

(** [readLocalProjectFile]. *)
Definition readLocalProjectFile (absolutePath : jsstring) : D (option LocalProject) :=
  raw ← readJson (projectFilePath absolutePath);
  match raw with
  | Some raw => parseLocalProjectFile raw
  | None => mret None
  end.

(** [readProjectRegistry]. *)
Definition readProjectRegistry : D (list jsstring) :=
  parsed ← readJson PROJECT_REGISTRY_FILE;
  match parsed with
  | Some (JArray elems) =>
      mret (map path_resolve (omap (fun entry => isString (Some entry)) elems))
  | _ => mret []
  end.

(** [Array.from(new Set(entries))]: the first occurrence of each
    entry, in order; [seen] holds the entries met so far. *)
Fixpoint dedupe (seen entries : list jsstring) : list jsstring :=
  match entries with
  | [] => []
  | entry :: rest =>
      if existsb (jsstring_eqb entry) seen then dedupe seen rest
      else entry :: dedupe (entry :: seen) rest
  end.

(** [writeProjectRegistry]. *)
Definition writeProjectRegistry (entries : list jsstring) : D unit :=
  mkdir configDir;;
  let deduped := dedupe [] (map path_resolve entries) in
  writeJson PROJECT_REGISTRY_FILE (JArray (map JString deduped)).

(** [ensureProjectInRegistry]. *)
Definition ensureProjectInRegistry (absolutePath : jsstring) : D unit :=
  let filePath := projectFilePath absolutePath in
  existing ← readProjectRegistry;
  if existsb (jsstring_eqb filePath) existing then mret tt
  else writeProjectRegistry (existing ++ [filePath]).

(** A property that [JSON.stringify] leaves out when it is undefined. *)
Definition optionalField (k : string) (value : option jsstring) : list (jsstring * Json) :=
  match value with
  | Some s => [(lit k, JString s)]
  | None => []
  end.

(** The manifest as [JSON.parse] reads it back; a number that is not
    finite is written as [null]. *)
Definition manifestOf (id machineId name : jsstring) (gitBranch gitRemoteUrl : option jsstring)
    (createdAt : spec_float) : Json :=
  JObject
    [(lit "version", JNumber num_1);
     (lit "project",
      JObject ([(lit "id", JString id); (lit "machineId", JString machineId);
                (lit "name", JString name)]
               ++ optionalField "gitBranch" gitBranch
               ++ optionalField "gitRemoteUrl" gitRemoteUrl
               ++ [(lit "createdAt",
                    if isFiniteNumber createdAt then JNumber createdAt else JNull)]))].

(** [saveProjectRegistration]. *)
Definition saveProjectRegistration (inputPath machineId : jsstring)
    (gitBranch gitRemoteUrl : option jsstring) : D ProjectRegistration :=
  let absolutePath := path_resolve inputPath in
  existing ← readLocalProjectFile absolutePath;
  createdAt ← match existing with
              | Some project => mret (lp_createdAt project)
              | None => now ← dateNow; mret (ofZ now)
              end;
  id ← match existing with
       | Some project => mret (lp_id project)
       | None => newUUID
       end;
  let name := path_basename absolutePath in
  let filePath := projectFilePath absolutePath in
  mkdir (path_dirname filePath);;
  writeJson filePath (manifestOf id machineId name gitBranch gitRemoteUrl createdAt);;
  ensureProjectInRegistry absolutePath;;
  mret {| reg_id := id; reg_machineId := machineId; reg_absolutePath := absolutePath;
          reg_name := name; reg_gitBranch := gitBranch; reg_gitRemoteUrl := gitRemoteUrl |}.

(** The body of the loop of [loadProjectsForMachine]; the state is
    [validEntries] and [projects]. *)
Definition loadEntry (machineId : jsstring)
    (s : list jsstring * list ProjectRegistration) (entry : jsstring)
  : D (list jsstring * list ProjectRegistration) :=
  let absoluteFilePath := path_resolve entry in
  raw ← readJson absoluteFilePath;
  match raw with
  | None => mret s
  | Some raw =>
      parsed ← parseLocalProjectFile raw;
      match parsed with
      | None => mret s
      | Some project =>
          let absolutePath := path_dirname (path_dirname absoluteFilePath) in
          mret (fst s ++ [absoluteFilePath],
                snd s ++ [{| reg_id := lp_id project; reg_machineId := machineId;
                             reg_absolutePath := absolutePath;
                             reg_name := if nonEmpty (lp_name project) then lp_name project
                                         else path_basename absolutePath;
                             reg_gitBranch := lp_gitBranch project;
                             reg_gitRemoteUrl := lp_gitRemoteUrl project |}])
      end
  end.

(** [loadProjectsForMachine]. *)
Definition loadProjectsForMachine (machineId : jsstring) : D (list ProjectRegistration) :=
  entries ← readProjectRegistry;
  match entries with
  | [] => mret []
  | _ =>
      loaded ← foldD (loadEntry machineId) entries ([], []);
      (if (length (fst loaded) =? length entries)%nat then mret tt
       else writeProjectRegistry (fst loaded));;
      mret (snd loaded)
  end.

End Manifests.

End Projects.

(** ** Project manifests and the registry *)

Section ProjectsBasics.
Context `{Host} `{Projects.Files}.

(** A step that leaves the files, the directories and the count of
    identifiers alone; parsing a manifest may read the clock. *)
Definition SameFiles (disk disk' : Projects.Disk) : Prop :=
  Projects.files disk' = Projects.files disk /\
  Projects.made disk' = Projects.made disk /\
  Projects.fsCalls disk' = Projects.fsCalls disk /\
  Projects.uuidsDrawn disk' = Projects.uuidsDrawn disk.

Lemma SameFiles_refl disk : SameFiles disk disk.
Proof. done. Qed.

Lemma SameFiles_trans d1 d2 d3 : SameFiles d1 d2 -> SameFiles d2 d3 -> SameFiles d1 d3.
Proof.
  intros (? & ? & ? & ?) (? & ? & ? & ?). repeat split; congruence.
Qed.

Definition named (project : Projects.LocalProject) : Prop :=
  nonEmpty (trim (Projects.lp_id project)) = true /\
  nonEmpty (trim (Projects.lp_machineId project)) = true /\
  nonEmpty (trim (Projects.lp_name project)) = true.

Lemma isString_nonblank value s :
  Projects.isString value = Some s -> nonEmpty (trim s) = true.
Proof.
  unfold Projects.isString. destruct value as [[] | ]; try done.
  destruct (nonEmpty (trim _)) eqn:E; [ | done ]. by intros [= <-].
Qed.

Lemma isString_string s :
  Projects.isString (Some (JString s)) = if nonEmpty (trim s) then Some s else None.
Proof. done. Qed.

(** Parsing a manifest never throws and writes nothing; a project it
    returns has an id, a machine id and a name that are not blank. *)
Lemma parseLocalProjectFile_runs raw disk :
  exists result disk',
    Projects.parseLocalProjectFile raw disk = (Ok result, disk') /\
    SameFiles disk disk' /\
    match result with Some project => named project | None => True end.
Proof.
  unfold Projects.parseLocalProjectFile.
  destruct (asObject (Some raw)) as [maybe | ]; [ | by exists None, disk ].
  destruct (prop "version" maybe) as [[] | ]; try by exists None, disk.
  destruct (SFeqb _ _); [ | by exists None, disk ].
  destruct (asObject (prop "project" maybe)) as [project | ]; [ | by exists None, disk ].
  destruct (Projects.isString (prop "id" project)) as [id | ] eqn:Eid;
    [ | by exists None, disk ].
  destruct (Projects.isString (prop "machineId" project)) as [machineId | ] eqn:Emachine;
    [ | by exists None, disk ].
  destruct (Projects.isString (prop "name" project)) as [name | ] eqn:Ename;
    [ | by exists None, disk ].
  apply isString_nonblank in Eid, Emachine, Ename.
  unfold mbind, Projects.D_bind, mret, Projects.D_ret, Projects.dateNow.
  destruct (prop "createdAt" project) as [[] | ]; eexists _, _; (split; [ reflexivity | ]);
    by repeat split.
Qed.

(** Whether a manifest is accepted. *)
Definition manifestAccepted (raw : Json) (disk : Projects.Disk) : bool :=
  match Projects.parseLocalProjectFile raw disk with
  | (Ok (Some _), _) => true
  | _ => false
  end.

Lemma manifestAccepted_alike raw disk disk' :
  manifestAccepted raw disk = manifestAccepted raw disk'.
Proof.
  unfold manifestAccepted, Projects.parseLocalProjectFile.
  destruct (asObject (Some raw)) as [maybe | ]; [ | done ].
  destruct (prop "version" maybe) as [[] | ]; try done.
  destruct (SFeqb _ _); [ | done ].
  destruct (asObject (prop "project" maybe)) as [project | ]; [ | done ].
  destruct (Projects.isString (prop "id" project)); [ | done ].
  destruct (Projects.isString (prop "machineId" project)); [ | done ].
  destruct (Projects.isString (prop "name" project)); [ | done ].
  unfold mbind, Projects.D_bind, mret, Projects.D_ret, Projects.dateNow.
  by destruct (prop "createdAt" project) as [[] | ].
Qed.

(** Reading back the manifest that [saveProjectRegistration] writes. *)
Lemma parse_manifestOf id machineId name gitBranch gitRemoteUrl createdAt disk :
  exists result disk',
    Projects.parseLocalProjectFile
      (Projects.manifestOf id machineId name gitBranch gitRemoteUrl createdAt) disk
    = (Ok result, disk') /\
    SameFiles disk disk' /\
    if nonEmpty (trim id) && nonEmpty (trim machineId) && nonEmpty (trim name)
    then exists project,
           result = Some project /\ Projects.lp_id project = id /\
           Projects.lp_machineId project = machineId /\ Projects.lp_name project = name /\
           Projects.lp_gitBranch project
           = (match gitBranch with
              | Some s => if nonEmpty (trim s) then Some s else None
              | None => None
              end)
    else result = None.
Proof.
  unfold Projects.parseLocalProjectFile, Projects.manifestOf.
  cbn [asObject].
  change (prop "version" _) with (Some (JNumber num_1)).
  change (SFeqb num_1 num_1) with true.
  match goal with
  | |- context [asObject (prop "project" (JObject [_; (_, ?p)]))] =>
      change (asObject (prop "project" (JObject [(lit "version", JNumber num_1);
                                                 (lit "project", p)])))
        with (Some p)
  end.
  cbn iota.
  match goal with
  | |- context [Projects.isString (prop "id" ?p)] =>
      change (prop "id" p) with (Some (JString id));
      change (prop "machineId" p) with (Some (JString machineId));
      change (prop "name" p) with (Some (JString name))
  end.
  rewrite !isString_string.
  destruct (nonEmpty (trim id)); [ | by exists None, disk ].
  destruct (nonEmpty (trim machineId)); [ | by exists None, disk ].
  destruct (nonEmpty (trim name)); [ | by exists None, disk ].
  cbn [andb].
  unfold mbind, Projects.D_bind, mret, Projects.D_ret, Projects.dateNow.
  destruct gitBranch as [branch | ], gitRemoteUrl as [url | ];
    cbn [Projects.optionalField app];
    match goal with
    | |- context [prop "createdAt" ?p] =>
        change (prop "createdAt" p)
          with (Some (if isFiniteNumber createdAt then JNumber createdAt else JNull))
    end;
    match goal with
    | |- context [Projects.isString (prop "gitBranch" ?p)] =>
        first [ change (prop "gitBranch" p) with (Some (JString branch))
              | change (prop "gitBranch" p) with (@None Json) ]
    end;
    destruct (isFiniteNumber createdAt);
    eexists _, _; (split; [ reflexivity | ]);
    (split; [ by repeat split | ]);
    eexists; by repeat split.
Qed.

(** The entries [readProjectRegistry] finds among the files. *)
Definition registryIn (fs : gmap jsstring Json) : list jsstring :=
  match fs !! Projects.PROJECT_REGISTRY_FILE with
  | Some (JArray elems) =>
      map path_resolve (omap (fun entry => Projects.isString (Some entry)) elems)
  | _ => []
  end.

Definition entriesOf (disk : Projects.Disk) : list jsstring :=
  registryIn (Projects.files disk).

Lemma readProjectRegistry_runs disk :
  Projects.readProjectRegistry disk = (Ok (entriesOf disk), disk).
Proof.
  unfold Projects.readProjectRegistry, entriesOf, registryIn, mbind, Projects.D_bind,
    Projects.readJson.
  by destruct (Projects.files disk !! Projects.PROJECT_REGISTRY_FILE) as [[] | ].
Qed.

Lemma existsb_In (x : jsstring) (l : list jsstring) :
  existsb (jsstring_eqb x) l = true <-> In x l.
Proof.
  rewrite existsb_exists. split.
  - intros (y & Hy & Heq). apply jsstring_eqb_true in Heq. by subst.
  - intros Hin. exists x. split; [ done | apply jsstring_eqb_refl ].
Qed.

Lemma dedupe_In seen entries e :
  In e (Projects.dedupe seen entries) <-> In e entries /\ ~ In e seen.
Proof.
  revert seen. induction entries as [ | x rest IH]; intros seen; cbn.
  - tauto.
  - destruct (existsb (jsstring_eqb x) seen) eqn:Eseen.
    + apply existsb_In in Eseen. rewrite IH. split.
      * tauto.
      * intros [[<- | Hin] Hnot]; tauto.
    + assert (Hx : ~ In x seen) by (rewrite <- existsb_In; congruence).
      cbn. rewrite IH. cbn. split.
      * intros [<- | [Hin Hnot]]; tauto.
      * intros [[<- | Hin] Hnot]; [ by left | ].
        destruct (decide (x = e)) as [-> | Hne]; [ by left | right; tauto ].
Qed.

Lemma dedupe_NoDup seen entries : List.NoDup (Projects.dedupe seen entries).
Proof.
  revert seen. induction entries as [ | x rest IH]; intros seen; cbn.
  - constructor.
  - destruct (existsb (jsstring_eqb x) seen); [ apply IH | ].
    constructor; [ | apply IH ].
    rewrite dedupe_In. cbn. tauto.
Qed.

(** A step that failed did so in [mkdir] or in [writeFile]. *)
Definition writeFailed (e : Thrown) : Prop :=
  exists n path, Projects.mkdir_error n path = Some e \/
                 Projects.writeFile_error n path = Some e.

(** Two maps of files that agree except on the registry file. *)
Definition sameButRegistry (fs fs' : gmap jsstring Json) : Prop :=
  forall file, file <> Projects.PROJECT_REGISTRY_FILE -> fs' !! file = fs !! file.

Lemma setFile_other (file : jsstring) (left : option Json) (fs : gmap jsstring Json)
    (other : jsstring) :
  other <> file -> Projects.setFile file left fs !! other = fs !! other.
Proof.
  intros Hne. destruct left; cbn [Projects.setFile].
  - by rewrite lookup_insert_ne.
  - by rewrite lookup_delete_ne.
Qed.

Lemma writeProjectRegistry_runs entries disk :
  match Projects.writeProjectRegistry entries disk with
  | (Ok _, disk') =>
      Projects.files disk'
      = <[Projects.PROJECT_REGISTRY_FILE :=
            JArray (map JString (Projects.dedupe [] (map path_resolve entries)))]>
          (Projects.files disk) /\
      Projects.uuidsDrawn disk' = Projects.uuidsDrawn disk
  | (Throw e, disk') =>
      writeFailed e /\ sameButRegistry (Projects.files disk) (Projects.files disk') /\
      Projects.uuidsDrawn disk' = Projects.uuidsDrawn disk
  end.
Proof.
  unfold Projects.writeProjectRegistry, mbind, Projects.D_bind, Projects.mkdir,
    Projects.writeJson.
  destruct (Projects.mkdir_error _ _) as [e | ] eqn:Emk.
  { split; [ | done ]. exists (Projects.fsCalls disk), Projects.configDir. by left. }
  cbn [Projects.fsCalls Projects.files].
  destruct (Projects.writeFile_error _ _) as [e | ] eqn:Ewr; [ | done ].
  split; [ eexists _, _; right; exact Ewr | ].
  split; [ | done ].
  intros file Hfile. cbn [Projects.files]. by apply setFile_other.
Qed.

End ProjectsBasics.

Section LoadingProjects.
Context `{Host} `{Projects.Files}.

(** A registry entry whose manifest is on the disk and is accepted. *)
Definition validEntry (disk : Projects.Disk) (entry : jsstring) : bool :=
  match Projects.files disk !! path_resolve entry with
  | Some raw => manifestAccepted raw disk
  | None => false
  end.

Lemma validEntry_alike disk disk' entry :
  SameFiles disk disk' -> validEntry disk' entry = validEntry disk entry.
Proof.
  intros (Hfiles & _). unfold validEntry. rewrite Hfiles.
  destruct (Projects.files disk !! path_resolve entry); [ apply manifestAccepted_alike | done ].
Qed.

Lemma filter_validEntry_alike disk disk' entries :
  SameFiles disk disk' ->
  List.filter (validEntry disk') entries = List.filter (validEntry disk) entries.
Proof.
  intros Hsame. induction entries as [ | e rest IH]; [ done | ].
  cbn. by rewrite IH, (validEntry_alike disk disk' e Hsame).
Qed.

(** What [loadProjectsForMachine] returns for a manifest: the id of
    the manifest, under the machine id of the caller. *)
Definition loadedAs (machineId : jsstring) (project : Projects.ProjectRegistration) : Prop :=
  Projects.reg_machineId project = machineId /\
  nonEmpty (trim (Projects.reg_id project)) = true /\
  nonEmpty (trim (Projects.reg_name project)) = true.

Definition projectDir (entry : jsstring) : jsstring :=
  Projects.path_dirname (Projects.path_dirname (path_resolve entry)).

Lemma nonEmpty_trim s : nonEmpty (trim s) = true -> nonEmpty s = true.
Proof. by destruct s. Qed.

Lemma loadEntry_run machineId s entry disk :
  exists project disk',
    Projects.loadEntry machineId s entry disk
    = (Ok (if validEntry disk entry
           then (fst s ++ [path_resolve entry], snd s ++ [project]) else s), disk') /\
    SameFiles disk disk' /\
    (validEntry disk entry = true ->
     loadedAs machineId project /\ Projects.reg_absolutePath project = projectDir entry).
Proof.
  pose (nobody := {| Projects.reg_id := []; Projects.reg_machineId := [];
                     Projects.reg_absolutePath := []; Projects.reg_name := [];
                     Projects.reg_gitBranch := None; Projects.reg_gitRemoteUrl := None |}).
  unfold Projects.loadEntry, validEntry, manifestAccepted, mbind, Projects.D_bind,
    Projects.readJson.
  destruct (Projects.files disk !! path_resolve entry) as [raw | ].
  2: { by exists nobody, disk. }
  destruct (parseLocalProjectFile_runs raw disk) as (result & disk1 & Hrun & Hsame & Hnamed).
  rewrite Hrun.
  destruct result as [project | ].
  2: { by exists nobody, disk1. }
  eexists _, disk1. split; [ reflexivity | ]. split; [ done | ]. intros _.
  destruct Hnamed as (Hid & _ & Hname).
  unfold loadedAs. cbn. rewrite (nonEmpty_trim _ Hname). by repeat split.
Qed.

Lemma loadEntries_run machineId entries valid projects disk :
  exists loaded disk',
    Projects.foldD (Projects.loadEntry machineId) entries (valid, projects) disk
    = (Ok (valid ++ map path_resolve (List.filter (validEntry disk) entries),
           projects ++ loaded), disk') /\
    SameFiles disk disk' /\
    Forall (loadedAs machineId) loaded /\
    map Projects.reg_absolutePath loaded
    = map projectDir (List.filter (validEntry disk) entries).
Proof.
  revert valid projects disk.
  induction entries as [ | entry rest IH]; intros valid projects disk.
  - exists [], disk. cbn. rewrite !app_nil_r. by repeat split.
  - cbn [Projects.foldD List.filter].
    unfold mbind at 1. unfold Projects.D_bind at 1.
    destruct (loadEntry_run machineId (valid, projects) entry disk)
      as (first & disk1 & Hrun & Hsame & Hfirst).
    rewrite Hrun. cbn [fst snd].
    destruct (validEntry disk entry).
    + destruct (IH (valid ++ [path_resolve entry]) (projects ++ [first]) disk1)
        as (loaded & disk' & Hrest & Hsame' & Hall & Hdirs).
      rewrite (filter_validEntry_alike disk disk1 rest Hsame) in Hrest, Hdirs.
      destruct Hfirst as (Hfirst & Hdir); [ done | ].
      exists (first :: loaded), disk'.
      rewrite Hrest. cbn [map]. rewrite <- !app_assoc. cbn [app].
      split; [ done | ].
      split; [ by eapply SameFiles_trans | ].
      split; [ by constructor | by rewrite Hdirs, Hdir ].
    + destruct (IH valid projects disk1) as (loaded & disk' & Hrest & Hsame' & Hall & Hdirs).
      rewrite (filter_validEntry_alike disk disk1 rest Hsame) in Hrest, Hdirs.
      exists loaded, disk'. split; [ exact Hrest | ].
      split; [ by eapply SameFiles_trans | done ].
Qed.

End LoadingProjects.

(** X15.  [loadProjectsForMachine] returns one project for each
    registry entry whose manifest is valid, in the order of the
    registry: its path is the directory two levels above the manifest,
    its id and its name are not blank, and its machine id is the one of
    the caller, whatever machine the manifest names.  The call throws
    only an error of [mkdir] or [writeFile], and then no file other
    than the registry has changed. *)
Theorem loadProjectsForMachine_projects `{Host} `{Projects.Files}
    (machineId : jsstring) (disk : Projects.Disk) :
  match Projects.loadProjectsForMachine machineId disk with
  | (Ok projects, _) =>
      Forall (loadedAs machineId) projects /\
      map Projects.reg_absolutePath projects
      = map projectDir (List.filter (validEntry disk) (entriesOf disk))
  | (Throw e, disk') =>
      writeFailed e /\ sameButRegistry (Projects.files disk) (Projects.files disk')
  end.
Proof.
  unfold Projects.loadProjectsForMachine.
  unfold mbind at 1. unfold Projects.D_bind at 1.
  rewrite readProjectRegistry_runs.
  destruct (entriesOf disk) as [ | entry rest] eqn:Eentries; [ done | ].
  rewrite <- Eentries. clear Eentries entry rest.
  destruct (loadEntries_run machineId (entriesOf disk) [] [] disk)
    as (loaded & disk1 & Hrun & Hsame & Hall & Hdirs).
  unfold mbind at 1. unfold Projects.D_bind at 1. rewrite Hrun.
  cbn [fst snd app].
  unfold mbind at 1. unfold Projects.D_bind at 1.
  destruct (_ =? _)%nat.
  - done.
  - pose proof (writeProjectRegistry_runs
                  (map path_resolve (List.filter (validEntry disk) (entriesOf disk))) disk1)
      as Hwrite.
    destruct (Projects.writeProjectRegistry _ disk1) as [[[] | e] disk2].
    + done.
    + destruct Hwrite as (Hfailed & Hfiles & _). destruct Hsame as (Hsame & _).
      split; [ done | ]. by rewrite <- Hsame.
Qed.

(** X16.  After [loadProjectsForMachine] the disk is as before when
    every registry entry had a valid manifest; otherwise the registry
    holds the paths of the valid entries, each once, and no other file
    has changed.  When the call throws, the rewriting of the registry
    failed: no file other than the registry has changed. *)
Theorem loadProjectsForMachine_compacts `{Host} `{Projects.Files}
    (machineId : jsstring) (disk : Projects.Disk) :
  let entries := entriesOf disk in
  let valid := List.filter (validEntry disk) entries in
  match Projects.loadProjectsForMachine machineId disk with
  | (Ok _, disk') =>
      if (length valid =? length entries)%nat then Projects.files disk' = Projects.files disk
      else exists kept,
          Projects.files disk'
          = <[Projects.PROJECT_REGISTRY_FILE := JArray (map JString kept)]>
              (Projects.files disk) /\
          List.NoDup kept /\
          forall path, In path kept <-> In path (map path_resolve (map path_resolve valid))
  | (Throw _, disk') => sameButRegistry (Projects.files disk) (Projects.files disk')
  end.
Proof.
  intros entries valid. subst entries valid.
  unfold Projects.loadProjectsForMachine.
  unfold mbind at 1. unfold Projects.D_bind at 1.
  rewrite readProjectRegistry_runs.
  destruct (entriesOf disk) as [ | entry rest] eqn:Eentries.
  { done. }
  rewrite <- Eentries. clear Eentries entry rest.
  destruct (loadEntries_run machineId (entriesOf disk) [] [] disk)
    as (loaded & disk1 & Hrun & Hsame & Hall & Hdirs).
  unfold mbind at 1. unfold Projects.D_bind at 1. rewrite Hrun.
  cbn [fst snd app]. rewrite length_map.
  unfold mbind at 1. unfold Projects.D_bind at 1.
  set (valid := List.filter (validEntry disk) (entriesOf disk)).
  destruct Hsame as (Hsame & _).
  destruct (length valid =? length (entriesOf disk))%nat.
  - done.
  - pose proof (writeProjectRegistry_runs (map path_resolve valid) disk1) as Hwrite.
    destruct (Projects.writeProjectRegistry _ disk1) as [[[] | e] disk2].
    + destruct Hwrite as (Hfiles & _).
      exists (Projects.dedupe [] (map path_resolve (map path_resolve valid))).
      split; [ by rewrite <- Hsame | ].
      split; [ apply dedupe_NoDup | ].
      intros path. rewrite dedupe_In. cbn. tauto.
    + destruct Hwrite as (_ & Hfiles & _). by rewrite <- Hsame.
Qed.

Section SavingProjects.
Context `{Host} `{Projects.Files}.

(** The id a save gives a project, and the count of identifiers
    drawn after it: the id of the manifest on the disk when there is
    one and it is accepted, a fresh identifier otherwise. *)
Definition identityOn (disk : Projects.Disk) (filePath : jsstring) : jsstring * nat :=
  let fresh := (randomUUID (Projects.uuidsDrawn disk), S (Projects.uuidsDrawn disk)) in
  match Projects.files disk !! filePath with
  | Some raw =>
      match Projects.parseLocalProjectFile raw disk with
      | (Ok (Some project), _) => (Projects.lp_id project, Projects.uuidsDrawn disk)
      | _ => fresh
      end
  | None => fresh
  end.

Lemma saveProjectRegistration_run inputPath machineId gitBranch gitRemoteUrl disk saved disk1 :
  Projects.saveProjectRegistration inputPath machineId gitBranch gitRemoteUrl disk
  = (Ok saved, disk1) ->
  let absolutePath := path_resolve inputPath in
  let filePath := Projects.projectFilePath absolutePath in
  exists createdAt,
    let written :=
      <[filePath := Projects.manifestOf (Projects.reg_id saved) machineId
                      (path_basename absolutePath) gitBranch gitRemoteUrl createdAt]>
        (Projects.files disk) in
    saved = {| Projects.reg_id := Projects.reg_id saved;
               Projects.reg_machineId := machineId;
               Projects.reg_absolutePath := absolutePath;
               Projects.reg_name := path_basename absolutePath;
               Projects.reg_gitBranch := gitBranch;
               Projects.reg_gitRemoteUrl := gitRemoteUrl |} /\
    (Projects.reg_id saved, Projects.uuidsDrawn disk1) = identityOn disk filePath /\
    (Projects.files disk1 = written /\ In filePath (registryIn written) \/
     ~ In filePath (registryIn written) /\
     Projects.files disk1
     = <[Projects.PROJECT_REGISTRY_FILE :=
           JArray (map JString (Projects.dedupe []
                                  (map path_resolve (registryIn written ++ [filePath]))))]>
         written).
Proof.
  intros Hrun absolutePath filePath.
  unfold Projects.saveProjectRegistration in Hrun.
  fold absolutePath in Hrun. fold filePath in Hrun.
  unfold Projects.readLocalProjectFile in Hrun. fold filePath in Hrun.
  unfold identityOn.
  assert (Hfirst : exists existing disk0,
             match Projects.files disk !! filePath with
             | Some raw => Projects.parseLocalProjectFile raw
             | None => mret None
             end disk = (Ok existing, disk0) /\
             SameFiles disk disk0 /\
             match Projects.files disk !! filePath with
             | Some raw =>
                 match Projects.parseLocalProjectFile raw disk with
                 | (Ok (Some project), _) =>
                     (Projects.lp_id project, Projects.uuidsDrawn disk)
                 | _ => (randomUUID (Projects.uuidsDrawn disk),
                         S (Projects.uuidsDrawn disk))
                 end
             | None => (randomUUID (Projects.uuidsDrawn disk),
                        S (Projects.uuidsDrawn disk))
             end
             = match existing with
               | Some project => (Projects.lp_id project, Projects.uuidsDrawn disk)
               | None => (randomUUID (Projects.uuidsDrawn disk),
                          S (Projects.uuidsDrawn disk))
               end).
  { destruct (Projects.files disk !! filePath) as [raw | ]; [ | by exists None, disk ].
    destruct (parseLocalProjectFile_runs raw disk) as (result & disk0 & Hparse & Hsame & _).
    exists result, disk0. rewrite Hparse. by destruct result. }
  destruct Hfirst as (existing & disk0 & Hfirst & (Hfiles & _ & _ & Huuids) & Hidentity).
  rewrite Hidentity. clear Hidentity.
  unfold mbind at 1 in Hrun. unfold Projects.D_bind at 1 in Hrun.
  unfold mbind at 1 in Hrun. unfold Projects.D_bind at 1 in Hrun.
  unfold Projects.readJson at 1 in Hrun.
  rewrite Hfirst in Hrun. clear Hfirst.
  assert (Hensure : forall disk2 out disk3,
             Projects.ensureProjectInRegistry absolutePath disk2 = (Ok out, disk3) ->
             Projects.uuidsDrawn disk3 = Projects.uuidsDrawn disk2 /\
             (Projects.files disk3 = Projects.files disk2 /\
              In filePath (registryIn (Projects.files disk2)) \/
              ~ In filePath (registryIn (Projects.files disk2)) /\
              Projects.files disk3
              = <[Projects.PROJECT_REGISTRY_FILE :=
                    JArray (map JString
                              (Projects.dedupe []
                                 (map path_resolve
                                    (registryIn (Projects.files disk2) ++ [filePath]))))]>
                  (Projects.files disk2))).
  { intros disk2 out disk3. unfold Projects.ensureProjectInRegistry.
    fold filePath. unfold mbind at 1. unfold Projects.D_bind at 1.
    rewrite readProjectRegistry_runs. unfold entriesOf.
    destruct (existsb _ _) eqn:Ein.
    - intros [= _ <-]. apply existsb_In in Ein. split; [ done | by left ].
    - intros Hwrite.
      pose proof (writeProjectRegistry_runs
                    (registryIn (Projects.files disk2) ++ [filePath]) disk2) as Hspec.
      rewrite Hwrite in Hspec. destruct Hspec as (Hspec & Hsame). split; [ done | ].
      right. split; [ | done ]. rewrite <- existsb_In. congruence. }
  unfold mbind, Projects.D_bind, mret, Projects.D_ret, Projects.dateNow, Projects.newUUID,
    Projects.mkdir, Projects.writeJson in Hrun.
  destruct existing as [project | ].
  - cbn [Projects.fsCalls Projects.files Projects.made Projects.uuidsDrawn
         Projects.clockReads] in Hrun.
    destruct (Projects.mkdir_error _ _); [ done | ].
    destruct (Projects.writeFile_error _ _); [ done | ].
    match type of Hrun with
    | context [Projects.ensureProjectInRegistry _ ?d] =>
        destruct (Projects.ensureProjectInRegistry absolutePath d) as [[out | e] disk3] eqn:Ereg;
        [ apply Hensure in Ereg | done ]
    end.
    injection Hrun as <- <-.
    cbn [Projects.files Projects.uuidsDrawn] in Ereg.
    destruct Ereg as (Hdrawn & Hregistry).
    exists (Projects.lp_createdAt project). cbn [Projects.reg_id].
    rewrite Hfiles in Hregistry.
    split; [ done | ]. split; [ congruence | done ].
  - cbn [Projects.fsCalls Projects.files Projects.made Projects.uuidsDrawn
         Projects.clockReads] in Hrun.
    destruct (Projects.mkdir_error _ _); [ done | ].
    destruct (Projects.writeFile_error _ _); [ done | ].
    match type of Hrun with
    | context [Projects.ensureProjectInRegistry _ ?d] =>
        destruct (Projects.ensureProjectInRegistry absolutePath d) as [[out | e] disk3] eqn:Ereg;
        [ apply Hensure in Ereg | done ]
    end.
    injection Hrun as <- <-.
    cbn [Projects.files Projects.uuidsDrawn] in Ereg.
    destruct Ereg as (Hdrawn & Hregistry).
    exists (ofZ (Date_now (Projects.clockReads disk0))). cbn [Projects.reg_id].
    rewrite Hfiles in Hregistry.
    split; [ done | ]. split; [ congruence | done ].
Qed.

Lemma saveProjectRegistration_throws inputPath machineId gitBranch gitRemoteUrl disk e disk1 :
  Projects.saveProjectRegistration inputPath machineId gitBranch gitRemoteUrl disk
  = (Throw e, disk1) ->
  writeFailed e.
Proof.
  unfold Projects.saveProjectRegistration, Projects.readLocalProjectFile.
  set (filePath := Projects.projectFilePath (path_resolve inputPath)).
  unfold mbind at 1. unfold Projects.D_bind at 1.
  unfold mbind at 1. unfold Projects.D_bind at 1.
  unfold Projects.readJson at 1.
  assert (Hfirst : exists existing disk0,
             match Projects.files disk !! filePath with
             | Some raw => Projects.parseLocalProjectFile raw
             | None => mret None
             end disk = (Ok existing, disk0)).
  { destruct (Projects.files disk !! filePath) as [raw | ]; [ | by exists None, disk ].
    destruct (parseLocalProjectFile_runs raw disk) as (result & disk0 & Hparse & _).
    by exists result, disk0. }
  destruct Hfirst as (existing & disk0 & ->).
  assert (Hensure : forall disk2 disk3,
             Projects.ensureProjectInRegistry (path_resolve inputPath) disk2
             = (Throw e, disk3) -> writeFailed e).
  { intros disk2 disk3. unfold Projects.ensureProjectInRegistry.
    unfold mbind at 1. unfold Projects.D_bind at 1.
    rewrite readProjectRegistry_runs.
    destruct (existsb _ _); [ done | ].
    intros Hwrite.
    match type of Hwrite with
    | Projects.writeProjectRegistry ?entries _ = _ =>
        pose proof (writeProjectRegistry_runs entries disk2) as Hspec
    end.
    rewrite Hwrite in Hspec. apply Hspec. }
  unfold mbind, Projects.D_bind, mret, Projects.D_ret, Projects.dateNow, Projects.newUUID,
    Projects.mkdir, Projects.writeJson.
  destruct existing as [project | ];
    cbn [Projects.fsCalls Projects.files Projects.made Projects.uuidsDrawn
         Projects.clockReads];
    (destruct (Projects.mkdir_error _ _) eqn:Emk;
     [ intros [= <- _]; eexists _, _; left; exact Emk | ]);
    (destruct (Projects.writeFile_error _ _) eqn:Ewr;
     [ intros [= <- _]; eexists _, _; right; exact Ewr | ]);
    match goal with
    | |- context [Projects.ensureProjectInRegistry _ ?d] =>
        destruct (Projects.ensureProjectInRegistry (path_resolve inputPath) d)
          as [[out | e'] disk3] eqn:Ereg;
        [ done | intros [= <- _]; by apply Hensure in Ereg ]
    end.
Qed.

Lemma registryIn_insert_other fs file value :
  file <> Projects.PROJECT_REGISTRY_FILE ->
  registryIn (<[file := value]> fs) = registryIn fs.
Proof.
  intros Hne. unfold registryIn. by rewrite lookup_insert_ne.
Qed.

Lemma omap_isString_strings entries :
  omap (fun entry => Projects.isString (Some entry)) (map JString entries)
  = List.filter (fun s => nonEmpty (trim s)) entries.
Proof.
  induction entries as [ | s rest IH]; [ done | ].
  cbn [map List.filter]. rewrite <- IH.
  change (omap ?f (?x :: ?l)) with (match f x with Some y => y :: omap f l | None => omap f l end).
  cbn beta. unfold Projects.isString at 1. by destruct (nonEmpty (trim s)).
Qed.

Lemma registryIn_written fs entries :
  registryIn (<[Projects.PROJECT_REGISTRY_FILE := JArray (map JString entries)]> fs)
  = map path_resolve (List.filter (fun s => nonEmpty (trim s)) entries).
Proof.
  unfold registryIn. by rewrite lookup_insert_eq, omap_isString_strings.
Qed.

(** After a save, the registry lists the manifest. *)
Lemma saved_is_registered inputPath machineId gitBranch gitRemoteUrl disk saved disk1 :
  let filePath := Projects.projectFilePath (path_resolve inputPath) in
  Projects.saveProjectRegistration inputPath machineId gitBranch gitRemoteUrl disk
  = (Ok saved, disk1) ->
  path_resolve filePath = filePath ->
  nonEmpty (trim filePath) = true ->
  In filePath (entriesOf disk1).
Proof.
  intros filePath Hrun Hresolved Hnonblank.
  apply saveProjectRegistration_run in Hrun as (createdAt & _ & _ & Hregistry).
  cbv zeta in Hregistry. fold filePath in Hregistry. unfold entriesOf.
  destruct Hregistry as [[-> Hin] | [_ ->]]; [ done | ].
  rewrite registryIn_written.
  rewrite <- Hresolved at 1. apply in_map.
  apply filter_In. split; [ | done ].
  apply dedupe_In. split; [ | by intros [] ].
  rewrite map_app. apply in_or_app. right. left. exact Hresolved.
Qed.

End SavingProjects.

(** ** A disk for the examples *)

Fixpoint upToLastSlash (s : jsstring) : option jsstring :=
  match s with
  | [] => None
  | c :: rest =>
      match upToLastSlash rest with
      | Some dir => Some (c :: dir)
      | None => if (c =? 47)%N then Some [] else None
      end
  end.

#[local] Instance exampleFiles : Projects.Files := {|
  Projects.configDir := lit "/home/u/.durango";
  Projects.path_dirname := fun p => default (lit ".") (upToLastSlash p);
  Projects.mkdir_error := fun _ _ => None;
  Projects.writeFile_error := fun _ _ => None;
  Projects.writeFile_leaves := fun _ _ before _ => before
|}.

Definition emptyDisk : Projects.Disk :=
  {| Projects.files := ∅; Projects.made := []; Projects.fsCalls := 0%nat;
     Projects.uuidsDrawn := 0%nat; Projects.clockReads := 0%nat |}.

Definition resultOf {A} (run : Result A * Projects.Disk) : option A :=
  match run with
  | (Ok a, _) => Some a
  | (Throw _, _) => None
  end.

(** The first test of [projects.test.ts]: the manifest holds the id
    that was returned, the registry lists the manifest. *)
Example save_writes_manifest_and_registry :
  let run := Projects.saveProjectRegistration (lit "/work/app") (lit "machine-a")
               (Some (lit "main")) (Some (lit "git@github.com:example/repo.git")) emptyDisk in
  Projects.reg_id <$> resultOf run = Some (lit "uuid-0") /\
  (Projects.files (snd run) !! lit "/work/app/.durango/project.json"
   ≫= fun manifest => prop "project" manifest ≫= prop "id") = Some (JString (lit "uuid-0")) /\
  Projects.files (snd run) !! lit "/home/u/.durango/projects.json"
  = Some (JArray [JString (lit "/work/app/.durango/project.json")]) /\
  Projects.made (snd run) = [lit "/work/app/.durango"; lit "/home/u/.durango"].
Proof. vm_compute. by repeat split. Qed.

(** The second test: saved twice, a project keeps its id and takes the
    new branch. *)
Example save_twice_keeps_id :
  let first := Projects.saveProjectRegistration (lit "/work/app") (lit "machine-a")
                 (Some (lit "main")) None emptyDisk in
  let second := Projects.saveProjectRegistration (lit "/work/app") (lit "machine-a")
                  (Some (lit "feature/new-work")) None (snd first) in
  Projects.reg_id <$> resultOf second = Projects.reg_id <$> resultOf first /\
  Projects.reg_gitBranch <$> resultOf second = Some (Some (lit "feature/new-work")).
Proof. vm_compute. by split. Qed.

(** The root of the file system has an empty base name: its manifest
    is written with an empty name, is not accepted when it is read
    again, and the second save draws a new id. *)
Example save_root_twice_changes_id :
  let first := Projects.saveProjectRegistration (lit "/") (lit "machine-a") None None
                 emptyDisk in
  let second := Projects.saveProjectRegistration (lit "/") (lit "machine-a") None None
                  (snd first) in
  Projects.reg_id <$> resultOf first = Some (lit "uuid-0") /\
  Projects.reg_id <$> resultOf second = Some (lit "uuid-1").
Proof. vm_compute. by split. Qed.

(** The third test: a registry that lists a missing manifest is
    compacted, and the project is loaded under the machine id of the
    caller. *)
Example load_compacts_stale_registry :
  let saved := Projects.saveProjectRegistration (lit "/work/app") (lit "machine-a") None None
                 emptyDisk in
  let stale :=
    {| Projects.files :=
         <[lit "/home/u/.durango/projects.json" :=
             JArray [JString (lit "/work/app/.durango/project.json");
                     JString (lit "/home/u/.durango/missing/project.json")]]>
           (Projects.files (snd saved));
       Projects.made := Projects.made (snd saved);
       Projects.fsCalls := Projects.fsCalls (snd saved);
       Projects.uuidsDrawn := Projects.uuidsDrawn (snd saved);
       Projects.clockReads := Projects.clockReads (snd saved) |} in
  let loaded := Projects.loadProjectsForMachine (lit "machine-b") stale in
  (map (fun p => (Projects.reg_id p, Projects.reg_machineId p, Projects.reg_absolutePath p))
     <$> resultOf loaded)
  = Some [(lit "uuid-0", lit "machine-b", lit "/work/app")] /\
  Projects.files (snd loaded) !! lit "/home/u/.durango/projects.json"
  = Some (JArray [JString (lit "/work/app/.durango/project.json")]).
Proof. vm_compute. by split. Qed.

(** X17.  A project that was saved and is saved again keeps its id,
    and no new identifier is drawn, when the id, the machine id of the
    first save and the base name of the project path are not blank;
    when one of them is blank the manifest of the first save is not
    accepted and the second save gives the project a fresh id.  The
    second save returns the branch and the remote it was given, and
    throws only an error of [mkdir] or [writeFile]. *)
Theorem saveProjectRegistration_keeps_identity `{Host} `{Projects.Files}
    (inputPath machineId machineId' : jsstring)
    (gitBranch gitRemoteUrl gitBranch' gitRemoteUrl' : option jsstring)
    (disk disk1 : Projects.Disk) (saved : Projects.ProjectRegistration) :
  Projects.saveProjectRegistration inputPath machineId gitBranch gitRemoteUrl disk
  = (Ok saved, disk1) ->
  Projects.projectFilePath (path_resolve inputPath) <> Projects.PROJECT_REGISTRY_FILE ->
  match Projects.saveProjectRegistration inputPath machineId' gitBranch' gitRemoteUrl' disk1 with
  | (Ok again, disk2) =>
      Projects.reg_gitBranch again = gitBranch' /\
      Projects.reg_gitRemoteUrl again = gitRemoteUrl' /\
      if nonEmpty (trim (Projects.reg_id saved)) && nonEmpty (trim machineId)
         && nonEmpty (trim (path_basename (path_resolve inputPath)))
      then Projects.reg_id again = Projects.reg_id saved /\
           Projects.uuidsDrawn disk2 = Projects.uuidsDrawn disk1
      else Projects.reg_id again = randomUUID (Projects.uuidsDrawn disk1)
  | (Throw e, _) => writeFailed e
  end.
Proof.
  intros Hfirst Hapart.
  apply saveProjectRegistration_run in Hfirst as (createdAt & _ & _ & Hfiles).
  cbv zeta in Hfiles.
  set (filePath := Projects.projectFilePath (path_resolve inputPath)) in *.
  assert (Hmanifest :
            Projects.files disk1 !! filePath
            = Some (Projects.manifestOf (Projects.reg_id saved) machineId
                      (path_basename (path_resolve inputPath)) gitBranch gitRemoteUrl
                      createdAt)).
  { destruct Hfiles as [[-> _] | [_ ->]].
    - by rewrite lookup_insert_eq.
    - rewrite lookup_insert_ne by done. by rewrite lookup_insert_eq. }
  destruct (Projects.saveProjectRegistration inputPath machineId' gitBranch' gitRemoteUrl' disk1)
    as [[again | e] disk2] eqn:Hsecond.
  2: { by apply saveProjectRegistration_throws in Hsecond. }
  apply saveProjectRegistration_run in Hsecond as (createdAt' & Hagain & Hidentity & _).
  fold filePath in Hidentity.
  split; [ by rewrite Hagain | ]. split; [ by rewrite Hagain | ].
  unfold identityOn in Hidentity. rewrite Hmanifest in Hidentity.
  destruct (parse_manifestOf (Projects.reg_id saved) machineId
              (path_basename (path_resolve inputPath)) gitBranch gitRemoteUrl createdAt disk1)
    as (result & disk' & Hparse & _ & Hresult).
  rewrite Hparse in Hidentity.
  destruct (_ && _ && _).
  - destruct Hresult as (project & -> & Hid & _). rewrite Hid in Hidentity.
    by injection Hidentity as -> ->.
  - subst result. by injection Hidentity as -> _.
Qed.

Lemma saveProjectRegistration_keeps_identity_witness :
  let first := Projects.saveProjectRegistration (lit "/work/app") (lit "machine-a")
                 (Some (lit "main")) None emptyDisk in
  match Projects.saveProjectRegistration (lit "/work/app") (lit "machine-b")
          (Some (lit "feature/new-work")) None (snd first) with
  | (Ok again, disk2) =>
      Projects.reg_gitBranch again = Some (lit "feature/new-work") /\
      Projects.reg_gitRemoteUrl again = None /\
      Projects.reg_id again = lit "uuid-0" /\
      Projects.uuidsDrawn disk2 = 1%nat
  | (Throw e, _) => writeFailed e
  end.
Proof.
  intros first.
  refine (saveProjectRegistration_keeps_identity
            (lit "/work/app") (lit "machine-a") (lit "machine-b")
            (Some (lit "main")) None (Some (lit "feature/new-work")) None
            emptyDisk (snd first)
            {| Projects.reg_id := lit "uuid-0"; Projects.reg_machineId := lit "machine-a";
               Projects.reg_absolutePath := lit "/work/app"; Projects.reg_name := lit "app";
               Projects.reg_gitBranch := Some (lit "main");
               Projects.reg_gitRemoteUrl := None |} _ _).
  - vm_compute. reflexivity.
  - vm_compute. discriminate.
Defined.

(** X18.  A save that returns has written the manifest of the project
    with the id it returns, the machine id, the base name of the
    resolved path and the branch and remote it was given, and
    [readProjectRegistry] lists the manifest afterwards; the
    registration returned has these values and the resolved path.
    Here the path of the manifest is one that [path.resolve] leaves
    alone, is not blank, and is not the path of the registry. *)
Theorem saveProjectRegistration_writes `{Host} `{Projects.Files}
    (inputPath machineId : jsstring) (gitBranch gitRemoteUrl : option jsstring)
    (disk disk1 : Projects.Disk) (saved : Projects.ProjectRegistration) :
  let absolutePath := path_resolve inputPath in
  let filePath := Projects.projectFilePath absolutePath in
  Projects.saveProjectRegistration inputPath machineId gitBranch gitRemoteUrl disk
  = (Ok saved, disk1) ->
  path_resolve filePath = filePath ->
  nonEmpty (trim filePath) = true ->
  filePath <> Projects.PROJECT_REGISTRY_FILE ->
  saved = {| Projects.reg_id := Projects.reg_id saved;
             Projects.reg_machineId := machineId;
             Projects.reg_absolutePath := absolutePath;
             Projects.reg_name := path_basename absolutePath;
             Projects.reg_gitBranch := gitBranch;
             Projects.reg_gitRemoteUrl := gitRemoteUrl |} /\
  (exists createdAt,
     Projects.files disk1 !! filePath
     = Some (Projects.manifestOf (Projects.reg_id saved) machineId
               (path_basename absolutePath) gitBranch gitRemoteUrl createdAt)) /\
  (exists entries,
     Projects.readProjectRegistry disk1 = (Ok entries, disk1) /\ In filePath entries) /\
  (forall file, file <> filePath -> file <> Projects.PROJECT_REGISTRY_FILE ->
                Projects.files disk1 !! file = Projects.files disk !! file).
Proof.
  intros absolutePath filePath Hrun Hresolved Hnonblank Hapart.
  pose proof (saved_is_registered _ _ _ _ _ _ _ Hrun Hresolved Hnonblank) as Hlisted.
  apply saveProjectRegistration_run in Hrun as (createdAt & Hsaved & _ & Hfiles).
  cbv zeta in Hfiles. fold absolutePath in Hsaved, Hfiles. fold filePath in Hfiles.
  split; [ exact Hsaved | ].
  split; [ | split ].
  - exists createdAt. destruct Hfiles as [[-> _] | [_ ->]].
    + by rewrite lookup_insert_eq.
    + rewrite lookup_insert_ne by done. by rewrite lookup_insert_eq.
  - exists (entriesOf disk1). split; [ apply readProjectRegistry_runs | exact Hlisted ].
  - intros file Hmanifest Hregistry. destruct Hfiles as [[-> _] | [_ ->]].
    + by rewrite lookup_insert_ne.
    + by rewrite !lookup_insert_ne.
Qed.

Lemma saveProjectRegistration_writes_witness :
  let run := Projects.saveProjectRegistration (lit "/work/app") (lit "machine-a")
               (Some (lit "main")) None emptyDisk in
  exists createdAt,
    Projects.files (snd run) !! lit "/work/app/.durango/project.json"
    = Some (Projects.manifestOf (lit "uuid-0") (lit "machine-a") (lit "app")
              (Some (lit "main")) None createdAt).
Proof.
  intros run.
  refine (proj1 (proj2 (saveProjectRegistration_writes
            (lit "/work/app") (lit "machine-a") (Some (lit "main")) None
            emptyDisk (snd run)
            {| Projects.reg_id := lit "uuid-0"; Projects.reg_machineId := lit "machine-a";
               Projects.reg_absolutePath := lit "/work/app"; Projects.reg_name := lit "app";
               Projects.reg_gitBranch := Some (lit "main");
               Projects.reg_gitRemoteUrl := None |} _ _ _ _))).
  - vm_compute. reflexivity.
  - reflexivity.
  - vm_compute. reflexivity.
  - vm_compute. discriminate.
Defined.

(** X19.  Saving a project again leaves the registry file as it is:
    the manifest is listed after the first save, so the second save
    rewrites the manifest only.  The path of the manifest is as
    in X18. *)
Theorem saveProjectRegistration_registers_once `{Host} `{Projects.Files}
    (inputPath machineId machineId' : jsstring)
    (gitBranch gitRemoteUrl gitBranch' gitRemoteUrl' : option jsstring)
    (disk disk1 : Projects.Disk) (saved : Projects.ProjectRegistration) :
  let filePath := Projects.projectFilePath (path_resolve inputPath) in
  Projects.saveProjectRegistration inputPath machineId gitBranch gitRemoteUrl disk
  = (Ok saved, disk1) ->
  path_resolve filePath = filePath ->
  nonEmpty (trim filePath) = true ->
  filePath <> Projects.PROJECT_REGISTRY_FILE ->
  match Projects.saveProjectRegistration inputPath machineId' gitBranch' gitRemoteUrl' disk1 with
  | (Ok _, disk2) =>
      forall file, file <> filePath -> Projects.files disk2 !! file = Projects.files disk1 !! file
  | (Throw e, _) => writeFailed e
  end.
Proof.
  intros filePath Hrun Hresolved Hnonblank Hapart.
  pose proof (saved_is_registered _ _ _ _ _ _ _ Hrun Hresolved Hnonblank) as Hlisted.
  fold filePath in Hlisted.
  destruct (Projects.saveProjectRegistration inputPath machineId' gitBranch' gitRemoteUrl' disk1)
    as [[again | e] disk2] eqn:Hsecond.
  2: { by apply saveProjectRegistration_throws in Hsecond. }
  apply saveProjectRegistration_run in Hsecond as (createdAt' & _ & _ & Hfiles).
  cbv zeta in Hfiles. fold filePath in Hfiles.
  rewrite registryIn_insert_other in Hfiles by done.
  destruct Hfiles as [[-> _] | [Hnot _]]; [ | done ].
  intros file Hfile. by rewrite lookup_insert_ne.
Qed.

Lemma saveProjectRegistration_registers_once_witness :
  let first := Projects.saveProjectRegistration (lit "/work/app") (lit "machine-a")
                 (Some (lit "main")) None emptyDisk in
  match Projects.saveProjectRegistration (lit "/work/app") (lit "machine-a")
          (Some (lit "feature/new-work")) None (snd first) with
  | (Ok _, disk2) =>
      forall file, file <> lit "/work/app/.durango/project.json" ->
                   Projects.files disk2 !! file = Projects.files (snd first) !! file
  | (Throw e, _) => writeFailed e
  end.
Proof.
  intros first.
  refine (saveProjectRegistration_registers_once
            (lit "/work/app") (lit "machine-a") (lit "machine-a")
            (Some (lit "main")) None (Some (lit "feature/new-work")) None
            emptyDisk (snd first)
            {| Projects.reg_id := lit "uuid-0"; Projects.reg_machineId := lit "machine-a";
               Projects.reg_absolutePath := lit "/work/app"; Projects.reg_name := lit "app";
               Projects.reg_gitBranch := Some (lit "main");
               Projects.reg_gitRemoteUrl := None |} _ _ _ _).
  - vm_compute. reflexivity.
  - reflexivity.
  - vm_compute. reflexivity.
  - vm_compute. discriminate.
Defined.
